(** * PromptPM: a shallow embedding of the core and its verified properties

    The development follows the layout of the Python package:
    [promptpm.core.semver], [schema_and_validator], [promptpm.core.registry],
    [promptpm.core.resolver] and [promptpm.core.test_runner].

    Conventions of the embedding.
    - A Python [str] is a Rocq [string]; each character is one code point
      below 256.  Comparison of strings ([<] on [str]) is code-point
      lexicographic order, i.e. [String.compare].
    - A Python [int] is a [Z].
    - A function that can raise returns an [outcome]: [Return v] or
      [Raise e], where [e] records the exception class and its message.
    - [{value!r}] inside an f-string is kept symbolic ([Repr]): no claim
      depends on the exact quoting rules of [repr]. *)

From Stdlib Require Import ZArith Lia Ascii.
From stdpp Require Import base list strings gmap sorting.

Local Open Scope Z_scope.
Set Warnings "-register-all,-clear-no-such-hyp".
#[local] Arguments String.append : simpl nomatch.

(** ** Python values (the documents produced by the YAML, TOML and JSON
    loaders).  Floating-point scalars are outside the model; a [dict] is an
    insertion-ordered association list with [str] keys. *)

Inductive pyval : Type :=
| PNone
| PBool (b : bool)
| PInt (n : Z)
| PStr (s : string)
| PList (items : list pyval)
| PDict (entries : list (string * pyval)).

(** ** Exceptions and outcomes *)

Inductive piece : Type :=
| Lit (s : string)
| Repr (v : pyval).

Definition message := list piece.

Inductive exn : Type :=
| ValidationError (msg : message)
| DependencyError (msg : message)
| SemVerError (msg : message)
| TypeError (msg : message)
| AttributeError (msg : message)
| KeyError (msg : message)
| OSError (msg : message)
| UnicodeDecodeError (msg : message).

Inductive outcome (A : Type) : Type :=
| Return (a : A)
| Raise (e : exn).
Arguments Return {A} a.
Arguments Raise {A} e.

Global Instance outcome_bind : MBind outcome := λ A B k m,
  match m with
  | Return a => k a
  | Raise e => Raise e
  end.
Global Instance outcome_ret : MRet outcome := λ A a, Return a.

Definition is_return {A} (m : outcome A) : bool :=
  match m with Return _ => true | Raise _ => false end.

(** ** Strings the way Python sees them *)

Module Str.

Definition code (c : ascii) : N := Ascii.N_of_ascii c.

Definition in_range (lo hi c : ascii) : bool :=
  ((code lo <=? code c) && (code c <=? code hi))%N.

Definition is_ascii_digit (c : ascii) : bool := in_range "0" "9" c.
Definition is_upper (c : ascii) : bool := in_range "A" "Z" c.
Definition is_lower (c : ascii) : bool := in_range "a" "z" c.
Definition is_alnum (c : ascii) : bool :=
  is_ascii_digit c || is_upper c || is_lower c.

(** [str.isspace] on code points below 256: TAB..CR, FS..US, space, NEL
    and the no-break space. *)
Definition is_space (c : ascii) : bool :=
  let n := code c in
  ((9 <=? n) && (n <=? 13) || (28 <=? n) && (n <=? 32)
   || (n =? 133) || (n =? 160))%N.

Fixpoint forallb (p : ascii → bool) (s : string) : bool :=
  match s with
  | EmptyString => true
  | String c s' => p c && forallb p s'
  end.

Fixpoint existsb (p : ascii → bool) (s : string) : bool :=
  match s with
  | EmptyString => false
  | String c s' => p c || existsb p s'
  end.

Definition lt (a b : string) : bool := String.ltb a b.
Definition gt (a b : string) : bool := String.ltb b a.

Fixpoint drop (n : nat) (s : string) : string :=
  match n, s with
  | O, _ => s
  | S n', String _ s' => drop n' s'
  | S _, EmptyString => EmptyString
  end.

Definition startswith (s p : string) : bool := String.prefix p s.

Fixpoint lstrip (s : string) : string :=
  match s with
  | String c s' => if is_space c then lstrip s' else s
  | EmptyString => EmptyString
  end.

Fixpoint rstrip (s : string) : string :=
  match s with
  | EmptyString => EmptyString
  | String c s' =>
      match rstrip s' with
      | EmptyString => if is_space c then EmptyString else String c EmptyString
      | r => String c r
      end
  end.

(** [s.strip()] *)
Definition strip (s : string) : string := rstrip (lstrip s).

(** [s.split(sep)] for a one-character separator. *)
Fixpoint split_char (sep : ascii) (s : string) : list string :=
  match s with
  | EmptyString => [EmptyString]
  | String c s' =>
      if Ascii.eqb c sep then EmptyString :: split_char sep s'
      else match split_char sep s' with
           | w :: ws => String c w :: ws
           | [] => [String c EmptyString]
           end
  end.

(** The text before the first occurrence of [sep], and the text after it
    when there is one. *)
Fixpoint cut (sep : ascii) (s : string) : string * option string :=
  match s with
  | EmptyString => (EmptyString, None)
  | String c s' =>
      if Ascii.eqb c sep then (EmptyString, Some s')
      else let '(a, b) := cut sep s' in (String c a, b)
  end.

(** [s.split()]: maximal runs of non-space characters. *)
Fixpoint split_ws_aux (cur : option string) (s : string) : list string :=
  match s with
  | EmptyString => match cur with Some w => [w] | None => [] end
  | String c s' =>
      if is_space c then
        match cur with
        | Some w => w :: split_ws_aux None s'
        | None => split_ws_aux None s'
        end
      else
        split_ws_aux
          (Some (match cur with Some w => w +:+ String c EmptyString
                 | None => String c EmptyString end)) s'
  end.
Definition split_ws (s : string) : list string := split_ws_aux None s.

(** [s.replace(old, new)]: non-overlapping occurrences of [old], leftmost
    first.  [skip] counts the characters of a matched occurrence that are
    still to be dropped.  ([old] is never empty where the code calls it.) *)
Fixpoint replace_aux (old new : string) (skip : nat) (s : string) : string :=
  match s with
  | EmptyString => EmptyString
  | String c s' =>
      match skip with
      | S k => replace_aux old new k s'
      | O =>
          if String.prefix old s
          then new +:+ replace_aux old new (String.length old - 1) s'
          else String c (replace_aux old new O s')
      end
  end.
Definition replace (old new s : string) : string :=
  match old with
  | EmptyString => s
  | _ => replace_aux old new O s
  end.

(** [old in s] *)
Fixpoint contains (s sub : string) : bool :=
  String.prefix sub s ||
  match s with
  | EmptyString => false
  | String _ s' => contains s' sub
  end.

(** [sep.join(parts)] *)
Definition join (sep : string) (parts : list string) : string :=
  String.concat sep parts.

(** [int(s)] for a string of ASCII digits. *)
Definition digit_value (c : ascii) : Z := Z.of_N (code c) - 48.
Fixpoint int_acc (acc : Z) (s : string) : Z :=
  match s with
  | EmptyString => acc
  | String c s' => int_acc (10 * acc + digit_value c) s'
  end.
Definition int (s : string) : Z := int_acc 0 s.

(** [s.isdigit()] on the identifier alphabet [[0-9A-Za-z-]]. *)
Definition isdigit (s : string) : bool :=
  match s with
  | EmptyString => false
  | _ => forallb is_ascii_digit s
  end.

End Str.

(** [sorted(xs)] and [xs.sort()]: a stable sort that only asks [<]. *)
Section Sorted.
Context {A : Type} (lt : A → A → bool).

Fixpoint sort_insert (x : A) (l : list A) : list A :=
  match l with
  | [] => [x]
  | y :: l' => if lt y x then y :: sort_insert x l' else x :: l
  end.

Definition py_sorted (l : list A) : list A := foldr sort_insert [] l.
End Sorted.

(** * promptpm/core/semver.py *)

Module Semver.

(** [SemanticVersion]: the frozen dataclass.  [mk_version] below is its
    constructor together with [__post_init__]. *)
Record SemanticVersion : Type := {
  major : Z;
  minor : Z;
  patch : Z;
  prerelease : list string;
  build : list string;
}.

Inductive ComparatorOperator : Type := OpLt | OpLe | OpGt | OpGe | OpEq.

Record VersionComparator : Type := {
  operator : ComparatorOperator;
  version : SemanticVersion;
}.

Record VersionRange : Type := {
  alternatives : list (list VersionComparator);
}.

(** [_IDENTIFIER_PATTERN], used with [fullmatch]: one or more characters
    of 0-9, A-Z, a-z and the hyphen. *)
Definition is_identifier_char (c : ascii) : bool :=
  Str.is_alnum c || Ascii.eqb c "-".

Definition identifier_fullmatch (s : string) : bool :=
  match s with
  | EmptyString => false
  | _ => Str.forallb is_identifier_char s
  end.

Definition _validate_numeric_field (value : Z) (field_name : string)
  : outcome unit :=
  if value <? 0
  then Raise (SemVerError [Lit (field_name +:+ " must be a non-negative integer")])
  else Return tt.

Definition _validate_identifier (field_name : string)
    (check_numeric_leading_zero : bool) (identifier : string) : outcome unit :=
  match identifier with
  | EmptyString =>
      Raise (SemVerError
               [Lit (field_name +:+ " identifiers must be non-empty strings")])
  | _ =>
      if negb (identifier_fullmatch identifier) then
        Raise (SemVerError [Lit ("Invalid " +:+ field_name +:+ " identifier: ");
                            Repr (PStr identifier)])
      else if check_numeric_leading_zero && Str.isdigit identifier
              && (1 <? Z.of_nat (String.length identifier))
              && Str.startswith identifier "0" then
        Raise (SemVerError
                 [Lit ("Invalid semantic version: numeric " +:+ field_name
                       +:+ " identifier has leading zero: ");
                  Repr (PStr identifier)])
      else Return tt
  end.

Fixpoint _validate_identifiers (identifiers : list string)
    (field_name : string) (check_numeric_leading_zero : bool) : outcome unit :=
  match identifiers with
  | [] => Return tt
  | identifier :: rest =>
      _validate_identifier field_name check_numeric_leading_zero identifier;;
      _validate_identifiers rest field_name check_numeric_leading_zero
  end.

Definition __post_init__ (self : SemanticVersion) : outcome unit :=
  _validate_numeric_field (major self) "major";;
  _validate_numeric_field (minor self) "minor";;
  _validate_numeric_field (patch self) "patch";;
  _validate_identifiers (prerelease self) "prerelease" true;;
  _validate_identifiers (build self) "build" false.

(** [SemanticVersion(major=…, minor=…, patch=…, prerelease=…, build=…)] *)
Definition mk_version (ma mi pa : Z) (pre bu : list string)
  : outcome SemanticVersion :=
  let v := {| major := ma; minor := mi; patch := pa;
              prerelease := pre; build := bu |} in
  __post_init__ v;; Return v.

(** ** [_SEMVER_PATTERN], used with [fullmatch]

    The pattern reads NUM . NUM . NUM, then optionally - IDS, then
    optionally + IDS, between the anchors, where NUM is a single 0 or a
    digit 1-9 followed by any digits, IDS is ID (. ID)... and ID is one or
    more characters of 0-9, A-Z, a-z and the hyphen.  The first three
    groups are the NUMs, groups 4 and 5 the two IDS.

    No character class of the pattern contains the plus sign, so a match
    has its build group after the first plus; the core has only digits and
    dots, so the prerelease group starts after the first hyphen before
    that.  The decomposition is therefore unique and the matcher below
    returns the five groups. *)

(** NUM: a single 0, or 1-9 followed by digits.  The pattern writes the
    digits as [\d], without [re.ASCII]: every decimal digit of Unicode.
    Among the code points below 256, which are the characters of this
    embedding, these are the ASCII digits only; a text with a decimal
    digit of another script is outside the embedding. *)
Definition numeric_core_fullmatch (s : string) : bool :=
  match s with
  | String c EmptyString => Str.is_ascii_digit c
  | String c rest =>
      Str.in_range "1" "9" c && Str.forallb Str.is_ascii_digit rest
  | EmptyString => false
  end.

(** IDS: identifiers separated by dots. *)
Definition dotted_identifiers_fullmatch (s : string) : bool :=
  forallb identifier_fullmatch (Str.split_char "." s).

Definition semver_fullmatch (s : string)
  : option (string * string * string * option string * option string) :=
  let '(before_plus, group5) := Str.cut "+" s in
  let '(core, group4) := Str.cut "-" before_plus in
  match Str.split_char "." core with
  | [g1; g2; g3] =>
      if numeric_core_fullmatch g1 && numeric_core_fullmatch g2
         && numeric_core_fullmatch g3
         && from_option dotted_identifiers_fullmatch true group4
         && from_option dotted_identifiers_fullmatch true group5
      then Some (g1, g2, g3, group4, group5)
      else None
  | _ => None
  end.

(** [SemanticVersion.parse] *)
Definition parse (value : string) : outcome SemanticVersion :=
  let normalized := Str.strip value in
  match semver_fullmatch normalized with
  | None => Raise (SemVerError [Lit "Invalid semantic version: ";
                                Repr (PStr value)])
  | Some (g1, g2, g3, g4, g5) =>
      mk_version (Str.int g1) (Str.int g2) (Str.int g3)
        (from_option (Str.split_char ".") [] g4)
        (from_option (Str.split_char ".") [] g5)
  end.

(** [_compare_prerelease]: the loop over [zip(left, right)].  [None] means
    the loop ran to its end without returning. *)
Fixpoint compare_zip (left right : list string) : option Z :=
  match left, right with
  | left_identifier :: left', right_identifier :: right' =>
      if String.eqb left_identifier right_identifier then
        compare_zip left' right'
      else
        let left_is_numeric := Str.isdigit left_identifier in
        let right_is_numeric := Str.isdigit right_identifier in
        if left_is_numeric && right_is_numeric then
          let left_value := Str.int left_identifier in
          let right_value := Str.int right_identifier in
          if left_value <? right_value then Some (-1)
          else if left_value >? right_value then Some 1
          else compare_zip left' right'
        else if left_is_numeric && negb right_is_numeric then Some (-1)
        else if negb left_is_numeric && right_is_numeric then Some 1
        else if Str.lt left_identifier right_identifier then Some (-1)
        else if Str.gt left_identifier right_identifier then Some 1
        else compare_zip left' right'
  | _, _ => None
  end.

Definition _compare_prerelease (left right : list string) : Z :=
  match left, right with
  | [], [] => 0
  | [], _ => 1
  | _, [] => -1
  | _, _ =>
      match compare_zip left right with
      | Some r => r
      | None =>
          if (length left <? length right)%nat then -1
          else if (length right <? length left)%nat then 1
          else 0
      end
  end.

(** Python's order on the tuples [(major, minor, patch)]. *)
Definition core_lt (a b : Z * Z * Z) : bool :=
  let '(a1, a2, a3) := a in
  let '(b1, b2, b3) := b in
  (a1 <? b1) || ((a1 =? b1) && ((a2 <? b2) || ((a2 =? b2) && (a3 <? b3)))).

(** [SemanticVersion.compare_to] *)
Definition compare_to (self other : SemanticVersion) : Z :=
  let core_self := (major self, minor self, patch self) in
  let core_other := (major other, minor other, patch other) in
  if core_lt core_self core_other then -1
  else if core_lt core_other core_self then 1
  else _compare_prerelease (prerelease self) (prerelease other).

(** [VersionComparator.matches] *)
Definition comparator_matches (self : VersionComparator)
    (candidate : SemanticVersion) : bool :=
  let cmp_value := compare_to candidate (version self) in
  match operator self with
  | OpLt => cmp_value <? 0
  | OpLe => cmp_value <=? 0
  | OpGt => cmp_value >? 0
  | OpGe => cmp_value >=? 0
  | OpEq => cmp_value =? 0
  end.

Definition parse_version (value : string) : outcome SemanticVersion :=
  parse value.

(** An argument of type [SemanticVersion | str]. *)
Inductive version_like : Type :=
| AsVersion (v : SemanticVersion)
| AsStr (s : string).

Definition _coerce_version (value : version_like) : outcome SemanticVersion :=
  match value with
  | AsVersion v => Return v
  | AsStr s => parse_version s
  end.

(** [VersionRange.matches] *)
Definition range_matches (self : VersionRange) (version : version_like)
  : outcome bool :=
  candidate ← _coerce_version version;
  Return (existsb (fun alternative =>
                     forallb (fun comparator =>
                                comparator_matches comparator candidate)
                             alternative)
                  (alternatives self)).

Definition compare_versions (left right : version_like) : outcome Z :=
  left_version ← _coerce_version left;
  right_version ← _coerce_version right;
  Return (compare_to left_version right_version).

Definition _caret_upper_bound (base : SemanticVersion)
  : outcome SemanticVersion :=
  if major base >? 0 then mk_version (major base + 1) 0 0 [] []
  else if minor base >? 0 then mk_version 0 (minor base + 1) 0 [] []
  else mk_version 0 0 (patch base + 1) [] [].

Definition operator_table : list (string * ComparatorOperator) :=
  [(">=", OpGe); ("<=", OpLe); (">", OpGt); ("<", OpLt); ("=", OpEq)].

(** The [for operator in (">=", "<=", ">", "<", "=")] loop of
    [_parse_range_token]; [None] when no operator is a prefix. *)
Fixpoint parse_operator_token (token : string)
    (table : list (string * ComparatorOperator))
  : option (outcome (list VersionComparator)) :=
  match table with
  | [] => None
  | (text, op) :: table' =>
      if Str.startswith token text then
        let version_text := Str.drop (String.length text) token in
        Some (match version_text with
              | EmptyString =>
                  Raise (SemVerError [Lit "Invalid range token: ";
                                      Repr (PStr token)])
              | _ =>
                  v ← parse_version version_text;
                  Return [{| operator := op; version := v |}]
              end)
      else parse_operator_token token table'
  end.

Definition _parse_range_token (token : string)
  : outcome (list VersionComparator) :=
  if String.eqb token "*" then Return []
  else if Str.startswith token "^" then
    base ← parse_version (Str.drop 1 token);
    upper ← _caret_upper_bound base;
    Return [{| operator := OpGe; version := base |};
            {| operator := OpLt; version := upper |}]
  else if Str.startswith token "~" then
    base ← parse_version (Str.drop 1 token);
    upper ← mk_version (major base) (minor base + 1) 0 [] [];
    Return [{| operator := OpGe; version := base |};
            {| operator := OpLt; version := upper |}]
  else
    match parse_operator_token token operator_table with
    | Some r => r
    | None =>
        v ← parse_version token;
        Return [{| operator := OpEq; version := v |}]
    end.

(** [normalized.split("||")] *)
Definition cons_head (c : ascii) (parts : list string) : list string :=
  match parts with
  | w :: ws => String c w :: ws
  | [] => [String c EmptyString]
  end.

Fixpoint split_or (s : string) : list string :=
  match s with
  | EmptyString => [EmptyString]
  | String c s' =>
      match s' with
      | String c' s'' =>
          if Ascii.eqb c "|" && Ascii.eqb c' "|"
          then EmptyString :: split_or s''
          else cons_head c (split_or s')
      | EmptyString => [String c EmptyString]
      end
  end.

(** [alternative_text.replace(",", " ")] *)
Fixpoint commas_to_spaces (s : string) : string :=
  match s with
  | EmptyString => EmptyString
  | String c s' =>
      String (if Ascii.eqb c "," then " "%char else c) (commas_to_spaces s')
  end.

Fixpoint parse_tokens (tokens : list string)
  : outcome (list VersionComparator) :=
  match tokens with
  | [] => Return []
  | token :: rest =>
      comparators ← _parse_range_token token;
      more ← parse_tokens rest;
      Return (comparators ++ more)
  end.

Definition invalid_range (expression : string) : exn :=
  SemVerError [Lit "Invalid semantic version range: "; Repr (PStr expression)].

Fixpoint parse_alternatives (expression : string) (parts : list string)
  : outcome (list (list VersionComparator)) :=
  match parts with
  | [] => Return []
  | part :: rest =>
      let alternative_text := Str.strip part in
      match alternative_text with
      | EmptyString => Raise (invalid_range expression)
      | _ =>
          match Str.split_ws (commas_to_spaces alternative_text) with
          | [] => Raise (invalid_range expression)
          | tokens =>
              comparators ← parse_tokens tokens;
              more ← parse_alternatives expression rest;
              Return (comparators :: more)
          end
      end
  end.

Definition parse_version_range (expression : string) : outcome VersionRange :=
  let normalized := Str.strip expression in
  if String.eqb normalized "" || String.eqb normalized "*"
  then Return {| alternatives := [[]] |}
  else
    alts ← parse_alternatives expression (split_or normalized);
    Return {| alternatives := alts |}.

Definition satisfies_version_range (version : version_like)
    (expression : string) : outcome bool :=
  parsed_range ← parse_version_range expression;
  range_matches parsed_range version.

End Semver.

(** * Orders read off the code

    The comparison functions of the package return [-1], [0] or [1].  To
    reason about them they are related to [comparison]-valued functions
    assembled from three combinators: pulling an order back along a key,
    the lexicographic product, and the lexicographic order on lists. *)

Definition Z_of_comparison (c : comparison) : Z :=
  match c with Lt => -1 | Eq => 0 | Gt => 1 end.

Definition lexc (c1 c2 : comparison) : comparison :=
  match c1 with Eq => c2 | _ => c1 end.

Section ListLex.
Context {A : Type} (cmp : A → A → comparison).

Fixpoint lex_compare (l r : list A) : comparison :=
  match l, r with
  | [], [] => Eq
  | [], _ :: _ => Lt
  | _ :: _, [] => Gt
  | x :: l', y :: r' => lexc (cmp x y) (lex_compare l' r')
  end.
End ListLex.

Record cmp_order {A : Type} (cmp : A → A → comparison) : Prop := {
  co_antisym : ∀ x y, cmp y x = CompOpp (cmp x y);
  co_trans : ∀ x y z, cmp x y = Lt → cmp y z = Lt → cmp x z = Lt;
  co_eq : ∀ x y z, cmp x y = Eq → cmp x z = cmp y z;
}.

Module SemverOrder.
Import Semver.

(** The key of a prerelease identifier: numeric identifiers by value and
    below every other identifier, the others by their text. *)
Definition id_key (x : string) : Z + string :=
  if Str.isdigit x then inl (Str.int x) else inr x.

Definition key_compare (a b : Z + string) : comparison :=
  match a, b with
  | inl m, inl n => m ?= n
  | inl _, inr _ => Lt
  | inr _, inl _ => Gt
  | inr s, inr t => String.compare s t
  end.

Definition id_compare (x y : string) : comparison :=
  key_compare (id_key x) (id_key y).

(** A version without prerelease sorts after every prerelease of the
    same core. *)
Definition release_rank (pre : list string) : Z :=
  match pre with [] => 1 | _ => 0 end.

Definition prerelease_compare (l r : list string) : comparison :=
  lexc (release_rank l ?= release_rank r) (lex_compare id_compare l r).

Definition version_compare (a b : SemanticVersion) : comparison :=
  lexc (major a ?= major b)
    (lexc (minor a ?= minor b)
       (lexc (patch a ?= patch b)
          (prerelease_compare (prerelease a) (prerelease b)))).

(** What [__post_init__] accepts. *)
Definition valid_version (v : SemanticVersion) : Prop :=
  __post_init__ v = Return tt.

(** Equality up to build metadata. *)
Definition same_precedence_fields (a b : SemanticVersion) : Prop :=
  major a = major b ∧ minor a = minor b ∧ patch a = patch b
  ∧ prerelease a = prerelease b.
End SemverOrder.

(** A numeral without leading zero, as [__post_init__] demands of numeric
    prerelease identifiers. *)
Definition normal_numeral (s : string) : Prop :=
  Str.isdigit s = true ∧
   ((1 <? Z.of_nat (String.length s)) && Str.startswith s "0") = false.

(** [dataclasses.replace(v, build=bu)]: the same version with other build
    metadata. *)
Definition with_build (v : Semver.SemanticVersion) (bu : list string)
  : Semver.SemanticVersion :=
  {| Semver.major := Semver.major v; Semver.minor := Semver.minor v;
     Semver.patch := Semver.patch v;
     Semver.prerelease := Semver.prerelease v; Semver.build := bu |}.

Definition same_core (a b : Semver.SemanticVersion) : Prop :=
  Semver.major a = Semver.major b ∧ Semver.minor a = Semver.minor b
  ∧ Semver.patch a = Semver.patch b.

(** ** [str(n)] for an [int] and [SemanticVersion.__str__] *)

Definition digit_char (d : Z) : ascii := ascii_of_N (Z.to_N (48 + d)).

Fixpoint numeral_fuel (fuel : nat) (n : Z) (acc : string) : string :=
  match fuel with
  | O => acc
  | S fuel' =>
      let acc' := String (digit_char (n mod 10)) acc in
      if n <? 10 then acc' else numeral_fuel fuel' (n / 10) acc'
  end.

(** The decimal numeral of a non-negative integer; it has at most as many
    digits as the binary numeral, which bounds the recursion. *)
Definition numeral (n : Z) : string :=
  numeral_fuel (S (Z.to_nat (Z.log2 n))) n "".

(** [str(n)] *)
Definition str_of_int (n : Z) : string :=
  if n <? 0 then String "-" (numeral (- n)) else numeral n.

(** [SemanticVersion.__str__] *)
Definition __str__ (self : Semver.SemanticVersion) : string :=
  let value :=
    str_of_int (Semver.major self) +:+ "." +:+ str_of_int (Semver.minor self)
    +:+ "." +:+ str_of_int (Semver.patch self) in
  let value :=
    match Semver.prerelease self with
    | [] => value
    | pre => value +:+ "-" +:+ Str.join "." pre
    end in
  match Semver.build self with
  | [] => value
  | bu => value +:+ "+" +:+ Str.join "." bu
  end.

(** A version [X.Y.Z] without prerelease and build metadata. *)
Definition core_version (x y z : Z) : Semver.SemanticVersion :=
  {| Semver.major := x; Semver.minor := y; Semver.patch := z;
     Semver.prerelease := []; Semver.build := [] |}.

(** The upper bound the specification gives for [^X.Y.Z]. *)
Definition caret_upper_spec (x y z : Z) : Semver.SemanticVersion :=
  if 0 <? x then core_version (x + 1) 0 0
  else if 0 <? y then core_version 0 (y + 1) 0
  else core_version 0 0 (z + 1).

(** The characters of a core version text: digits and dots. *)
Definition core_char (c : ascii) : bool :=
  Str.is_ascii_digit c || Ascii.eqb c ".".

(** * Python dictionaries, sets and type tests on [pyval] *)

Module Py.

(** [d.get(key)] and [key in d]; [d[key]] where the key is known present. *)
Fixpoint dict_get (entries : list (string * pyval)) (key : string)
  : option pyval :=
  match entries with
  | [] => None
  | (k, v) :: rest => if String.eqb k key then Some v else dict_get rest key
  end.

Definition dict_has (entries : list (string * pyval)) (key : string) : bool :=
  match dict_get entries key with Some _ => true | None => false end.

Definition dict_keys (entries : list (string * pyval)) : list string :=
  map fst entries.

Definition is_str (v : pyval) : bool :=
  match v with PStr _ => true | _ => false end.
Definition is_list (v : pyval) : bool :=
  match v with PList _ => true | _ => false end.
Definition is_dict (v : pyval) : bool :=
  match v with PDict _ => true | _ => false end.

(** [isinstance(v, int)]: [bool] is a subclass of [int]. *)
Definition as_int (v : pyval) : option Z :=
  match v with
  | PInt n => Some n
  | PBool b => Some (if b then 1 else 0)
  | _ => None
  end.

(** Lists and dictionaries cannot be members of a set. *)
Definition hashable (v : pyval) : bool :=
  match v with PList _ | PDict _ => false | _ => true end.

(** [==] between hashable values: [True == 1] and [False == 0]. *)
Definition eqb (a b : pyval) : bool :=
  match a, b with
  | PNone, PNone => true
  | PStr s, PStr t => String.eqb s t
  | (PBool _ | PInt _), (PBool _ | PInt _) =>
      match as_int a, as_int b with
      | Some m, Some n => m =? n
      | _, _ => false
      end
  | _, _ => false
  end.

Definition mem (x : pyval) (xs : list pyval) : bool :=
  existsb (eqb x) xs.

(** [set(xs)], keeping the first of equal members. *)
Fixpoint to_set (xs : list pyval) : list pyval :=
  match xs with
  | [] => []
  | x :: rest => x :: filter (λ y, negb (eqb x y)) (to_set rest)
  end.

Fixpoint strings_of (xs : list pyval) : option (list string) :=
  match xs with
  | [] => Some []
  | PStr s :: rest => cons s <$> strings_of rest
  | _ => None
  end.

(** [type(v).__name__] *)
Definition type_name (v : pyval) : string :=
  match v with
  | PNone => "NoneType"
  | PBool _ => "bool"
  | PInt _ => "int"
  | PStr _ => "str"
  | PList _ => "list"
  | PDict _ => "dict"
  end.

End Py.

(** * schema_and_validator.py *)

Module Schema.

Record PromptModule : Type := {
  raw : list (string * pyval);
  source_path : string;
  module : pyval;
  prompt : pyval;
  interface : pyval;
  dependencies : pyval;
  tests : pyval;
}.

(** [PromptModule.__init__] *)
Definition mk_PromptModule (raw : list (string * pyval)) (source_path : string)
  : PromptModule :=
  {| raw := raw;
     source_path := source_path;
     module := default PNone (Py.dict_get raw "module");
     prompt := default PNone (Py.dict_get raw "prompt");
     interface := default PNone (Py.dict_get raw "interface");
     dependencies := default (PList []) (Py.dict_get raw "dependencies");
     tests := default (PList []) (Py.dict_get raw "tests") |}.

(** [REQUIRED_TOP_LEVEL_FIELDS], in sorted order. *)
Definition REQUIRED_TOP_LEVEL_FIELDS : list string :=
  ["interface"; "module"; "prompt"].

Definition _validate_top_level (module : PromptModule) : outcome unit :=
  let missing :=
    filter (λ field, negb (Py.dict_has (raw module) field))
           REQUIRED_TOP_LEVEL_FIELDS in
  match missing with
  | [] => Return tt
  | _ =>
      Raise (ValidationError
               [Lit ("Missing required top-level fields: "
                     +:+ Str.join ", " (py_sorted Str.lt missing))])
  end.

(** The [for field in (...)] loops that demand a key. *)
Fixpoint require_fields (owner : string) (entries : list (string * pyval))
    (fields : list string) : outcome unit :=
  match fields with
  | [] => Return tt
  | field :: rest =>
      if Py.dict_has entries field then require_fields owner entries rest
      else Raise (ValidationError [Lit (owner +:+ field +:+ " is required")])
  end.

Definition _validate_module_metadata (meta : pyval) : outcome unit :=
  match meta with
  | PDict entries =>
      require_fields "module." entries ["name"; "version"; "description"];;
      match Py.dict_get entries "name" with
      | Some (PStr (String _ _)) =>
          match Py.dict_get entries "version" with
          | Some (PStr _) => Return tt
          | _ => Raise (ValidationError [Lit "module.version must be a string"])
          end
      | _ =>
          Raise (ValidationError
                   [Lit "module.name must be a non-empty string"])
      end
  | _ => Raise (ValidationError [Lit "module must be a mapping"])
  end.

(** [for inp in xs]: the items a [for] loop sees.  A list yields its
    items, a dictionary its keys, a string its characters; the other values
    are not iterable. *)
Definition iterate (xs : pyval) : outcome (list pyval) :=
  match xs with
  | PList items => Return items
  | PDict entries => Return (map (λ kv, PStr (fst kv)) entries)
  | PStr s => Return (map (λ c, PStr (String c "")) (String.list_ascii_of_string s))
  | _ => Raise (TypeError [])
  end.

(** [{inp.get("name") for inp in inputs if isinstance(inp, dict)}] *)
Fixpoint declared_input_names (inputs : list pyval) : outcome (list pyval) :=
  match inputs with
  | [] => Return []
  | PDict entries :: rest =>
      let name := default PNone (Py.dict_get entries "name") in
      if Py.hashable name then
        names ← declared_input_names rest; Return (name :: names)
      else Raise (TypeError [])
  | _ :: rest => declared_input_names rest
  end.

Definition _validate_prompt_block (prompt interface : pyval) : outcome unit :=
  match prompt with
  | PDict entries =>
      if negb (Py.dict_has entries "template") then
        Raise (ValidationError [Lit "prompt.template is required"])
      else
        match Py.dict_get entries "placeholders" with
        | Some (PList placeholders) =>
            inputs ←
              match interface with
              | PDict fields =>
                  iterate (default (PList []) (Py.dict_get fields "inputs"))
              | _ => Raise (AttributeError [])
              end;
            declared_inputs ← declared_input_names inputs;
            if negb (forallb Py.hashable placeholders) then Raise (TypeError [])
            else
              let undeclared :=
                filter (λ p, negb (Py.mem p declared_inputs))
                       (Py.to_set placeholders) in
              match undeclared with
              | [] => Return tt
              | _ =>
                  match Py.strings_of undeclared with
                  | Some names =>
                      Raise (ValidationError
                               [Lit ("Undeclared placeholders used in template: "
                                     +:+ Str.join ", " (py_sorted Str.lt names))])
                  | None => Raise (TypeError [])
                  end
              end
        | _ => Raise (ValidationError [Lit "prompt.placeholders must be a list"])
        end
  | _ => Raise (ValidationError [Lit "prompt must be a mapping"])
  end.

Definition _validate_interface_input (inp : pyval) : outcome unit :=
  match inp with
  | PDict entries =>
      require_fields "interface.inputs." entries
        ["name"; "type"; "description"; "required"]
  | _ => Raise (ValidationError [Lit "interface.inputs entries must be mappings"])
  end.

Definition _validate_interface_output (out : pyval) : outcome unit :=
  match out with
  | PDict entries =>
      require_fields "interface.outputs." entries ["type"; "description"]
  | _ => Raise (ValidationError [Lit "interface.outputs entries must be mappings"])
  end.

Fixpoint for_each {A} (f : A → outcome unit) (xs : list A) : outcome unit :=
  match xs with
  | [] => Return tt
  | x :: rest => f x;; for_each f rest
  end.

Definition _validate_interface (interface : pyval) : outcome unit :=
  match interface with
  | PDict entries =>
      if negb (Py.dict_has entries "intent") then
        Raise (ValidationError [Lit "interface.intent is required"])
      else
        match Py.dict_get entries "inputs" with
        | Some (PList inputs) =>
            match Py.dict_get entries "outputs" with
            | Some (PList outputs) =>
                for_each _validate_interface_input inputs;;
                for_each _validate_interface_output outputs
            | _ =>
                Raise (ValidationError [Lit "interface.outputs must be a list"])
            end
        | _ => Raise (ValidationError [Lit "interface.inputs must be a list"])
        end
  | _ => Raise (ValidationError [Lit "interface must be a mapping"])
  end.

Definition validate_prompt_module (module : PromptModule) : outcome unit :=
  _validate_top_level module;;
  _validate_module_metadata (Schema.module module);;
  _validate_prompt_block (prompt module) (interface module);;
  _validate_interface (interface module).

End Schema.

(** ** Sample documents for the validator *)

Definition sample_interface : pyval :=
  PDict [("intent", PStr "Summarize a technical document.");
         ("inputs",
          PList [PDict [("name", PStr "document");
                        ("type", PStr "technical_document");
                        ("description", PStr "Source document text");
                        ("required", PBool true)]]);
         ("outputs",
          PList [PDict [("type", PStr "structured_summary");
                        ("description", PStr "Concise technical summary")]])].

Definition sample_metadata (name version : string) : pyval :=
  PDict [("name", PStr name); ("version", PStr version);
         ("description", PStr "Test module")].

Definition sample_document (name version : string) (template : pyval)
    (extra : list (string * pyval)) : list (string * pyval) :=
  [("module", sample_metadata name version);
   ("prompt", PDict [("template", template);
                     ("placeholders", PList [PStr "document"])]);
   ("interface", sample_interface)] ++ extra.

(** A module whose [prompt.template] is the number 123. *)
Definition numeric_template_module : Schema.PromptModule :=
  Schema.mk_PromptModule
    (sample_document "numeric-template" "1.0.0" (PInt 123) [])
    "promptpm.yaml".

(** The shape the specification states for the prompt block of an accepted
    module: a string template and a list of placeholders. *)
Definition stated_prompt_shape (m : Schema.PromptModule) : Prop :=
  ∃ entries template placeholders,
    Schema.prompt m = PDict entries
    ∧ Py.dict_get entries "template" = Some (PStr template)
    ∧ Py.dict_get entries "placeholders" = Some (PList placeholders).

(** The shape the validator establishes: the template is present, of any
    type. *)
Definition checked_prompt_shape (m : Schema.PromptModule) : Prop :=
  ∃ entries template placeholders,
    Schema.prompt m = PDict entries
    ∧ Py.dict_get entries "template" = Some template
    ∧ Py.dict_get entries "placeholders" = Some (PList placeholders).

Definition raises_validation_error {A} (r : outcome A) : Prop :=
  ∃ msg, r = Raise (ValidationError msg).

(** * promptpm/core/resolver.py *)

(** [InstalledModule], from promptpm/core/registry.py. *)
Record InstalledModule : Type := {
  im_name : string;
  im_version : string;
  im_path : string;
}.

Module Resolver.

Record DependencySpec : Type := {
  name : string;
  version_range : string;
}.

Record ResolvedDependency : Type := {
  rd_name : string;
  rd_version : string;
  rd_path : string;
}.

(** [str(err)] *)
Definition exn_message (e : exn) : message :=
  match e with
  | ValidationError msg | DependencyError msg | SemVerError msg
  | TypeError msg | AttributeError msg | KeyError msg | OSError msg
  | UnicodeDecodeError msg => msg
  end.

(** [sorted] key of [_parse_dependencies]: the tuples
    [(entry.name, entry.version_range)]. *)
Definition spec_lt (a b : DependencySpec) : bool :=
  Str.lt (name a) (name b)
  || (String.eqb (name a) (name b)
      && Str.lt (version_range a) (version_range b)).

Fixpoint parse_dependency_entries (owner : string) (index : Z)
    (entries : list pyval) : outcome (list DependencySpec) :=
  match entries with
  | [] => Return []
  | dependency :: rest =>
      match dependency with
      | PDict fields =>
          match Py.dict_get fields "name" with
          | Some (PStr (String c n)) =>
              match Py.dict_get fields "version" with
              | Some (PStr range) =>
                  match Str.strip range with
                  | EmptyString =>
                      Raise (DependencyError
                               [Lit ("dependency.version is required in "
                                     +:+ owner +:+ " at index "
                                     +:+ str_of_int index)])
                  | stripped =>
                      more ← parse_dependency_entries owner (index + 1) rest;
                      Return ({| name := String c n;
                                 version_range := stripped |} :: more)
                  end
              | _ =>
                  Raise (DependencyError
                           [Lit ("dependency.version is required in "
                                 +:+ owner +:+ " at index "
                                 +:+ str_of_int index)])
              end
          | _ =>
              Raise (DependencyError
                       [Lit ("dependency.name is required in " +:+ owner
                             +:+ " at index " +:+ str_of_int index)])
          end
      | _ =>
          Raise (DependencyError
                   [Lit ("dependency entry at index " +:+ str_of_int index
                         +:+ " must be a mapping in " +:+ owner)])
      end
  end.

Definition _parse_dependencies (raw_dependencies : pyval) (owner : string)
  : outcome (list DependencySpec) :=
  match raw_dependencies with
  | PNone | PList [] => Return []
  | PList entries =>
      parsed ← parse_dependency_entries owner 0 entries;
      Return (py_sorted spec_lt parsed)
  | _ => Raise (DependencyError [Lit ("dependencies must be a list in " +:+ owner)])
  end.

Definition candidate : Type := Semver.SemanticVersion * InstalledModule.

Definition _compare_candidate_version (left right : candidate) : Z :=
  let semantic_cmp := Semver.compare_to left.1 right.1 in
  if negb (semantic_cmp =? 0) then semantic_cmp
  else if Str.lt (im_version left.2) (im_version right.2) then -1
  else if Str.gt (im_version left.2) (im_version right.2) then 1
  else 0.

(** [cmp_to_key(_compare_candidate_version)]: the only question the sort
    asks of two keys is [<]. *)
Definition candidate_lt (a b : candidate) : bool :=
  _compare_candidate_version a b <? 0.

(** The loop that fills [matching]. *)
Fixpoint collect_matching (candidates : list InstalledModule)
    (version_range : string) : outcome (list candidate) :=
  match candidates with
  | [] => Return []
  | c :: rest =>
      semantic_version ← Semver.parse_version (im_version c);
      ok ← Semver.satisfies_version_range
              (Semver.AsVersion semantic_version) version_range;
      more ← collect_matching rest version_range;
      Return (if (ok : bool) then (semantic_version, c) :: more else more)
  end.

Definition not_found_message (parent name version_range : string) : message :=
  [Lit ("Dependency not found for " +:+ parent +:+ ": " +:+ name
        +:+ " (" +:+ version_range +:+ ")")].

Definition no_match_message (parent name version_range : string) : message :=
  [Lit ("No installed versions satisfy dependency for " +:+ parent +:+ ": "
        +:+ name +:+ " (" +:+ version_range +:+ ")")].

Definition node_id_of (m : InstalledModule) : string :=
  im_name m +:+ "@" +:+ im_version m.

Record visit_state : Type := {
  resolved : list ResolvedDependency;
  visiting : list string;
  visited : gset string;
}.

Section WithRegistry.

(** [self.registry.list_by_name]; the reading of the module file at a
    directory, giving the parsed document and the path of the file; and
    [os.path.abspath]. *)
Variable list_by_name : string → outcome (list InstalledModule).
Variable read_module_file : string → outcome (list (string * pyval) * string).
Variable abspath : string → string.

(** [load_prompt_module] *)
Definition load_prompt_module (path : string) : outcome Schema.PromptModule :=
  '(raw, source) ← read_module_file path;
  Return (Schema.mk_PromptModule raw source).

Definition _select_installed_version (name version_range parent : string)
  : outcome InstalledModule :=
  candidates ← list_by_name name;
  match candidates with
  | [] => Raise (DependencyError (not_found_message parent name version_range))
  | _ =>
      match collect_matching candidates version_range with
      | Raise (SemVerError err) =>
          Raise (DependencyError
                   (Lit ("Invalid semantic version while resolving " +:+ name
                         +:+ " (" +:+ version_range +:+ "): ") :: err))
      | Raise e => Raise e
      | Return matching =>
          match last (py_sorted candidate_lt matching) with
          | None =>
              Raise (DependencyError
                       (no_match_message parent name version_range))
          | Some best => Return best.2
          end
      end
  end.

(** The dependency list of the module at [path], as both
    [resolve_for_module] and [_visit] compute it. *)
Definition dependencies_of (path owner : string)
  : outcome (list DependencySpec) :=
  loaded ← load_prompt_module path;
  Schema.validate_prompt_module loaded;;
  _parse_dependencies (Schema.dependencies loaded) owner.

(** [for dependency in dependencies: ... self._visit(installed, ...)];
    [None] when the recursion budget of the model is exhausted. *)
Fixpoint for_dependencies
    (visit : InstalledModule → visit_state → option (outcome visit_state))
    (parent : string) (dependencies : list DependencySpec) (st : visit_state)
  : option (outcome visit_state) :=
  match dependencies with
  | [] => Some (Return st)
  | dependency :: rest =>
      match _select_installed_version (name dependency)
              (version_range dependency) parent with
      | Raise e => Some (Raise e)
      | Return installed =>
          match visit installed st with
          | Some (Return st') => for_dependencies visit parent rest st'
          | other => other
          end
      end
  end.

Definition cycle_message (visiting : list string) (node_id : string)
  : message :=
  [Lit ("Cyclic dependency detected: "
        +:+ Str.join " -> " (visiting ++ [node_id]))].

Fixpoint _visit (fuel : nat) (module : InstalledModule) (st : visit_state)
  : option (outcome visit_state) :=
  match fuel with
  | O => None
  | S fuel' =>
      let node_id := node_id_of module in
      if bool_decide (node_id ∈ visited st) then Some (Return st)
      else if bool_decide (node_id ∈ visiting st) then
        Some (Raise (DependencyError (cycle_message (visiting st) node_id)))
      else
        let st1 := {| resolved := resolved st;
                      visiting := visiting st ++ [node_id];
                      visited := visited st |} in
        match dependencies_of (im_path module) node_id with
        | Raise e => Some (Raise e)
        | Return dependencies =>
            match for_dependencies (_visit fuel') node_id dependencies st1 with
            | Some (Return st2) =>
                Some (Return
                        {| resolved :=
                             resolved st2
                             ++ [{| rd_name := im_name module;
                                    rd_version := im_version module;
                                    rd_path := abspath (im_path module) |}];
                           visiting := removelast (visiting st2);
                           visited := {[node_id]} ∪ visited st2 |})
            | other => other
            end
        end
  end.

Definition initial_state : visit_state :=
  {| resolved := []; visiting := []; visited := ∅ |}.

Definition resolve_for_module (fuel : nat) (module_path : string)
  : option (outcome (list ResolvedDependency)) :=
  match load_prompt_module module_path with
  | Raise e => Some (Raise e)
  | Return module =>
      match Schema.validate_prompt_module module with
      | Raise e => Some (Raise e)
      | Return _ =>
          match _parse_dependencies (Schema.dependencies module)
                  (Schema.source_path module) with
          | Raise e => Some (Raise e)
          | Return dependencies =>
              match for_dependencies (_visit fuel)
                      (Schema.source_path module) dependencies
                      initial_state with
              | Some (Return st) => Some (Return (resolved st))
              | Some (Raise e) => Some (Raise e)
              | None => None
              end
          end
      end
  end.

End WithRegistry.

End Resolver.

(** ** A sample registry for the resolver

    [dep-c@1.0.0], [dep-a@1.0.0] (which needs [dep-c >=1.0.0]),
    [dep-b@1.0.0] and three versions of [dep-lib]; the root module needs
    [dep-b] and [dep-a]. *)

Definition sample_installed (name version : string) : InstalledModule :=
  {| im_name := name; im_version := version;
     im_path := "/registry/modules/" +:+ name +:+ "/" +:+ version |}.

Definition sample_list_by_name (name : string) : outcome (list InstalledModule) :=
  if String.eqb name "dep-a" then Return [sample_installed "dep-a" "1.0.0"]
  else if String.eqb name "dep-b" then Return [sample_installed "dep-b" "1.0.0"]
  else if String.eqb name "dep-c" then Return [sample_installed "dep-c" "1.0.0"]
  else if String.eqb name "dep-lib" then
    Return [sample_installed "dep-lib" "1.2.0";
            sample_installed "dep-lib" "1.5.0";
            sample_installed "dep-lib" "1.5.0+build.7";
            sample_installed "dep-lib" "2.0.0"]
  else Return [].

Definition dependency_entry (name range : string) : pyval :=
  PDict [("name", PStr name); ("version", PStr range)].

Definition sample_read_module_file (path : string)
  : outcome (list (string * pyval) * string) :=
  let document name version deps :=
    Return (sample_document name version (PStr "template.prompt")
              (match deps with
               | [] => []
               | _ => [("dependencies", PList deps)]
               end),
            path +:+ "/promptpm.yaml") in
  if String.eqb path "/work/root" then
    document "root" "1.0.0" [dependency_entry "dep-b" ">=1.0.0";
                             dependency_entry "dep-a" ">=1.0.0"]
  else if String.eqb path "/registry/modules/dep-a/1.0.0" then
    document "dep-a" "1.0.0" [dependency_entry "dep-c" ">=1.0.0"]
  else if String.eqb path "/registry/modules/dep-b/1.0.0" then
    document "dep-b" "1.0.0" []
  else if String.eqb path "/registry/modules/dep-c/1.0.0" then
    document "dep-c" "1.0.0" []
  else Raise (ValidationError [Lit "Missing promptpm.yaml or promptpm.toml"]).

(** The order the resolver sorts candidates by: SemVer precedence, then
    the raw version text. *)
Definition candidate_compare (a b : Resolver.candidate) : comparison :=
  lexc (SemverOrder.version_compare a.1 b.1)
       (String.compare (im_version a.2) (im_version b.2)).

(** A candidate whose version text parses to [v] and satisfies the range. *)
Definition satisfying (version_range : string) (c : InstalledModule)
    (v : Semver.SemanticVersion) : Prop :=
  Semver.parse_version (im_version c) = Return v
  ∧ Semver.satisfies_version_range (Semver.AsVersion v) version_range
    = Return true.

(** ** Notions used to state the resolver's properties *)

Section ResolverNotions.
Variable list_by_name : string → outcome (list InstalledModule).
Variable read_module_file : string → outcome (list (string * pyval) * string).
Variable abspath : string → string.

(** The record [_visit] emits for an installed module. *)
Definition record_of (m : InstalledModule) : Resolver.ResolvedDependency :=
  {| Resolver.rd_name := im_name m; Resolver.rd_version := im_version m;
     Resolver.rd_path := abspath (im_path m) |}.

(** The [name@version] identifier of an emitted record. *)
Definition record_id (r : Resolver.ResolvedDependency) : string :=
  Resolver.rd_name r +:+ "@" +:+ Resolver.rd_version r.

(** The module the registry selects for a dependency of [owner]. *)
Definition selects (owner : string) (d : Resolver.DependencySpec)
    (m : InstalledModule) : Prop :=
  Resolver._select_installed_version list_by_name (Resolver.name d)
    (Resolver.version_range d) owner = Return m.

(** [r] is the record of an installed module all of whose dependencies
    are selected among the identifiers [seen]. *)
Definition dependencies_among (seen : list string)
    (r : Resolver.ResolvedDependency) : Prop :=
  ∃ m deps,
    r = record_of m
    ∧ Resolver.dependencies_of read_module_file (im_path m)
        (Resolver.node_id_of m) = Return deps
    ∧ ∀ d, d ∈ deps →
        ∃ m', selects (Resolver.node_id_of m) d m'
              ∧ Resolver.node_id_of m' ∈ seen.

(** Every record has its dependencies among the records before it. *)
Definition dependencies_first (l : list Resolver.ResolvedDependency) : Prop :=
  ∀ i r, l !! i = Some r → dependencies_among (record_id <$> take i l) r.

Definition state_invariant (st : Resolver.visit_state) : Prop :=
  (∀ x, x ∈ Resolver.visited st ↔ x ∈ record_id <$> Resolver.resolved st)
  ∧ NoDup (record_id <$> Resolver.resolved st)
  ∧ dependencies_first (Resolver.resolved st).

(** What a successful visit or loop does to the state, whatever the
    state it starts from. *)
Definition state_step (st st' : Resolver.visit_state) : Prop :=
  Resolver.visiting st' = Resolver.visiting st
  ∧ Resolver.visited st ⊆ Resolver.visited st'
  ∧ (∃ new, Resolver.resolved st' = Resolver.resolved st ++ new)
  ∧ ∀ x, x ∈ Resolver.visiting st → x ∉ Resolver.visited st →
         x ∉ Resolver.visited st'.

(** A visit function whose successful calls are state steps that leave
    the module visited. *)
Definition visit_steps
    (v : InstalledModule → Resolver.visit_state
         → option (outcome Resolver.visit_state)) : Prop :=
  ∀ m st st', v m st = Some (Return st') →
              state_step st st' ∧ Resolver.node_id_of m ∈ Resolver.visited st'.

(** Two paths of the same directory hold the same document. *)
Definition reads_by_directory : Prop :=
  ∀ p q raw source,
    abspath p = abspath q → read_module_file p = Return (raw, source) →
    ∃ source', read_module_file q = Return (raw, source').

(** The registry lists modules of a finite set of identifiers. *)
Definition registry_within (universe : list string) : Prop :=
  ∀ name cs m, list_by_name name = Return cs → m ∈ cs →
               Resolver.node_id_of m ∈ universe.

End ResolverNotions.

(** A visit function whose successful calls keep the state invariant. *)
Definition visit_keeps
    (list_by_name : string → outcome (list InstalledModule))
    (read_module_file : string → outcome (list (string * pyval) * string))
    (abspath : string → string)
    (v : InstalledModule → Resolver.visit_state
         → option (outcome Resolver.visit_state)) : Prop :=
  ∀ m st st', v m st = Some (Return st') →
              state_invariant list_by_name read_module_file abspath st →
              state_invariant list_by_name read_module_file abspath st'.

(** The situation in which the directory of the root module cannot be
    emitted: of the root's dependency list, the entries [before] are
    visited, and the next entry selects the module [blocker], which is not
    visited yet. *)
Definition root_context
    (list_by_name : string → outcome (list InstalledModule))
    (root_dependencies : list Resolver.DependencySpec)
    (st : Resolver.visit_state) (blocker : string) : Prop :=
  ∃ before d rest m_d owner,
    root_dependencies = before ++ d :: rest
    ∧ (∀ d', d' ∈ before →
         ∃ m' owner', selects list_by_name owner' d' m'
                      ∧ Resolver.node_id_of m' ∈ Resolver.visited st)
    ∧ selects list_by_name owner d m_d
    ∧ Resolver.node_id_of m_d = blocker
    ∧ blocker ∉ Resolver.visited st.

(** No emitted record points at the directory [root]. *)
Definition root_absent (abspath : string → string) (root : string)
    (l : list Resolver.ResolvedDependency) : Prop :=
  ∀ r, r ∈ l → Resolver.rd_path r ≠ abspath root.

(** A visit function that, in a root context, emits no record of the
    root directory. *)
Definition visit_never_emits_root
    (list_by_name : string → outcome (list InstalledModule))
    (abspath : string → string) (module_path : string)
    (root_dependencies : list Resolver.DependencySpec)
    (v : InstalledModule → Resolver.visit_state
         → option (outcome Resolver.visit_state)) : Prop :=
  ∀ m st st' blocker,
    v m st = Some (Return st') →
    root_context list_by_name root_dependencies st blocker →
    blocker ∈ Resolver.visiting st ∨ blocker = Resolver.node_id_of m →
    root_absent abspath module_path (Resolver.resolved st) →
    root_absent abspath module_path (Resolver.resolved st').

(** The output of the sample resolution. *)
Definition sample_resolution : list Resolver.ResolvedDependency :=
  [record_of id (sample_installed "dep-c" "1.0.0");
   record_of id (sample_installed "dep-a" "1.0.0");
   record_of id (sample_installed "dep-b" "1.0.0")].

(** * promptpm/core/test_runner.py *)

Module TestRunner.

Record AssertionFailure : Type := {
  test_name : string;
  assertion_index : Z;
  assertion_type : string;
  failure_message : message;
  expected : string;
  actual : string;
}.

Record TestCaseResult : Type := {
  tc_name : string;
  passed : bool;
  failures : list AssertionFailure;
}.

Record _ParsedTestCase : Type := {
  name : string;
  inputs : list (string * pyval);
  assertions : list (string * pyval);
  original_index : Z;
}.

Fixpoint take (n : nat) (s : string) : string :=
  match n, s with
  | S n', String c s' => String c (take n' s')
  | _, _ => EmptyString
  end.

(** The line feed, and a backslash followed by [n]. *)
Definition LF : string := String (ascii_of_nat 10) "".
Definition escaped_LF : string := String (ascii_of_nat 92) "n".

Definition _preview (value : string) : string :=
  let normalized := Str.replace LF escaped_LF value in
  if (String.length normalized <=? 120)%nat then normalized
  else take 120 normalized +:+ "...".

Definition _failure (test_name : string) (assertion_index : Z)
    (assertion_type : string) (msg : message) (expected actual : string)
  : AssertionFailure :=
  {| test_name := test_name; assertion_index := assertion_index;
     assertion_type := assertion_type; failure_message := msg;
     expected := expected; actual := actual |}.

Definition in_test (test_name : string) (index : Z) : list piece :=
  [Lit " in test "; Repr (PStr test_name);
   Lit (" at index " +:+ str_of_int index)].

Definition _ensure_string_assertion (assertion_type : string)
    (assertion_value : pyval) (test_name : string) (assertion_index : Z)
  : outcome string :=
  match assertion_value with
  | PStr s => Return s
  | _ =>
      Raise (ValidationError
               (Lit (assertion_type +:+ " assertion must be a string")
                :: in_test test_name assertion_index))
  end.

(** [str(v)] for an [int] or a [bool]. *)
Definition str_of_intlike (v : pyval) : string :=
  match v with
  | PBool true => "True"
  | PBool false => "False"
  | PInt n => str_of_int n
  | _ => ""
  end.

Definition _ensure_int_assertion (assertion_type : string)
    (assertion_value : pyval) (test_name : string) (assertion_index : Z)
  : outcome Z :=
  match Py.as_int assertion_value with
  | Some n =>
      if n <? 0 then
        Raise (ValidationError
                 (Lit (assertion_type
                       +:+ " assertion must be a non-negative integer")
                  :: in_test test_name assertion_index))
      else Return n
  | None =>
      Raise (ValidationError
               (Lit (assertion_type
                     +:+ " assertion must be a non-negative integer")
                :: in_test test_name assertion_index))
  end.

(** The [for key in raw_keys or []] loop of
    [_evaluate_structure_assertion]. *)
Fixpoint required_key_names (test_name : string) (assertion_index : Z)
    (raw_keys : list pyval) : outcome (list string) :=
  match raw_keys with
  | [] => Return []
  | PStr (String c k) :: rest =>
      more ← required_key_names test_name assertion_index rest;
      Return (String c k :: more)
  | _ =>
      Raise (ValidationError
               (Lit "structure.required_keys entries must be non-empty strings"
                :: in_test test_name assertion_index))
  end.

(** The first part of [_evaluate_structure_assertion]: the expected type
    and the required keys the assertion value stands for. *)
Definition structure_request (test_name : string) (assertion_index : Z)
    (assertion_value : pyval) : outcome (string * list string) :=
  match assertion_value with
  | PStr expected_type => Return (expected_type, [])
  | PDict fields =>
      match default (PStr "json_object") (Py.dict_get fields "type") with
      | PStr expected_type =>
          match default (PList []) (Py.dict_get fields "required_keys") with
          | PNone => Return (expected_type, [])
          | PList raw_keys =>
              required_keys ←
                required_key_names test_name assertion_index raw_keys;
              Return (expected_type, required_keys)
          | _ =>
              Raise (ValidationError
                       (Lit "structure.required_keys must be a list"
                        :: in_test test_name assertion_index))
          end
      | _ =>
          Raise (ValidationError
                   (Lit "structure assertion type must be a string"
                    :: in_test test_name assertion_index))
      end
  | _ =>
      Raise (ValidationError
               (Lit "structure assertion must be a string or mapping"
                :: in_test test_name assertion_index))
  end.

Section WithLibraries.

(** [json.loads], with [None] for a [JSONDecodeError]; [json.dumps] with
    its default separators and with the compact, key-sorted ones; and,
    for a string input, the regular file that it names under the module
    root, when [os.path.isfile] finds one, with the outcome of reading
    it: its text, or the exception that [open] or [read] raises (an
    [OSError], or a [UnicodeDecodeError] for a file that is not UTF-8),
    which the runner does not catch. *)
Variable json_loads : string → option pyval.
Variable json_dumps : pyval → string.
Variable json_dumps_compact : pyval → string.
Variable read_input_file : string → string → option (outcome string).

Definition _evaluate_structure_assertion (test_name : string)
    (assertion_index : Z) (output_text : string) (assertion_value : pyval)
  : outcome (option AssertionFailure) :=
  '(expected_type, required_keys) ←
    structure_request test_name assertion_index assertion_value;
  if negb (String.eqb expected_type "json_object"
           || String.eqb expected_type "json_array") then
    Raise (ValidationError
             (Lit "Unsupported structure type" :: in_test test_name assertion_index
              ++ [Lit ": "; Repr (PStr expected_type)]))
  else
    match json_loads output_text with
    | None =>
        Return (Some (_failure test_name assertion_index "structure"
                        [Lit "Expected valid JSON output"]
                        expected_type (_preview output_text)))
    | Some parsed_output =>
        if String.eqb expected_type "json_object" then
          match parsed_output with
          | PDict entries =>
              let missing :=
                filter (λ key, negb (Py.dict_has entries key)) required_keys in
              match missing with
              | [] => Return None
              | _ =>
                  Return (Some (_failure test_name assertion_index "structure"
                                  [Lit ("Missing required JSON keys: "
                                        +:+ Str.join ", " missing)]
                                  (json_dumps (PList (PStr <$> required_keys)))
                                  (json_dumps
                                     (PList (PStr <$> py_sorted Str.lt
                                               (Py.dict_keys entries))))))
              end
          | _ =>
              Return (Some (_failure test_name assertion_index "structure"
                              [Lit "Expected JSON object output"]
                              "object" (Py.type_name parsed_output)))
          end
        else
          match parsed_output with
          | PList _ => Return None
          | _ =>
              Return (Some (_failure test_name assertion_index "structure"
                              [Lit "Expected JSON array output"]
                              "array" (Py.type_name parsed_output)))
          end
    end.

(** One turn of the loop of [_evaluate_assertions]: the failure the
    assertion adds, if any. *)
Definition evaluate_assertion (test_name output_text : string) (index : Z)
    (assertion : string * pyval) : outcome (option AssertionFailure) :=
  let '(assertion_type, assertion_value) := assertion in
  if String.eqb assertion_type "contains" then
    text ← _ensure_string_assertion assertion_type assertion_value
              test_name index;
    Return (if negb (Str.contains output_text text)
            then Some (_failure test_name index assertion_type
                         [Lit "Expected output to contain ";
                          Repr assertion_value]
                         text (_preview output_text))
            else None)
  else if String.eqb assertion_type "excludes" then
    text ← _ensure_string_assertion assertion_type assertion_value
              test_name index;
    Return (if Str.contains output_text text
            then Some (_failure test_name index assertion_type
                         [Lit "Expected output to exclude ";
                          Repr assertion_value]
                         text (_preview output_text))
            else None)
  else if String.eqb assertion_type "max_length" then
    limit ← _ensure_int_assertion assertion_type assertion_value
               test_name index;
    let actual_length := Z.of_nat (String.length output_text) in
    Return (if actual_length >? limit
            then Some (_failure test_name index assertion_type
                         [Lit ("Expected output length <= "
                               +:+ str_of_intlike assertion_value
                               +:+ ", got " +:+ str_of_int actual_length)]
                         (str_of_intlike assertion_value)
                         (str_of_int actual_length))
            else None)
  else if String.eqb assertion_type "structure" then
    _evaluate_structure_assertion test_name index output_text assertion_value
  else
    Raise (ValidationError
             (Lit "Unsupported assertion type" :: in_test test_name index
              ++ [Lit ": "; Repr (PStr assertion_type)])).

Fixpoint evaluate_from (test_name output_text : string) (index : Z)
    (assertions : list (string * pyval)) : outcome (list AssertionFailure) :=
  match assertions with
  | [] => Return []
  | assertion :: rest =>
      failure ← evaluate_assertion test_name output_text index assertion;
      more ← evaluate_from test_name output_text (index + 1) rest;
      Return (option_list failure ++ more)
  end.

Definition _evaluate_assertions (test_name output_text : string)
    (assertions : list (string * pyval)) : outcome (list AssertionFailure) :=
  evaluate_from test_name output_text 0 assertions.

Definition _resolve_input_value (value : pyval) (module_root : string)
  : outcome pyval :=
  match value with
  | PStr s =>
      match read_input_file module_root s with
      | Some contents => text ← contents; Return (PStr text)
      | None => Return value
      end
  | _ => Return value
  end.

Definition _stringify_value (value : pyval) : string :=
  match value with
  | PStr s => s
  | _ => json_dumps_compact value
  end.

(** The two [replace] calls the loop of [_render_template] makes for one
    key. *)
Definition substitute (key value_text rendered : string) : string :=
  let rendered := Str.replace ("{{" +:+ key +:+ "}}") value_text rendered in
  Str.replace ("{" +:+ key +:+ "}") value_text rendered.

(** [_stringify_value(_resolve_input_value(inputs[key], module_root))] *)
Definition value_text_of (inputs : list (string * pyval))
    (module_root key : string) : outcome string :=
  value ← _resolve_input_value (default PNone (Py.dict_get inputs key))
             module_root;
  Return (_stringify_value value).

(** The loop of [_render_template] over the keys that remain: the value
    of a key is resolved when its turn comes. *)
Fixpoint render_keys (inputs : list (string * pyval)) (module_root : string)
    (keys : list string) (rendered : string) : outcome string :=
  match keys with
  | [] => Return rendered
  | key :: rest =>
      value_text ← value_text_of inputs module_root key;
      render_keys inputs module_root rest (substitute key value_text rendered)
  end.

Definition _render_template (template : string)
    (inputs : list (string * pyval)) (module_root : string) : outcome string :=
  render_keys inputs module_root (py_sorted Str.lt (Py.dict_keys inputs))
    template.

End WithLibraries.

End TestRunner.

(** ** Notions used to state the test runner's properties *)

Definition known_assertion_kind (kind : string) : Prop :=
  kind = "contains" ∨ kind = "excludes" ∨ kind = "max_length"
  ∨ kind = "structure".

Definition known_structure_type (ty : string) : Prop :=
  ty = "json_object" ∨ ty = "json_array".

(** The type string a structure assertion names: the string itself, or the
    [type] entry of the mapping, [json_object] when the mapping has none. *)
Definition structure_type_of (assertion_value : pyval) (ty : string) : Prop :=
  match assertion_value with
  | PStr s => s = ty
  | PDict fields =>
      match Py.dict_get fields "type" with
      | Some (PStr s) => s = ty
      | None => ty = "json_object"
      | _ => False
      end
  | _ => False
  end.

(** The [required_keys] entry of a structure assertion is well-formed:
    absent, null, or a list of non-empty strings. *)
Definition required_keys_well_formed (assertion_value : pyval) : Prop :=
  match assertion_value with
  | PDict fields =>
      match Py.dict_get fields "required_keys" with
      | None | Some PNone => True
      | Some (PList raw_keys) =>
          Forall (λ key, ∃ c k, key = PStr (String c k)) raw_keys
      | _ => False
      end
  | _ => True
  end.

(** The top-level type of the parsed output is not the expected one. *)
Definition wrong_top_level (ty : string) (parsed : pyval) : Prop :=
  (ty = "json_object" ∧ Py.is_dict parsed = false)
  ∨ (ty = "json_array" ∧ Py.is_list parsed = false).

(** One pass over the template that replaces, at each position, the first
    placeholder of the table found there: the simultaneous substitution
    that [_render_template] is compared with. *)
Fixpoint placeholder_at (table : list (string * string)) (s : string)
  : option (string * nat) :=
  match table with
  | [] => None
  | (pattern, text) :: rest =>
      if String.prefix pattern s then Some (text, String.length pattern)
      else placeholder_at rest s
  end.

Fixpoint simultaneous_aux (table : list (string * string)) (skip : nat)
    (s : string) : string :=
  match s with
  | EmptyString => EmptyString
  | String c s' =>
      match skip with
      | S k => simultaneous_aux table k s'
      | O =>
          match placeholder_at table s with
          | Some (text, n) => text +:+ simultaneous_aux table (n - 1) s'
          | None => String c (simultaneous_aux table O s')
          end
      end
  end.

Definition placeholder_table (bindings : list (string * string))
  : list (string * string) :=
  flat_map (λ kv, [("{{" +:+ kv.1 +:+ "}}", kv.2);
                   ("{" +:+ kv.1 +:+ "}", kv.2)]) bindings.

Definition simultaneous_render (template : string)
    (bindings : list (string * string)) : string :=
  simultaneous_aux (placeholder_table bindings) O template.

(** Sample libraries for the test runner: no text parses as JSON, nothing
    is a file. *)
Definition no_json (text : string) : option pyval := None.
Definition plain_dumps (v : pyval) : string := "".
Definition no_input_file (module_root value : string)
  : option (outcome string) := None.

(** * promptpm/core/registry.py *)

Module Registry.

(** ** The file system

    What a path leads to: a regular file, something that is neither a file
    nor a directory (a FIFO, a socket, a device), a directory with its
    entries in the order [os.listdir] and [os.scandir] give them, or a
    symbolic link with what it points at ([None] when it dangles).  A link
    carries its target as a tree of its own, so two links to one place are
    two copies here. *)

Inductive node : Type :=
| File (contents : string)
| Other
| Dir (entries : list (string * node))
| Symlink (target : option node).

Definition MODULES_DIRNAME : string := "modules".
Definition IMMUTABILITY_MANIFEST_FILENAME : string := ".promptpm_immutable.json".

(** [os.stat]: links followed to the end. *)
Fixpoint resolve (n : node) : option node :=
  match n with
  | Symlink (Some target) => resolve target
  | Symlink None => None
  | _ => Some n
  end.

Definition is_symlink (n : node) : bool :=
  match n with Symlink _ => true | _ => false end.

Definition is_file (n : node) : bool :=
  match resolve n with Some (File _) => true | _ => false end.

Definition is_dir (n : node) : bool :=
  match resolve n with Some (Dir _) => true | _ => false end.

Definition entries_of (n : node) : option (list (string * node)) :=
  match resolve n with Some (Dir entries) => Some entries | _ => None end.

Fixpoint dir_lookup (name : string) (entries : list (string * node))
  : option node :=
  match entries with
  | [] => None
  | (n, child) :: rest =>
      if String.eqb n name then Some child else dir_lookup name rest
  end.

Fixpoint dir_remove (name : string) (entries : list (string * node))
  : list (string * node) :=
  match entries with
  | [] => []
  | (n, child) :: rest =>
      if String.eqb n name then dir_remove name rest
      else (n, child) :: dir_remove name rest
  end.

(** Replace the entry [name] where it stands, or add it at the end. *)
Fixpoint dir_put (name : string) (child : node)
    (entries : list (string * node)) : list (string * node) :=
  match entries with
  | [] => [(name, child)]
  | (n, c) :: rest =>
      if String.eqb n name then (n, child) :: rest
      else (n, c) :: dir_put name child rest
  end.

(** [os.lstat] of a path given by its components below [n]: the links on
    the way are followed, the last component is not. *)
Fixpoint node_at (path : list string) (n : node) : option node :=
  match path with
  | [] => Some n
  | name :: rest =>
      entries ← entries_of n;
      child ← dir_lookup name entries;
      node_at rest child
  end.

(** Apply [f] to the entries of the directory [n] is or links to. *)
Fixpoint map_dir (f : list (string * node) → list (string * node))
    (n : node) : node :=
  match n with
  | Dir entries => Dir (f entries)
  | Symlink (Some target) => Symlink (Some (map_dir f target))
  | _ => n
  end.

(** Apply [f] to the entries of the directory at [path]. *)
Fixpoint alter_at (path : list string)
    (f : list (string * node) → list (string * node)) (n : node) : node :=
  match path with
  | [] => map_dir f n
  | name :: rest =>
      map_dir (λ entries,
                 match dir_lookup name entries with
                 | Some child => dir_put name (alter_at rest f child) entries
                 | None => entries
                 end) n
  end.

Definition path_str (root : string) (rel : list string) : string :=
  Str.join "/" (root :: rel).

Definition symlink_message (root : string) (rel : list string) : message :=
  [Lit ("Symlinks are not allowed in registry installs: "
        +:+ path_str root rel)].

(** The body of [for filename in sorted(filenames)] of
    [_iter_files_sorted]. *)
Fixpoint files_here (root : string) (rel : list string)
    (filenames : list (string * node)) : outcome (list (list string * string)) :=
  match filenames with
  | [] => Return []
  | (filename, n) :: rest =>
      match n with
      | Symlink _ =>
          Raise (DependencyError (symlink_message root (rel ++ [filename])))
      | File contents =>
          more ← files_here root rel rest;
          Return ((rel ++ [filename], contents) :: more)
      | _ => files_here root rel rest
      end
  end.

Fixpoint concat_outcomes {A} (rs : list (outcome (list A)))
  : outcome (list A) :=
  match rs with
  | [] => Return []
  | r :: rest => xs ← r; more ← concat_outcomes rest; Return (xs ++ more)
  end.

Definition entry_lt {A} (a b : string * A) : bool := Str.lt a.1 b.1.

(** [_iter_files_sorted] over [os.walk(root, topdown=True)], started at the
    directory [n], whose path below the root is [rel]: the regular files
    with the components of their paths relative to the root.  In every
    directory: a link among the subdirectories stops the walk; then the
    files sorted by name, where a link stops the walk and what is not a
    regular file is passed over; then the subdirectories sorted by name.
    The generator is run to its end, so a link anywhere gives the error
    and no files. *)
Fixpoint walk (root : string) (rel : list string) (n : node)
  : outcome (list (list string * string)) :=
  match n with
  | Dir entries =>
      let dirnames := filter (λ e, is_dir e.2) entries in
      let filenames := filter (λ e, negb (is_dir e.2)) entries in
      match List.find (λ e, is_symlink e.2) dirnames with
      | Some (dirname, _) =>
          Raise (DependencyError (symlink_message root (rel ++ [dirname])))
      | None =>
          let below :=
            (fix below (es : list (string * node))
               : list (string * outcome (list (list string * string))) :=
               match es with
               | [] => []
               | (dirname, child) :: rest =>
                   match child with
                   | Dir _ =>
                       (dirname, walk root (rel ++ [dirname]) child)
                       :: below rest
                   | _ => below rest
                   end
               end) entries in
          files ← files_here root rel (py_sorted entry_lt filenames);
          deeper ← concat_outcomes (snd <$> py_sorted entry_lt below);
          Return (files ++ deeper)
      end
  | _ => Return []
  end.

(** [_iter_files_sorted(Path(root_dir).resolve())] *)
Definition _iter_files_sorted (root : string) (n : node)
  : outcome (list (list string * string)) :=
  match resolve n with
  | Some top => walk root [] top
  | None => Return []
  end.

(** [relative.as_posix()] *)
Definition as_posix (rel : list string) : string := Str.join "/" rel.

(** ** Path segments *)

Definition is_segment_char (c : ascii) : bool :=
  Str.is_alnum c || Ascii.eqb c "." || Ascii.eqb c "_" || Ascii.eqb c "+"
  || Ascii.eqb c "-".

Definition LF : ascii := ascii_of_nat 10.
Definition BACKSLASH : ascii := ascii_of_nat 92.

(** The rest of [_SAFE_SEGMENT_PATTERN] after its first character: characters
    of the class, then the end anchor.  In Python the end anchor of a
    pattern compiled without flags matches at the end of the string and
    also just before a line feed that is the last character. *)
Fixpoint segment_tail_match (s : string) : bool :=
  match s with
  | EmptyString => true
  | String c rest =>
      if is_segment_char c then segment_tail_match rest
      else Ascii.eqb c LF && String.eqb rest ""
  end.

(** [_SAFE_SEGMENT_PATTERN.match(value)] *)
Definition _SAFE_SEGMENT_PATTERN_match (value : string) : bool :=
  match value with
  | String c rest => Str.is_alnum c && segment_tail_match rest
  | EmptyString => false
  end.

Definition _validate_segment (value : pyval) (field : string)
  : outcome string :=
  match value with
  | PStr (String _ _ as s) =>
      if String.eqb s "." || String.eqb s ".." then
        Raise (DependencyError
                 [Lit (field +:+ " contains invalid path segment: ");
                  Repr value])
      else if Str.contains s "/" || Str.contains s (String BACKSLASH "") then
        Raise (DependencyError
                 [Lit (field +:+ " must not include path separators: ");
                  Repr value])
      else if negb (_SAFE_SEGMENT_PATTERN_match s) then
        Raise (DependencyError
                 [Lit (field +:+ " contains unsupported characters: ");
                  Repr value;
                  Lit ". Use letters, numbers, '.', '_', '+', or '-'."])
      else Return s
  | _ => Raise (DependencyError [Lit (field +:+ " must be a non-empty string")])
  end.

(** ** The immutability manifest *)

Definition manifest_entry (path sha256 : string) : pyval :=
  PDict [("path", PStr path); ("sha256", PStr sha256)].

(** The document [_write_immutability_manifest] serialises, its keys in the
    order [sort_keys=True] writes them and [json.load] reads them back. *)
Definition manifest_payload (name version : string)
    (files : list (string * string)) : pyval :=
  PDict [("algorithm", PStr "sha256");
         ("files", PList ((λ f, manifest_entry f.1 f.2) <$> files));
         ("name", PStr name);
         ("version", PStr version)].

Definition invalid_manifest (name version detail : string) : exn :=
  DependencyError
    [Lit ("Invalid immutability manifest for " +:+ name +:+ "@" +:+ version
          +:+ ": " +:+ detail)].

(** The loop of [_verify_immutability] that fills [expected_hashes]. *)
Fixpoint expected_hashes_from (name version : string) (files : list pyval)
    (expected_hashes : gmap string string) : outcome (gmap string string) :=
  match files with
  | [] => Return expected_hashes
  | entry :: rest =>
      match entry with
      | PDict fields =>
          match Py.dict_get fields "path" with
          | Some (PStr (String _ _ as rel_path)) =>
              match Py.dict_get fields "sha256" with
              | Some (PStr sha256) =>
                  if negb (String.length sha256 =? 64)%nat then
                    Raise (invalid_manifest name version
                             "sha256 must be a 64-char string")
                  else if bool_decide (rel_path ∈ dom expected_hashes) then
                    Raise (DependencyError
                             [Lit ("Invalid immutability manifest for "
                                   +:+ name +:+ "@" +:+ version
                                   +:+ ": duplicate path ");
                              Repr (PStr rel_path)])
                  else
                    expected_hashes_from name version rest
                      (<[rel_path := sha256]> expected_hashes)
              | _ =>
                  Raise (invalid_manifest name version
                           "sha256 must be a 64-char string")
              end
          | _ =>
              Raise (invalid_manifest name version
                       "file path must be a non-empty string")
          end
      | _ =>
          Raise (invalid_manifest name version
                   "file entries must be mappings")
      end
  end.

(** The list [details] of [_verify_immutability]. *)
Definition failure_details (missing_files extra_files changed_files
    : list string) : list string :=
  (match missing_files with
   | [] => []
   | _ => ["missing files: " +:+ Str.join ", " missing_files]
   end)
  ++ (match extra_files with
      | [] => []
      | _ => ["extra files: " +:+ Str.join ", " extra_files]
      end)
  ++ (match changed_files with
      | [] => []
      | _ => ["changed files: " +:+ Str.join ", " changed_files]
      end).

Definition immutability_failure (name version : string)
    (missing_files extra_files changed_files : list string) : exn :=
  DependencyError
    [Lit ("Immutability check failed for published module " +:+ name +:+ "@"
          +:+ version +:+ ": "
          +:+ Str.join "; "
                (failure_details missing_files extra_files changed_files))].

(** [sorted(set(expected_hashes) - set(actual_hashes))] and its two
    companions. *)
Definition missing_of (expected actual : gmap string string) : list string :=
  py_sorted Str.lt (elements (dom expected ∖ dom actual)).

Definition extra_of (expected actual : gmap string string) : list string :=
  py_sorted Str.lt (elements (dom actual ∖ dom expected)).

Definition changed_of (expected actual : gmap string string) : list string :=
  py_sorted Str.lt
    (filter (λ path, expected !! path ≠ actual !! path)
       (elements (dom expected ∩ dom actual))).

Section WithLibraries.

(** [hashlib.sha256(data).hexdigest()]; [json.load], with [None] when it
    raises; [json.dumps(..., sort_keys=True, separators=(",", ":"))];
    [yaml.safe_load] and [toml.load]. *)
Variable sha256_hex : string → string.
Variable json_load : string → option pyval.
Variable json_dumps_canonical : pyval → string.
Variable yaml_safe_load : string → outcome pyval.
Variable toml_load : string → outcome pyval.

(** The walked files other than the manifest itself, and what
    [_write_immutability_manifest] records and [_verify_immutability]
    recomputes for them. *)
Definition without_manifest (files : list (list string * string))
  : list (list string * string) :=
  filter (λ f, negb (String.eqb (as_posix f.1) IMMUTABILITY_MANIFEST_FILENAME))
         files.

Definition manifest_files (files : list (list string * string))
  : list (string * string) :=
  (λ f, (as_posix f.1, sha256_hex f.2)) <$> without_manifest files.

Definition actual_hashes_of (files : list (list string * string))
  : gmap string string :=
  foldl (λ hashes f, <[as_posix f.1 := sha256_hex f.2]> hashes) ∅
        (without_manifest files).

(** The text [_write_immutability_manifest] writes for the directory [n]. *)
Definition manifest_text (root name version : string) (n : node)
  : outcome string :=
  files ← _iter_files_sorted root n;
  Return (json_dumps_canonical
            (manifest_payload name version (manifest_files files))
          +:+ String LF "").

(** [_verify_immutability] of the directory [n] at the path [root].  The
    message for a manifest that cannot be read ends with the text of the
    exception of the JSON library, which is left out here. *)
Definition _verify_immutability (root : string) (n : node)
    (name version : string) : outcome unit :=
  match (entries_of n ≫= dir_lookup IMMUTABILITY_MANIFEST_FILENAME)
        ≫= resolve with
  | Some (File text) =>
      match json_load text with
      | None =>
          Raise (DependencyError
                   [Lit ("Invalid immutability manifest for " +:+ name
                         +:+ "@" +:+ version +:+ ": ")])
      | Some (PDict payload) =>
          let manifest_name := default PNone (Py.dict_get payload "name") in
          let manifest_version :=
            default PNone (Py.dict_get payload "version") in
          let algorithm := default PNone (Py.dict_get payload "algorithm") in
          if negb (Py.eqb manifest_name (PStr name))
             || negb (Py.eqb manifest_version (PStr version)) then
            Raise (DependencyError
                     [Lit ("Immutability manifest identity mismatch for "
                           +:+ name +:+ "@" +:+ version)])
          else if negb (Py.eqb algorithm (PStr "sha256")) then
            Raise (DependencyError
                     [Lit ("Unsupported immutability hash algorithm for "
                           +:+ name +:+ "@" +:+ version +:+ ": ");
                      Repr algorithm])
          else
            match Py.dict_get payload "files" with
            | Some (PList files) =>
                expected_hashes ← expected_hashes_from name version files ∅;
                walked ← _iter_files_sorted root n;
                let actual_hashes := actual_hashes_of walked in
                let missing_files := missing_of expected_hashes actual_hashes in
                let extra_files := extra_of expected_hashes actual_hashes in
                let changed_files := changed_of expected_hashes actual_hashes in
                match missing_files, extra_files, changed_files with
                | [], [], [] => Return tt
                | _, _, _ =>
                    Raise (immutability_failure name version missing_files
                             extra_files changed_files)
                end
            | _ =>
                Raise (invalid_manifest name version "files must be a list")
            end
      | Some _ =>
          Raise (invalid_manifest name version "root must be a mapping")
      end
  | _ =>
      Raise (DependencyError
               [Lit ("Immutability manifest missing for published module: "
                     +:+ name +:+ "@" +:+ version)])
  end.

(** ** The world of a registry call

    A call sees the tree at the registry root ([None] while the root does
    not exist) and, for [install], the tree at the module path, which lies
    outside the registry and is only read.  Every call of [os], [shutil],
    [open] or [Path] leaves a record of the place it touched. *)

Inductive access : Type :=
| InSource (rel : list string)
| InRegistry (rel : list string).

Record world : Type := {
  registry : option node;
  accesses : list access;
}.

Definition io (A : Type) : Type := world → outcome A * world.

Global Instance io_bind : MBind io := λ A B k m w,
  match m w with
  | (Return a, w') => k a w'
  | (Raise e, w') => (Raise e, w')
  end.
Global Instance io_ret : MRet io := λ A a w, (Return a, w).

Definition lift {A} (r : outcome A) : io A := λ w, (r, w).
Definition raise {A} (e : exn) : io A := lift (Raise e).

(** [try: body except Exception as err: handler(err)] *)
Definition try_except {A} (body : io A) (handler : exn → io A) : io A :=
  λ w, match body w with
       | (Raise e, w') => handler e w'
       | (Return a, w') => (Return a, w')
       end.

Definition touch (a : access) : io unit :=
  λ w, (Return tt,
        {| registry := registry w; accesses := accesses w ++ [a] |}).

Definition get_registry : io (option node) := λ w, (Return (registry w), w).

Definition set_registry (r : option node) : io unit :=
  λ w, (Return tt, {| registry := r; accesses := accesses w |}).

Definition lstat (path : list string) (r : option node) : option node :=
  r ≫= node_at path.

Definition stat (path : list string) (r : option node) : option node :=
  lstat path r ≫= resolve.

Definition os_path_exists (path : list string) : io bool :=
  touch (InRegistry path);;
  r ← get_registry;
  mret (match stat path r with Some _ => true | None => false end).

Definition os_path_isdir (path : list string) : io bool :=
  touch (InRegistry path);;
  r ← get_registry;
  mret (match stat path r with Some (Dir _) => true | _ => false end).

Definition os_listdir (path : list string) : io (list string) :=
  touch (InRegistry path);;
  r ← get_registry;
  match stat path r with
  | Some (Dir entries) => mret (entries.*1)
  | _ => raise (OSError [Lit "Not a directory"])
  end.

(** [os.makedirs(path, exist_ok=True)] on the tree [n]. *)
Fixpoint makedirs (path : list string) (n : option node) : outcome node :=
  match n with
  | None =>
      match path with
      | [] => Return (Dir [])
      | name :: rest =>
          child ← makedirs rest None; Return (Dir [(name, child)])
      end
  | Some n =>
      match path with
      | [] => if is_dir n then Return n else Raise (OSError [Lit "File exists"])
      | name :: rest =>
          match entries_of n with
          | None => Raise (OSError [Lit "Not a directory"])
          | Some entries =>
              child ← makedirs rest (dir_lookup name entries);
              Return (map_dir (dir_put name child) n)
          end
      end
  end.

Definition os_makedirs (path : list string) : io unit :=
  touch (InRegistry path);;
  r ← get_registry;
  made ← lift (makedirs path r);
  set_registry (Some made).

(** [shutil.rmtree] of the entry [leaf] of the directory at [dir]; it
    refuses a link and what is not a directory. *)
Definition shutil_rmtree (dir : list string) (leaf : string) : io unit :=
  touch (InRegistry (dir ++ [leaf]));;
  r ← get_registry;
  match lstat (dir ++ [leaf]) r with
  | Some (Dir _) => set_registry (alter_at dir (dir_remove leaf) <$> r)
  | _ => raise (OSError [Lit "Cannot call rmtree on this path"])
  end.

(** [Path.mkdir(parents=True, exist_ok=False)] *)
Definition mkdir_new (dir : list string) (leaf : string) : io unit :=
  touch (InRegistry (dir ++ [leaf]));;
  r ← get_registry;
  match lstat (dir ++ [leaf]) r with
  | Some _ => raise (OSError [Lit "File exists"])
  | None =>
      made ← lift (makedirs dir r);
      set_registry (Some (alter_at dir (dir_put leaf (Dir [])) made))
  end.

(** [target_path.parent.mkdir(parents=True, exist_ok=True)] and
    [shutil.copy2(file_path, target_path)] in the directory being filled,
    which holds directories and regular files only.  Where the target is a
    directory, [copy2] copies into it under the same name. *)
Fixpoint put_file (path : list string) (contents : string)
    (entries : list (string * node)) : outcome (list (string * node)) :=
  match path with
  | [] => Raise (OSError [Lit "Is a directory"])
  | name :: rest =>
      match rest with
      | [] =>
          match dir_lookup name entries with
          | Some (Dir inside) =>
              match dir_lookup name inside with
              | Some (Dir _) => Raise (OSError [Lit "Is a directory"])
              | _ =>
                  Return (dir_put name
                            (Dir (dir_put name (File contents) inside))
                            entries)
              end
          | _ => Return (dir_put name (File contents) entries)
          end
      | _ :: _ =>
          match dir_lookup name entries with
          | None =>
              sub ← put_file rest contents [];
              Return (dir_put name (Dir sub) entries)
          | Some (Dir sub) =>
              sub' ← put_file rest contents sub;
              Return (dir_put name (Dir sub') entries)
          | Some _ => Raise (OSError [Lit "Not a directory"])
          end
      end
  end.

Fixpoint copy_files (files : list (list string * string))
    (entries : list (string * node)) : outcome (list (string * node)) :=
  match files with
  | [] => Return entries
  | (path, contents) :: rest =>
      entries' ← put_file path contents entries;
      copy_files rest entries'
  end.

(** [os.path.join(a, b)] for a relative [b]. *)
Fixpoint ends_with_slash (s : string) : bool :=
  match s with
  | EmptyString => false
  | String c EmptyString => Ascii.eqb c "/"
  | String _ rest => ends_with_slash rest
  end.

Definition os_path_join (a b : string) : string :=
  if String.eqb a "" || ends_with_slash a then a +:+ b
  else a +:+ "/" +:+ b.

(** ** schema.load_prompt_module, reading the module directory [src] *)

Definition read_text (n : option node) : outcome string :=
  match n with
  | Some (File contents) => Return contents
  | _ => Raise (OSError [Lit "Cannot read this path"])
  end.

Definition source_stat (src : option node) (rel : list string) : option node :=
  (src ≫= node_at rel) ≫= resolve.

Definition source_exists (src : option node) (rel : list string) : io bool :=
  touch (InSource rel);;
  mret (match source_stat src rel with Some _ => true | None => false end).

Definition source_read (src : option node) (rel : list string) : io string :=
  touch (InSource rel);;
  lift (read_text (source_stat src rel)).

Definition module_of_document (raw : pyval) (source : string)
  : outcome Schema.PromptModule :=
  match raw with
  | PDict entries => Return (Schema.mk_PromptModule entries source)
  | _ => Raise (ValidationError [Lit "Module definition must be a mapping"])
  end.

Definition load_prompt_module (path : string) (src : option node)
  : io Schema.PromptModule :=
  let yaml_path := os_path_join path "promptpm.yaml" in
  let toml_path := os_path_join path "promptpm.toml" in
  has_yaml ← source_exists src ["promptpm.yaml"];
  if has_yaml : bool then
    text ← source_read src ["promptpm.yaml"];
    raw ← lift (yaml_safe_load text);
    lift (module_of_document raw yaml_path)
  else
    has_toml ← source_exists src ["promptpm.toml"];
    if has_toml : bool then
      text ← source_read src ["promptpm.toml"];
      raw ← lift (toml_load text);
      lift (module_of_document raw toml_path)
    else
      raise (ValidationError [Lit "Missing promptpm.yaml or promptpm.toml"]).

(** ** LocalRegistry *)

(** [self.root_path], an absolute path, and [os.path.abspath]. *)
Variable root_path : string.
Variable abspath : string → string.

(** [value[key]] *)
Definition subscript (value : pyval) (key : string) : outcome pyval :=
  match value with
  | PDict entries =>
      match Py.dict_get entries key with
      | Some v => Return v
      | None => Raise (KeyError [Repr (PStr key)])
      end
  | _ => Raise (TypeError [Lit "object is not subscriptable"])
  end.

(** [_module_directory], as components below the registry root. *)
Definition _module_directory (name version : string) : list string :=
  [MODULES_DIRNAME; name; version].

Definition _copy_tree_deterministic (source_dir : string) (src : option node)
    (dir : list string) (leaf : string) : io unit :=
  mkdir_new dir leaf;;
  touch (InSource []);;
  files ← lift (_iter_files_sorted source_dir (default (Symlink None) src));
  copied ← lift (copy_files files []);
  touch (InRegistry (dir ++ [leaf]));;
  r ← get_registry;
  set_registry (alter_at dir (dir_put leaf (Dir copied)) <$> r).

Definition _write_immutability_manifest (dir : list string) (leaf : string)
    (name version : string) : io unit :=
  touch (InRegistry (dir ++ [leaf]));;
  r ← get_registry;
  let root_dir := default (Symlink None) (lstat (dir ++ [leaf]) r) in
  text ← lift (manifest_text (path_str root_path (dir ++ [leaf])) name version
                 root_dir);
  match entries_of root_dir with
  | None => raise (OSError [Lit "No such file or directory"])
  | Some entries =>
      match dir_lookup IMMUTABILITY_MANIFEST_FILENAME entries ≫= resolve with
      | Some (Dir _) => raise (OSError [Lit "Is a directory"])
      | _ =>
          set_registry
            (alter_at (dir ++ [leaf])
               (dir_put IMMUTABILITY_MANIFEST_FILENAME (File text)) <$> r)
      end
  end.

(** [os.replace] of one entry of the directory at [dir] by another. *)
Definition os_replace (dir : list string) (source destination : string)
  : io unit :=
  touch (InRegistry (dir ++ [destination]));;
  r ← get_registry;
  match lstat (dir ++ [source]) r, lstat (dir ++ [destination]) r with
  | Some moved, (None | Some (Dir [])) =>
      set_registry
        (alter_at dir (λ entries,
                         dir_put destination moved (dir_remove source entries))
         <$> r)
  | _, _ => raise (OSError [Lit "Cannot replace this path"])
  end.

Definition install (module_path : string) (src : option node)
  : io InstalledModule :=
  module ← load_prompt_module module_path src;
  lift (Schema.validate_prompt_module module);;
  raw_name ← lift (subscript (Schema.module module) "name");
  name ← lift (_validate_segment raw_name "module.name");
  raw_version ← lift (subscript (Schema.module module) "version");
  version ← lift (_validate_segment raw_version "module.version");
  let destination := _module_directory name version in
  let parent := [MODULES_DIRNAME; name] in
  taken ← os_path_exists destination;
  if taken : bool then
    raise (DependencyError
             [Lit ("Module already installed: " +:+ name +:+ "@" +:+ version
                   +:+ ". Published versions are immutable and cannot be "
                   +:+ "overwritten.")])
  else
    touch (InSource []);;
    if negb (match source_stat src [] with Some (Dir _) => true | _ => false end)
    then
      raise (DependencyError
               [Lit ("Module path must be a directory: "
                     +:+ abspath module_path)])
    else
      let temp := version +:+ ".tmp" in
      os_makedirs parent;;
      stale ← os_path_exists (parent ++ [temp]);
      (if stale : bool then shutil_rmtree parent temp else mret tt);;
      try_except
        (_copy_tree_deterministic (abspath module_path) src parent temp;;
         _write_immutability_manifest parent temp name version;;
         os_replace parent temp version)
        (λ err,
           left_over ← os_path_isdir (parent ++ [temp]);
           (if left_over : bool then shutil_rmtree parent temp else mret tt);;
           raise (DependencyError
                    (Lit ("Failed to install module " +:+ name +:+ "@"
                          +:+ version +:+ ": ")
                     :: Resolver.exn_message err)));;
      mret {| im_name := name; im_version := version;
              im_path := path_str root_path destination |}.

Definition verify_at (path : list string) (name version : string) : io unit :=
  touch (InRegistry path);;
  r ← get_registry;
  lift (_verify_immutability (path_str root_path path)
          (default (Symlink None) (lstat path r)) name version).

Definition lookup (name version : pyval) : io InstalledModule :=
  safe_name ← lift (_validate_segment name "name");
  safe_version ← lift (_validate_segment version "version");
  let path := _module_directory safe_name safe_version in
  found ← os_path_isdir path;
  if negb found then
    raise (DependencyError
             [Lit ("Module not found: " +:+ safe_name +:+ "@"
                   +:+ safe_version)])
  else
    verify_at path safe_name safe_version;;
    mret {| im_name := safe_name; im_version := safe_version;
            im_path := path_str root_path path |}.

(** The loop of [list_by_name]. *)
Fixpoint list_versions (safe_name : string) (versions : list string)
  : io (list InstalledModule) :=
  match versions with
  | [] => mret []
  | version :: rest =>
      let path := _module_directory safe_name version in
      found ← os_path_isdir path;
      if negb found then list_versions safe_name rest
      else
        safe_version ← lift (_validate_segment (PStr version) "version");
        verify_at path safe_name safe_version;;
        more ← list_versions safe_name rest;
        mret ({| im_name := safe_name; im_version := safe_version;
                 im_path := path_str root_path path |} :: more)
  end.

Definition list_by_name (name : pyval) : io (list InstalledModule) :=
  safe_name ← lift (_validate_segment name "name");
  let module_dir := [MODULES_DIRNAME; safe_name] in
  found ← os_path_isdir module_dir;
  if negb found then mret []
  else
    versions ← os_listdir module_dir;
    list_versions safe_name (py_sorted Str.lt versions).

(** The loop of [list_installed]. *)
Fixpoint list_names (names : list string) : io (list InstalledModule) :=
  match names with
  | [] => mret []
  | name :: rest =>
      found ← os_path_isdir [MODULES_DIRNAME; name];
      if negb found then list_names rest
      else
        safe_name ← lift (_validate_segment (PStr name) "name");
        listed ← list_by_name (PStr safe_name);
        more ← list_names rest;
        mret (listed ++ more)
  end.

Definition list_installed : io (list InstalledModule) :=
  found ← os_path_isdir [MODULES_DIRNAME];
  if negb found then mret []
  else
    names ← os_listdir [MODULES_DIRNAME];
    list_names (py_sorted Str.lt names).

Definition has_version (name version : pyval) : io bool :=
  safe_name ← lift (_validate_segment name "name");
  safe_version ← lift (_validate_segment version "version");
  os_path_isdir (_module_directory safe_name safe_version).

End WithLibraries.

End Registry.

(** ** Notions for the registry *)

(** The grammar of a path segment as the specification words it: the
    pattern matched against the whole string, neither dot name, and no
    separator. *)
Definition whole_match (s : string) : bool :=
  match s with
  | String c rest =>
      Str.is_alnum c && Str.forallb Registry.is_segment_char rest
  | EmptyString => false
  end.

Definition acceptable_segment (s : string) : Prop :=
  whole_match s = true ∧ s ≠ "." ∧ s ≠ ".."
  ∧ Str.contains s "/" = false
  ∧ Str.contains s (String Registry.BACKSLASH "") = false.

Fixpoint ends_with_line_feed (s : string) : bool :=
  match s with
  | EmptyString => false
  | String c EmptyString => Ascii.eqb c Registry.LF
  | String _ rest => ends_with_line_feed rest
  end.

Definition in_source (a : Registry.access) : Prop :=
  match a with Registry.InSource _ => True | Registry.InRegistry _ => False end.

(** A world that differs from [w] by reads of the module directory only:
    the registry is as it was and was not touched. *)
Definition source_reads (w w' : Registry.world) : Prop :=
  Registry.registry w' = Registry.registry w
  ∧ ∃ touched, Registry.accesses w' = Registry.accesses w ++ touched
               ∧ Forall in_source touched.

(** A call that ends in a [DependencyError] having touched nothing, and one
    that ends so having touched the module directory only. *)
Definition rejected_untouched {A} (w : Registry.world)
    (r : outcome A * Registry.world) : Prop :=
  ∃ msg, r = (Raise (DependencyError msg), w).

Definition rejected_after_reading {A} (w : Registry.world)
    (r : outcome A * Registry.world) : Prop :=
  (∃ msg, r.1 = Raise (DependencyError msg)) ∧ source_reads w r.2.

(** A call that ends in a [DependencyError] having done no more than ask
    whether the registry entry at [path] is a directory. *)
Definition rejected_at_entry {A} (path : list string) (w : Registry.world)
    (r : outcome A * Registry.world) : Prop :=
  ∃ msg,
    r = (Raise (DependencyError msg),
         {| Registry.registry := Registry.registry w;
            Registry.accesses :=
              Registry.accesses w ++ [Registry.InRegistry path] |}).

Definition is_directory (path : list string) (w : Registry.world) : Prop :=
  ∃ entries,
    Registry.stat path (Registry.registry w) = Some (Registry.Dir entries).

(** A module directory holding a YAML file and a template, a YAML loader
    that answers with the document of a module called [name], and the
    libraries left out of a call that does not reach them. *)
Definition sample_source : Registry.node :=
  Registry.Dir [("promptpm.yaml", Registry.File "module");
                ("prompt.txt", Registry.File "hello")].

Definition sample_yaml (name version : string) (text : string)
  : outcome pyval :=
  Return (PDict (sample_document name version (PStr "prompt.txt") [])).

Definition no_toml (text : string) : outcome pyval :=
  Raise (ValidationError []).

Definition empty_world : Registry.world :=
  {| Registry.registry := None; Registry.accesses := [] |}.

(** The name and the version a module document declares. *)
Definition module_identity (m : Schema.PromptModule) (name version : pyval)
  : Prop :=
  Registry.subscript (Schema.module m) "name" = Return name
  ∧ Registry.subscript (Schema.module m) "version" = Return version.

(** A digest function for the examples: the contents padded with zeros or
    cut to 64 characters. *)
Fixpoint pad64 (n : nat) (s : string) : string :=
  match n with
  | O => ""
  | S n' =>
      match s with
      | String c rest => String c (pad64 n' rest)
      | EmptyString => String "0" (pad64 n' "")
      end
  end.

Definition sample_sha256 (contents : string) : string := pad64 64 contents.

(** [install] of a module whose document gives the name [name], into a
    registry that does not exist yet. *)
Definition sample_install (name : string)
  : outcome InstalledModule * Registry.world :=
  Registry.install sample_sha256 plain_dumps (sample_yaml name "1.0.0")
    no_toml "/registry" id "pkg" (Some sample_source) empty_world.

(** ** Trees of a real file system *)

Fixpoint distinct (names : list string) : bool :=
  match names with
  | [] => true
  | name :: rest => negb (existsb (String.eqb name) rest) && distinct rest
  end.

(** A directory entry has a name that is not empty and holds no slash. *)
Definition good_name (name : string) : bool :=
  negb (String.eqb name "") && negb (Str.existsb (Ascii.eqb "/") name).

(** The entries of every directory have good names, no two the same. *)
Fixpoint well_formed (n : Registry.node) : bool :=
  match n with
  | Registry.Dir entries =>
      distinct entries.*1
      && (fix all (es : list (string * Registry.node)) : bool :=
            match es with
            | [] => true
            | (name, child) :: rest =>
                good_name name && well_formed child && all rest
            end) entries
  | Registry.Symlink (Some target) => well_formed target
  | _ => true
  end.

(** No symbolic link in the directory or below it. *)
Fixpoint link_free (n : Registry.node) : bool :=
  match n with
  | Registry.Dir entries =>
      (fix all (es : list (string * Registry.node)) : bool :=
         match es with
         | [] => true
         | (_, child) :: rest => link_free child && all rest
         end) entries
  | Registry.Symlink _ => false
  | _ => true
  end.

(** The regular file at the path [comps] below [n]. *)
Definition file_at (comps : list string) (n : Registry.node) : option string :=
  match Registry.node_at comps n with
  | Some (Registry.File contents) => Some contents
  | _ => None
  end.

(** The regular files of a tree in the order of its listings, files before
    subdirectories: what the walk enumerates, before any sorting. *)
Definition file_piece (rel : list string) (e : string * Registry.node)
  : option (list string * string) :=
  match e.2 with
  | Registry.File contents => Some (rel ++ [e.1], contents)
  | _ => None
  end.

Fixpoint tree_files (rel : list string) (n : Registry.node)
  : list (list string * string) :=
  match n with
  | Registry.Dir entries =>
      omap (file_piece rel) entries
      ++ (fix deeper (es : list (string * Registry.node)) :=
            match es with
            | [] => []
            | (name, child) :: rest =>
                match child with
                | Registry.Dir _ =>
                    tree_files (rel ++ [name]) child ++ deeper rest
                | _ => deeper rest
                end
            end) entries
  | _ => []
  end.

(** The walks of the subdirectories of a directory, in listing order. *)
Definition subdir_walks (root : string) (rel : list string)
    (entries : list (string * Registry.node))
  : list (string * outcome (list (list string * string))) :=
  omap (λ e, match e.2 with
             | Registry.Dir _ =>
                 Some (e.1, Registry.walk root (rel ++ [e.1]) e.2)
             | _ => None
             end) entries.

Definition returned {A} (r : outcome (list A)) : list A :=
  match r with Return xs => xs | Raise _ => [] end.

Definition is_real_dir (n : Registry.node) : bool :=
  match n with Registry.Dir _ => true | _ => false end.

(** ** Notions for the immutability check *)

(** The directory [n] holds, apart from the manifest, a regular file at the
    relative path [path] whose digest is [digest]. *)
Definition on_disk (sha256_hex : string → string) (n : Registry.node)
    (path digest : string) : Prop :=
  path ≠ Registry.IMMUTABILITY_MANIFEST_FILENAME
  ∧ ∃ comps contents,
      comps ≠ [] ∧ Registry.as_posix comps = path
      ∧ file_at comps n = Some contents ∧ sha256_hex contents = digest.

Definition alphabetical (l : list string) : Prop :=
  StronglySorted (λ a b, String.compare a b ≠ Gt) l.

(** The manifest [text] is the one [install] wrote for the tree [n0] it had
    copied, and reading it gives back the document that was written. *)
Definition manifest_written (sha256_hex : string → string)
    (json_dumps_canonical : pyval → string)
    (json_load : string → option pyval)
    (root0 : string) (n0 : Registry.node) (name version text : string)
  : Prop :=
  well_formed n0 = true ∧ link_free n0 = true
  ∧ ∃ files0,
      Registry._iter_files_sorted root0 n0 = Return files0
      ∧ Registry.manifest_text sha256_hex json_dumps_canonical root0 name
          version n0 = Return text
      ∧ json_load text
        = Some (Registry.manifest_payload name version
                  (Registry.manifest_files sha256_hex files0)).

(** The files [install] copies from the sample module directory, the
    manifest text written for them by a serialiser that writes nothing, a
    loader that answers with the document that was written, and three
    states of the installed directory: as installed, edited (one file
    removed, one changed, one added), and with a dangling symbolic link
    added. *)
Definition sample_tree : Registry.node := sample_source.

Definition sample_manifest_text : string := String Registry.LF "".

Definition sample_json_load (text : string) : option pyval :=
  match Registry._iter_files_sorted "/tmp/demo" sample_tree with
  | Return files =>
      Some (Registry.manifest_payload "demo" "1.0.0"
              (Registry.manifest_files sample_sha256 files))
  | Raise _ => None
  end.

Definition installed_tree : Registry.node :=
  Registry.Dir [(Registry.IMMUTABILITY_MANIFEST_FILENAME,
                 Registry.File sample_manifest_text);
                ("promptpm.yaml", Registry.File "module");
                ("prompt.txt", Registry.File "hello")].

Definition edited_tree : Registry.node :=
  Registry.Dir [(Registry.IMMUTABILITY_MANIFEST_FILENAME,
                 Registry.File sample_manifest_text);
                ("prompt.txt", Registry.File "changed");
                ("notes.txt", Registry.File "new")].

Definition linked_tree : Registry.node :=
  Registry.Dir [(Registry.IMMUTABILITY_MANIFEST_FILENAME,
                 Registry.File sample_manifest_text);
                ("promptpm.yaml", Registry.File "module");
                ("prompt.txt", Registry.File "hello");
                ("latest", Registry.Symlink None)].

Definition sample_verify (n : Registry.node) : outcome unit :=
  Registry._verify_immutability sample_sha256 sample_json_load
    "/registry/modules/demo/1.0.0" n "demo" "1.0.0".

(** ** Notions for [install] *)

(** The entries of the directory at [path] below the registry root. *)
Definition dir_at (path : list string) (r : option Registry.node)
  : option (list (string * Registry.node)) :=
  (r ≫= Registry.node_at path) ≫= Registry.entries_of.

(** Every component of [path] that exists is a directory, so that
    [os.makedirs(path, exist_ok=True)] has nothing in its way. *)
Fixpoint dirs_or_absent (path : list string) (r : option Registry.node)
  : bool :=
  match r with
  | None => true
  | Some n =>
      match path with
      | [] => Registry.is_dir n
      | name :: rest =>
          match Registry.entries_of n with
          | Some entries =>
              dirs_or_absent rest (Registry.dir_lookup name entries)
          | None => false
          end
      end
  end.

(** The tree [t] is made of directories and regular files that the tree
    [s] has at the same places with the same contents. *)
Fixpoint embeds (t s : Registry.node) : Prop :=
  match t with
  | Registry.File contents => s = Registry.File contents
  | Registry.Dir entries =>
      ∃ source, s = Registry.Dir source
        ∧ (fix all (es : list (string * Registry.node)) : Prop :=
             match es with
             | [] => True
             | (name, child) :: rest =>
                 (∃ original, Registry.dir_lookup name source = Some original
                              ∧ embeds child original)
                 ∧ all rest
             end) entries
  | _ => False
  end.

(** A module directory that [install] can copy: a directory, well formed,
    free of symbolic links, with no subdirectory that has the name of the
    manifest file. *)
Definition copyable (src : option Registry.node) : Prop :=
  ∃ entries,
    src = Some (Registry.Dir entries)
    ∧ well_formed (Registry.Dir entries) = true
    ∧ link_free (Registry.Dir entries) = true
    ∧ ∀ sub, Registry.dir_lookup Registry.IMMUTABILITY_MANIFEST_FILENAME
               entries ≠ Some (Registry.Dir sub).

(** A registry in which [name]@[version] can be installed: the directories
    down to [modules/name] exist or can be made, nothing is at
    [modules/name/version], and [modules/name/version.tmp] is absent or a
    directory left behind. *)
Definition vacant (r : option Registry.node) (name version : string) : Prop :=
  dirs_or_absent [Registry.MODULES_DIRNAME; name] r = true
  ∧ Registry.lstat [Registry.MODULES_DIRNAME; name; version] r = None
  ∧ (Registry.lstat [Registry.MODULES_DIRNAME; name; version +:+ ".tmp"] r
     = None
     ∨ ∃ entries,
         Registry.lstat [Registry.MODULES_DIRNAME; name; version +:+ ".tmp"] r
         = Some (Registry.Dir entries)).

Definition already_installed (name version : string) : exn :=
  DependencyError
    [Lit ("Module already installed: " +:+ name +:+ "@" +:+ version
          +:+ ". Published versions are immutable and cannot be "
          +:+ "overwritten.")].

(** ** A serialiser for manifest documents

    For the examples: a writer of manifest documents and a reader that
    undoes it.  Every string is written as its length in strokes, a stop,
    and the string itself; the name, the version and then the path and
    the digest of every file follow each other. *)

Fixpoint strokes (n : nat) : string :=
  match n with
  | O => ""
  | S n' => String "1" (strokes n')
  end.

Definition write_string (s : string) : string :=
  strokes (String.length s) +:+ String "0" s.

Fixpoint take_string (n : nat) (text : string) : option (string * string) :=
  match n with
  | O => Some ("", text)
  | S n' =>
      match text with
      | String c rest =>
          '(s, rest') ← take_string n' rest; Some (String c s, rest')
      | EmptyString => None
      end
  end.

Fixpoint read_string_from (count : nat) (text : string)
  : option (string * string) :=
  match text with
  | String c rest =>
      if Ascii.eqb c "1" then read_string_from (S count) rest
      else if Ascii.eqb c "0" then take_string count rest
      else None
  | EmptyString => None
  end.

Definition read_string : string → option (string * string) :=
  read_string_from 0.

Definition write_entry (entry : pyval) : string :=
  match entry with
  | PDict [(_, PStr path); (_, PStr sha256)] =>
      write_string path +:+ write_string sha256
  | _ => ""
  end.

Definition manifest_dumps (doc : pyval) : string :=
  match doc with
  | PDict [(_, _); (_, PList files); (_, PStr name); (_, PStr version)] =>
      write_string name +:+ write_string version
      +:+ foldr (λ entry text, write_entry entry +:+ text) "" files
  | _ => ""
  end.

Fixpoint read_files (fuel : nat) (text : string)
  : option (list (string * string)) :=
  match fuel with
  | O => None
  | S fuel' =>
      if String.eqb text (String Registry.LF "") then Some []
      else
        '(path, rest) ← read_string text;
        '(sha256, rest') ← read_string rest;
        more ← read_files fuel' rest';
        Some ((path, sha256) :: more)
  end.

Definition manifest_load (text : string) : option pyval :=
  '(name, rest) ← read_string text;
  '(version, rest') ← read_string rest;
  files ← read_files (S (String.length rest')) rest';
  Some (Registry.manifest_payload name version files).

(** [install] of the sample module into a registry that does not exist
    yet, with the serialiser of manifests above. *)
Definition sample_published : outcome InstalledModule * Registry.world :=
  Registry.install sample_sha256 manifest_dumps (sample_yaml "demo" "1.0.0")
    no_toml "/registry" id "pkg" (Some sample_source) empty_world.

(** The sample module directory with a dangling symbolic link added. *)
Definition linked_source : Registry.node :=
  Registry.Dir [("promptpm.yaml", Registry.File "module");
                ("prompt.txt", Registry.File "hello");
                ("latest", Registry.Symlink None)].

(** ** Notions for the listings *)

(** [os.path.isdir] of a path below the registry root. *)
Definition is_dir_at (path : list string) (r : option Registry.node) : bool :=
  match Registry.stat path r with
  | Some (Registry.Dir _) => true
  | _ => false
  end.

(** The names [os.listdir] gives for a path below the registry root,
    none where the path is not a directory. *)
Definition names_at (path : list string) (r : option Registry.node)
  : list string :=
  match Registry.stat path r with
  | Some (Registry.Dir entries) => entries.*1
  | _ => []
  end.

(** The module directory [modules/name/version] passes the immutability
    check. *)
Definition verified_at (sha256_hex : string → string)
    (json_load : string → option pyval) (root_path : string)
    (r : option Registry.node) (name version : string) : Prop :=
  Registry._verify_immutability sha256_hex json_load
    (Registry.path_str root_path [Registry.MODULES_DIRNAME; name; version])
    (default (Registry.Symlink None)
       (Registry.lstat [Registry.MODULES_DIRNAME; name; version] r))
    name version
  = Return tt.

(** ** Notions for printed versions *)

(** The characters of a printed version: those of identifiers, the dot
    and the plus sign. *)
Definition version_char (c : ascii) : bool :=
  Semver.is_identifier_char c || Ascii.eqb c "." || Ascii.eqb c "+".

(** The tokens of one alternative of a range: the words between white
    space and commas. *)
Definition tokens_of (text : string) : list string :=
  Str.split_ws (Semver.commas_to_spaces text).

(** A text without the bar of the OR separator. *)
Definition bar_free (text : string) : Prop :=
  Str.forallb (λ c, negb (Ascii.eqb c "|")) text = true.

(** The range of one alternative with the comparators [comparators]. *)
Definition conjunction (comparators : list Semver.VersionComparator)
  : Semver.VersionRange :=
  {| Semver.alternatives := [comparators] |}.

(** The spellings of a comparator: the operator texts of
    [_parse_range_token] and the bare version, which means equality. *)
Definition comparator_texts : list (string * Semver.ComparatorOperator) :=
  ("", Semver.OpEq) :: Semver.operator_table.

(** The upper bound [_parse_range_token] computes for [~X.Y.Z]. *)
Definition tilde_upper (base : Semver.SemanticVersion)
  : Semver.SemanticVersion :=
  core_version (Semver.major base) (Semver.minor base + 1) 0.

(** ** Notions for validated modules *)

(** The mapping [entries] has every key of [keys]. *)
Definition has_keys (entries : list (string * pyval)) (keys : list string)
  : Prop :=
  Forall (λ key, Py.dict_has entries key = true) keys.

(** The placeholder is the name of one of the interface inputs. *)
Definition declared (inputs : list pyval) (placeholder : pyval) : Prop :=
  ∃ fields,
    PDict fields ∈ inputs
    ∧ Py.eqb placeholder (default PNone (Py.dict_get fields "name")) = true.

(** A module whose interface is a list. *)
Definition list_interface_module : Schema.PromptModule :=
  Schema.mk_PromptModule
    [("module", sample_metadata "demo" "1.0.0");
     ("prompt", PDict [("template", PStr "prompt.txt");
                       ("placeholders", PList [])]);
     ("interface", PList [])]
    "promptpm.yaml".

(** ** Notions for dependency declarations *)

(** The order of the sort key [(entry.name, entry.version_range)]. *)
Definition spec_compare (a b : Resolver.DependencySpec) : comparison :=
  lexc (String.compare (Resolver.name a) (Resolver.name b))
       (String.compare (Resolver.version_range a) (Resolver.version_range b)).

(** The specification [d] is what one of the entries declares: its name,
    and its version text without the white space around it. *)
Definition declared_by (entries : list pyval) (d : Resolver.DependencySpec)
  : Prop :=
  ∃ fields range,
    PDict fields ∈ entries
    ∧ Py.dict_get fields "name" = Some (PStr (Resolver.name d))
    ∧ Py.dict_get fields "version" = Some (PStr range)
    ∧ Resolver.version_range d = Str.strip range.

(** ** A registry with a dependency cycle

    The root module needs [dep-a], [dep-a@1.0.0] needs [dep-b] and
    [dep-b@1.0.0] needs [dep-a] again. *)

Definition cyclic_list_by_name (name : string)
  : outcome (list InstalledModule) :=
  if String.eqb name "dep-a" then Return [sample_installed "dep-a" "1.0.0"]
  else if String.eqb name "dep-b" then Return [sample_installed "dep-b" "1.0.0"]
  else Return [].

Definition cyclic_read_module_file (path : string)
  : outcome (list (string * pyval) * string) :=
  let document name version deps :=
    Return (sample_document name version (PStr "template.prompt")
              [("dependencies", PList deps)],
            path +:+ "/promptpm.yaml") in
  if String.eqb path "/work/root" then
    document "root" "1.0.0" [dependency_entry "dep-a" ">=1.0.0"]
  else if String.eqb path "/registry/modules/dep-a/1.0.0" then
    document "dep-a" "1.0.0" [dependency_entry "dep-b" ">=1.0.0"]
  else if String.eqb path "/registry/modules/dep-b/1.0.0" then
    document "dep-b" "1.0.0" [dependency_entry "dep-a" "^1.0.0"]
  else Raise (ValidationError [Lit "Missing promptpm.yaml or promptpm.toml"]).

Section CycleNotions.
Variable list_by_name : string → outcome (list InstalledModule).
Variable read_module_file : string → outcome (list (string * pyval) * string).

(** The first dependency that the installed module [m] declares selects
    the installed module [m']. *)
Definition first_dependency (m m' : InstalledModule) : Prop :=
  ∃ d rest,
    Resolver.dependencies_of read_module_file (im_path m)
      (Resolver.node_id_of m) = Return (d :: rest)
    ∧ selects list_by_name (Resolver.node_id_of m) d m'.

(** From [m], following first dependencies goes through the modules of
    [chain] in turn and then to [back]. *)
Fixpoint chain_from (m : InstalledModule) (chain : list InstalledModule)
    (back : InstalledModule) : Prop :=
  match chain with
  | [] => first_dependency m back
  | m' :: rest => first_dependency m m' ∧ chain_from m' rest back
  end.

End CycleNotions.

(** * promptpm/core/test_runner.py: parsing and running the tests *)

Module TestRun.

Record TestRunResult : Type := {
  total : Z;
  passed : Z;
  failed : Z;
  results : list TestRunner.TestCaseResult;
}.

Definition assertion_at (index assertion_index : Z) : string :=
  "tests[" +:+ str_of_int index +:+ "].assertions["
  +:+ str_of_int assertion_index +:+ "]".

(** The inner loop of [_parse_tests]: an assertion is a mapping with one
    item, kept as that item. *)
Fixpoint normalize_assertions (index assertion_index : Z)
    (assertions : list pyval) : outcome (list (string * pyval)) :=
  match assertions with
  | [] => Return []
  | assertion :: rest =>
      match assertion with
      | PDict [item] =>
          more ← normalize_assertions index (assertion_index + 1) rest;
          Return (item :: more)
      | PDict _ =>
          Raise (ValidationError
                   [Lit (assertion_at index assertion_index
                         +:+ " must define exactly one assertion")])
      | _ =>
          Raise (ValidationError
                   [Lit (assertion_at index assertion_index
                         +:+ " must be a mapping")])
      end
  end.

(** The outer loop of [_parse_tests]. *)
Fixpoint parse_test_entries (index : Z) (entries : list pyval)
  : outcome (list TestRunner._ParsedTestCase) :=
  match entries with
  | [] => Return []
  | test_case :: rest =>
      match test_case with
      | PDict fields =>
          match Py.dict_get fields "name" with
          | Some (PStr name) =>
              match Str.strip name with
              | EmptyString =>
                  Raise (ValidationError
                           [Lit ("tests[" +:+ str_of_int index
                                 +:+ "].name must be a non-empty string")])
              | stripped =>
                  match default (PDict []) (Py.dict_get fields "inputs") with
                  | PDict inputs =>
                      match Py.dict_get fields "assertions" with
                      | Some (PList assertions) =>
                          normalized ←
                            normalize_assertions index 0 assertions;
                          more ← parse_test_entries (index + 1) rest;
                          Return
                            ({| TestRunner.name := stripped;
                                TestRunner.inputs := inputs;
                                TestRunner.assertions := normalized;
                                TestRunner.original_index := index |}
                             :: more)
                      | _ =>
                          Raise (ValidationError
                                   [Lit ("tests[" +:+ str_of_int index
                                         +:+ "].assertions must be a list")])
                      end
                  | _ =>
                      Raise (ValidationError
                               [Lit ("tests[" +:+ str_of_int index
                                     +:+ "].inputs must be a mapping")])
                  end
              end
          | _ =>
              Raise (ValidationError
                       [Lit ("tests[" +:+ str_of_int index
                             +:+ "].name must be a non-empty string")])
          end
      | _ =>
          Raise (ValidationError
                   [Lit ("tests[" +:+ str_of_int index
                         +:+ "] must be a mapping")])
      end
  end.

(** [sorted] key of [_parse_tests]: the tuples
    [(entry.name, entry.original_index)]. *)
Definition test_lt (a b : TestRunner._ParsedTestCase) : bool :=
  Str.lt (TestRunner.name a) (TestRunner.name b)
  || (String.eqb (TestRunner.name a) (TestRunner.name b)
      && (TestRunner.original_index a <? TestRunner.original_index b)).

Definition _parse_tests (raw_tests : pyval)
  : outcome (list TestRunner._ParsedTestCase) :=
  match raw_tests with
  | PNone | PList [] => Return []
  | PList entries =>
      parsed ← parse_test_entries 0 entries;
      Return (py_sorted test_lt parsed)
  | _ => Raise (ValidationError [Lit "tests must be a list"])
  end.

Section WithFiles.

(** The reading of the module file at a directory, as for the resolver;
    the JSON library; [os.path.dirname(os.path.abspath(source_path))];
    [os.path.abspath(os.path.join(module_root, rel))]; and, for a path at
    which [os.path.isfile] finds a regular file, the outcome of reading
    it: its text, or the exception that [open] or [read] raises. *)
Variable read_module_file : string → outcome (list (string * pyval) * string).
Variable json_loads : string → option pyval.
Variable json_dumps : pyval → string.
Variable json_dumps_compact : pyval → string.
Variable module_root_of : string → string.
Variable path_under : string → string → string.
Variable read_file : string → option (outcome string).

Definition _load_template (source_path : string) (prompt_block : pyval)
  : outcome string :=
  match prompt_block with
  | PDict entries =>
      match Py.dict_get entries "template" with
      | Some (PStr (String c rel)) =>
          let module_root := module_root_of source_path in
          let template_path := path_under module_root (String c rel) in
          match read_file template_path with
          | Some contents => contents
          | None =>
              Raise (ValidationError
                       [Lit ("Template file not found: " +:+ template_path)])
          end
      | _ =>
          Raise (ValidationError
                   [Lit "prompt.template must be a non-empty string"])
      end
  | _ => Raise (AttributeError [])
  end.

(** [_resolve_input_value] reads the file a string input names. *)
Definition read_input_file (module_root value : string)
  : option (outcome string) :=
  read_file (path_under module_root value).

(** The loop of [run_prompt_module_tests] over the parsed tests. *)
Fixpoint run_cases (template module_root : string)
    (parsed_tests : list TestRunner._ParsedTestCase)
  : outcome (list TestRunner.TestCaseResult) :=
  match parsed_tests with
  | [] => Return []
  | test_case :: rest =>
      rendered_output ←
        TestRunner._render_template json_dumps_compact read_input_file
          template (TestRunner.inputs test_case) module_root;
      failures ←
        TestRunner._evaluate_assertions json_loads json_dumps
          (TestRunner.name test_case) rendered_output
          (TestRunner.assertions test_case);
      more ← run_cases template module_root rest;
      Return ({| TestRunner.tc_name := TestRunner.name test_case;
                 TestRunner.passed := (length failures =? 0)%nat;
                 TestRunner.failures := failures |} :: more)
  end.

Definition run_prompt_module_tests (module_path : string)
  : outcome TestRunResult :=
  module ← Resolver.load_prompt_module read_module_file module_path;
  Schema.validate_prompt_module module;;
  parsed_tests ← _parse_tests (Schema.tests module);
  template ← _load_template (Schema.source_path module) (Schema.prompt module);
  let module_root := module_root_of (Schema.source_path module) in
  case_results ← run_cases template module_root parsed_tests;
  let total := Z.of_nat (length case_results) in
  let passed :=
    Z.of_nat (length (filter (λ result, TestRunner.passed result = true)
                        case_results)) in
  Return {| total := total; passed := passed; failed := total - passed;
            results := case_results |}.

End WithFiles.

End TestRun.

(** ** Notions for the parsed tests *)

(** The order of the sort key [(entry.name, entry.original_index)]. *)
Definition test_compare (a b : TestRunner._ParsedTestCase) : comparison :=
  lexc (String.compare (TestRunner.name a) (TestRunner.name b))
       (Z.compare (TestRunner.original_index a) (TestRunner.original_index b)).

(** The parsed test [t] is what the entry at its original index says: the
    name without the white space around it, the inputs (none when the key
    is absent) and the single items of the assertions. *)
Definition parsed_from (entries : list pyval)
    (t : TestRunner._ParsedTestCase) : Prop :=
  ∃ fields raw_name assertions,
    0 ≤ TestRunner.original_index t
    ∧ entries !! Z.to_nat (TestRunner.original_index t) = Some (PDict fields)
    ∧ Py.dict_get fields "name" = Some (PStr raw_name)
    ∧ TestRunner.name t = Str.strip raw_name
    ∧ default (PDict []) (Py.dict_get fields "inputs")
      = PDict (TestRunner.inputs t)
    ∧ Py.dict_get fields "assertions" = Some (PList assertions)
    ∧ assertions = (λ item, PDict [item]) <$> TestRunner.assertions t.

(** ** A sample module with tests *)

Definition sample_test (name : string) (assertions : list pyval) : pyval :=
  PDict [("name", PStr name); ("assertions", PList assertions)].

Definition tested_read_module_file (path : string)
  : outcome (list (string * pyval) * string) :=
  Return (sample_document "demo" "1.0.0" (PStr "template.prompt")
            [("tests",
              PList [sample_test " second " [PDict [("contains", PStr "Hello")]];
                     sample_test "first" [PDict [("excludes", PStr "Hello")];
                                          PDict [("max_length", PInt 3)]]])],
          path +:+ "/promptpm.yaml").

Definition tested_read_file (path : string) : option (outcome string) :=
  if String.eqb path "/work/demo/template.prompt"
  then Some (Return "Hello {document}")
  else None.

(** The run of the sample module with tests, from the directory
    [/work/demo]. *)
Definition tested_run : outcome TestRun.TestRunResult :=
  TestRun.run_prompt_module_tests tested_read_module_file no_json plain_dumps
    plain_dumps (λ _, "/work/demo") (λ root rel, root +:+ "/" +:+ rel)
    tested_read_file "/work/demo".

(** A module file whose [prompt.template] is the number 123, with no
    tests. *)
Definition numeric_read_module_file (path : string)
  : outcome (list (string * pyval) * string) :=
  Return (sample_document "numeric-template" "1.0.0" (PInt 123) [],
          path +:+ "/promptpm.yaml").

(** ** Notions for ill-formed versions in the registry *)

(** [r] raises a [SemVerError] with the message [err]. *)
Definition raises_semver_error {A} (r : outcome A) (err : message) : Prop :=
  r = Raise (SemVerError err).

(** The message of the [DependencyError] that [_select_installed_version]
    makes of a [SemVerError] with the message [err]. *)
Definition invalid_version_message (name version_range : string)
    (err : message) : message :=
  Lit ("Invalid semantic version while resolving " +:+ name
       +:+ " (" +:+ version_range +:+ "): ") :: err.

(** A registry that lists the versions [1.0.0] and [latest] of every
    name, in the string order of [list_by_name]. *)
Definition mixed_list_by_name (name : string)
  : outcome (list InstalledModule) :=
  Return [sample_installed name "1.0.0"; sample_installed name "latest"].

(** ** Notions for placeholders *)

Definition is_brace (c : ascii) : bool :=
  Ascii.eqb c "{" || Ascii.eqb c "}".

(** A key without braces. *)
Definition brace_free (s : string) : bool :=
  Str.forallb (λ c, negb (is_brace c)) s.

(** A text without the opening brace. *)
Definition no_open (s : string) : bool :=
  Str.forallb (λ c, negb (Ascii.eqb c "{")) s.

(** [s] ends with an opening brace. *)
Fixpoint ends_with_open (s : string) : bool :=
  match s with
  | EmptyString => false
  | String c EmptyString => Ascii.eqb c "{"
  | String _ s' => ends_with_open s'
  end.

(** What stands between [left] and [right] stands in a further pair of
    braces. *)
Definition enclosed (left right : string) : bool :=
  ends_with_open left && String.prefix "}" right.

(** The condition under which no occurrence of [old] that starts in [a]
    reaches into the text [rest] that follows. *)
Definition no_overhang (old a rest : string) : Prop :=
  ∀ a1 o1 o2, a = a1 +:+ o1 → old = o1 +:+ o2 → o1 ≠ "" → o2 ≠ "" →
    String.prefix o2 rest = false.

(** No occurrence of [old] starts inside [mid] when [b] follows. *)
Definition not_inside (old mid b : string) : Prop :=
  ∀ m1 m2, mid = m1 +:+ m2 → m2 ≠ "" →
    String.prefix old (m2 +:+ b) = false.

(** The two texts that [_render_template] replaces for a key. *)
Definition placeholder (key : string) : string := "{" +:+ key +:+ "}".
Definition double_placeholder (key : string) : string :=
  "{{" +:+ key +:+ "}}".

(** Inputs under which a later key does not get to rewrite the value of
    an earlier one: the key between them takes the text first. *)
Definition overlapping_inputs : list (string * pyval) :=
  [("a", PStr "{a{b}}"); ("a{b}", PStr "Z"); ("b", PStr "Y")].

(** A module root under which [letter.txt] is a regular file with the
    text [Mr {b}], and nothing else is a file; and inputs of which the
    first-sorted names that file, with a key between the two that
    matter. *)
Definition letter_input_file (module_root value : string)
  : option (outcome string) :=
  if String.eqb value "letter.txt" then Some (Return "Mr {b}") else None.

Definition letter_inputs : list (string * pyval) :=
  [("b", PStr "X"); ("ab", PStr "-"); ("a", PStr "letter.txt")].

(** A module root under which [logo.png] is a regular file that is not
    UTF-8 text, and nothing else is a file. *)
Definition undecodable_input_file (module_root value : string)
  : option (outcome string) :=
  if String.eqb value "logo.png"
  then Some (Raise (UnicodeDecodeError
                      [Lit "'utf-8' codec can't decode byte 0x89 in position 0: invalid start byte"]))
  else None.

(** * Part II: verified properties *)

(** ** Generic facts about comparisons *)

Lemma Z_of_comparison_opp c : Z_of_comparison (CompOpp c) = - Z_of_comparison c.
Proof. by destruct c. Qed.

Lemma Z_of_comparison_inj c1 c2 :
  Z_of_comparison c1 = Z_of_comparison c2 → c1 = c2.
Proof. by destruct c1, c2. Qed.

Section CmpOrder.
Context {A : Type} (cmp : A → A → comparison) (Hord : cmp_order cmp).

Lemma co_refl x : cmp x x = Eq.
Proof.
  pose proof (co_antisym cmp Hord x x) as H. by destruct (cmp x x).
Qed.

Lemma co_eq_sym x y : cmp x y = Eq → cmp y x = Eq.
Proof. intros H. by rewrite (co_antisym cmp Hord x y), H. Qed.

Lemma co_eq_r x y z : cmp y z = Eq → cmp x y = cmp x z.
Proof.
  intros H. rewrite (co_antisym cmp Hord y x), (co_antisym cmp Hord z x).
  f_equal. by apply (co_eq cmp Hord).
Qed.

Lemma co_gt_lt x y : cmp x y = Gt ↔ cmp y x = Lt.
Proof.
  rewrite (co_antisym cmp Hord x y). destruct (cmp x y); simpl; split; congruence.
Qed.

Lemma co_le_trans x y z : cmp x y ≠ Gt → cmp y z ≠ Gt → cmp x z ≠ Gt.
Proof.
  intros Hxy Hyz.
  destruct (cmp x y) eqn:E1; [|  |done].
  - by rewrite (co_eq cmp Hord x y z E1).
  - destruct (cmp y z) eqn:E2; [| |done].
    + by rewrite <-(co_eq_r x y z E2), E1.
    + by rewrite (co_trans cmp Hord x y z E1 E2).
Qed.
End CmpOrder.

Lemma cmp_order_pullback {A B} (f : A → B) (cmp : B → B → comparison) :
  cmp_order cmp → cmp_order (λ x y, cmp (f x) (f y)).
Proof.
  intros [H1 H2 H3]. split; intros.
  - apply H1.
  - by eapply H2.
  - by apply H3.
Qed.

Lemma cmp_order_lexc {A} (c1 c2 : A → A → comparison) :
  cmp_order c1 → cmp_order c2 → cmp_order (λ x y, lexc (c1 x y) (c2 x y)).
Proof.
  intros O1 O2. split.
  - intros x y. rewrite (co_antisym c1 O1 x y), (co_antisym c2 O2 x y).
    by destruct (c1 x y).
  - intros x y z. unfold lexc.
    destruct (c1 x y) eqn:E1; [| |done].
    + rewrite (co_eq c1 O1 x y z E1).
      destruct (c1 y z) eqn:E2; [|done|done].
      by apply (co_trans c2 O2).
    + intros _. destruct (c1 y z) eqn:E2; [| |done].
      * by rewrite <-(co_eq_r c1 O1 x y z E2), E1.
      * by rewrite (co_trans c1 O1 x y z E1 E2).
  - intros x y z. unfold lexc.
    destruct (c1 x y) eqn:E1; [|done|done].
    intros E2. by rewrite (co_eq c1 O1 x y z E1), (co_eq c2 O2 x y z E2).
Qed.

Lemma cmp_order_lex {A} (cmp : A → A → comparison) :
  cmp_order cmp → cmp_order (lex_compare cmp).
Proof.
  intros O. split.
  - intros x. induction x as [|a x IH]; intros [|b y]; simpl; try done.
    rewrite (co_antisym cmp O a b), IH. by destruct (cmp a b).
  - intros x. induction x as [|a x IH]; intros [|b y] [|c z]; simpl; try done.
    unfold lexc. destruct (cmp a b) eqn:E1; [| |done].
    + rewrite (co_eq cmp O a b c E1).
      destruct (cmp b c) eqn:E2; [|done|done]. apply IH.
    + intros _. destruct (cmp b c) eqn:E2; [| |done].
      * by rewrite <-(co_eq_r cmp O a b c E2), E1.
      * by rewrite (co_trans cmp O a b c E1 E2).
  - intros x. induction x as [|a x IH]; intros [|b y] [|c z]; simpl; try done.
    unfold lexc. destruct (cmp a b) eqn:E1; [|done|done].
    intros E2. by rewrite (co_eq cmp O a b c E1), (IH y z E2).
Qed.

Lemma lex_compare_app {A} (cmp : A → A → comparison) (p l r : list A) :
  (∀ x, cmp x x = Eq) →
  lex_compare cmp (p ++ l) (p ++ r) = lex_compare cmp l r.
Proof.
  intros Hrefl. induction p as [|a p IH]; simpl; [done|]. by rewrite Hrefl.
Qed.

Lemma Z_compare_order : cmp_order Z.compare.
Proof.
  split.
  - intros x y. apply Z.compare_antisym.
  - intros x y z. rewrite !Z.compare_lt_iff. lia.
  - intros x y z ->%Z.compare_eq. done.
Qed.

Lemma N_compare_order : cmp_order N.compare.
Proof.
  split.
  - intros x y. apply N.compare_antisym.
  - intros x y z. rewrite !N.compare_lt_iff. lia.
  - intros x y z ->%N.compare_eq. done.
Qed.

Lemma ascii_compare_order : cmp_order Ascii.compare.
Proof. apply (cmp_order_pullback N_of_ascii N.compare), N_compare_order. Qed.

Lemma string_compare_order : cmp_order String.compare.
Proof.
  pose proof ascii_compare_order as O.
  split.
  - intros x. induction x as [|a x IH]; intros [|b y]; simpl; try done.
    rewrite (co_antisym _ O a b), IH. by destruct (Ascii.compare a b).
  - intros x. induction x as [|a x IH]; intros [|b y] [|c z]; simpl; try done.
    destruct (Ascii.compare a b) eqn:E1; [| |done].
    + rewrite (co_eq _ O a b c E1).
      destruct (Ascii.compare b c) eqn:E2; [|done|done]. apply IH.
    + intros _. destruct (Ascii.compare b c) eqn:E2; [| |done].
      * by rewrite <-(co_eq_r _ O a b c E2), E1.
      * by rewrite (co_trans _ O a b c E1 E2).
  - intros x. induction x as [|a x IH]; intros [|b y] [|c z]; simpl; try done.
    destruct (Ascii.compare a b) eqn:E1; [|done|done].
    intros E2. by rewrite (co_eq _ O a b c E1), (IH y z E2).
Qed.

Lemma string_compare_eq x y : String.compare x y = Eq ↔ x = y.
Proof.
  split; [apply String.compare_eq_iff|].
  intros ->. apply (co_refl _ string_compare_order).
Qed.

Lemma str_lt_spec x y : Str.lt x y = true ↔ String.compare x y = Lt.
Proof. unfold Str.lt, String.ltb. destruct (String.compare x y); naive_solver. Qed.

Lemma str_gt_spec x y : Str.gt x y = true ↔ String.compare x y = Gt.
Proof.
  unfold Str.gt. rewrite str_lt_spec.
  symmetry. apply (co_gt_lt _ string_compare_order).
Qed.

(** ** promptpm/core/semver.py: precedence *)

Section SemverPrecedence.
Import Semver SemverOrder.

Lemma key_compare_order : cmp_order key_compare.
Proof.
  pose proof Z_compare_order as OZ. pose proof string_compare_order as OS.
  split.
  - intros [m|s] [n|t]; simpl; try done.
    + apply (co_antisym _ OZ).
    + apply (co_antisym _ OS).
  - intros [m|s] [n|t] [k|u]; simpl; try done.
    + apply (co_trans _ OZ).
    + apply (co_trans _ OS).
  - intros [m|s] [n|t] [k|u]; simpl; try done.
    + apply (co_eq _ OZ).
    + apply (co_eq _ OS).
Qed.

Lemma id_compare_order : cmp_order id_compare.
Proof. apply (cmp_order_pullback id_key key_compare), key_compare_order. Qed.

Lemma prerelease_compare_order : cmp_order prerelease_compare.
Proof.
  apply (cmp_order_lexc (λ l r, release_rank l ?= release_rank r)
           (lex_compare id_compare)).
  - apply (cmp_order_pullback release_rank Z.compare), Z_compare_order.
  - apply cmp_order_lex, id_compare_order.
Qed.

Lemma version_compare_order : cmp_order version_compare.
Proof.
  unfold version_compare.
  apply (cmp_order_lexc (λ a b, major a ?= major b)).
  { apply (cmp_order_pullback major Z.compare), Z_compare_order. }
  apply (cmp_order_lexc (λ a b, minor a ?= minor b)).
  { apply (cmp_order_pullback minor Z.compare), Z_compare_order. }
  apply (cmp_order_lexc (λ a b, patch a ?= patch b)).
  { apply (cmp_order_pullback patch Z.compare), Z_compare_order. }
  apply (cmp_order_pullback prerelease prerelease_compare),
    prerelease_compare_order.
Qed.

(** The loop of [_compare_prerelease], followed by the comparison of the
    lengths, is the lexicographic order of the identifier keys. *)
Lemma compare_zip_lex (l r : list string) :
  match compare_zip l r with
  | Some z => z
  | None =>
      if (length l <? length r)%nat then -1
      else if (length r <? length l)%nat then 1 else 0
  end = Z_of_comparison (lex_compare id_compare l r).
Proof.
  revert r. induction l as [|x l IH]; intros [|y r]; simpl; try done.
  destruct (String.eqb_spec x y) as [->|Hne].
  { rewrite (co_refl _ id_compare_order). simpl. apply IH. }
  unfold id_compare, id_key.
  destruct (Str.isdigit x) eqn:Dx, (Str.isdigit y) eqn:Dy; simpl; try done.
  - destruct (Z.ltb_spec (Str.int x) (Str.int y)) as [Hlt|Hge].
    { by rewrite (proj2 (Z.compare_lt_iff _ _) Hlt). }
    destruct (Z.gtb_spec (Str.int x) (Str.int y)) as [Hgt|Hle].
    { by rewrite (proj2 (Z.compare_gt_iff _ _)); [|lia]. }
    rewrite (proj2 (Z.compare_eq_iff _ _)); [|lia]. apply IH.
  - destruct (Str.lt x y) eqn:Hlt.
    { apply str_lt_spec in Hlt. by rewrite Hlt. }
    destruct (Str.gt x y) eqn:Hgt.
    { apply str_gt_spec in Hgt. by rewrite Hgt. }
    destruct (String.compare x y) eqn:Hc.
    + by apply string_compare_eq in Hc.
    + apply str_lt_spec in Hc. congruence.
    + apply str_gt_spec in Hc. congruence.
Qed.

Lemma _compare_prerelease_spec (l r : list string) :
  _compare_prerelease l r = Z_of_comparison (prerelease_compare l r).
Proof.
  unfold _compare_prerelease, prerelease_compare.
  destruct l as [|x l], r as [|y r]; try done.
  apply (compare_zip_lex (x :: l) (y :: r)).
Qed.

Lemma core_lt_spec (a b : SemanticVersion) :
  core_lt (major a, minor a, patch a) (major b, minor b, patch b) = true ↔
  lexc (major a ?= major b)
    (lexc (minor a ?= minor b) (patch a ?= patch b)) = Lt.
Proof.
  unfold core_lt, lexc.
  destruct (Z.compare_spec (major a) (major b));
    destruct (Z.compare_spec (minor a) (minor b));
    destruct (Z.compare_spec (patch a) (patch b));
    rewrite ?orb_true_iff, ?andb_true_iff, ?Z.ltb_lt, ?Z.eqb_eq;
    split; try done; lia.
Qed.

Lemma compare_to_spec (a b : SemanticVersion) :
  compare_to a b = Z_of_comparison (version_compare a b).
Proof.
  unfold compare_to, version_compare.
  pose proof (core_lt_spec a b) as Hab. pose proof (core_lt_spec b a) as Hba.
  destruct (core_lt (major a, minor a, patch a) (major b, minor b, patch b)).
  { destruct Hab as [Hab _]. specialize (Hab eq_refl).
    revert Hab. unfold lexc.
    by destruct (major a ?= major b), (minor a ?= minor b),
      (patch a ?= patch b). }
  destruct (core_lt (major b, minor b, patch b) (major a, minor a, patch a)).
  { destruct Hba as [Hba _]. specialize (Hba eq_refl).
    revert Hba. unfold lexc.
    rewrite (Z.compare_antisym (major a) (major b)),
      (Z.compare_antisym (minor a) (minor b)),
      (Z.compare_antisym (patch a) (patch b)).
    by destruct (major a ?= major b), (minor a ?= minor b),
      (patch a ?= patch b). }
  rewrite _compare_prerelease_spec.
  destruct Hab as [_ Hab], Hba as [_ Hba]. revert Hab Hba. unfold lexc.
  rewrite (Z.compare_antisym (major a) (major b)),
    (Z.compare_antisym (minor a) (minor b)),
    (Z.compare_antisym (patch a) (patch b)).
  destruct (major a ?= major b), (minor a ?= minor b),
    (patch a ?= patch b); simpl; try done; intros H1 H2;
    (by specialize (H1 eq_refl) || by specialize (H2 eq_refl)).
Qed.
End SemverPrecedence.

(** ** Decimal numerals *)

Lemma digit_value_range c :
  Str.is_ascii_digit c = true → 0 ≤ Str.digit_value c ≤ 9.
Proof.
  unfold Str.is_ascii_digit, Str.in_range, Str.digit_value, Str.code.
  rewrite andb_true_iff, !N.leb_le. simpl. lia.
Qed.

Lemma digit_value_inj c d :
  Str.is_ascii_digit c = true → Str.digit_value c = Str.digit_value d → c = d.
Proof.
  unfold Str.digit_value, Str.code. intros _ H.
  rewrite <-(ascii_N_embedding c), <-(ascii_N_embedding d). f_equal. lia.
Qed.

Lemma int_acc_bounds s a :
  Str.forallb Str.is_ascii_digit s = true → 0 ≤ a →
  a * 10 ^ Z.of_nat (String.length s) ≤ Str.int_acc a s
  < (a + 1) * 10 ^ Z.of_nat (String.length s).
Proof.
  revert a. induction s as [|c s IH]; intros a Hd Ha; simpl in *.
  { lia. }
  apply andb_true_iff in Hd as [Hc Hs].
  pose proof (digit_value_range c Hc) as Hr.
  specialize (IH (10 * a + Str.digit_value c) Hs ltac:(lia)).
  rewrite Nat2Z.inj_succ, Z.pow_succ_r by lia.
  pose proof (Z.pow_pos_nonneg 10 (Z.of_nat (String.length s)) ltac:(lia) ltac:(lia)) as HP.
  set (P := 10 ^ Z.of_nat (String.length s)) in *.
  assert (0 ≤ Str.digit_value c * P) by nia.
  assert (0 ≤ (9 - Str.digit_value c) * P) by nia.
  lia.
Qed.

Lemma int_acc_same_length s1 : ∀ s2 a1 a2,
  Str.forallb Str.is_ascii_digit s1 = true →
  Str.forallb Str.is_ascii_digit s2 = true →
  String.length s1 = String.length s2 →
  Str.int_acc a1 s1 = Str.int_acc a2 s2 → a1 = a2 ∧ s1 = s2.
Proof.
  induction s1 as [|c s1 IH]; intros [|d s2] a1 a2 H1 H2 Hlen Heq;
    simpl in *; try done.
  apply andb_true_iff in H1 as [Hc H1]. apply andb_true_iff in H2 as [Hd H2].
  destruct (IH s2 _ _ H1 H2 ltac:(lia) Heq) as [Ha ->].
  pose proof (digit_value_range c Hc). pose proof (digit_value_range d Hd).
  assert (Str.digit_value c = Str.digit_value d) as Hv by lia.
  split; [lia|]. f_equal. by apply digit_value_inj.
Qed.

Lemma normal_numeral_lower s :
  normal_numeral s → (2 ≤ String.length s)%nat →
  10 ^ (Z.of_nat (String.length s) - 1) ≤ Str.int s.
Proof.
  intros [Hd Hz] Hlen. destruct s as [|c s]; [done|].
  simpl in Hd. apply andb_true_iff in Hd as [Hc Hs].
  simpl in Hlen.
  assert ((1 <? Z.of_nat (String.length (String c s))) = true) as Hl.
  { apply Z.ltb_lt. simpl. lia. }
  rewrite Hl in Hz. simpl in Hz.
  assert (1 ≤ Str.digit_value c) as H1.
  { pose proof (digit_value_range c Hc).
    destruct (decide (Str.digit_value c = 0)) as [H0|]; [|lia].
    assert (c = "0"%char) as -> by (by apply digit_value_inj).
    unfold Str.startswith in Hz. simpl in Hz. by destruct s. }
  change (Str.int (String c s))
    with (Str.int_acc (10 * 0 + Str.digit_value c) s).
  replace (10 * 0 + Str.digit_value c) with (Str.digit_value c) by lia.
  pose proof (int_acc_bounds s (Str.digit_value c) Hs ltac:(lia)) as Hb.
  replace (Z.of_nat (String.length (String c s)) - 1)
    with (Z.of_nat (String.length s)) by (simpl; lia).
  pose proof (Z.pow_pos_nonneg 10 (Z.of_nat (String.length s))
                ltac:(lia) ltac:(lia)) as HP.
  set (P := 10 ^ Z.of_nat (String.length s)) in *.
  assert (0 ≤ (Str.digit_value c - 1) * P) by nia.
  lia.
Qed.

Lemma isdigit_forallb s :
  Str.isdigit s = true → Str.forallb Str.is_ascii_digit s = true.
Proof. by destruct s. Qed.

Lemma normal_numeral_lt_length x y :
  normal_numeral x → normal_numeral y →
  (String.length x < String.length y)%nat → Str.int x < Str.int y.
Proof.
  intros Hx Hy Hlen.
  assert (String.length x ≠ 0%nat) by (destruct Hx as [Hx _]; by destruct x).
  pose proof (normal_numeral_lower y Hy ltac:(lia)) as Hlow.
  destruct Hx as [Hdx _].
  pose proof (int_acc_bounds x 0 (isdigit_forallb x Hdx) ltac:(lia)) as Hb.
  fold (Str.int x) in Hb.
  assert (10 ^ Z.of_nat (String.length x)
          ≤ 10 ^ (Z.of_nat (String.length y) - 1)).
  { apply Z.pow_le_mono_r; lia. }
  lia.
Qed.

Lemma normal_numeral_inj x y :
  normal_numeral x → normal_numeral y → Str.int x = Str.int y → x = y.
Proof.
  intros Hx Hy Heq.
  destruct (lt_eq_lt_dec (String.length x) (String.length y)) as [[Hlt|Hlen]|Hgt].
  - pose proof (normal_numeral_lt_length x y Hx Hy Hlt). lia.
  - destruct Hx as [Hdx _], Hy as [Hdy _].
    by destruct (int_acc_same_length x y 0 0 (isdigit_forallb x Hdx)
                   (isdigit_forallb y Hdy) Hlen Heq).
  - pose proof (normal_numeral_lt_length y x Hy Hx Hgt). lia.
Qed.

Section SemverValidity.
Import Semver SemverOrder.

Lemma outcome_bind_return {A B} (m : outcome A) (k : A → outcome B) b :
  m ≫= k = Return b → ∃ a, m = Return a ∧ k a = Return b.
Proof. destruct m as [a|e]; [eauto|done]. Qed.

Lemma _validate_identifier_numeral field x :
  _validate_identifier field true x = Return tt →
  Str.isdigit x = true → normal_numeral x.
Proof.
  unfold _validate_identifier. intros H Hd. split; [done|].
  destruct x as [|c x]; [done|].
  destruct (negb (identifier_fullmatch (String c x))); [done|].
  rewrite Hd in H.
  destruct ((1 <? Z.of_nat (String.length (String c x)))
            && Str.startswith (String c x) "0") eqn:E; [|done].
  rewrite andb_true_iff in E. destruct E as [E1 E2].
  by rewrite E1, E2 in H.
Qed.

Lemma _validate_identifiers_numerals field ids :
  _validate_identifiers ids field true = Return tt →
  Forall (λ x, Str.isdigit x = true → normal_numeral x) ids.
Proof.
  induction ids as [|x ids IH]; simpl; intros H; [constructor|].
  apply outcome_bind_return in H as ([] & Hx & Hrest).
  constructor; [by apply (_validate_identifier_numeral field)|by apply IH].
Qed.

Lemma valid_version_numerals v :
  valid_version v →
  Forall (λ x, Str.isdigit x = true → normal_numeral x) (prerelease v).
Proof.
  unfold valid_version, __post_init__. intros H.
  apply outcome_bind_return in H as ([] & _ & H).
  apply outcome_bind_return in H as ([] & _ & H).
  apply outcome_bind_return in H as ([] & _ & H).
  apply outcome_bind_return in H as ([] & H & _).
  by apply (_validate_identifiers_numerals "prerelease").
Qed.

Lemma id_compare_eq x y :
  (Str.isdigit x = true → normal_numeral x) →
  (Str.isdigit y = true → normal_numeral y) →
  id_compare x y = Eq → x = y.
Proof.
  unfold id_compare, id_key. intros Hx Hy.
  destruct (Str.isdigit x) eqn:Dx, (Str.isdigit y) eqn:Dy; simpl; try done.
  - intros H%Z.compare_eq. apply normal_numeral_inj; auto.
  - apply string_compare_eq.
Qed.

Lemma lex_id_compare_eq l r :
  Forall (λ x, Str.isdigit x = true → normal_numeral x) l →
  Forall (λ x, Str.isdigit x = true → normal_numeral x) r →
  lex_compare id_compare l r = Eq → l = r.
Proof.
  intros Hl. revert r.
  induction Hl as [|x l Hx Hl IH]; intros r Hr; destruct Hr as [|y r Hy Hr];
    simpl; try done.
  unfold lexc. destruct (id_compare x y) eqn:E; try done.
  intros H. f_equal; [by apply id_compare_eq|by apply IH].
Qed.

Lemma version_compare_eq a b :
  valid_version a → valid_version b →
  version_compare a b = Eq ↔ same_precedence_fields a b.
Proof.
  intros Ha Hb. unfold version_compare, same_precedence_fields. split.
  - unfold lexc.
    destruct (major a ?= major b) eqn:E1; try done.
    destruct (minor a ?= minor b) eqn:E2; try done.
    destruct (patch a ?= patch b) eqn:E3; try done.
    apply Z.compare_eq in E1, E2, E3.
    unfold prerelease_compare, lexc.
    destruct (release_rank (prerelease a) ?= release_rank (prerelease b));
      try done.
    intros H. repeat split; try done.
    apply lex_id_compare_eq; auto using valid_version_numerals.
  - intros (-> & -> & -> & ->). rewrite !Z.compare_refl. simpl.
    apply (co_refl _ prerelease_compare_order).
Qed.
End SemverValidity.

Section SemverRules.
Import Semver SemverOrder.

Lemma compare_to_same_core a b :
  same_core a b →
  compare_to a b
  = Z_of_comparison (prerelease_compare (prerelease a) (prerelease b)).
Proof.
  intros (E1 & E2 & E3). rewrite compare_to_spec. unfold version_compare.
  by rewrite E1, E2, E3, !Z.compare_refl.
Qed.

Lemma prerelease_compare_first_difference p x y s t :
  id_compare x y = Lt →
  prerelease_compare (p ++ x :: s) (p ++ y :: t) = Lt.
Proof.
  intros H. unfold prerelease_compare.
  replace (release_rank (p ++ x :: s)) with 0 by (by destruct p).
  replace (release_rank (p ++ y :: t)) with 0 by (by destruct p).
  simpl. rewrite lex_compare_app by apply (co_refl _ id_compare_order).
  simpl. by rewrite H.
Qed.

Lemma prerelease_compare_shorter p t :
  p ≠ [] → t ≠ [] → prerelease_compare p (p ++ t) = Lt.
Proof.
  intros Hp Ht. unfold prerelease_compare.
  replace (release_rank (p ++ t)) with 0 by (by destruct p).
  replace (release_rank p) with 0 by (by destruct p).
  simpl. rewrite <-(app_nil_r p) at 1.
  rewrite lex_compare_app by apply (co_refl _ id_compare_order).
  by destruct t.
Qed.
End SemverRules.

(** C4.  [compare_versions] orders semantic versions as the specification
    says.  On [SemanticVersion] values it returns [compare_to], whose value
    is -1, 0 or 1; it is antisymmetric and transitive, two valid versions
    compare equal exactly when they agree on core and prerelease, and build
    metadata never matters.  The stated rules hold: the cores are compared
    lexicographically as integer triples; on equal cores a version without
    prerelease is greater than one with prerelease; at the first differing
    prerelease identifier two numeric identifiers compare by value, a
    numeric one is below a non-numeric one and two non-numeric ones compare
    by their text; and a proper prefix of a prerelease list is smaller. *)
Theorem compare_versions_total_order :
  (∀ a b, Semver.compare_versions (Semver.AsVersion a) (Semver.AsVersion b)
          = Return (Semver.compare_to a b))
  ∧ (∀ a b, Semver.compare_to a b = -1 ∨ Semver.compare_to a b = 0
            ∨ Semver.compare_to a b = 1)
  ∧ (∀ a b, Semver.compare_to b a = - Semver.compare_to a b)
  ∧ (∀ a b c, Semver.compare_to a b ≤ 0 → Semver.compare_to b c ≤ 0 →
              Semver.compare_to a c ≤ 0)
  ∧ (∀ a b, SemverOrder.valid_version a → SemverOrder.valid_version b →
            (Semver.compare_to a b = 0 ↔ SemverOrder.same_precedence_fields a b))
  ∧ (∀ a b bu1 bu2,
        Semver.compare_to (with_build a bu1) (with_build b bu2)
        = Semver.compare_to a b)
  ∧ (∀ a b,
        Semver.major a < Semver.major b
        ∨ (Semver.major a = Semver.major b ∧ Semver.minor a < Semver.minor b)
        ∨ (Semver.major a = Semver.major b ∧ Semver.minor a = Semver.minor b
           ∧ Semver.patch a < Semver.patch b) →
        Semver.compare_to a b = -1)
  ∧ (∀ a b, same_core a b → Semver.prerelease a = [] →
            Semver.prerelease b ≠ [] → Semver.compare_to a b = 1)
  ∧ (∀ a b p x y s t,
        same_core a b →
        Semver.prerelease a = p ++ x :: s → Semver.prerelease b = p ++ y :: t →
        (Str.isdigit x = true ∧ Str.isdigit y = true ∧ Str.int x < Str.int y)
        ∨ (Str.isdigit x = true ∧ Str.isdigit y = false)
        ∨ (Str.isdigit x = false ∧ Str.isdigit y = false
           ∧ String.compare x y = Lt) →
        Semver.compare_to a b = -1)
  ∧ (∀ a b t, same_core a b → Semver.prerelease a ≠ [] → t ≠ [] →
              Semver.prerelease b = Semver.prerelease a ++ t →
              Semver.compare_to a b = -1).
Proof.
  pose proof version_compare_order as O.
  repeat apply conj.
  - done.
  - intros a b. rewrite compare_to_spec.
    destruct (SemverOrder.version_compare a b); simpl; auto.
  - intros a b. rewrite !compare_to_spec, (co_antisym _ O a b).
    apply Z_of_comparison_opp.
  - intros a b c. rewrite !compare_to_spec. intros Hab Hbc.
    pose proof (co_le_trans _ O a b c) as H.
    destruct (SemverOrder.version_compare a b),
      (SemverOrder.version_compare b c),
      (SemverOrder.version_compare a c); simpl in *; try lia;
      exfalso; by apply H.
  - intros a b Ha Hb. rewrite compare_to_spec, <-version_compare_eq by done.
    destruct (SemverOrder.version_compare a b); simpl; split; done.
  - intros a b bu1 bu2. by rewrite !compare_to_spec.
  - intros a b H. rewrite compare_to_spec. unfold SemverOrder.version_compare.
    destruct H as [H|[[-> H]|(-> & -> & H)]]; rewrite ?Z.compare_refl; simpl.
    + by rewrite (proj2 (Z.compare_lt_iff _ _) H).
    + by rewrite (proj2 (Z.compare_lt_iff _ _) H).
    + by rewrite (proj2 (Z.compare_lt_iff _ _) H).
  - intros a b Hc Ha Hb. rewrite compare_to_same_core, Ha by done.
    by destruct (Semver.prerelease b).
  - intros a b p x y s t Hc Ha Hb H.
    rewrite compare_to_same_core, Ha, Hb by done.
    rewrite prerelease_compare_first_difference; [done|].
    unfold SemverOrder.id_compare, SemverOrder.id_key.
    destruct H as [(-> & -> & H)|[(-> & ->)|(-> & -> & H)]]; simpl; done.
  - intros a b t Hc Ha Ht Hb.
    rewrite compare_to_same_core, Hb by done.
    by rewrite prerelease_compare_shorter.
Qed.

(** ** Facts about the string functions *)

Lemma str_app_assoc (a b c : string) : (a +:+ b) +:+ c = a +:+ (b +:+ c).
Proof. induction a as [|x a IH]; [done|]. simpl. f_equal. exact IH. Qed.

Lemma str_app_nil_r (a : string) : a +:+ "" = a.
Proof. induction a as [|x a IH]; [done|]. simpl. f_equal. exact IH. Qed.

Lemma str_forallb_app p (a b : string) :
  Str.forallb p (a +:+ b) = Str.forallb p a && Str.forallb p b.
Proof.
  induction a as [|x a IH]; simpl; [done|]. by rewrite IH, andb_assoc.
Qed.

Lemma str_forallb_impl (p q : ascii → bool) s :
  (∀ c, p c = true → q c = true) →
  Str.forallb p s = true → Str.forallb q s = true.
Proof.
  intros Hpq. induction s as [|c s IH]; simpl; [done|].
  rewrite !andb_true_iff. intros [Hc Hs]. auto.
Qed.

Lemma str_cut_absent sep s :
  Str.forallb (λ c, negb (Ascii.eqb c sep)) s = true →
  Str.cut sep s = (s, None).
Proof.
  induction s as [|c s IH]; simpl; [done|].
  rewrite andb_true_iff, negb_true_iff. intros [-> Hs]. by rewrite IH.
Qed.

Lemma str_split_char_absent sep s :
  Str.forallb (λ c, negb (Ascii.eqb c sep)) s = true →
  Str.split_char sep s = [s].
Proof.
  induction s as [|c s IH]; simpl; [done|].
  rewrite andb_true_iff, negb_true_iff. intros [-> Hs]. by rewrite IH.
Qed.

Lemma str_split_char_app sep a b :
  Str.forallb (λ c, negb (Ascii.eqb c sep)) a = true →
  Str.split_char sep (a +:+ String sep b) = a :: Str.split_char sep b.
Proof.
  induction a as [|c a IH]; simpl.
  - intros _. by rewrite Ascii.eqb_refl.
  - rewrite andb_true_iff, negb_true_iff. intros [-> Ha]. by rewrite IH.
Qed.

Lemma str_rstrip_snoc s c :
  Str.is_space c = false →
  Str.rstrip (s +:+ String c "") = s +:+ String c "".
Proof.
  intros Hc. induction s as [|a s IH]; simpl.
  - by rewrite Hc.
  - rewrite IH. by destruct s.
Qed.

Lemma str_commas_absent s :
  Str.forallb (λ c, negb (Ascii.eqb c ",")) s = true →
  Semver.commas_to_spaces s = s.
Proof.
  induction s as [|c s IH]; simpl; [done|].
  rewrite andb_true_iff, negb_true_iff. intros [-> Hs]. by rewrite IH.
Qed.

Lemma split_or_unfold c c' s :
  Semver.split_or (String c (String c' s))
  = if Ascii.eqb c "|" && Ascii.eqb c' "|"
    then "" :: Semver.split_or s
    else Semver.cons_head c (Semver.split_or (String c' s)).
Proof. done. Qed.

Lemma str_split_or_absent s :
  Str.forallb (λ c, negb (Ascii.eqb c "|")) s = true →
  Semver.split_or s = [s].
Proof.
  induction s as [|c s IH]; [done|].
  cbn [Str.forallb]. rewrite andb_true_iff, negb_true_iff. intros [Hc Hs].
  destruct s as [|c' s]; [done|].
  rewrite split_or_unfold, Hc, (IH Hs). done.
Qed.

Lemma str_split_ws_aux_word w cur rest :
  Str.forallb (λ c, negb (Str.is_space c)) w = true → w ≠ "" →
  Str.split_ws_aux cur (w +:+ rest)
  = Str.split_ws_aux (Some (default "" cur +:+ w)) rest.
Proof.
  revert cur. induction w as [|c w IH]; intros cur Hw Hne; [done|].
  simpl in Hw. apply andb_true_iff in Hw as [Hc Hw].
  apply negb_true_iff in Hc. simpl. rewrite Hc.
  destruct w as [|c' w].
  - simpl. by destruct cur.
  - rewrite IH by done. simpl. f_equal. f_equal.
    destruct cur; simpl; [|done]. by rewrite str_app_assoc.
Qed.

Lemma str_split_ws_one w :
  Str.forallb (λ c, negb (Str.is_space c)) w = true → w ≠ "" →
  Str.split_ws w = [w].
Proof.
  intros Hw Hne. unfold Str.split_ws.
  rewrite <-(str_app_nil_r w) at 1.
  by rewrite str_split_ws_aux_word.
Qed.

Lemma str_split_ws_two a b :
  Str.forallb (λ c, negb (Str.is_space c)) a = true → a ≠ "" →
  Str.forallb (λ c, negb (Str.is_space c)) b = true → b ≠ "" →
  Str.split_ws (a +:+ String " " b) = [a; b].
Proof.
  intros Ha Hane Hb Hbne. unfold Str.split_ws.
  rewrite str_split_ws_aux_word by done. simpl.
  rewrite <-(str_app_nil_r b) at 1.
  by rewrite str_split_ws_aux_word.
Qed.

(** ** Decimal numerals are read back *)

Lemma digit_char_digit d :
  0 ≤ d ≤ 9 → Str.is_ascii_digit (digit_char d) = true
              ∧ Str.digit_value (digit_char d) = d.
Proof.
  intros Hd.
  assert (d = 0 ∨ d = 1 ∨ d = 2 ∨ d = 3 ∨ d = 4 ∨ d = 5 ∨ d = 6 ∨ d = 7
          ∨ d = 8 ∨ d = 9) as Hcases by lia.
  repeat destruct Hcases as [->|Hcases]; try subst d; by vm_compute.
Qed.

Lemma numeral_fuel_acc fuel : ∀ n acc,
  numeral_fuel fuel n acc = numeral_fuel fuel n "" +:+ acc.
Proof.
  induction fuel as [|fuel IH]; intros n acc; simpl; [done|].
  destruct (n <? 10); [done|].
  rewrite (IH _ (String _ acc)), (IH _ (String _ "")).
  by rewrite str_app_assoc.
Qed.

Lemma numeral_fuel_S fuel n acc :
  numeral_fuel (S fuel) n acc
  = if n <? 10 then String (digit_char (n mod 10)) acc
    else numeral_fuel fuel (n / 10) (String (digit_char (n mod 10)) acc).
Proof. done. Qed.

Lemma numeral_fuel_enough fuel : ∀ fuel' n,
  0 ≤ n < 2 ^ Z.of_nat (S fuel) → 0 ≤ n < 2 ^ Z.of_nat (S fuel') →
  numeral_fuel (S fuel) n "" = numeral_fuel (S fuel') n "".
Proof.
  induction fuel as [|fuel IH]; intros fuel' n H1 H2;
    rewrite (numeral_fuel_S _ n), (numeral_fuel_S fuel' n);
    destruct (Z.ltb_spec n 10); try done.
  { simpl in H1. lia. }
  destruct fuel' as [|fuel']; [simpl in H2; lia|].
  rewrite (numeral_fuel_acc (S fuel)), (numeral_fuel_acc (S fuel')). f_equal.
  rewrite (Nat2Z.inj_succ (S fuel)), Z.pow_succ_r in H1 by lia.
  rewrite (Nat2Z.inj_succ (S fuel')), Z.pow_succ_r in H2 by lia.
  apply IH; split; try (apply Z.div_pos; lia);
    apply Z.div_lt_upper_bound; lia.
Qed.

Lemma numeral_small n : 0 ≤ n < 10 → numeral n = String (digit_char n) "".
Proof.
  intros Hn. unfold numeral. rewrite numeral_fuel_S.
  rewrite Z.mod_small by lia. by destruct (Z.ltb_spec n 10); [|lia].
Qed.

Lemma numeral_step n :
  10 ≤ n → numeral n = numeral (n / 10) +:+ String (digit_char (n mod 10)) "".
Proof.
  intros Hn. unfold numeral at 1. rewrite numeral_fuel_S.
  destruct (Z.ltb_spec n 10); [lia|].
  pose proof (Z.log2_spec n ltac:(lia)) as [Hlo Hhi].
  assert (0 < n / 10) by (apply Z.div_str_pos; lia).
  pose proof (Z.log2_spec (n / 10) ltac:(lia)) as [Hlo' Hhi'].
  pose proof (Z.log2_nonneg n). pose proof (Z.log2_nonneg (n / 10)).
  assert (1 ≤ Z.log2 n) by (apply Z.log2_le_pow2; lia).
  destruct (Z.to_nat (Z.log2 n)) as [|k] eqn:Hk; [lia|].
  rewrite numeral_fuel_acc. f_equal. unfold numeral.
  apply numeral_fuel_enough.
  - split; [lia|].
    apply Z.div_lt_upper_bound; [lia|].
    replace (Z.succ (Z.log2 n)) with (Z.succ (Z.of_nat (S k))) in Hhi by lia.
    rewrite Z.pow_succ_r in Hhi by lia.
    pose proof (Z.pow_pos_nonneg 2 (Z.of_nat (S k)) ltac:(lia) ltac:(lia)).
    lia.
  - rewrite Nat2Z.inj_succ, Z2Nat.id by lia. lia.
Qed.

(** Induction on the decimal numeral of [n]. *)
Lemma numeral_ind (P : Z → Prop) :
  (∀ n, 0 ≤ n < 10 → P n) →
  (∀ n, 10 ≤ n → P (n / 10) → P n) →
  ∀ n, 0 ≤ n → P n.
Proof.
  intros Hsmall Hstep n.
  induction n as [n IH] using (well_founded_induction (Z.lt_wf 0)).
  intros Hn. destruct (Z.ltb_spec n 10).
  - apply Hsmall. lia.
  - assert (0 ≤ n / 10) by (apply Z.div_pos; lia).
    assert (n / 10 < n) by (apply Z.div_lt; lia).
    apply Hstep; [done|]. apply IH; lia.
Qed.

Lemma numeral_digits n :
  0 ≤ n → Str.forallb Str.is_ascii_digit (numeral n) = true.
Proof.
  intros Hn. pattern n. apply numeral_ind; [| |done]; clear n Hn.
  - intros n Hn. rewrite numeral_small by done. simpl.
    by rewrite (proj1 (digit_char_digit n ltac:(lia))).
  - intros n Hn IH. rewrite numeral_step, str_forallb_app, IH by done. simpl.
    pose proof (Z.mod_pos_bound n 10 ltac:(lia)).
    by rewrite (proj1 (digit_char_digit (n mod 10) ltac:(lia))).
Qed.

Lemma int_acc_app a w v :
  Str.int_acc a (w +:+ v) = Str.int_acc (Str.int_acc a w) v.
Proof. revert a. induction w as [|c w IH]; intros a; simpl; [done|apply IH]. Qed.

Lemma numeral_int n : 0 ≤ n → Str.int (numeral n) = n.
Proof.
  intros Hn. pattern n. apply numeral_ind; [| |done]; clear n Hn.
  - intros n Hn. rewrite numeral_small by done. unfold Str.int. simpl.
    rewrite (proj2 (digit_char_digit n ltac:(lia))). lia.
  - intros n Hn IH. rewrite numeral_step by done. unfold Str.int in *.
    rewrite int_acc_app, IH. simpl.
    pose proof (Z.mod_pos_bound n 10 ltac:(lia)).
    rewrite (proj2 (digit_char_digit (n mod 10) ltac:(lia))).
    pose proof (Z.div_mod n 10 ltac:(lia)). lia.
Qed.

Lemma numeral_head n :
  1 ≤ n → ∃ c rest, numeral n = String c rest
                    ∧ Str.in_range "1" "9" c = true
                    ∧ Str.forallb Str.is_ascii_digit rest = true.
Proof.
  intros Hn. assert (0 ≤ n) as H0 by lia. revert Hn.
  pattern n. apply numeral_ind; [| |done]; clear n H0.
  - intros n Hn H1. exists (digit_char n), "".
    rewrite numeral_small by done. split; [done|]. split; [|done].
    assert (n = 1 ∨ n = 2 ∨ n = 3 ∨ n = 4 ∨ n = 5 ∨ n = 6 ∨ n = 7 ∨ n = 8
            ∨ n = 9) as Hcases by lia.
    repeat destruct Hcases as [->|Hcases]; try subst n; by vm_compute.
  - intros n Hn IH _.
    assert (1 ≤ n / 10) as H1 by (apply Z.div_le_lower_bound; lia).
    destruct (IH H1) as (c & rest & Heq & Hc & Hrest).
    exists c, (rest +:+ String (digit_char (n mod 10)) "").
    rewrite numeral_step, Heq by done. split; [done|]. split; [done|].
    rewrite str_forallb_app, Hrest. simpl.
    pose proof (Z.mod_pos_bound n 10 ltac:(lia)).
    by rewrite (proj1 (digit_char_digit (n mod 10) ltac:(lia))).
Qed.

Lemma in_range_19_digit c :
  Str.in_range "1" "9" c = true → Str.is_ascii_digit c = true.
Proof.
  unfold Str.is_ascii_digit, Str.in_range.
  rewrite !andb_true_iff, !N.leb_le. unfold Str.code. simpl. lia.
Qed.

Lemma numeral_core n :
  0 ≤ n → Semver.numeric_core_fullmatch (numeral n) = true.
Proof.
  intros Hn. destruct (decide (n = 0)) as [->|Hne]; [done|].
  destruct (numeral_head n ltac:(lia)) as (c & rest & -> & Hc & Hrest).
  simpl. destruct rest; [by apply in_range_19_digit|].
  by rewrite Hc, Hrest.
Qed.

Lemma numeral_nonempty n : 0 ≤ n → numeral n ≠ "".
Proof.
  intros Hn. destruct (decide (n = 0)) as [->|Hne]; [done|].
  by destruct (numeral_head n ltac:(lia)) as (c & rest & -> & _).
Qed.

(** ** Characters of a core version text *)

Lemma core_char_digit c : Str.is_ascii_digit c = true → core_char c = true.
Proof. unfold core_char. by intros ->. Qed.

Lemma core_char_plain c :
  core_char c = true →
  Str.is_space c = false ∧ Ascii.eqb c "," = false ∧ Ascii.eqb c "|" = false
  ∧ Ascii.eqb c "+" = false ∧ Ascii.eqb c "-" = false.
Proof.
  destruct c as [[] [] [] [] [] [] [] []]; vm_compute; intros H;
    first [discriminate H | done].
Qed.

Lemma digit_not_dot c :
  Str.is_ascii_digit c = true → Ascii.eqb c "." = false.
Proof.
  destruct c as [[] [] [] [] [] [] [] []]; vm_compute; intros H;
    first [discriminate H | done].
Qed.

Lemma str_rstrip_nospace s :
  Str.forallb (λ c, negb (Str.is_space c)) s = true → Str.rstrip s = s.
Proof.
  induction s as [|c s IH]; [done|].
  cbn [Str.forallb Str.rstrip]. rewrite andb_true_iff, negb_true_iff.
  intros [Hc Hs]. rewrite (IH Hs), Hc. by destruct s.
Qed.

Lemma str_rstrip_app x b :
  Str.forallb (λ c, negb (Str.is_space c)) b = true → b ≠ "" →
  Str.rstrip (x +:+ b) = x +:+ b.
Proof.
  intros Hb Hne. induction x as [|a x IH]; [by apply str_rstrip_nospace|].
  simpl. rewrite IH. destruct x; [by destruct b|done].
Qed.

Lemma str_lstrip_nospace s :
  Str.forallb (λ c, negb (Str.is_space c)) s = true → Str.lstrip s = s.
Proof.
  destruct s as [|c s]; [done|].
  cbn [Str.forallb Str.lstrip]. rewrite andb_true_iff, negb_true_iff.
  by intros [-> _].
Qed.

Lemma str_strip_nospace s :
  Str.forallb (λ c, negb (Str.is_space c)) s = true → Str.strip s = s.
Proof.
  intros H. unfold Str.strip.
  by rewrite str_lstrip_nospace, str_rstrip_nospace.
Qed.

Lemma core_text_nospace s :
  Str.forallb core_char s = true →
  Str.forallb (λ c, negb (Str.is_space c)) s = true.
Proof.
  apply str_forallb_impl. intros c Hc. apply negb_true_iff.
  by destruct (core_char_plain c Hc) as (? & _).
Qed.

Lemma core_text_without (sep : ascii) s :
  (sep = "," ∨ sep = "|" ∨ sep = "+" ∨ sep = "-")%char →
  Str.forallb core_char s = true →
  Str.forallb (λ c, negb (Ascii.eqb c sep)) s = true.
Proof.
  intros Hsep. apply str_forallb_impl. intros c Hc. apply negb_true_iff.
  destruct (core_char_plain c Hc) as (_ & ? & ? & ? & ?).
  by destruct Hsep as [->|[->|[->| ->]]].
Qed.

(** ** Range expressions built from core version texts *)

Lemma str_of_int_nonneg n : 0 ≤ n → str_of_int n = numeral n.
Proof. intros Hn. unfold str_of_int. by destruct (Z.ltb_spec n 0); [lia|]. Qed.

Lemma core_version_str x y z :
  0 ≤ x → 0 ≤ y → 0 ≤ z →
  __str__ (core_version x y z)
  = numeral x +:+ String "." (numeral y +:+ String "." (numeral z)).
Proof.
  intros Hx Hy Hz. unfold __str__, core_version. simpl.
  by rewrite !str_of_int_nonneg by done.
Qed.

Lemma core_version_str_chars x y z :
  0 ≤ x → 0 ≤ y → 0 ≤ z →
  Str.forallb core_char (__str__ (core_version x y z)) = true.
Proof.
  intros Hx Hy Hz. rewrite core_version_str by done.
  pose proof (str_forallb_impl _ core_char _ core_char_digit
                (numeral_digits x Hx)) as Dx.
  pose proof (str_forallb_impl _ core_char _ core_char_digit
                (numeral_digits y Hy)) as Dy.
  pose proof (str_forallb_impl _ core_char _ core_char_digit
                (numeral_digits z Hz)) as Dz.
  rewrite str_forallb_app, Dx. cbn [Str.forallb andb].
  rewrite str_forallb_app, Dy. cbn [Str.forallb andb].
  by rewrite Dz.
Qed.

Lemma core_version_str_nonempty x y z :
  0 ≤ x → 0 ≤ y → 0 ≤ z → __str__ (core_version x y z) ≠ "".
Proof.
  intros Hx Hy Hz. rewrite core_version_str by done.
  pose proof (numeral_nonempty x Hx). by destruct (numeral x).
Qed.

Lemma mk_version_core x y z :
  0 ≤ x → 0 ≤ y → 0 ≤ z →
  Semver.mk_version x y z [] [] = Return (core_version x y z).
Proof.
  intros Hx Hy Hz. unfold Semver.mk_version, Semver.__post_init__,
    Semver._validate_numeric_field. simpl.
  destruct (Z.ltb_spec x 0); [lia|]. destruct (Z.ltb_spec y 0); [lia|].
  destruct (Z.ltb_spec z 0); [lia|]. done.
Qed.

Lemma numeral_no_dot n :
  0 ≤ n → Str.forallb (λ c, negb (Ascii.eqb c ".")) (numeral n) = true.
Proof.
  intros Hn. apply (str_forallb_impl Str.is_ascii_digit); [|by apply numeral_digits].
  intros c Hc. by rewrite (digit_not_dot c Hc).
Qed.

(** [parse_version(str(v)) = v] for a core version. *)
Lemma parse_core_version_str x y z :
  0 ≤ x → 0 ≤ y → 0 ≤ z →
  Semver.parse_version (__str__ (core_version x y z))
  = Return (core_version x y z).
Proof.
  intros Hx Hy Hz.
  pose proof (core_version_str_chars x y z Hx Hy Hz) as Hchars.
  unfold Semver.parse_version, Semver.parse.
  rewrite str_strip_nospace by (by apply core_text_nospace).
  unfold Semver.semver_fullmatch.
  rewrite (str_cut_absent "+") by (apply core_text_without; auto).
  rewrite (str_cut_absent "-") by (apply core_text_without; auto).
  rewrite core_version_str by done.
  rewrite str_split_char_app by (by apply numeral_no_dot).
  rewrite str_split_char_app by (by apply numeral_no_dot).
  rewrite str_split_char_absent by (by apply numeral_no_dot).
  rewrite !numeral_core by done. simpl.
  rewrite !numeral_int by done.
  by apply mk_version_core.
Qed.

Lemma str_prefix_cons a s1 b s2 :
  String.prefix (String a s1) (String b s2)
  = if ascii_dec a b then String.prefix s1 s2 else false.
Proof. done. Qed.

Lemma core_char_not_operator c :
  core_char c = true →
  c ≠ "="%char ∧ c ≠ "*"%char ∧ c ≠ "^"%char ∧ c ≠ "~"%char
  ∧ c ≠ ">"%char ∧ c ≠ "<"%char.
Proof.
  destruct c as [[] [] [] [] [] [] [] []]; vm_compute; intros H;
    first [discriminate H | by repeat split].
Qed.

Lemma parse_alternatives_single expression txt tokens :
  Str.strip txt = txt → txt ≠ "" →
  Str.split_ws (Semver.commas_to_spaces txt) = tokens → tokens ≠ [] →
  Semver.parse_alternatives expression [txt]
  = comparators ← Semver.parse_tokens tokens; Return [comparators].
Proof.
  intros Hstrip Hne Htok Htokne. cbn [Semver.parse_alternatives].
  rewrite Hstrip. destruct txt as [|c txt]; [done|].
  rewrite Htok. destruct tokens as [|t ts]; [done|].
  by destruct (Semver.parse_tokens (t :: ts)).
Qed.

(** [parse_version_range("^" + txt)] *)
Lemma parse_version_range_caret txt base :
  Str.forallb core_char txt = true → txt ≠ "" →
  Semver.parse_version txt = Return base →
  Semver.parse_version_range (String "^" txt)
  = upper ← Semver._caret_upper_bound base;
    Return {| Semver.alternatives :=
                [[ {| Semver.operator := Semver.OpGe; Semver.version := base |};
                   {| Semver.operator := Semver.OpLt; Semver.version := upper |} ]] |}.
Proof.
  intros Hchars Hne Hparse.
  assert (Str.forallb core_char (String "^" "") = false) as _ by done.
  pose proof (core_text_nospace txt Hchars) as Hsp.
  assert (Str.forallb (λ c, negb (Str.is_space c)) (String "^" txt) = true)
    as Hsp' by (cbn [Str.forallb]; by rewrite Hsp).
  unfold Semver.parse_version_range.
  rewrite str_strip_nospace by done.
  replace (String.eqb (String "^" txt) "" || String.eqb (String "^" txt) "*")
    with false by done.
  rewrite str_split_or_absent
    by (cbn [Str.forallb]; by rewrite (core_text_without "|" txt) by auto).
  rewrite (parse_alternatives_single _ _ [String "^" txt]); try done.
  - cbn [Semver.parse_tokens]. unfold Semver._parse_range_token.
    replace (String.eqb (String "^" txt) "*") with false by done.
    replace (Str.startswith (String "^" txt) "^") with true
      by (by destruct txt).
    cbn [Str.drop]. rewrite Hparse. simpl.
    by destruct (Semver._caret_upper_bound base).
  - by apply str_strip_nospace.
  - rewrite str_commas_absent
      by (cbn [Str.forallb]; by rewrite (core_text_without "," txt) by auto).
    by apply str_split_ws_one.
Qed.

(** [parse_version_range(">=" + lower + " <" + upper)] *)
Lemma parse_version_range_between lo hi vlo vhi :
  Str.forallb core_char lo = true → lo ≠ "" →
  Str.forallb core_char hi = true → hi ≠ "" →
  Semver.parse_version lo = Return vlo →
  Semver.parse_version hi = Return vhi →
  Semver.parse_version_range (">=" +:+ lo +:+ " <" +:+ hi)
  = Return {| Semver.alternatives :=
                [[ {| Semver.operator := Semver.OpGe; Semver.version := vlo |};
                   {| Semver.operator := Semver.OpLt; Semver.version := vhi |} ]] |}.
Proof.
  intros Hlo Hlone Hhi Hhine Plo Phi.
  pose proof (core_text_nospace lo Hlo) as Slo.
  pose proof (core_text_nospace hi Hhi) as Shi.
  set (a := String ">" (String "=" lo)).
  set (b := String "<" hi).
  assert (">=" +:+ lo +:+ " <" +:+ hi = a +:+ String " " b) as -> by done.
  assert (Str.forallb (λ c, negb (Str.is_space c)) a = true) as Sa
    by (unfold a; cbn [Str.forallb]; by rewrite Slo).
  assert (Str.forallb (λ c, negb (Str.is_space c)) b = true) as Sb
    by (unfold b; cbn [Str.forallb]; by rewrite Shi).
  assert (Str.strip (a +:+ String " " b) = a +:+ String " " b) as Hstrip.
  { unfold Str.strip. replace (Str.lstrip (a +:+ String " " b))
      with (a +:+ String " " b) by done.
    change (a +:+ String " " b) with (a +:+ (String " " "" +:+ b)).
    rewrite <-(str_app_assoc a (String " " "") b).
    by apply str_rstrip_app. }
  unfold Semver.parse_version_range. rewrite Hstrip.
  replace (String.eqb (a +:+ String " " b) "" || String.eqb (a +:+ String " " b) "*")
    with false by done.
  rewrite str_split_or_absent.
  2:{ rewrite str_forallb_app. unfold a, b. cbn [Str.forallb].
      by rewrite !(core_text_without "|") by auto. }
  rewrite (parse_alternatives_single _ _ [a; b]); try done.
  - cbn [Semver.parse_tokens]. unfold Semver._parse_range_token.
    destruct lo as [|cl lo]; [done|]. destruct hi as [|ch hi]; [done|].
    cbn [Str.forallb] in Hlo, Hhi.
    apply andb_true_iff in Hlo as [Hcl _]. apply andb_true_iff in Hhi as [Hch _].
    destruct (core_char_not_operator ch Hch) as (Heq & _).
    unfold a, b.
    replace (String.eqb (String ">" (String "=" (String cl lo))) "*")
      with false by done.
    replace (Str.startswith (String ">" (String "=" (String cl lo))) "^")
      with false by done.
    replace (Str.startswith (String ">" (String "=" (String cl lo))) "~")
      with false by done.
    replace (String.eqb (String "<" (String ch hi)) "*") with false by done.
    replace (Str.startswith (String "<" (String ch hi)) "^") with false by done.
    replace (Str.startswith (String "<" (String ch hi)) "~") with false by done.
    replace (Semver.parse_operator_token
               (String ">" (String "=" (String cl lo))) Semver.operator_table)
      with (Some (v ← Semver.parse_version (String cl lo);
                  Return [{| Semver.operator := Semver.OpGe;
                             Semver.version := v |}])) by done.
    replace (Semver.parse_operator_token
               (String "<" (String ch hi)) Semver.operator_table)
      with (Some (v ← Semver.parse_version (String ch hi);
                  Return [{| Semver.operator := Semver.OpLt;
                             Semver.version := v |}])).
    2:{ unfold Semver.operator_table.
        cbn [Semver.parse_operator_token].
        replace (Str.startswith (String "<" (String ch hi)) ">=")
          with false by done.
        replace (Str.startswith (String "<" (String ch hi)) "<=") with false.
        2:{ unfold Str.startswith. rewrite !str_prefix_cons.
            destruct (ascii_dec "<" "<"); [|done].
            destruct (ascii_dec "=" ch) as [E|]; [by subst ch|done]. }
        by replace (Str.startswith (String "<" (String ch hi)) ">")
          with false by done. }
    by rewrite Plo, Phi.
  - rewrite str_commas_absent.
    2:{ rewrite str_forallb_app. unfold a, b. cbn [Str.forallb].
        by rewrite !(core_text_without ",") by auto. }
    apply str_split_ws_two; try done.
Qed.

Lemma caret_upper_spec_core x y z :
  0 ≤ x → 0 ≤ y → 0 ≤ z →
  ∃ a b c, caret_upper_spec x y z = core_version a b c
           ∧ 0 ≤ a ∧ 0 ≤ b ∧ 0 ≤ c.
Proof.
  intros Hx Hy Hz. unfold caret_upper_spec.
  destruct (0 <? x); [|destruct (0 <? y)]; eexists _, _, _;
    (split; [done|lia]).
Qed.

Lemma _caret_upper_bound_spec x y z :
  0 ≤ x → 0 ≤ y → 0 ≤ z →
  Semver._caret_upper_bound (core_version x y z)
  = Return (caret_upper_spec x y z).
Proof.
  intros Hx Hy Hz. unfold Semver._caret_upper_bound, caret_upper_spec. simpl.
  rewrite !Z.gtb_ltb.
  destruct (0 <? x); [|destruct (0 <? y)]; apply mk_version_core; lia.
Qed.

(** C5.  For every version (given as an object or as text) and every base
    [X.Y.Z] with non-negative fields, the range [^X.Y.Z] and the range
    [>=X.Y.Z <U] give the same answer, where [U] is [(X+1).0.0] when
    [X > 0], else [0.(Y+1).0] when [Y > 0], else [0.0.(Z+1)]; for a version
    object the answer is [compare_to v base >= 0 and compare_to v U < 0].
    In particular [^1.2.3] and [>=1.2.3 <2.0.0] agree on every version. *)
Theorem caret_range_desugars :
  (∀ version x y z,
      0 ≤ x → 0 ≤ y → 0 ≤ z →
      Semver.satisfies_version_range version
        ("^" +:+ __str__ (core_version x y z))
      = Semver.satisfies_version_range version
          (">=" +:+ __str__ (core_version x y z)
           +:+ " <" +:+ __str__ (caret_upper_spec x y z)))
  ∧ (∀ v x y z,
      0 ≤ x → 0 ≤ y → 0 ≤ z →
      Semver.satisfies_version_range (Semver.AsVersion v)
        ("^" +:+ __str__ (core_version x y z))
      = Return ((Semver.compare_to v (core_version x y z) >=? 0)
                && (Semver.compare_to v (caret_upper_spec x y z) <? 0)))
  ∧ (∀ version,
      Semver.satisfies_version_range version "^1.2.3"
      = Semver.satisfies_version_range version ">=1.2.3 <2.0.0").
Proof.
  assert (∀ version x y z,
      0 ≤ x → 0 ≤ y → 0 ≤ z →
      Semver.satisfies_version_range version
        ("^" +:+ __str__ (core_version x y z))
      = Semver.range_matches
          {| Semver.alternatives :=
               [[ {| Semver.operator := Semver.OpGe;
                     Semver.version := core_version x y z |};
                  {| Semver.operator := Semver.OpLt;
                     Semver.version := caret_upper_spec x y z |} ]] |}
          version
      ∧ Semver.satisfies_version_range version
          (">=" +:+ __str__ (core_version x y z)
           +:+ " <" +:+ __str__ (caret_upper_spec x y z))
        = Semver.range_matches
            {| Semver.alternatives :=
                 [[ {| Semver.operator := Semver.OpGe;
                       Semver.version := core_version x y z |};
                    {| Semver.operator := Semver.OpLt;
                       Semver.version := caret_upper_spec x y z |} ]] |}
            version) as Hboth.
  { intros version x y z Hx Hy Hz.
    destruct (caret_upper_spec_core x y z Hx Hy Hz)
      as (a & b & c & Hup & Ha & Hb & Hc).
    unfold Semver.satisfies_version_range. split.
    - change ("^" +:+ __str__ (core_version x y z))
        with (String "^" (__str__ (core_version x y z))).
      rewrite (parse_version_range_caret _ (core_version x y z));
        auto using core_version_str_chars, core_version_str_nonempty,
          parse_core_version_str.
      by rewrite _caret_upper_bound_spec.
    - rewrite (parse_version_range_between _ _ (core_version x y z)
                 (caret_upper_spec x y z)); try done;
        rewrite ?Hup;
        auto using core_version_str_chars, core_version_str_nonempty,
          parse_core_version_str. }
  repeat apply conj.
  - intros version x y z Hx Hy Hz.
    destruct (Hboth version x y z Hx Hy Hz) as [-> ->]. done.
  - intros v x y z Hx Hy Hz.
    destruct (Hboth (Semver.AsVersion v) x y z Hx Hy Hz) as [-> _].
    unfold Semver.range_matches, Semver.comparator_matches. simpl.
    by rewrite orb_false_r, andb_true_r.
  - intros version.
    destruct (Hboth version 1 2 3 ltac:(lia) ltac:(lia) ltac:(lia)) as [H1 H2].
    exact (eq_trans H1 (eq_sym H2)).
Qed.

Lemma caret_range_desugars_witness :
  Semver.satisfies_version_range (Semver.AsStr "1.9.9") "^1.2.3"
  = Semver.satisfies_version_range (Semver.AsStr "1.9.9") ">=1.2.3 <2.0.0"
  ∧ Semver.satisfies_version_range
      (Semver.AsVersion (core_version 0 2 9)) "^0.2.3"
    = Return true.
Proof.
  destruct caret_range_desugars as (H1 & H2 & _). split.
  - exact (H1 (Semver.AsStr "1.9.9") 1 2 3
             ltac:(vm_compute; discriminate) ltac:(vm_compute; discriminate)
             ltac:(vm_compute; discriminate)).
  - exact (H2 (core_version 0 2 9) 0 2 3
             ltac:(vm_compute; discriminate) ltac:(vm_compute; discriminate)
             ltac:(vm_compute; discriminate)).
Defined.

Lemma compare_versions_total_order_witness :
  Semver.compare_to (core_version 1 0 0) (core_version 1 0 0) ≤ 0
  ∧ Semver.compare_to
      {| Semver.major := 1; Semver.minor := 0; Semver.patch := 0;
         Semver.prerelease := ["alpha"; "1"]; Semver.build := [] |}
      {| Semver.major := 1; Semver.minor := 0; Semver.patch := 0;
         Semver.prerelease := ["alpha"; "beta"]; Semver.build := ["7"] |}
    = -1.
Proof.
  destruct compare_versions_total_order
    as (_ & _ & _ & Htrans & _ & _ & _ & _ & Hfirst & _).
  split.
  - apply (Htrans (core_version 1 0 0) (core_version 1 0 0)
             (core_version 1 0 0)); vm_compute; discriminate.
  - apply (Hfirst _ _ ["alpha"] "1" "beta" [] []).
    + by vm_compute.
    + reflexivity.
    + reflexivity.
    + right. left. by vm_compute.
Defined.

(** * schema_and_validator.py: the prompt block *)

Lemma require_fields_outcome owner entries fields :
  Schema.require_fields owner entries fields = Return tt
  ∨ raises_validation_error (Schema.require_fields owner entries fields).
Proof.
  induction fields as [|field fields IH]; simpl; [by left|].
  destruct (Py.dict_has entries field); [done|]. right. by eexists.
Qed.

Lemma _validate_top_level_outcome m :
  Schema._validate_top_level m = Return tt
  ∨ raises_validation_error (Schema._validate_top_level m).
Proof.
  unfold Schema._validate_top_level.
  destruct (filter _ _); [by left|right; by eexists].
Qed.

Lemma _validate_module_metadata_outcome meta :
  Schema._validate_module_metadata meta = Return tt
  ∨ raises_validation_error (Schema._validate_module_metadata meta).
Proof.
  unfold Schema._validate_module_metadata.
  destruct meta as [| | | |?|entries]; try (right; by eexists).
  destruct (require_fields_outcome "module." entries
              ["name"; "version"; "description"]) as [->|[msg ->]];
    [|right; by eexists].
  simpl.
  destruct (Py.dict_get entries "name") as [[| | |[|??]| |]|];
    try (right; by eexists).
  destruct (Py.dict_get entries "version") as [[| | |?| |]|];
    try (right; by eexists).
  by left.
Qed.

Lemma dict_has_get entries key :
  Py.dict_has entries key = true ↔ ∃ v, Py.dict_get entries key = Some v.
Proof.
  unfold Py.dict_has. destruct (Py.dict_get entries key) as [v|].
  - split; [by exists v|done].
  - split; [done|by intros [v ?]].
Qed.

Lemma _validate_prompt_block_shape prompt interface :
  Schema._validate_prompt_block prompt interface = Return tt →
  ∃ entries template placeholders,
    prompt = PDict entries
    ∧ Py.dict_get entries "template" = Some template
    ∧ Py.dict_get entries "placeholders" = Some (PList placeholders).
Proof.
  unfold Schema._validate_prompt_block.
  destruct prompt as [| | | |?|entries]; try done.
  destruct (Py.dict_has entries "template") eqn:Ht; [|done].
  apply dict_has_get in Ht as [template Ht]. cbn [negb].
  destruct (Py.dict_get entries "placeholders") as [[| | | |ps|]|] eqn:Hp;
    try done.
  intros _. by exists entries, template, ps.
Qed.

Lemma _validate_prompt_block_rejects prompt interface :
  (∀ entries template placeholders,
      ¬ (prompt = PDict entries
         ∧ Py.dict_get entries "template" = Some template
         ∧ Py.dict_get entries "placeholders" = Some (PList placeholders))) →
  raises_validation_error (Schema._validate_prompt_block prompt interface).
Proof.
  intros Hshape. unfold Schema._validate_prompt_block.
  destruct prompt as [| | | |?|entries]; try by eexists.
  destruct (Py.dict_has entries "template") eqn:Ht; [|by eexists].
  apply dict_has_get in Ht as [template Ht]. cbn [negb].
  destruct (Py.dict_get entries "placeholders") as [[| | | |ps|]|] eqn:Hp;
    try by eexists.
  by destruct (Hshape entries template ps).
Qed.

(** C8, as the code has it.  A module accepted by [validate_prompt_module]
    has a prompt block with a [template] key, whose value may be of any
    type, and a [placeholders] key whose value is a list; and a module whose
    prompt block is not a mapping, lacks [template], or whose
    [placeholders] is absent or not a list is rejected with a
    [ValidationError]. *)
Theorem validate_prompt_module_prompt_shape :
  (∀ m, Schema.validate_prompt_module m = Return tt → checked_prompt_shape m)
  ∧ (∀ m, ¬ checked_prompt_shape m →
          raises_validation_error (Schema.validate_prompt_module m)).
Proof.
  split.
  - intros m. unfold Schema.validate_prompt_module. intros H.
    apply outcome_bind_return in H as ([] & _ & H).
    apply outcome_bind_return in H as ([] & _ & H).
    apply outcome_bind_return in H as ([] & H & _).
    by apply _validate_prompt_block_shape in H.
  - intros m Hshape. unfold Schema.validate_prompt_module.
    destruct (_validate_top_level_outcome m) as [->|[msg ->]];
      [|by eexists].
    destruct (_validate_module_metadata_outcome (Schema.module m))
      as [->|[msg ->]]; [|by eexists].
    destruct (_validate_prompt_block_rejects (Schema.prompt m)
                (Schema.interface m)) as [msg Hmsg].
    { intros entries template placeholders H. apply Hshape.
      by exists entries, template, placeholders. }
    simpl. rewrite Hmsg. by eexists.
Qed.

Lemma validate_prompt_module_prompt_shape_witness :
  checked_prompt_shape numeric_template_module.
Proof.
  destruct validate_prompt_module_prompt_shape as [Haccepted _].
  apply (Haccepted numeric_template_module). reflexivity.
Defined.

(** C8, as the specification states it, fails: the validator accepts a
    module whose [prompt.template] is the number 123. *)
Lemma validate_accepts_non_string_template :
  Schema.validate_prompt_module numeric_template_module = Return tt
  ∧ ¬ stated_prompt_shape numeric_template_module.
Proof.
  split; [reflexivity|].
  intros (entries & template & placeholders & Hprompt & Htemplate & _).
  vm_compute in Hprompt. injection Hprompt as <-.
  vm_compute in Htemplate. discriminate Htemplate.
Qed.

(** * Sorting *)

Section SortFacts.
Context {A : Type} (cmp : A → A → comparison) (lt : A → A → bool).
Hypothesis Hord : cmp_order cmp.
Hypothesis Hlt : ∀ a b, lt a b = true ↔ cmp a b = Lt.

Lemma sort_insert_perm x l : sort_insert lt x l ≡ₚ x :: l.
Proof.
  induction l as [|y l IH]; simpl; [done|].
  destruct (lt y x); [|done]. rewrite IH. apply Permutation_swap.
Qed.

Lemma py_sorted_perm l : py_sorted lt l ≡ₚ l.
Proof.
  induction l as [|x l IH]; simpl; [done|].
  rewrite sort_insert_perm. by constructor.
Qed.

Lemma sort_insert_sorted x l :
  StronglySorted (λ a b, cmp a b ≠ Gt) l →
  StronglySorted (λ a b, cmp a b ≠ Gt) (sort_insert lt x l).
Proof.
  induction 1 as [|y l Hl IH Hy]; simpl.
  { repeat constructor. }
  destruct (lt y x) eqn:E.
  - constructor; [done|].
    apply Forall_forall. intros z Hz.
    apply (elem_of_Permutation_proper z _ _ (sort_insert_perm x l)) in Hz.
    apply elem_of_cons in Hz as [->|Hz].
    + apply Hlt in E. by rewrite E.
    + by apply (proj1 (Forall_forall _ _) Hy).
  - assert (cmp x y ≠ Gt) as Hxy.
    { intros Hgt. apply (co_gt_lt cmp Hord) in Hgt. apply Hlt in Hgt.
      congruence. }
    constructor; [by constructor|].
    constructor; [done|].
    apply Forall_forall. intros z Hz.
    apply (co_le_trans cmp Hord x y z); [done|].
    by apply (proj1 (Forall_forall _ _) Hy).
Qed.

Lemma py_sorted_sorted l :
  StronglySorted (λ a b, cmp a b ≠ Gt) (py_sorted lt l).
Proof.
  induction l as [|x l IH]; simpl; [constructor|by apply sort_insert_sorted].
Qed.

Lemma strongly_sorted_last l x :
  StronglySorted (λ a b, cmp a b ≠ Gt) l → last l = Some x →
  ∀ y, y ∈ l → cmp y x ≠ Gt.
Proof.
  induction 1 as [|z l Hl IH Hz]; [done|].
  intros Hlast y Hy. destruct l as [|z' l].
  - simpl in Hlast. injection Hlast as <-.
    apply list_elem_of_singleton in Hy as ->.
    by rewrite (co_refl cmp Hord).
  - change (last (z' :: l) = Some x) in Hlast.
    apply elem_of_cons in Hy as [->|Hy]; [|by apply IH].
    apply (proj1 (Forall_forall _ _) Hz).
    by apply last_Some_elem_of.
Qed.

(** The last element of the sorted list is a greatest element of the
    input. *)
Lemma py_sorted_last_max l x :
  last (py_sorted lt l) = Some x →
  x ∈ l ∧ ∀ y, y ∈ l → cmp y x ≠ Gt.
Proof.
  intros Hlast. split.
  - rewrite <-(py_sorted_perm l). by apply last_Some_elem_of.
  - intros y Hy. apply (strongly_sorted_last _ x (py_sorted_sorted l) Hlast).
    by rewrite (py_sorted_perm l).
Qed.

Lemma py_sorted_nil_inv l : py_sorted lt l = [] → l = [].
Proof.
  intros H. apply Permutation_nil_r. rewrite <-H. by rewrite py_sorted_perm.
Qed.
End SortFacts.

(** * promptpm/core/resolver.py: candidate selection *)

Lemma candidate_compare_order : cmp_order candidate_compare.
Proof.
  apply (cmp_order_lexc (λ a b : Resolver.candidate,
                           SemverOrder.version_compare a.1 b.1)
           (λ a b, String.compare (im_version a.2) (im_version b.2))).
  - apply (cmp_order_pullback fst SemverOrder.version_compare),
      version_compare_order.
  - apply (cmp_order_pullback (λ a : Resolver.candidate, im_version a.2)
             String.compare), string_compare_order.
Qed.

Lemma _compare_candidate_version_spec a b :
  Resolver._compare_candidate_version a b
  = Z_of_comparison (candidate_compare a b).
Proof.
  unfold Resolver._compare_candidate_version, candidate_compare.
  rewrite compare_to_spec.
  destruct (SemverOrder.version_compare a.1 b.1); simpl; try done.
  destruct (Str.lt (im_version a.2) (im_version b.2)) eqn:Hlt.
  { apply str_lt_spec in Hlt. by rewrite Hlt. }
  destruct (Str.gt (im_version a.2) (im_version b.2)) eqn:Hgt.
  { apply str_gt_spec in Hgt. by rewrite Hgt. }
  destruct (String.compare (im_version a.2) (im_version b.2)) eqn:Hc;
    [done| |].
  - apply str_lt_spec in Hc. congruence.
  - apply str_gt_spec in Hc. congruence.
Qed.

Lemma candidate_lt_spec a b :
  Resolver.candidate_lt a b = true ↔ candidate_compare a b = Lt.
Proof.
  unfold Resolver.candidate_lt. rewrite _compare_candidate_version_spec.
  destruct (candidate_compare a b); simpl; split; done.
Qed.

Lemma collect_matching_spec cs version_range matching :
  Resolver.collect_matching cs version_range = Return matching →
  ∀ v c, (v, c) ∈ matching ↔ c ∈ cs ∧ satisfying version_range c v.
Proof.
  revert matching. induction cs as [|c0 cs IH]; intros matching; simpl.
  { intros [= <-] v c. split; [by intros ?%elem_of_nil|].
    by intros [?%elem_of_nil _]. }
  intros H.
  apply outcome_bind_return in H as (v0 & Hv0 & H).
  apply outcome_bind_return in H as (ok & Hok & H).
  apply outcome_bind_return in H as (more & Hmore & H).
  injection H as <-. specialize (IH more Hmore).
  intros v c. unfold satisfying. destruct ok.
  - rewrite !elem_of_cons, IH. unfold satisfying. split.
    + intros [[= -> ->]|[Hin Hs]]; [|by auto]. split; [by left|done].
    + intros [[->|Hin] [Hp Hs]]; [|right; by auto].
      left. rewrite Hv0 in Hp. by injection Hp as ->.
  - rewrite !elem_of_cons, IH. unfold satisfying. split.
    + intros [Hin Hs]. by auto.
    + intros [[->|Hin] [Hp Hs]]; [|by auto].
      rewrite Hv0 in Hp. injection Hp as ->. congruence.
Qed.

Lemma collect_matching_total cs version_range parsed_range :
  (∀ c, c ∈ cs → ∃ v, Semver.parse_version (im_version c) = Return v) →
  Semver.parse_version_range version_range = Return parsed_range →
  ∃ matching, Resolver.collect_matching cs version_range = Return matching.
Proof.
  intros Hparse Hrange. induction cs as [|c cs IH]; simpl; [by eexists|].
  destruct (Hparse c ltac:(left)) as [v ->]. simpl.
  unfold Semver.satisfies_version_range at 1. rewrite Hrange. simpl.
  destruct IH as [more ->]; [intros c' Hc'; apply Hparse; by right|].
  simpl. by eexists.
Qed.

(** ** The parsers raise nothing but [SemVerError] *)

Lemma _validate_identifiers_outcome identifiers field_name check :
  Semver._validate_identifiers identifiers field_name check = Return tt
  ∨ ∃ err, raises_semver_error
             (Semver._validate_identifiers identifiers field_name check) err.
Proof.
  induction identifiers as [|identifier identifiers IH]; [by left|].
  cbn [Semver._validate_identifiers].
  unfold Semver._validate_identifier.
  destruct identifier as [|c identifier]; [right; by eexists|].
  destruct (negb _); [right; by eexists|].
  destruct (_ && _); [right; by eexists|]. exact IH.
Qed.

Lemma mk_version_outcome ma mi pa pre bu :
  (∃ v, Semver.mk_version ma mi pa pre bu = Return v)
  ∨ ∃ err, raises_semver_error (Semver.mk_version ma mi pa pre bu) err.
Proof.
  unfold Semver.mk_version, Semver.__post_init__,
    Semver._validate_numeric_field. cbn [Semver.major Semver.minor
    Semver.patch Semver.prerelease Semver.build].
  destruct (ma <? 0); [right; by eexists|].
  destruct (mi <? 0); [right; by eexists|].
  destruct (pa <? 0); [right; by eexists|]. cbn [mbind outcome_bind].
  destruct (_validate_identifiers_outcome pre "prerelease" true)
    as [->|[err ->]]; [|right; by eexists]. cbn [mbind outcome_bind].
  destruct (_validate_identifiers_outcome bu "build" false)
    as [->|[err ->]]; [|right; by eexists].
  left. by eexists.
Qed.

Lemma parse_version_outcome value :
  (∃ v, Semver.parse_version value = Return v)
  ∨ ∃ err, raises_semver_error (Semver.parse_version value) err.
Proof.
  unfold Semver.parse_version, Semver.parse.
  destruct (Semver.semver_fullmatch (Str.strip value))
    as [[[[[g1 g2] g3] g4] g5]|]; [|right; by eexists].
  apply mk_version_outcome.
Qed.

Lemma parse_operator_token_outcome token table r :
  Semver.parse_operator_token token table = Some r →
  (∃ comparators, r = Return comparators)
  ∨ ∃ err, raises_semver_error r err.
Proof.
  induction table as [|[text op] table IH]; [done|].
  cbn [Semver.parse_operator_token].
  destruct (Str.startswith token text); [|exact IH].
  intros [= <-].
  destruct (Str.drop (String.length text) token) as [|c version_text];
    [right; by eexists|].
  destruct (parse_version_outcome (String c version_text))
    as [[v ->]|[err ->]]; [left|right]; by eexists.
Qed.

Lemma _parse_range_token_outcome token :
  (∃ comparators, Semver._parse_range_token token = Return comparators)
  ∨ ∃ err, raises_semver_error (Semver._parse_range_token token) err.
Proof.
  unfold Semver._parse_range_token.
  destruct (String.eqb token "*"); [left; by eexists|].
  destruct (Str.startswith token "^").
  { destruct (parse_version_outcome (Str.drop 1 token))
      as [[base ->]|[err ->]]; [|right; by eexists].
    cbn [mbind outcome_bind]. unfold Semver._caret_upper_bound.
    destruct (Semver.major base >? 0);
      [|destruct (Semver.minor base >? 0)];
      (match goal with
       | |- context [Semver.mk_version ?a ?b ?c ?d ?e] =>
           destruct (mk_version_outcome a b c d e) as [[upper ->]|[err ->]]
       end; [left|right]; by eexists). }
  destruct (Str.startswith token "~").
  { destruct (parse_version_outcome (Str.drop 1 token))
      as [[base ->]|[err ->]]; [|right; by eexists].
    cbn [mbind outcome_bind].
    destruct (mk_version_outcome (Semver.major base) (Semver.minor base + 1)
                0 [] []) as [[upper ->]|[err ->]]; [left|right]; by eexists. }
  destruct (Semver.parse_operator_token token Semver.operator_table)
    as [r|] eqn:Hr.
  { by apply parse_operator_token_outcome in Hr. }
  destruct (parse_version_outcome token) as [[v ->]|[err ->]];
    [left|right]; by eexists.
Qed.

Lemma parse_tokens_outcome tokens :
  (∃ comparators, Semver.parse_tokens tokens = Return comparators)
  ∨ ∃ err, raises_semver_error (Semver.parse_tokens tokens) err.
Proof.
  induction tokens as [|token tokens IH]; [left; by eexists|].
  cbn [Semver.parse_tokens].
  destruct (_parse_range_token_outcome token) as [[cs ->]|[err ->]];
    [|right; by eexists]. cbn [mbind outcome_bind].
  destruct IH as [[more ->]|[err ->]]; [left|right]; by eexists.
Qed.

Lemma parse_alternatives_outcome expression parts :
  (∃ alts, Semver.parse_alternatives expression parts = Return alts)
  ∨ ∃ err, raises_semver_error
             (Semver.parse_alternatives expression parts) err.
Proof.
  induction parts as [|part parts IH]; [left; by eexists|].
  cbn [Semver.parse_alternatives].
  destruct (Str.strip part) as [|c text]; [right; by eexists|].
  destruct (Str.split_ws (Semver.commas_to_spaces (String c text)))
    as [|token tokens]; [right; by eexists|].
  destruct (parse_tokens_outcome (token :: tokens)) as [[cs ->]|[err ->]];
    [|right; by eexists]. cbn [mbind outcome_bind].
  destruct IH as [[more ->]|[err ->]]; [left|right]; by eexists.
Qed.

Lemma parse_version_range_outcome expression :
  (∃ r, Semver.parse_version_range expression = Return r)
  ∨ ∃ err, raises_semver_error (Semver.parse_version_range expression) err.
Proof.
  unfold Semver.parse_version_range.
  destruct (_ || _); [left; by eexists|].
  destruct (parse_alternatives_outcome expression
              (Semver.split_or (Str.strip expression)))
    as [[alts ->]|[err ->]]; [left|right]; by eexists.
Qed.

(** The loop that fills [matching] raises the first [SemVerError] it
    meets: the one of a listed version or the one of the range. *)
Lemma collect_matching_raises cs version_range :
  cs ≠ [] →
  (∃ c, c ∈ cs ∧ ∀ v, Semver.parse_version (im_version c) ≠ Return v)
  ∨ (∀ r, Semver.parse_version_range version_range ≠ Return r) →
  ∃ err,
    Resolver.collect_matching cs version_range = Raise (SemVerError err)
    ∧ ((∃ c, c ∈ cs
             ∧ raises_semver_error (Semver.parse_version (im_version c)) err)
       ∨ raises_semver_error (Semver.parse_version_range version_range) err).
Proof.
  induction cs as [|c cs IH]; [done|]. intros _ Hbad.
  cbn [Resolver.collect_matching].
  destruct (parse_version_outcome (im_version c)) as [[v Hv]|[err Herr]].
  2:{ exists err. rewrite Herr. split; [done|]. left. exists c.
      split; [by left|done]. }
  rewrite Hv. cbn [mbind outcome_bind].
  unfold Semver.satisfies_version_range at 1.
  destruct (parse_version_range_outcome version_range)
    as [[r Hr]|[err Herr]].
  2:{ exists err. rewrite Herr. split; [done|]. by right. }
  rewrite Hr. cbn [mbind outcome_bind Semver.range_matches
    Semver._coerce_version].
  destruct Hbad as [(c' & Hc' & Hnone)|Hnone]; [|by destruct (Hnone r)].
  apply elem_of_cons in Hc' as [->|Hc']; [by destruct (Hnone v)|].
  destruct IH as (err & Herr & Hfrom).
  { intros ->. by apply elem_of_nil in Hc'. }
  { left. by exists c'. }
  exists err. rewrite Herr. split; [done|].
  destruct Hfrom as [(c'' & Hin & Hc'')|Hrange];
    [left|by rewrite Hr in Hrange].
  exists c''. split; [by right|done].
Qed.

(** C3, as the code has it.  Candidate selection for a requirement
    [(name, range)], where [list_by_name(name)] returns [cs].  If [cs] is
    empty a [DependencyError] (dependency not found) is raised.
    Otherwise, if the version of a listed candidate or the range is not
    well formed, a [DependencyError] (invalid semantic version while
    resolving) is raised that carries the message of the [SemVerError] of
    a listed version or of the range, whether or not a candidate
    satisfies the range.  Otherwise: if no candidate satisfies the range a
    [DependencyError] (no matching version) is raised; else the selected
    candidate is listed, satisfies the range, and every satisfying
    candidate is below it in SemVer precedence or ties with it in
    precedence and does not have a greater raw version text. *)
Theorem select_installed_version_spec
    (list_by_name : string → outcome (list InstalledModule))
    (name version_range parent : string) (cs : list InstalledModule) :
  list_by_name name = Return cs →
  let selected :=
    Resolver._select_installed_version list_by_name name version_range
      parent in
  (cs = [] →
   selected
   = Raise (DependencyError
              (Resolver.not_found_message parent name version_range)))
  ∧ (cs ≠ [] →
     (∃ c, c ∈ cs ∧ ∀ v, Semver.parse_version (im_version c) ≠ Return v)
     ∨ (∀ r, Semver.parse_version_range version_range ≠ Return r) →
     ∃ err,
       selected
       = Raise (DependencyError
                  (invalid_version_message name version_range err))
       ∧ ((∃ c, c ∈ cs
                ∧ raises_semver_error
                    (Semver.parse_version (im_version c)) err)
          ∨ raises_semver_error
              (Semver.parse_version_range version_range) err))
  ∧ (cs ≠ [] →
     (∀ c, c ∈ cs → ∃ v, Semver.parse_version (im_version c) = Return v) →
     (∃ r, Semver.parse_version_range version_range = Return r) →
     ((∀ c v, c ∈ cs → ¬ satisfying version_range c v) →
      selected
      = Raise (DependencyError
                 (Resolver.no_match_message parent name version_range)))
     ∧ ((∃ c v, c ∈ cs ∧ satisfying version_range c v) →
        ∃ best v,
          selected = Return best
          ∧ best ∈ cs ∧ satisfying version_range best v
          ∧ ∀ c w, c ∈ cs → satisfying version_range c w →
              Semver.compare_to w v < 0
              ∨ (Semver.compare_to w v = 0
                 ∧ String.compare (im_version c) (im_version best) ≠ Gt))).
Proof.
  intros Hlist selected. subst selected.
  unfold Resolver._select_installed_version. rewrite Hlist.
  split; [by intros ->|]. split.
  { intros Hne Hbad. cbn [mbind outcome_bind].
    destruct (collect_matching_raises cs version_range Hne Hbad)
      as (err & Herr & Hfrom).
    exists err. split; [|done]. destruct cs as [|c0 cs0]; [done|].
    by rewrite Herr. }
  intros Hne Hparse [r Hrange]. simpl.
  destruct cs as [|c0 cs0] eqn:Hcs; [done|]. rewrite <-Hcs in *.
  destruct (collect_matching_total cs version_range r Hparse Hrange)
    as [matching Hmatching].
  rewrite Hmatching.
  pose proof (collect_matching_spec cs version_range matching Hmatching)
    as Hspec.
  pose proof (py_sorted_last_max candidate_compare Resolver.candidate_lt
                candidate_compare_order candidate_lt_spec matching) as Hmax.
  destruct (last (py_sorted Resolver.candidate_lt matching))
    as [[v best]|] eqn:Hlast.
  - destruct (Hmax (v, best) eq_refl) as [Hin Hle].
    apply Hspec in Hin as [Hin Hsat]. split.
    { intros Hnone. by destruct (Hnone best v Hin). }
    intros _. exists best, v.
    split; [done|]. split; [done|]. split; [done|].
    intros c w Hc Hcw.
    assert ((w, c) ∈ matching) as Hmem by (by apply Hspec).
    specialize (Hle (w, c) Hmem). unfold candidate_compare in Hle.
    simpl in Hle. rewrite !compare_to_spec.
    destruct (SemverOrder.version_compare w v); simpl in *;
      [right; by split|left; lia|done].
  - split; [done|].
    intros (c & v & Hc & Hsat). exfalso.
    assert ((v, c) ∈ matching) as Hmem by (by apply Hspec).
    apply last_None in Hlast.
    apply (py_sorted_nil_inv Resolver.candidate_lt) in Hlast.
    rewrite Hlast in Hmem. by apply elem_of_nil in Hmem.
Qed.

Lemma select_installed_version_spec_witness :
  ∃ best v,
    Resolver._select_installed_version sample_list_by_name "dep-lib" "^1.2.0"
      "root" = Return best
    ∧ best ∈ [sample_installed "dep-lib" "1.2.0";
              sample_installed "dep-lib" "1.5.0";
              sample_installed "dep-lib" "1.5.0+build.7";
              sample_installed "dep-lib" "2.0.0"]
    ∧ satisfying "^1.2.0" best v
    ∧ ∀ c w, c ∈ [sample_installed "dep-lib" "1.2.0";
                  sample_installed "dep-lib" "1.5.0";
                  sample_installed "dep-lib" "1.5.0+build.7";
                  sample_installed "dep-lib" "2.0.0"] →
        satisfying "^1.2.0" c w →
        Semver.compare_to w v < 0
        ∨ (Semver.compare_to w v = 0
           ∧ String.compare (im_version c) (im_version best) ≠ Gt).
Proof.
  destruct (select_installed_version_spec sample_list_by_name "dep-lib"
              "^1.2.0" "root" _ eq_refl) as (_ & _ & H).
  destruct H as [_ H].
  - discriminate.
  - intros c Hc. repeat (apply elem_of_cons in Hc as [->|Hc]);
      [by eexists..|by apply elem_of_nil in Hc].
  - by eexists.
  - apply H. exists (sample_installed "dep-lib" "1.5.0"), (core_version 1 5 0).
    split; [right; left|]. split; reflexivity.
Defined.

(** C3, as the specification states it, fails: with the versions [1.0.0]
    and [latest] listed, the requirement [>=1.0.0] is satisfied by the
    first, and the selection raises the error of the second instead of
    returning a candidate. *)
Lemma select_installed_version_stops_at_invalid_version :
  satisfying ">=1.0.0" (sample_installed "dep-x" "1.0.0") (core_version 1 0 0)
  ∧ Resolver._select_installed_version mixed_list_by_name "dep-x" ">=1.0.0"
      "root"
    = Raise (DependencyError
               (invalid_version_message "dep-x" ">=1.0.0"
                  [Lit "Invalid semantic version: "; Repr (PStr "latest")])).
Proof. split; [split|]; reflexivity. Qed.

(** * promptpm/core/resolver.py: the traversal *)

Lemma parse_dependency_entries_owner owner owner' entries : ∀ index specs,
  Resolver.parse_dependency_entries owner index entries = Return specs →
  Resolver.parse_dependency_entries owner' index entries = Return specs.
Proof.
  induction entries as [|e entries IH]; intros index specs; [done|].
  cbn [Resolver.parse_dependency_entries].
  destruct e as [| | | | |fields]; try done.
  destruct (Py.dict_get fields "name") as [[| | |[|c n]| |]|]; try done.
  destruct (Py.dict_get fields "version") as [[| | |range| |]|]; try done.
  destruct (Str.strip range) as [|c' stripped]; [done|].
  intros H. apply outcome_bind_return in H as (more & Hmore & H).
  by rewrite (IH _ _ Hmore).
Qed.

Lemma _parse_dependencies_owner owner owner' raw specs :
  Resolver._parse_dependencies raw owner = Return specs →
  Resolver._parse_dependencies raw owner' = Return specs.
Proof.
  unfold Resolver._parse_dependencies.
  destruct raw as [| | | |[|e entries]|]; try done.
  intros H. apply outcome_bind_return in H as (parsed & Hparsed & H).
  by rewrite (parse_dependency_entries_owner owner owner' _ _ _ Hparsed).
Qed.

Section ResolverFacts.
Variable list_by_name : string → outcome (list InstalledModule).
Variable read_module_file : string → outcome (list (string * pyval) * string).
Variable abspath : string → string.

Abbreviation select := (Resolver._select_installed_version list_by_name).
Abbreviation dependencies_of := (Resolver.dependencies_of read_module_file).
Abbreviation visit := (Resolver._visit list_by_name read_module_file abspath).
Abbreviation for_dependencies := (Resolver.for_dependencies list_by_name).
Abbreviation node_id := Resolver.node_id_of.

Lemma select_parent name version_range parent parent' m :
  select name version_range parent = Return m →
  select name version_range parent' = Return m.
Proof.
  unfold Resolver._select_installed_version.
  destruct (list_by_name name) as [cs|e]; [|done]. simpl.
  destruct cs as [|c cs]; [done|].
  destruct (Resolver.collect_matching (c :: cs) version_range)
    as [matching|[]]; try done.
  by destruct (last (py_sorted Resolver.candidate_lt matching)).
Qed.

Lemma select_listed name version_range parent m :
  select name version_range parent = Return m →
  ∃ cs, list_by_name name = Return cs ∧ m ∈ cs.
Proof.
  unfold Resolver._select_installed_version.
  destruct (list_by_name name) as [cs|e]; [|done]. simpl.
  destruct cs as [|c cs]; [done|].
  destruct (Resolver.collect_matching (c :: cs) version_range)
    as [matching|[]] eqn:Hm; try done.
  destruct (last (py_sorted Resolver.candidate_lt matching))
    as [[v best]|] eqn:Hlast; [|done].
  intros [= <-]. exists (c :: cs). split; [done|].
  destruct (py_sorted_last_max candidate_compare Resolver.candidate_lt
              candidate_compare_order candidate_lt_spec matching (v, best)
              Hlast) as [Hin _].
  by apply (collect_matching_spec _ _ _ Hm) in Hin as [Hin _].
Qed.

Lemma dependencies_of_owner path owner owner' deps :
  dependencies_of path owner = Return deps →
  dependencies_of path owner' = Return deps.
Proof.
  unfold Resolver.dependencies_of. intros H.
  apply outcome_bind_return in H as (loaded & Hload & H).
  apply outcome_bind_return in H as ([] & Hvalid & H).
  rewrite Hload. simpl. rewrite Hvalid. simpl.
  by apply (_parse_dependencies_owner owner).
Qed.

Lemma dependencies_of_directory path path' owner deps :
  reads_by_directory read_module_file abspath →
  abspath path = abspath path' →
  dependencies_of path owner = Return deps →
  dependencies_of path' owner = Return deps.
Proof.
  intros Hread Hsame. unfold Resolver.dependencies_of,
    Resolver.load_prompt_module. intros H.
  apply outcome_bind_return in H as (loaded & Hload & H).
  apply outcome_bind_return in Hload as ([raw source] & Hraw & [= <-]).
  destruct (Hread path path' raw source Hsame Hraw) as [source' ->]. simpl.
  exact H.
Qed.

(** ** What a successful visit does to the state *)

Lemma state_step_refl st : state_step st st.
Proof.
  split; [done|]. split; [done|]. split; [|done].
  exists []. by rewrite app_nil_r.
Qed.

Lemma state_step_trans st1 st2 st3 :
  state_step st1 st2 → state_step st2 st3 → state_step st1 st3.
Proof.
  intros (Hv1 & Hs1 & [n1 Hr1] & Hf1) (Hv2 & Hs2 & [n2 Hr2] & Hf2).
  split; [congruence|]. split; [set_solver|]. split.
  - exists (n1 ++ n2). by rewrite Hr2, Hr1, app_assoc.
  - intros x Hx Hnx. apply Hf2; [by rewrite Hv1|by apply Hf1].
Qed.

Lemma for_dependencies_steps v parent deps : visit_steps v → ∀ st st',
  for_dependencies v parent deps st = Some (Return st') →
  state_step st st'
  ∧ ∀ d, d ∈ deps → ∃ m, selects list_by_name parent d m
                         ∧ node_id m ∈ Resolver.visited st'.
Proof.
  intros Hv. induction deps as [|d deps IH]; intros st st'; simpl.
  { intros [= <-]. split; [apply state_step_refl|].
    by intros d ?%elem_of_nil. }
  destruct (select (Resolver.name d) (Resolver.version_range d) parent)
    as [m|e] eqn:Hsel; [|done].
  destruct (v m st) as [[st1|e]|] eqn:Hvisit; try done.
  intros Hloop. destruct (Hv m st st1 Hvisit) as [Hstep Hm].
  destruct (IH st1 st' Hloop) as [Hstep' Hdeps].
  split; [by apply (state_step_trans st st1 st')|].
  intros d' [->|Hd']%elem_of_cons; [|by apply Hdeps].
  exists m. split; [done|]. destruct Hstep' as (_ & Hsub & _). set_solver.
Qed.

Lemma _visit_steps fuel : visit_steps (visit fuel).
Proof.
  induction fuel as [|fuel IH]; intros m st st'; simpl; [done|].
  case_bool_decide as Hvisited.
  { intros [= <-]. split; [apply state_step_refl|done]. }
  case_bool_decide as Hvisiting; [done|].
  destruct (dependencies_of (im_path m) (node_id m)) as [deps|e]; [|done].
  set (st1 := {| Resolver.resolved := Resolver.resolved st;
                 Resolver.visiting := Resolver.visiting st ++ [node_id m];
                 Resolver.visited := Resolver.visited st |}).
  destruct (for_dependencies (visit fuel) (node_id m) deps st1)
    as [[st2|e]|] eqn:Hloop; try done.
  intros [= <-].
  destruct (for_dependencies_steps _ _ _ IH _ _ Hloop)
    as [(Hv & Hs & [new Hr] & Hf) _].
  simpl in *. split; [|set_solver].
  split; [|split; [|split]]; simpl.
  - rewrite Hv. apply removelast_last.
  - set_solver.
  - exists (new ++ [record_of abspath m]).
    rewrite Hr. by rewrite app_assoc.
  - intros x Hx Hnx.
    assert (x ∉ Resolver.visited st2) by (apply Hf; [set_solver|done]).
    assert (x ≠ node_id m) by (by intros ->).
    set_solver.
Qed.

(** ** The invariant of the traversal *)

Abbreviation invariant :=
  (state_invariant list_by_name read_module_file abspath).

Lemma record_of_id m : record_id (record_of abspath m) = node_id m.
Proof. done. Qed.

Lemma for_dependencies_keeps v parent deps :
  visit_steps v → visit_keeps list_by_name read_module_file abspath v →
  ∀ st st', for_dependencies v parent deps st = Some (Return st') →
            invariant st → invariant st'.
Proof.
  intros Hsteps Hkeeps. induction deps as [|d deps IH]; intros st st'; simpl.
  { by intros [= <-]. }
  destruct (select (Resolver.name d) (Resolver.version_range d) parent)
    as [m|e]; [|done].
  destruct (v m st) as [[st1|e]|] eqn:Hvisit; try done.
  intros Hloop Hinv. apply (IH st1 st' Hloop). by apply (Hkeeps m st).
Qed.

Lemma dependencies_first_snoc l r :
  dependencies_first list_by_name read_module_file abspath l →
  dependencies_among list_by_name read_module_file abspath
    (record_id <$> l) r →
  dependencies_first list_by_name read_module_file abspath (l ++ [r]).
Proof.
  intros Hl Hr i r' Hlookup.
  apply lookup_app_Some in Hlookup as [Hi|[Hlen Hi]].
  - rewrite take_app_le by (apply Nat.lt_le_incl; by eapply lookup_lt_Some).
    by apply Hl.
  - assert (i = length l) as ->.
    { destruct (i - length l)%nat as [|k] eqn:Hk; [lia|].
      simpl in Hi. by rewrite lookup_nil in Hi. }
    rewrite Nat.sub_diag in Hi. injection Hi as <-.
    by rewrite take_app_length.
Qed.

Lemma _visit_keeps fuel :
  visit_keeps list_by_name read_module_file abspath (visit fuel).
Proof.
  induction fuel as [|fuel IH]; intros m st st'; simpl; [done|].
  case_bool_decide as Hvisited.
  { by intros [= <-]. }
  case_bool_decide as Hvisiting; [done|].
  destruct (dependencies_of (im_path m) (node_id m)) as [deps|e] eqn:Hdeps;
    [|done].
  set (st1 := {| Resolver.resolved := Resolver.resolved st;
                 Resolver.visiting := Resolver.visiting st ++ [node_id m];
                 Resolver.visited := Resolver.visited st |}).
  destruct (for_dependencies (visit fuel) (node_id m) deps st1)
    as [[st2|e]|] eqn:Hloop; try done.
  intros [= <-] Hinv.
  destruct (for_dependencies_steps _ _ _ (_visit_steps fuel) _ _ Hloop)
    as [(Hv & Hs & _ & Hf) Hsel].
  assert (invariant st2) as (H1 & H2 & H3).
  { by apply (for_dependencies_keeps _ _ _ (_visit_steps fuel) IH
                _ _ Hloop). }
  assert (node_id m ∉ Resolver.visited st2) as Hnew.
  { apply Hf; [|done]. simpl. set_solver. }
  split; [|split]; simpl.
  - intros x. rewrite fmap_app, elem_of_app, elem_of_union, H1. simpl.
    rewrite list_elem_of_singleton, elem_of_singleton. tauto.
  - rewrite fmap_app. apply NoDup_app. split; [done|]. split.
    + intros x Hx. simpl. rewrite list_elem_of_singleton. intros ->.
      by apply Hnew, H1.
    + apply NoDup_singleton.
  - apply dependencies_first_snoc; [done|].
    exists m, deps. split; [done|]. split; [done|].
    intros d Hd. destruct (Hsel d Hd) as (m' & Hm' & Hin).
    exists m'. split; [done|]. by apply H1.
Qed.

(** ** The directory of the root module is never emitted *)

Section RootAbsent.
Hypothesis Hread : reads_by_directory read_module_file abspath.
Variable module_path : string.
Variable root_owner : string.
Variable root_dependencies : list Resolver.DependencySpec.
Hypothesis Hroot :
  dependencies_of module_path root_owner = Return root_dependencies.

Abbreviation context := (root_context list_by_name root_dependencies).
Abbreviation absent := (root_absent abspath module_path).

Lemma root_context_step st st' blocker :
  context st blocker → state_step st st' →
  blocker ∈ Resolver.visiting st → context st' blocker.
Proof.
  intros (before & d & rest & m_d & owner & HD & Hbefore & Hsel & Hid & Hnot)
    (Hv & Hs & _ & Hf) Hin.
  exists before, d, rest, m_d, owner. repeat split; try done.
  - intros d' Hd'. destruct (Hbefore d' Hd') as (m' & owner' & Hm' & Hvis).
    exists m', owner'. split; [done|]. set_solver.
  - by apply Hf.
Qed.

Lemma for_dependencies_blocked fuel parent before d rest m_d owner st :
  (∀ d', d' ∈ before →
     ∃ m' owner', selects list_by_name owner' d' m'
                  ∧ node_id m' ∈ Resolver.visited st) →
  selects list_by_name owner d m_d →
  node_id m_d ∉ Resolver.visited st →
  node_id m_d ∈ Resolver.visiting st →
  ∀ st', for_dependencies (visit fuel) parent (before ++ d :: rest) st
         ≠ Some (Return st').
Proof.
  intros Hbefore Hsel Hnot Hin st'.
  induction before as [|d' before IH]; simpl.
  - rewrite (select_parent _ _ owner parent m_d Hsel).
    destruct fuel as [|fuel]; simpl; [done|].
    rewrite bool_decide_eq_false_2 by done.
    by rewrite bool_decide_eq_true_2 by done.
  - destruct (Hbefore d' ltac:(left)) as (m' & owner' & Hm' & Hvis).
    rewrite (select_parent _ _ owner' parent m' Hm').
    destruct fuel as [|fuel]; simpl; [done|].
    rewrite bool_decide_eq_true_2 by done.
    apply IH. intros d'' Hd''. apply Hbefore. by right.
Qed.

Abbreviation visit_avoids_root :=
  (visit_never_emits_root list_by_name abspath module_path root_dependencies).

Lemma for_dependencies_avoids_root v parent deps :
  visit_steps v → visit_avoids_root v →
  ∀ st st' blocker,
    for_dependencies v parent deps st = Some (Return st') →
    context st blocker → blocker ∈ Resolver.visiting st →
    absent (Resolver.resolved st) → absent (Resolver.resolved st').
Proof.
  intros Hsteps Havoid. induction deps as [|d deps IH];
    intros st st' blocker; simpl.
  { by intros [= <-]. }
  destruct (select (Resolver.name d) (Resolver.version_range d) parent)
    as [m|e]; [|done].
  destruct (v m st) as [[st1|e]|] eqn:Hvisit; try done.
  intros Hloop Hctx Hin Habs.
  destruct (Hsteps m st st1 Hvisit) as [Hstep _].
  apply (IH st1 st' blocker Hloop).
  - by apply (root_context_step st).
  - destruct Hstep as (-> & _). done.
  - apply (Havoid m st st1 blocker); auto.
Qed.

Lemma _visit_avoids_root fuel : visit_avoids_root (visit fuel).
Proof.
  induction fuel as [|fuel IH]; intros m st st' blocker; simpl; [done|].
  case_bool_decide as Hvisited.
  { by intros [= <-]. }
  case_bool_decide as Hvisiting; [done|].
  destruct (dependencies_of (im_path m) (node_id m)) as [deps|e] eqn:Hdeps;
    [|done].
  set (st1 := {| Resolver.resolved := Resolver.resolved st;
                 Resolver.visiting := Resolver.visiting st ++ [node_id m];
                 Resolver.visited := Resolver.visited st |}).
  destruct (for_dependencies (visit fuel) (node_id m) deps st1)
    as [[st2|e]|] eqn:Hloop; try done.
  intros [= <-] Hctx Hblocker Habs.
  assert (blocker ∈ Resolver.visiting st1) as Hin.
  { simpl. destruct Hblocker as [?| ->]; set_solver. }
  assert (context st1 blocker) as Hctx1 by done.
  destruct (decide (abspath (im_path m) = abspath module_path)) as [Hsame|Hne].
  - exfalso.
    assert (deps = root_dependencies) as ->.
    { apply (dependencies_of_directory _ _ _ _ Hread Hsame) in Hdeps.
      apply (dependencies_of_owner _ _ root_owner) in Hdeps.
      rewrite Hroot in Hdeps. by injection Hdeps. }
    destruct Hctx1
      as (before & d & rest & m_d & owner & HD & Hbefore & Hsel & Hid & Hnot).
    rewrite HD in Hloop. subst blocker.
    by apply (for_dependencies_blocked fuel (node_id m) before d rest m_d
                owner st1 Hbefore Hsel Hnot Hin st2).
  - simpl. intros r [Hr|Hr]%elem_of_app.
    + by apply (for_dependencies_avoids_root _ _ _ (_visit_steps fuel) IH
                  st1 st2 blocker Hloop Hctx1 Hin Habs).
    + apply list_elem_of_singleton in Hr as ->. done.
Qed.

Lemma root_loop_avoids_root fuel parent todo : ∀ before st st',
  root_dependencies = before ++ todo →
  (∀ d', d' ∈ before →
     ∃ m' owner', selects list_by_name owner' d' m'
                  ∧ node_id m' ∈ Resolver.visited st) →
  for_dependencies (visit fuel) parent todo st = Some (Return st') →
  absent (Resolver.resolved st) → absent (Resolver.resolved st').
Proof.
  induction todo as [|d todo IH]; intros before st st' HD Hbefore; simpl.
  { by intros [= <-]. }
  destruct (select (Resolver.name d) (Resolver.version_range d) parent)
    as [m|e] eqn:Hsel; [|done].
  destruct (visit fuel m st) as [[st1|e]|] eqn:Hvisit; try done.
  intros Hloop Habs.
  destruct (_visit_steps fuel m st st1 Hvisit) as [(Hv & Hs & _) Hm].
  apply (IH (before ++ [d]) st1 st').
  - by rewrite <-app_assoc.
  - intros d' [Hd'|Hd']%elem_of_app.
    + destruct (Hbefore d' Hd') as (m' & owner' & Hm' & Hvis).
      exists m', owner'. split; [done|]. set_solver.
    + apply list_elem_of_singleton in Hd' as ->. by exists m, parent.
  - done.
  - destruct (decide (node_id m ∈ Resolver.visited st)) as [Hvis|Hvis].
    + destruct fuel as [|fuel]; simpl in Hvisit; [done|].
      rewrite bool_decide_eq_true_2 in Hvisit by done.
      by injection Hvisit as <-.
    + apply (_visit_avoids_root fuel m st st1 (node_id m) Hvisit);
        [|by right|done].
      by exists before, d, todo, m, parent.
Qed.

End RootAbsent.

(** ** The traversal ends *)

Section Termination.
Variable universe : list string.
Hypothesis Hwithin : registry_within list_by_name universe.

Lemma for_dependencies_total v parent deps : visit_steps v → ∀ st,
  (∀ m st0, Resolver.visiting st0 = Resolver.visiting st →
            node_id m ∈ universe → v m st0 ≠ None) →
  for_dependencies v parent deps st ≠ None.
Proof.
  intros Hsteps. induction deps as [|d deps IH]; intros st Htotal; simpl;
    [done|].
  destruct (select (Resolver.name d) (Resolver.version_range d) parent)
    as [m|e] eqn:Hsel; [|done].
  destruct (select_listed _ _ _ _ Hsel) as (cs & Hcs & Hm).
  specialize (Htotal m st eq_refl (Hwithin _ _ _ Hcs Hm)) as Hvisit.
  destruct (v m st) as [[st1|e]|] eqn:Hv; try done.
  destruct (Hsteps m st st1 Hv) as [(Hvis & _) _].
  apply IH. intros m0 st0 Hst0 Hm0. apply Htotal; [congruence|done].
Qed.

Lemma _visit_total fuel : ∀ m st,
  NoDup (Resolver.visiting st) →
  (∀ x, x ∈ Resolver.visiting st → x ∈ universe) →
  node_id m ∈ universe →
  (length universe < fuel + length (Resolver.visiting st))%nat →
  visit fuel m st ≠ None.
Proof.
  induction fuel as [|fuel IH]; intros m st Hnodup Hsub Hm Hlen.
  { pose proof (submseteq_length _ _ (NoDup_submseteq _ _ Hnodup Hsub)). lia. }
  simpl. case_bool_decide as Hvisited; [done|].
  case_bool_decide as Hvisiting; [done|].
  destruct (dependencies_of (im_path m) (node_id m)) as [deps|e]; [|done].
  set (st1 := {| Resolver.resolved := Resolver.resolved st;
                 Resolver.visiting := Resolver.visiting st ++ [node_id m];
                 Resolver.visited := Resolver.visited st |}).
  pose proof (for_dependencies_total (visit fuel) (node_id m) deps
                (_visit_steps fuel) st1) as Hloop.
  destruct (for_dependencies (visit fuel) (node_id m) deps st1)
    as [[st2|e]|]; try done.
  apply Hloop. intros m0 st0 Hst0 Hm0. apply IH; try done.
  - rewrite Hst0. simpl. apply NoDup_app. split; [done|]. split.
    + intros x Hx ->%list_elem_of_singleton. done.
    + apply NoDup_singleton.
  - rewrite Hst0. simpl. intros x [Hx|Hx]%elem_of_app; [by apply Hsub|].
    by apply list_elem_of_singleton in Hx as ->.
  - rewrite Hst0. simpl. rewrite length_app. simpl. lia.
Qed.

Lemma resolve_for_module_total module_path :
  Resolver.resolve_for_module list_by_name read_module_file abspath
    (S (length universe)) module_path ≠ None.
Proof.
  unfold Resolver.resolve_for_module.
  destruct (Resolver.load_prompt_module read_module_file module_path)
    as [module|e]; [|done].
  destruct (Schema.validate_prompt_module module); [|done].
  destruct (Resolver._parse_dependencies _ _) as [deps|e]; [|done].
  pose proof (for_dependencies_total (visit (S (length universe)))
                (Schema.source_path module) deps
                (_visit_steps (S (length universe))) Resolver.initial_state)
    as Hloop.
  destruct (for_dependencies _ _ deps Resolver.initial_state)
    as [[st|e]|]; try done.
  exfalso. apply Hloop; [|done].
  intros m st0 Hst0 Hm. apply _visit_total; try done.
  - rewrite Hst0. constructor.
  - rewrite Hst0. by intros x ?%elem_of_nil.
  - rewrite Hst0. simpl. lia.
Qed.

End Termination.

End ResolverFacts.



(** * promptpm/core/test_runner.py: assertions *)

Section TestRunnerFacts.
Variable json_loads : string → option pyval.
Variable json_dumps : pyval → string.

Abbreviation evaluate_structure :=
  (TestRunner._evaluate_structure_assertion json_loads json_dumps).
Abbreviation evaluate_assertion :=
  (TestRunner.evaluate_assertion json_loads json_dumps).
Abbreviation evaluate_from := (TestRunner.evaluate_from json_loads json_dumps).
Abbreviation evaluate_assertions :=
  (TestRunner._evaluate_assertions json_loads json_dumps).

Lemma required_key_names_outcome test_name index raw_keys :
  (∃ keys, TestRunner.required_key_names test_name index raw_keys
           = Return keys)
  ∨ raises_validation_error
      (TestRunner.required_key_names test_name index raw_keys).
Proof.
  induction raw_keys as [|key raw_keys IH]; simpl; [left; by eexists|].
  destruct key as [| | |[|c k]| |]; try (right; by eexists).
  destruct IH as [[keys ->]|[msg ->]]; [left|right]; by eexists.
Qed.

Lemma structure_request_outcome test_name index value :
  (∃ r, TestRunner.structure_request test_name index value = Return r)
  ∨ raises_validation_error
      (TestRunner.structure_request test_name index value).
Proof.
  unfold TestRunner.structure_request.
  destruct value as [| | |s|?|fields]; try (right; by eexists);
    [left; by eexists|].
  destruct (default (PStr "json_object") (Py.dict_get fields "type"))
    as [| | |ty| |]; try (right; by eexists).
  destruct (default (PList []) (Py.dict_get fields "required_keys"))
    as [| | | |raw_keys|]; try (right; by eexists); [left; by eexists|].
  destruct (required_key_names_outcome test_name index raw_keys)
    as [[keys ->]|[msg ->]]; [left|right]; by eexists.
Qed.

Lemma evaluate_structure_outcome test_name index output value :
  (∃ r, evaluate_structure test_name index output value = Return r)
  ∨ raises_validation_error
      (evaluate_structure test_name index output value).
Proof.
  unfold TestRunner._evaluate_structure_assertion.
  destruct (structure_request_outcome test_name index value)
    as [[[ty keys] ->]|[msg ->]]; [|right; by eexists].
  simpl.
  destruct (negb _); [right; by eexists|]. left.
  destruct (json_loads output) as [parsed|]; [|by eexists].
  destruct (String.eqb ty "json_object").
  - destruct parsed; try by eexists.
    destruct (filter _ keys); by eexists.
  - destruct parsed; by eexists.
Qed.

Lemma evaluate_assertion_outcome test_name output index assertion :
  (∃ r, evaluate_assertion test_name output index assertion = Return r)
  ∨ raises_validation_error
      (evaluate_assertion test_name output index assertion).
Proof.
  destruct assertion as [kind value]. unfold TestRunner.evaluate_assertion.
  destruct (String.eqb kind "contains").
  { destruct value; try (right; by eexists). left. by eexists. }
  destruct (String.eqb kind "excludes").
  { destruct value; try (right; by eexists). left. by eexists. }
  destruct (String.eqb kind "max_length").
  { unfold TestRunner._ensure_int_assertion.
    destruct (Py.as_int value) as [n|]; [|right; by eexists].
    destruct (n <? 0); [right; by eexists|left; by eexists]. }
  destruct (String.eqb kind "structure").
  { apply evaluate_structure_outcome. }
  right. by eexists.
Qed.

Lemma evaluate_from_outcome test_name output assertions : ∀ index,
  (∃ r, evaluate_from test_name output index assertions = Return r)
  ∨ raises_validation_error
      (evaluate_from test_name output index assertions).
Proof.
  induction assertions as [|a assertions IH]; intros index; simpl.
  { left. by eexists. }
  destruct (evaluate_assertion_outcome test_name output index a)
    as [[r ->]|[msg ->]]; [|right; by eexists].
  simpl. destruct (IH (index + 1)) as [[r' ->]|[msg ->]];
    [left|right]; by eexists.
Qed.

Lemma evaluate_assertion_unknown test_name output index kind value :
  ¬ known_assertion_kind kind →
  raises_validation_error
    (evaluate_assertion test_name output index (kind, value)).
Proof.
  intros Hkind. unfold TestRunner.evaluate_assertion.
  destruct (String.eqb_spec kind "contains") as [->|_].
  { destruct Hkind. by left. }
  destruct (String.eqb_spec kind "excludes") as [->|_].
  { destruct Hkind. right. by left. }
  destruct (String.eqb_spec kind "max_length") as [->|_].
  { destruct Hkind. right. right. by left. }
  destruct (String.eqb_spec kind "structure") as [->|_].
  { destruct Hkind. right. right. by right. }
  by eexists.
Qed.

(** An assertion that raises makes the whole evaluation raise a
    [ValidationError]. *)
Lemma evaluate_from_raises test_name output before a after : ∀ index,
  raises_validation_error
    (evaluate_assertion test_name output
       (index + Z.of_nat (length before)) a) →
  raises_validation_error
    (evaluate_from test_name output index (before ++ a :: after)).
Proof.
  induction before as [|b before IH]; intros index; simpl.
  - rewrite Z.add_0_r. intros [msg ->]. by eexists.
  - intros Ha.
    destruct (evaluate_assertion_outcome test_name output index b)
      as [[r ->]|[msg ->]]; [|by eexists].
    simpl. destruct (IH (index + 1)) as [msg ->]; [|by eexists].
    by replace (index + 1 + Z.of_nat (length before))
      with (index + Z.pos (Pos.of_succ_nat (length before))) by lia.
Qed.

(** A failure added by one assertion is in the list the evaluation
    returns. *)
Lemma evaluate_from_records test_name output before a after failure :
  ∀ index failures,
  evaluate_assertion test_name output (index + Z.of_nat (length before)) a
  = Return (Some failure) →
  evaluate_from test_name output index (before ++ a :: after)
  = Return failures →
  failure ∈ failures.
Proof.
  induction before as [|b before IH]; intros index failures; simpl.
  - rewrite Z.add_0_r. intros ->. simpl.
    destruct (evaluate_from test_name output (index + 1) after); [|done].
    intros [= <-]. by left.
  - intros Ha H.
    apply outcome_bind_return in H as (fb & Hb & H).
    apply outcome_bind_return in H as (more & Hmore & [= <-]).
    apply elem_of_app. right. apply (IH (index + 1)); [|done].
    by replace (index + 1 + Z.of_nat (length before))
      with (index + Z.pos (Pos.of_succ_nat (length before))) by lia.
Qed.

Lemma required_key_names_well_formed test_name index raw_keys :
  Forall (λ key, ∃ c k, key = PStr (String c k)) raw_keys →
  ∃ keys, TestRunner.required_key_names test_name index raw_keys
          = Return keys.
Proof.
  induction 1 as [|key raw_keys (c & k & ->) _ [keys IH]]; simpl;
    [by eexists|].
  rewrite IH. by eexists.
Qed.

Lemma structure_request_well_formed test_name index value ty :
  structure_type_of value ty → required_keys_well_formed value →
  ∃ keys, TestRunner.structure_request test_name index value
          = Return (ty, keys).
Proof.
  unfold structure_type_of, required_keys_well_formed,
    TestRunner.structure_request.
  destruct value as [| | |s|?|fields]; try done.
  { intros -> _. by eexists. }
  destruct (Py.dict_get fields "type") as [[| | |s| |]|]; try done;
    intros ->; simpl;
    (destruct (Py.dict_get fields "required_keys")
      as [[| | | |raw_keys|]|]; try done; simpl; intros Hkeys;
     try (by eexists);
     destruct (required_key_names_well_formed test_name index raw_keys Hkeys)
       as [keys ->]; by eexists).
Qed.

Lemma structure_request_type test_name index value ty keys :
  TestRunner.structure_request test_name index value = Return (ty, keys) →
  structure_type_of value ty.
Proof.
  unfold structure_type_of, TestRunner.structure_request.
  destruct value as [| | |s|?|fields]; try done.
  { by intros [= -> _]. }
  destruct (Py.dict_get fields "type") as [[| | |s| |]|]; simpl; try done.
  - destruct (default (PList []) (Py.dict_get fields "required_keys"));
      try done.
    + by intros [= -> _].
    + intros H. apply outcome_bind_return in H as (? & _ & H).
      by injection H as ->.
  - destruct (default (PList []) (Py.dict_get fields "required_keys"));
      try done.
    + by intros [= <- _].
    + intros H. apply outcome_bind_return in H as (? & _ & H).
      by injection H as <-.
Qed.

Lemma structure_type_of_functional value ty ty' :
  structure_type_of value ty → structure_type_of value ty' → ty = ty'.
Proof.
  unfold structure_type_of. destruct value as [| | |s|?|fields]; try done.
  - congruence.
  - destruct (Py.dict_get fields "type") as [[| | |s| |]|]; try done;
      congruence.
Qed.

Lemma evaluate_structure_unknown_type test_name index output value ty :
  structure_type_of value ty → ¬ known_structure_type ty →
  raises_validation_error (evaluate_structure test_name index output value).
Proof.
  intros Hty Hunknown. unfold TestRunner._evaluate_structure_assertion.
  destruct (structure_request_outcome test_name index value)
    as [[[ty' keys] Hreq]|[msg ->]]; [|by eexists].
  rewrite Hreq. simpl.
  pose proof (structure_request_type _ _ _ _ _ Hreq) as Hty'.
  rewrite (structure_type_of_functional value ty' ty Hty' Hty).
  destruct (String.eqb_spec ty "json_object") as [->|_].
  { destruct Hunknown. by left. }
  destruct (String.eqb_spec ty "json_array") as [->|_].
  { destruct Hunknown. by right. }
  by eexists.
Qed.

Lemma evaluate_structure_bad_output test_name index output value ty :
  structure_type_of value ty → known_structure_type ty →
  required_keys_well_formed value →
  json_loads output = None
  ∨ (∃ parsed, json_loads output = Some parsed ∧ wrong_top_level ty parsed) →
  ∃ failure,
    evaluate_structure test_name index output value = Return (Some failure)
    ∧ TestRunner.assertion_type failure = "structure"
    ∧ TestRunner.assertion_index failure = index
    ∧ TestRunner.test_name failure = test_name.
Proof.
  intros Hty Hknown Hkeys Hbad.
  unfold TestRunner._evaluate_structure_assertion.
  destruct (structure_request_well_formed test_name index value ty Hty Hkeys)
    as [keys ->]. simpl.
  replace (String.eqb ty "json_object" || String.eqb ty "json_array")
    with true by (by destruct Hknown as [-> | ->]).
  simpl. destruct Hbad as [->|(parsed & -> & Hwrong)]; [by eexists|].
  destruct Hwrong as [[-> Hnot]|[-> Hnot]]; simpl;
    destruct parsed; try done; by eexists.
Qed.


End TestRunnerFacts.


(** * promptpm/core/test_runner.py: template rendering *)

Lemma str_length_app (a b : string) :
  String.length (a +:+ b) = (String.length a + String.length b)%nat.
Proof. induction a as [|c a IH]; simpl; [done|]. by rewrite IH. Qed.

Lemma str_prefix_longer old s :
  (String.length s < String.length old)%nat → String.prefix old s = false.
Proof.
  revert s. induction old as [|c old IH]; intros s Hlen.
  { simpl in Hlen. lia. }
  destruct s as [|d s]; [done|]. rewrite str_prefix_cons.
  destruct (ascii_dec c d); [|done]. apply IH. simpl in Hlen. lia.
Qed.

Lemma str_prefix_refl s : String.prefix s s = true.
Proof.
  induction s as [|c s IH]; [done|]. rewrite str_prefix_cons.
  by destruct (ascii_dec c c).
Qed.

Lemma replace_aux_unfold old new skip c s :
  Str.replace_aux old new skip (String c s)
  = match skip with
    | S k => Str.replace_aux old new k s
    | O =>
        if String.prefix old (String c s)
        then new +:+ Str.replace_aux old new (String.length old - 1) s
        else String c (Str.replace_aux old new O s)
    end.
Proof. done. Qed.

Lemma replace_aux_skipped old new s : ∀ skip,
  (String.length s ≤ skip)%nat → Str.replace_aux old new skip s = "".
Proof.
  induction s as [|c s IH]; intros skip Hlen; [done|].
  rewrite replace_aux_unfold. destruct skip as [|k]; simpl in Hlen; [lia|].
  apply IH. lia.
Qed.

Lemma replace_aux_short old new s :
  (String.length s < String.length old)%nat →
  Str.replace_aux old new O s = s.
Proof.
  induction s as [|c s IH]; intros Hlen; [done|].
  rewrite replace_aux_unfold, str_prefix_longer by done.
  rewrite IH; [done|]. simpl in Hlen. lia.
Qed.

Lemma replace_short old new s :
  (String.length s < String.length old)%nat → Str.replace old new s = s.
Proof.
  intros Hlen. unfold Str.replace. destruct old; [done|].
  by apply replace_aux_short.
Qed.

Lemma replace_whole old new : old ≠ "" → Str.replace old new old = new.
Proof.
  intros Hne. unfold Str.replace. destruct old as [|c old]; [done|].
  rewrite replace_aux_unfold, str_prefix_refl.
  rewrite replace_aux_skipped by (simpl; lia).
  apply str_app_nil_r.
Qed.

(** ** Replacement and concatenation *)

Lemma str_prefix_spec p s :
  String.prefix p s = true ↔ ∃ post, s = p +:+ post.
Proof.
  revert s. induction p as [|c p IH]; intros s.
  { split; [by exists s|by destruct s]. }
  destruct s as [|d s].
  { split; [done|by intros [post ?]]. }
  rewrite str_prefix_cons. destruct (ascii_dec c d) as [->|Hne].
  - rewrite IH. split; intros [post H]; exists post.
    + cbn. by rewrite H.
    + cbn in H. by injection H.
  - split; [done|]. intros [post H]. cbn in H. congruence.
Qed.

Lemma str_prefix_length old s :
  String.prefix old s = true → (String.length old ≤ String.length s)%nat.
Proof.
  intros H. destruct (decide (String.length old ≤ String.length s)%nat);
    [done|].
  rewrite str_prefix_longer in H by lia. done.
Qed.

Lemma str_prefix_app_l p a r :
  String.prefix p a = true → String.prefix p (a +:+ r) = true.
Proof.
  rewrite !str_prefix_spec. intros [post ->]. exists (post +:+ r).
  by rewrite str_app_assoc.
Qed.

(** A match that starts in [a] and is not within [a] ends in what
    follows. *)
Lemma str_prefix_app_inv old : ∀ a r,
  String.prefix old (a +:+ r) = true →
  String.prefix old a = true
  ∨ ∃ o2, o2 ≠ "" ∧ old = a +:+ o2 ∧ String.prefix o2 r = true.
Proof.
  induction old as [|d old IH]; intros a r; [left; by destruct a|].
  destruct a as [|c a].
  { intros H. right. by exists (String d old). }
  cbn [String.append]. rewrite !str_prefix_cons.
  destruct (ascii_dec d c) as [->|]; [|done].
  intros [H|(o2 & Hne & -> & H)]%IH; [by left|right].
  by exists o2.
Qed.

Lemma replace_aux_app old new r : ∀ a,
  (∀ a1 a2, a = a1 +:+ a2 → a2 ≠ "" →
     String.prefix old (a2 +:+ r) = String.prefix old a2) →
  ∀ skip, (skip ≤ String.length a)%nat →
  Str.replace_aux old new skip (a +:+ r)
  = Str.replace_aux old new skip a +:+ Str.replace_aux old new 0 r.
Proof.
  induction a as [|c a IH]; intros Hin skip Hskip.
  { cbn in Hskip. by replace skip with O by lia. }
  assert (∀ a1 a2, a = a1 +:+ a2 → a2 ≠ "" →
            String.prefix old (a2 +:+ r) = String.prefix old a2) as Hin'.
  { intros a1 a2 -> Hne. by apply (Hin (String c a1)). }
  cbn [String.append]. rewrite !replace_aux_unfold.
  destruct skip as [|skip].
  - change (String c (a +:+ r)) with (String c a +:+ r).
    rewrite (Hin "" (String c a)) by done.
    destruct (String.prefix old (String c a)) eqn:Hmatch.
    + apply str_prefix_length in Hmatch. cbn in Hmatch.
      rewrite IH by (done || lia). by rewrite str_app_assoc.
    + by rewrite IH by (done || lia).
  - cbn in Hskip. apply IH; [done|lia].
Qed.

Lemma replace_aux_untouched old new r : ∀ mid,
  (∀ m1 m2, mid = m1 +:+ m2 → m2 ≠ "" →
     String.prefix old (m2 +:+ r) = false) →
  Str.replace_aux old new 0 (mid +:+ r)
  = mid +:+ Str.replace_aux old new 0 r.
Proof.
  induction mid as [|c mid IH]; intros Hout; [done|].
  cbn [String.append]. rewrite replace_aux_unfold.
  change (String c (mid +:+ r)) with (String c mid +:+ r).
  rewrite (Hout "" (String c mid)) by done.
  rewrite IH; [done|]. intros m1 m2 -> Hne. by apply (Hout (String c m1)).
Qed.

Lemma replace_aux_skip_exact old new r : ∀ x,
  Str.replace_aux old new (String.length x) (x +:+ r)
  = Str.replace_aux old new 0 r.
Proof. induction x as [|c x IH]; [done|]. cbn. exact IH. Qed.

Lemma replace_aux_match old new r :
  old ≠ "" →
  Str.replace_aux old new 0 (old +:+ r)
  = new +:+ Str.replace_aux old new 0 r.
Proof.
  destruct old as [|c old]; [done|]. intros _.
  cbn [String.append]. rewrite replace_aux_unfold.
  change (String c (old +:+ r)) with (String c old +:+ r).
  rewrite (str_prefix_app_l _ _ _ (str_prefix_refl (String c old))).
  cbn [String.length]. rewrite Nat.sub_succ, Nat.sub_0_r.
  by rewrite replace_aux_skip_exact.
Qed.

Lemma no_overhang_prefix old a rest a1 a2 :
  no_overhang old a rest → a = a1 +:+ a2 → a2 ≠ "" →
  String.prefix old (a2 +:+ rest) = String.prefix old a2.
Proof.
  intros Hover -> Hne.
  destruct (String.prefix old a2) eqn:Hin; [by apply str_prefix_app_l|].
  destruct (String.prefix old (a2 +:+ rest)) eqn:Hout; [|done].
  apply str_prefix_app_inv in Hout as [Hout|(o2 & Ho2 & -> & Hout)];
    [congruence|].
  by rewrite (Hover a1 a2 o2) in Hout.
Qed.

(** Replacement leaves a text [mid] alone, and works on both sides of it
    as it would without it, when no occurrence of [old] touches [mid]. *)
Lemma replace_around old new a mid b :
  no_overhang old a (mid +:+ b) →
  not_inside old mid b →
  Str.replace old new (a +:+ mid +:+ b)
  = Str.replace old new a +:+ mid +:+ Str.replace old new b.
Proof.
  intros Hover Hmid. unfold Str.replace. destruct old as [|c old]; [done|].
  rewrite replace_aux_app.
  - by rewrite replace_aux_untouched.
  - intros a1 a2. by apply no_overhang_prefix.
  - lia.
Qed.

(** Replacement of an occurrence of [old] that no earlier occurrence
    reaches. *)
Lemma replace_at old new a b :
  old ≠ "" →
  no_overhang old a (old +:+ b) →
  Str.replace old new (a +:+ old +:+ b)
  = Str.replace old new a +:+ new +:+ Str.replace old new b.
Proof.
  intros Hne Hover. unfold Str.replace. destruct old as [|c old]; [done|].
  rewrite replace_aux_app.
  - by rewrite replace_aux_match.
  - intros a1 a2. by apply no_overhang_prefix.
  - lia.
Qed.

(** ** Placeholders of keys without braces *)

Lemma split_cons c rest o1 o2 :
  String c rest = o1 +:+ o2 →
  (o1 = "" ∧ o2 = String c rest)
  ∨ ∃ o1', o1 = String c o1' ∧ rest = o1' +:+ o2.
Proof.
  destruct o1 as [|d o1]; [by left|]. cbn. intros [= -> ->]. right.
  by exists o1.
Qed.

Lemma no_open_suffix x y : no_open (x +:+ y) = true → no_open y = true.
Proof.
  unfold no_open. rewrite str_forallb_app. by intros [_ ?]%andb_true_iff.
Qed.

Lemma brace_free_no_open m t :
  brace_free m = true → no_open t = true → no_open (m +:+ t) = true.
Proof.
  unfold brace_free, no_open. intros Hm Ht. rewrite str_forallb_app, Ht.
  rewrite andb_true_r. revert Hm. clear.
  induction m as [|c m IH]; [done|]. cbn [Str.forallb].
  intros [Hc Hm]%andb_true_iff. rewrite IH by done.
  unfold is_brace in Hc. by destruct (Ascii.eqb c "{").
Qed.

Lemma no_open_not_prefix o2 rest :
  o2 ≠ "" → no_open o2 = true → String.prefix o2 (String "{" rest) = false.
Proof.
  destruct o2 as [|c o2]; [done|]. intros _ H.
  unfold no_open in H. cbn [Str.forallb] in H.
  apply andb_true_iff in H as [Hc _]. rewrite str_prefix_cons.
  destruct (ascii_dec c "{") as [->|]; done.
Qed.

Lemma open_not_prefix x m2 b :
  m2 ≠ "" → no_open m2 = true →
  String.prefix (String "{" x) (m2 +:+ b) = false.
Proof.
  destruct m2 as [|c m2]; [done|]. intros _ H.
  unfold no_open in H. cbn [Str.forallb] in H.
  apply andb_true_iff in H as [Hc _].
  cbn [String.append]. rewrite str_prefix_cons.
  destruct (ascii_dec "{" c) as [<-|]; done.
Qed.

(** Two keys without braces that are closed at the same place are the
    same key. *)
Lemma brace_free_closed m : ∀ k x y,
  brace_free m = true → brace_free k = true →
  String.prefix (m +:+ String "}" x) (k +:+ String "}" y) = true →
  m = k ∧ String.prefix x y = true.
Proof.
  unfold brace_free.
  induction m as [|c m IH]; intros [|d k] x y Hm Hk;
    cbn [String.append]; cbn [Str.forallb] in Hm, Hk;
    rewrite str_prefix_cons.
  - by destruct (ascii_dec "}" "}").
  - apply andb_true_iff in Hk as [Hd _].
    destruct (ascii_dec "}" d) as [<-|]; done.
  - apply andb_true_iff in Hm as [Hc _].
    destruct (ascii_dec c "}") as [->|]; done.
  - apply andb_true_iff in Hm as [_ Hm].
    apply andb_true_iff in Hk as [_ Hk].
    destruct (ascii_dec c d) as [->|]; [|done].
    intros [-> ?]%IH; done.
Qed.

Lemma closing_no_open m t :
  brace_free m = true → no_open t = true → t ≠ "" →
  ∀ rest, String.prefix (m +:+ t) (String "{" rest) = false.
Proof.
  intros Hm Ht Hne rest. apply no_open_not_prefix.
  - destruct m; [done|by cbn].
  - by apply brace_free_no_open.
Qed.

(** *** No occurrence reaches into a placeholder from the left *)

Lemma no_overhang_single m a rest :
  brace_free m = true →
  no_overhang (placeholder m) a (String "{" rest).
Proof.
  intros Hm a1 o1 o2 _ Hold Ho1 Ho2.
  change (placeholder m) with (String "{" (m +:+ "}")) in Hold.
  apply split_cons in Hold as [[-> _]|(o1' & -> & Hold)]; [done|].
  apply no_open_not_prefix; [done|].
  apply (no_open_suffix o1'). rewrite <- Hold.
  by apply brace_free_no_open.
Qed.

(** The overhang of the doubled placeholder of [m] is either [{m}}] after
    a final opening brace or has no opening brace. *)
Lemma double_overhang m a1 o1 o2 a :
  brace_free m = true →
  a = a1 +:+ o1 → double_placeholder m = o1 +:+ o2 → o1 ≠ "" → o2 ≠ "" →
  (a = a1 +:+ "{" ∧ o2 = String "{" (m +:+ "}}"))
  ∨ no_open o2 = true.
Proof.
  intros Hm -> Hold Ho1 Ho2.
  change (double_placeholder m)
    with (String "{" (String "{" (m +:+ "}}"))) in Hold.
  apply split_cons in Hold as [[-> _]|(o1' & -> & Hold)]; [done|].
  apply split_cons in Hold as [[-> ->]|(o1'' & -> & Hold)]; [by left|].
  right. apply (no_open_suffix o1''). rewrite <- Hold.
  by apply brace_free_no_open.
Qed.

Lemma no_overhang_double_foreign m k a b :
  brace_free m = true → brace_free k = true → m ≠ k →
  no_overhang (double_placeholder m) a (placeholder k +:+ b).
Proof.
  intros Hm Hk Hne a1 o1 o2 Ha Hold Ho1 Ho2.
  change (placeholder k +:+ b) with (String "{" ((k +:+ "}") +:+ b)).
  rewrite str_app_assoc.
  destruct (double_overhang m a1 o1 o2 a Hm Ha Hold Ho1 Ho2)
    as [[_ ->]|Hopen]; [|by apply no_open_not_prefix].
  rewrite str_prefix_cons. destruct (ascii_dec "{" "{"); [|done].
  destruct (String.prefix (m +:+ "}}") (k +:+ "}" +:+ b)) eqn:Hp; [|done].
  by apply brace_free_closed in Hp as [? _].
Qed.

Lemma ends_with_open_app a : ends_with_open (a +:+ "{") = true.
Proof.
  induction a as [|c a IH]; [done|]. cbn [String.append ends_with_open].
  destruct (a +:+ "{") eqn:E; [by destruct a|done].
Qed.

Lemma enclosed_intro a b : enclosed (a +:+ "{") ("}" +:+ b) = true.
Proof.
  unfold enclosed. rewrite ends_with_open_app.
  change ("}" +:+ b) with (String "}" b). rewrite str_prefix_cons.
  destruct (ascii_dec "}" "}"); [by destruct b|done].
Qed.

Lemma no_overhang_double_free k a b :
  brace_free k = true → enclosed a b = false →
  no_overhang (double_placeholder k) a (placeholder k +:+ b).
Proof.
  intros Hk Hfree a1 o1 o2 Ha Hold Ho1 Ho2.
  change (placeholder k +:+ b) with (String "{" ((k +:+ "}") +:+ b)).
  rewrite str_app_assoc.
  destruct (double_overhang k a1 o1 o2 a Hk Ha Hold Ho1 Ho2)
    as [[Ha' ->]|Hopen]; [|by apply no_open_not_prefix].
  rewrite str_prefix_cons. destruct (ascii_dec "{" "{"); [|done].
  destruct (String.prefix (k +:+ "}}") (k +:+ "}" +:+ b)) eqn:Hp; [|done].
  apply brace_free_closed in Hp as [_ Hp]; [|done..].
  apply str_prefix_spec in Hp as [post ->].
  by rewrite Ha', enclosed_intro in Hfree.
Qed.

Lemma no_overhang_double_wrapped m k a b :
  brace_free m = true →
  no_overhang (double_placeholder m) a (double_placeholder k +:+ b).
Proof.
  intros Hm a1 o1 o2 Ha Hold Ho1 Ho2.
  change (double_placeholder k +:+ b)
    with (String "{" (String "{" ((k +:+ "}}") +:+ b))).
  destruct (double_overhang m a1 o1 o2 a Hm Ha Hold Ho1 Ho2)
    as [[_ ->]|Hopen]; [|by apply no_open_not_prefix].
  rewrite str_prefix_cons. destruct (ascii_dec "{" "{"); [|done].
  by apply closing_no_open.
Qed.

(** *** No occurrence starts inside a placeholder of another key *)

Lemma not_inside_single_single m k b :
  brace_free m = true → brace_free k = true → m ≠ k →
  not_inside (placeholder m) (placeholder k) b.
Proof.
  intros Hm Hk Hne m1 m2 Hmid Hm2.
  change (placeholder k) with (String "{" (k +:+ "}")) in Hmid.
  change (placeholder m) with (String "{" (m +:+ "}")).
  apply split_cons in Hmid as [[-> ->]|(m1' & -> & Hmid)].
  - cbn [String.append]. rewrite str_prefix_cons.
    destruct (ascii_dec "{" "{"); [|done].
    destruct (String.prefix (m +:+ "}") ((k +:+ "}") +:+ b)) eqn:Hp; [|done].
    rewrite str_app_assoc in Hp.
    by apply brace_free_closed in Hp as [? _].
  - apply open_not_prefix; [done|]. apply (no_open_suffix m1').
    rewrite <- Hmid. by apply brace_free_no_open.
Qed.

Lemma not_inside_double_single m k b :
  brace_free k = true →
  not_inside (double_placeholder m) (placeholder k) b.
Proof.
  intros Hk m1 m2 Hmid Hm2.
  change (placeholder k) with (String "{" (k +:+ "}")) in Hmid.
  change (double_placeholder m)
    with (String "{" (String "{" (m +:+ "}}"))).
  apply split_cons in Hmid as [[-> ->]|(m1' & -> & Hmid)].
  - cbn [String.append]. rewrite str_prefix_cons.
    destruct (ascii_dec "{" "{"); [|done].
    apply open_not_prefix; [by destruct k|].
    by apply brace_free_no_open.
  - apply open_not_prefix; [done|]. apply (no_open_suffix m1').
    rewrite <- Hmid. by apply brace_free_no_open.
Qed.

Lemma not_inside_single_double m k b :
  brace_free m = true → brace_free k = true → m ≠ k →
  not_inside (placeholder m) (double_placeholder k) b.
Proof.
  intros Hm Hk Hne m1 m2 Hmid Hm2.
  change (double_placeholder k)
    with (String "{" (String "{" (k +:+ "}}"))) in Hmid.
  change (placeholder m) with (String "{" (m +:+ "}")).
  apply split_cons in Hmid as [[-> ->]|(m1' & -> & Hmid)].
  { cbn [String.append]. rewrite str_prefix_cons.
    destruct (ascii_dec "{" "{"); [|done].
    by apply closing_no_open. }
  apply split_cons in Hmid as [[-> ->]|(m1'' & -> & Hmid)].
  - cbn [String.append]. rewrite str_prefix_cons.
    destruct (ascii_dec "{" "{"); [|done].
    destruct (String.prefix (m +:+ "}") ((k +:+ "}}") +:+ b)) eqn:Hp;
      [|done].
    rewrite str_app_assoc in Hp.
    by apply brace_free_closed in Hp as [? _].
  - apply open_not_prefix; [done|]. apply (no_open_suffix m1'').
    rewrite <- Hmid. by apply brace_free_no_open.
Qed.

Lemma not_inside_double_double m k b :
  brace_free m = true → brace_free k = true → m ≠ k →
  not_inside (double_placeholder m) (double_placeholder k) b.
Proof.
  intros Hm Hk Hne m1 m2 Hmid Hm2.
  change (double_placeholder k)
    with (String "{" (String "{" (k +:+ "}}"))) in Hmid.
  change (double_placeholder m)
    with (String "{" (String "{" (m +:+ "}}"))).
  apply split_cons in Hmid as [[-> ->]|(m1' & -> & Hmid)].
  { cbn [String.append]. rewrite !str_prefix_cons.
    destruct (ascii_dec "{" "{"); [|done].
    destruct (String.prefix (m +:+ "}}") ((k +:+ "}}") +:+ b)) eqn:Hp;
      [|done].
    rewrite str_app_assoc in Hp.
    by apply brace_free_closed in Hp as [? _]. }
  apply split_cons in Hmid as [[-> ->]|(m1'' & -> & Hmid)].
  - cbn [String.append]. rewrite str_prefix_cons.
    destruct (ascii_dec "{" "{"); [|done].
    apply open_not_prefix; [by destruct k|].
    by apply brace_free_no_open.
  - apply open_not_prefix; [done|]. apply (no_open_suffix m1'').
    rewrite <- Hmid. by apply brace_free_no_open.
Qed.

(** ** One key's turn and the placeholders in the text *)

Lemma substitute_unfold key value_text rendered :
  TestRunner.substitute key value_text rendered
  = Str.replace (placeholder key) value_text
      (Str.replace (double_placeholder key) value_text rendered).
Proof. done. Qed.

(** The turn of a key leaves the placeholder of another key where it is
    and works on both sides of it. *)
Lemma substitute_around_single m k value_text a b :
  brace_free m = true → brace_free k = true → m ≠ k →
  TestRunner.substitute m value_text (a +:+ placeholder k +:+ b)
  = TestRunner.substitute m value_text a +:+ placeholder k
    +:+ TestRunner.substitute m value_text b.
Proof.
  intros Hm Hk Hne. rewrite !substitute_unfold.
  rewrite (replace_around (double_placeholder m)).
  - apply replace_around.
    + by apply no_overhang_single.
    + by apply not_inside_single_single.
  - by apply no_overhang_double_foreign.
  - by apply not_inside_double_single.
Qed.

Lemma substitute_around_double m k value_text a b :
  brace_free m = true → brace_free k = true → m ≠ k →
  TestRunner.substitute m value_text (a +:+ double_placeholder k +:+ b)
  = TestRunner.substitute m value_text a +:+ double_placeholder k
    +:+ TestRunner.substitute m value_text b.
Proof.
  intros Hm Hk Hne. rewrite !substitute_unfold.
  rewrite (replace_around (double_placeholder m)).
  - apply replace_around.
    + by apply no_overhang_single.
    + by apply not_inside_single_double.
  - by apply no_overhang_double_wrapped.
  - by apply not_inside_double_double.
Qed.

(** The turn of a key puts its value where its placeholder stands, when
    that does not stand in a further pair of braces. *)
Lemma substitute_free k value_text a b :
  brace_free k = true → enclosed a b = false →
  TestRunner.substitute k value_text (a +:+ placeholder k +:+ b)
  = TestRunner.substitute k value_text a +:+ value_text
    +:+ TestRunner.substitute k value_text b.
Proof.
  intros Hk Hfree. rewrite !substitute_unfold.
  rewrite (replace_around (double_placeholder k)).
  - apply replace_at; [done|]. by apply no_overhang_single.
  - by apply no_overhang_double_free.
  - by apply not_inside_double_single.
Qed.

(** The doubled placeholder is replaced by the value in the first of the
    two replacements; the second one then works on the whole text. *)
Lemma substitute_wrapped k value_text a b :
  brace_free k = true →
  TestRunner.substitute k value_text (a +:+ double_placeholder k +:+ b)
  = Str.replace (placeholder k) value_text
      (Str.replace (double_placeholder k) value_text a +:+ value_text
       +:+ Str.replace (double_placeholder k) value_text b).
Proof.
  intros Hk. rewrite !substitute_unfold. f_equal.
  apply replace_at; [done|]. by apply no_overhang_double_wrapped.
Qed.

Section RenderFacts.
Variable json_dumps_compact : pyval → string.
Variable read_input_file : string → string → option (outcome string).

Abbreviation render :=
  (TestRunner._render_template json_dumps_compact read_input_file).
Abbreviation render_keys :=
  (TestRunner.render_keys json_dumps_compact read_input_file).
Abbreviation value_text_of :=
  (TestRunner.value_text_of json_dumps_compact read_input_file).

Lemma render_keys_app inputs module_root before after rendered :
  render_keys inputs module_root (before ++ after) rendered
  = rendered' ← render_keys inputs module_root before rendered;
    render_keys inputs module_root after rendered'.
Proof.
  revert rendered. induction before as [|key before IH]; intros rendered;
    [done|].
  cbn [app TestRunner.render_keys].
  destruct (value_text_of inputs module_root key) as [value_text|e]; [|done].
  cbn [mbind outcome_bind]. apply IH.
Qed.

(** The keys whose turn comes between leave the placeholder of [k] where
    it is and rewrite the text on both sides of it. *)
Lemma render_keys_around inputs module_root k mid between :
  (mid = placeholder k ∨ mid = double_placeholder k) →
  brace_free k = true →
  Forall (λ m, brace_free m = true) between → k ∉ between →
  ∀ a b a' b',
    render_keys inputs module_root between a = Return a' →
    render_keys inputs module_root between b = Return b' →
    render_keys inputs module_root between (a +:+ mid +:+ b)
    = Return (a' +:+ mid +:+ b').
Proof.
  intros Hmid Hk. induction between as [|m between IH];
    intros Hfree Hnotin a b a' b'.
  { by intros [= ->] [= ->]. }
  apply Forall_cons in Hfree as [Hm Hfree].
  apply not_elem_of_cons in Hnotin as [Hne Hnotin].
  cbn [TestRunner.render_keys].
  destruct (value_text_of inputs module_root m) as [value_text|e]; [|done].
  cbn [mbind outcome_bind]. intros Ha Hb.
  rewrite <- (IH Hfree Hnotin _ _ a' b' Ha Hb). f_equal.
  destruct Hmid as [->| ->].
  - by apply substitute_around_single.
  - by apply substitute_around_double.
Qed.

(** The run up to the turn of the later key [k], when the value put in
    for the earlier key [j] holds a placeholder [mid] of [k]. *)
Lemma render_value_in template inputs module_root before j between k after
    P Q A B a' b' mid :
  py_sorted Str.lt (Py.dict_keys inputs)
  = before ++ j :: between ++ k :: after →
  NoDup (Py.dict_keys inputs) →
  brace_free j = true → Forall (λ m, brace_free m = true) between →
  brace_free k = true →
  (mid = placeholder k ∨ mid = double_placeholder k) →
  render_keys inputs module_root before template
  = Return (P +:+ placeholder j +:+ Q) →
  enclosed P Q = false →
  value_text_of inputs module_root j = Return (A +:+ mid +:+ B) →
  render_keys inputs module_root between
    (TestRunner.substitute j (A +:+ mid +:+ B) P +:+ A) = Return a' →
  render_keys inputs module_root between
    (B +:+ TestRunner.substitute j (A +:+ mid +:+ B) Q) = Return b' →
  render template inputs module_root
  = value_k ← value_text_of inputs module_root k;
    render_keys inputs module_root after
      (TestRunner.substitute k value_k (a' +:+ mid +:+ b')).
Proof.
  intros Hkeys Hnodup Hj Hbetween Hk Hmid Hbefore Hfree Hvalue Ha Hb.
  assert (k ∉ between) as Hnotin.
  { rewrite <- (py_sorted_perm Str.lt (Py.dict_keys inputs)), Hkeys in Hnodup.
    apply NoDup_app in Hnodup as (_ & _ & Hnodup).
    apply NoDup_cons in Hnodup as [_ Hnodup].
    apply NoDup_app in Hnodup as (_ & Hdisjoint & _).
    intros Hin. apply (Hdisjoint k Hin). by left. }
  unfold TestRunner._render_template. rewrite Hkeys.
  rewrite render_keys_app, Hbefore. cbn [mbind outcome_bind].
  cbn [TestRunner.render_keys]. rewrite Hvalue. cbn [mbind outcome_bind].
  rewrite substitute_free by done.
  replace (TestRunner.substitute j (A +:+ mid +:+ B) P +:+ (A +:+ mid +:+ B)
           +:+ TestRunner.substitute j (A +:+ mid +:+ B) Q)
    with ((TestRunner.substitute j (A +:+ mid +:+ B) P +:+ A) +:+ mid
          +:+ (B +:+ TestRunner.substitute j (A +:+ mid +:+ B) Q))
    by (by rewrite !str_app_assoc).
  rewrite render_keys_app.
  by rewrite (render_keys_around inputs module_root k mid between Hmid Hk
                Hbetween Hnotin _ _ a' b' Ha Hb).
Qed.


End RenderFacts.



(** * The registry: path segments *)

Lemma segment_tail_match_whole rest :
  ends_with_line_feed rest = false →
  Registry.segment_tail_match rest = Str.forallb Registry.is_segment_char rest.
Proof.
  induction rest as [|c rest IH]; [done|].
  intros Hend. cbn [Registry.segment_tail_match Str.forallb].
  destruct rest as [|d rest].
  - cbn [ends_with_line_feed] in Hend. rewrite Hend.
    by destruct (Registry.is_segment_char c).
  - rewrite IH by exact Hend.
    by destruct (Registry.is_segment_char c);
      [|rewrite andb_false_r].
Qed.

Lemma pattern_match_whole s :
  ends_with_line_feed s = false →
  Registry._SAFE_SEGMENT_PATTERN_match s = whole_match s.
Proof.
  destruct s as [|c rest]; [done|]. intros Hend.
  unfold Registry._SAFE_SEGMENT_PATTERN_match, whole_match.
  destruct rest as [|d rest]; [done|].
  by rewrite segment_tail_match_whole.
Qed.

Lemma validate_segment_outcome value field :
  (∃ s, value = PStr s ∧ Registry._validate_segment value field = Return s)
  ∨ ∃ msg, Registry._validate_segment value field = Raise (DependencyError msg).
Proof.
  unfold Registry._validate_segment.
  destruct value as [| | |[|c rest]| |]; try (right; eauto; fail).
  destruct (_ || _); [right; eauto|].
  destruct (_ || _); [right; eauto|].
  destruct (negb _); [right; eauto|].
  left. eauto.
Qed.

Lemma validate_segment_accepts s field :
  Registry._validate_segment (PStr s) field = Return s
  ↔ Registry._SAFE_SEGMENT_PATTERN_match s = true ∧ s ≠ "." ∧ s ≠ ".."
    ∧ Str.contains s "/" = false
    ∧ Str.contains s (String Registry.BACKSLASH "") = false.
Proof.
  unfold Registry._validate_segment.
  destruct s as [|c rest]; [split; [done|by intros [? _]]|].
  set (s := String c rest).
  destruct (String.eqb_spec s ".") as [->|Hdot];
    [split; [done|by intros (_ & ? & _)]|].
  destruct (String.eqb_spec s "..") as [->|Hdots];
    [split; [done|by intros (_ & _ & ? & _)]|].
  cbn [orb].
  destruct (Str.contains s "/");
    [split; [done|by intros (_ & _ & _ & ? & _)]|].
  destruct (Str.contains s (String Registry.BACKSLASH ""));
    [split; [done|by intros (_ & _ & _ & _ & ?)]|].
  cbn [orb].
  destruct (Registry._SAFE_SEGMENT_PATTERN_match s);
    [done|split; [done|by intros [? _]]].
Qed.

Lemma validate_segment_grammar s field :
  ends_with_line_feed s = false →
  Registry._validate_segment (PStr s) field = Return s ↔ acceptable_segment s.
Proof.
  intros Hend. rewrite validate_segment_accepts, pattern_match_whole by done.
  done.
Qed.

Lemma validate_segment_rejects s field :
  ends_with_line_feed s = false → ¬ acceptable_segment s →
  ∃ msg, Registry._validate_segment (PStr s) field
         = Raise (DependencyError msg).
Proof.
  intros Hend Hbad.
  destruct (validate_segment_outcome (PStr s) field)
    as [(s' & [= <-] & Hok)|?]; [|done].
  by apply validate_segment_grammar in Hok.
Qed.

(** * The registry: what a call touches *)

Section RegistryAccess.
Variable sha256_hex : string → string.
Variable json_load : string → option pyval.
Variable json_dumps_canonical : pyval → string.
Variable yaml_safe_load : string → outcome pyval.
Variable toml_load : string → outcome pyval.
Variable root_path : string.
Variable abspath : string → string.

Local Abbreviation load_prompt_module :=
  (Registry.load_prompt_module yaml_safe_load toml_load).
Local Abbreviation install :=
  (Registry.install sha256_hex json_dumps_canonical yaml_safe_load toml_load
     root_path abspath).
Local Abbreviation lookup := (Registry.lookup sha256_hex json_load root_path).
Local Abbreviation list_by_name :=
  (Registry.list_by_name sha256_hex json_load root_path).

Lemma io_bind_unfold {A B} (m : Registry.io A) (k : A → Registry.io B) w :
  (m ≫= k) w
  = match m w with
    | (Return a, w') => k a w'
    | (Raise e, w') => (Raise e, w')
    end.
Proof. done. Qed.

Lemma io_bind_lift {A B} (r : outcome A) (k : A → Registry.io B) w :
  (Registry.lift r ≫= k) w
  = match r with Return a => k a w | Raise e => (Raise e, w) end.
Proof. rewrite io_bind_unfold. unfold Registry.lift. by destruct r. Qed.

Lemma io_bind_touch {B} a (k : unit → Registry.io B) w :
  (Registry.touch a ≫= k) w
  = k tt {| Registry.registry := Registry.registry w;
            Registry.accesses := Registry.accesses w ++ [a] |}.
Proof. done. Qed.

Lemma lookup_rejects name version w :
  (∃ e, Registry._validate_segment name "name" = Raise e)
  ∨ (∃ e, Registry._validate_segment version "version" = Raise e) →
  rejected_untouched w (lookup name version w).
Proof.
  intros Hbad. unfold rejected_untouched, Registry.lookup.
  rewrite io_bind_lift.
  destruct (validate_segment_outcome name "name")
    as [(s & -> & Hs)|[msg ->]]; [rewrite Hs|eauto].
  rewrite io_bind_lift.
  destruct (validate_segment_outcome version "version")
    as [(v & -> & Hv)|[msg ->]]; [|eauto].
  destruct Hbad as [[e He]|[e He]]; congruence.
Qed.

Lemma has_version_rejects name version w :
  (∃ e, Registry._validate_segment name "name" = Raise e)
  ∨ (∃ e, Registry._validate_segment version "version" = Raise e) →
  rejected_untouched w (Registry.has_version name version w).
Proof.
  intros Hbad. unfold rejected_untouched, Registry.has_version.
  rewrite io_bind_lift.
  destruct (validate_segment_outcome name "name")
    as [(s & -> & Hs)|[msg ->]]; [rewrite Hs|eauto].
  rewrite io_bind_lift.
  destruct (validate_segment_outcome version "version")
    as [(v & -> & Hv)|[msg ->]]; [|eauto].
  destruct Hbad as [[e He]|[e He]]; congruence.
Qed.

Lemma list_by_name_rejects name w :
  (∃ e, Registry._validate_segment name "name" = Raise e) →
  rejected_untouched w (list_by_name name w).
Proof.
  intros [e He]. unfold rejected_untouched, Registry.list_by_name.
  rewrite io_bind_lift.
  destruct (validate_segment_outcome name "name")
    as [(s & -> & Hs)|[msg ->]]; [congruence|eauto].
Qed.

Lemma source_reads_refl w : source_reads w w.
Proof. split; [done|]. exists []. by rewrite app_nil_r. Qed.

Lemma source_reads_trans w1 w2 w3 :
  source_reads w1 w2 → source_reads w2 w3 → source_reads w1 w3.
Proof.
  intros [H1 (t1 & Ha1 & Hf1)] [H2 (t2 & Ha2 & Hf2)]. split; [congruence|].
  exists (t1 ++ t2). rewrite Ha2, Ha1, app_assoc. split; [done|].
  by apply Forall_app.
Qed.

Lemma source_reads_touch w rel :
  source_reads w
    {| Registry.registry := Registry.registry w;
       Registry.accesses := Registry.accesses w ++ [Registry.InSource rel] |}.
Proof. split; [done|]. eexists. split; [done|]. by repeat constructor. Qed.

Lemma source_exists_reads src rel w :
  ∃ b w', Registry.source_exists src rel w = (Return b, w')
          ∧ source_reads w w'.
Proof.
  unfold Registry.source_exists. rewrite io_bind_touch.
  eexists _, _. split; [done|]. apply source_reads_touch.
Qed.

Lemma source_read_reads src rel w :
  source_reads w (Registry.source_read src rel w).2.
Proof.
  unfold Registry.source_read. rewrite io_bind_touch. unfold Registry.lift.
  apply source_reads_touch.
Qed.

Lemma load_prompt_module_reads path src w :
  source_reads w (load_prompt_module path src w).2.
Proof.
  unfold Registry.load_prompt_module. rewrite io_bind_unfold.
  destruct (source_exists_reads src ["promptpm.yaml"] w)
    as (b & w1 & -> & H1).
  assert (Hread : ∀ rel (load : string → outcome pyval) source w1,
    source_reads w w1 →
    source_reads w
      ((text ← Registry.source_read src rel;
        raw ← Registry.lift (load text);
        Registry.lift (Registry.module_of_document raw source)) w1).2).
  { intros rel load source w0 H0. rewrite io_bind_unfold.
    pose proof (source_read_reads src rel w0) as H2.
    destruct (Registry.source_read src rel w0) as [[text|e] w2];
      cbn [snd] in *; [|by eapply source_reads_trans].
    rewrite io_bind_lift.
    destruct (load text); [|by eapply source_reads_trans].
    unfold Registry.lift. by eapply source_reads_trans. }
  destruct b; [by apply Hread|].
  rewrite io_bind_unfold.
  destruct (source_exists_reads src ["promptpm.toml"] w1)
    as (b & w2 & -> & H2).
  assert (H12 := source_reads_trans _ _ _ H1 H2).
  destruct b; [by apply Hread|]. done.
Qed.

Lemma install_rejects_segment module_path src w module w1 name version :
  load_prompt_module module_path src w = (Return module, w1) →
  Schema.validate_prompt_module module = Return tt →
  module_identity module name version →
  (∃ e, Registry._validate_segment name "module.name" = Raise e)
  ∨ (∃ e, Registry._validate_segment version "module.version" = Raise e) →
  rejected_after_reading w (install module_path src w).
Proof.
  intros Hload Hvalid [Hname Hversion] Hbad.
  pose proof (load_prompt_module_reads module_path src w) as Hreads.
  rewrite Hload in Hreads. cbn [snd] in Hreads.
  unfold Registry.install. rewrite io_bind_unfold, Hload.
  rewrite io_bind_lift, Hvalid, io_bind_lift, Hname, io_bind_lift.
  assert (Hfail : ∀ msg,
    rejected_after_reading w
      (Raise (A:=InstalledModule) (DependencyError msg), w1)).
  { intros msg. split; [by eexists|]. exact Hreads. }
  destruct (validate_segment_outcome name "module.name")
    as [(s & -> & Hs)|[msg ->]]; [rewrite Hs|done].
  rewrite io_bind_lift, Hversion, io_bind_lift.
  destruct (validate_segment_outcome version "module.version")
    as [(v & -> & Hv)|[msg ->]]; [|done].
  destruct Hbad as [[e He]|[e He]]; congruence.
Qed.

Lemma list_versions_rejects safe_name version rest w :
  is_directory [Registry.MODULES_DIRNAME; safe_name; version] w →
  (∃ e, Registry._validate_segment (PStr version) "version" = Raise e) →
  rejected_at_entry [Registry.MODULES_DIRNAME; safe_name; version] w
    (Registry.list_versions sha256_hex json_load root_path safe_name
       (version :: rest) w).
Proof.
  intros [entries Hdir] [e He]. unfold rejected_at_entry.
  cbn [Registry.list_versions]. unfold Registry._module_directory.
  rewrite io_bind_unfold. unfold Registry.os_path_isdir at 1.
  rewrite io_bind_touch. unfold Registry.get_registry.
  rewrite io_bind_unfold. cbn [Registry.registry]. rewrite Hdir.
  unfold mret at 1, Registry.io_ret at 1. cbn [negb]. rewrite io_bind_lift.
  destruct (validate_segment_outcome (PStr version) "version")
    as [(v & _ & Hv)|[msg ->]]; [congruence|by eexists].
Qed.

Lemma list_names_rejects name rest w :
  is_directory [Registry.MODULES_DIRNAME; name] w →
  (∃ e, Registry._validate_segment (PStr name) "name" = Raise e) →
  rejected_at_entry [Registry.MODULES_DIRNAME; name] w
    (Registry.list_names sha256_hex json_load root_path (name :: rest) w).
Proof.
  intros [entries Hdir] [e He]. unfold rejected_at_entry.
  cbn [Registry.list_names].
  rewrite io_bind_unfold. unfold Registry.os_path_isdir at 1.
  rewrite io_bind_touch. unfold Registry.get_registry.
  rewrite io_bind_unfold. cbn [Registry.registry]. rewrite Hdir.
  unfold mret at 1, Registry.io_ret at 1. cbn [negb]. rewrite io_bind_lift.
  destruct (validate_segment_outcome (PStr name) "name")
    as [(v & _ & Hv)|[msg ->]]; [congruence|by eexists].
Qed.

(** C7 (amended).  A string that does not end in a line feed is accepted
    by [_validate_segment] exactly when it matches the segment pattern as a
    whole, is neither dot name and holds no separator.  One that is not
    accepted raises a [DependencyError]: in [lookup], [has_version] and
    [list_by_name], where it is an argument, before anything is touched; in
    [install], where the name and the version come out of the module file,
    after the module directory was read and before the registry is
    touched; and in the loops of [list_by_name] and [list_installed], where
    it is the name of a directory the listing gave, when the loop comes to
    it, after the question whether the entry is a directory and before
    anything in it is read. *)
Theorem validate_segment_guards_registry (s : string)
    (Hend : ends_with_line_feed s = false) :
  (∀ field,
     Registry._validate_segment (PStr s) field = Return s
     ↔ acceptable_segment s)
  ∧ (¬ acceptable_segment s →
     (∀ field, ∃ msg, Registry._validate_segment (PStr s) field
                      = Raise (DependencyError msg))
     ∧ (∀ other w,
          rejected_untouched w (lookup (PStr s) other w)
          ∧ rejected_untouched w (lookup other (PStr s) w)
          ∧ rejected_untouched w (Registry.has_version (PStr s) other w)
          ∧ rejected_untouched w (Registry.has_version other (PStr s) w)
          ∧ rejected_untouched w (list_by_name (PStr s) w))
     ∧ (∀ module_path src w module w1 other,
          load_prompt_module module_path src w = (Return module, w1) →
          Schema.validate_prompt_module module = Return tt →
          module_identity module (PStr s) other
          ∨ module_identity module other (PStr s) →
          rejected_after_reading w (install module_path src w))
     ∧ (∀ safe_name rest w,
          is_directory [Registry.MODULES_DIRNAME; safe_name; s] w →
          rejected_at_entry [Registry.MODULES_DIRNAME; safe_name; s] w
            (Registry.list_versions sha256_hex json_load root_path safe_name
               (s :: rest) w))
     ∧ (∀ rest w,
          is_directory [Registry.MODULES_DIRNAME; s] w →
          rejected_at_entry [Registry.MODULES_DIRNAME; s] w
            (Registry.list_names sha256_hex json_load root_path
               (s :: rest) w))).
Proof.
  split; [intros field; by apply validate_segment_grammar|].
  intros Hbad.
  assert (Hraise : ∀ field, ∃ e,
    Registry._validate_segment (PStr s) field = Raise e).
  { intros field.
    destruct (validate_segment_rejects s field Hend Hbad) as [msg ->]. eauto. }
  split; [intros field; by apply validate_segment_rejects|].
  split; [|split; [|split]].
  - intros other w. repeat split.
    + apply lookup_rejects. by left.
    + apply lookup_rejects. by right.
    + apply has_version_rejects. by left.
    + apply has_version_rejects. by right.
    + by apply list_by_name_rejects.
  - intros module_path src w module w1 other Hload Hvalid [Hid|Hid];
      eapply install_rejects_segment; eauto.
  - intros safe_name rest w Hdir. by apply list_versions_rejects.
  - intros rest w Hdir. by apply list_names_rejects.
Qed.

End RegistryAccess.

Lemma validate_segment_guards_registry_witness :
  ends_with_line_feed "bad/name" = false
  ∧ ¬ acceptable_segment "bad/name"
  ∧ rejected_untouched empty_world
      (Registry.lookup sample_sha256 no_json "/registry" (PStr "bad/name")
         (PStr "1.0.0") empty_world)
  ∧ rejected_after_reading empty_world (sample_install "bad/name").
Proof.
  assert (Hbad : ¬ acceptable_segment "bad/name")
    by (intros (_ & _ & _ & Hsep & _); vm_compute in Hsep; discriminate).
  destruct (validate_segment_guards_registry sample_sha256 no_json plain_dumps
              (sample_yaml "bad/name" "1.0.0") no_toml "/registry" id
              "bad/name" eq_refl) as [_ Hrej].
  destruct (Hrej Hbad) as (_ & Hcalls & Hinstall & _).
  split; [reflexivity|]. split; [exact Hbad|]. split.
  - apply (Hcalls (PStr "1.0.0") empty_world).
  - eapply (Hinstall "pkg" (Some sample_source) empty_world _ _ (PStr "1.0.0")).
    + vm_compute. reflexivity.
    + vm_compute. reflexivity.
    + left. split; reflexivity.
Defined.

(** The claim as worded fails for [install]: the name of the module is in
    the module file, so the file is probed and read before the segment can
    be refused. *)
Lemma install_reads_before_refusing_segment :
  ¬ acceptable_segment "bad/name"
  ∧ (sample_install "bad/name").1
    = Raise (DependencyError
               [Lit "module.name must not include path separators: ";
                Repr (PStr "bad/name")])
  ∧ Registry.accesses (sample_install "bad/name").2
    = [Registry.InSource ["promptpm.yaml"];
       Registry.InSource ["promptpm.yaml"]].
Proof.
  split; [intros (_ & _ & _ & Hsep & _); vm_compute in Hsep; discriminate|].
  split; vm_compute; reflexivity.
Qed.

(** The pattern is matched with [match] and an end anchor, so a name that
    ends in a line feed passes although it does not match as a whole. *)
Lemma validate_segment_accepts_final_line_feed :
  Registry._validate_segment (PStr (String "a" (String Registry.LF "")))
    "name"
  = Return (String "a" (String Registry.LF ""))
  ∧ ¬ acceptable_segment (String "a" (String Registry.LF "")).
Proof.
  split; [vm_compute; reflexivity|].
  intros (Hwhole & _). vm_compute in Hwhole. discriminate.
Qed.

(** * The registry: the walk *)

Section NodeInduction.
Variable P : Registry.node → Prop.
Hypothesis on_file : ∀ contents, P (Registry.File contents).
Hypothesis on_other : P Registry.Other.
Hypothesis on_dir :
  ∀ entries, Forall (λ e, P e.2) entries → P (Registry.Dir entries).
Hypothesis on_dangling : P (Registry.Symlink None).
Hypothesis on_link : ∀ target, P target → P (Registry.Symlink (Some target)).

Lemma node_induction (n : Registry.node) : P n.
Proof.
  revert n. fix node_induction 1. intros [contents| |entries|[target|]].
  - apply on_file.
  - apply on_other.
  - apply on_dir. induction entries as [|[name child] rest IH].
    + constructor.
    + constructor; [apply node_induction|exact IH].
  - apply on_link, node_induction.
  - apply on_dangling.
Qed.
End NodeInduction.

Lemma distinct_NoDup names : distinct names = true ↔ NoDup names.
Proof.
  induction names as [|name rest IH]; [by split; [constructor|]|].
  cbn [distinct]. rewrite andb_true_iff, negb_true_iff, NoDup_cons, IH.
  apply and_iff_compat_r.
  rewrite <- not_true_iff_false, existsb_exists.
  split; intros H.
  - intros Hin. apply H. exists name. split; [by apply list_elem_of_In|].
    apply String.eqb_refl.
  - intros (x & Hin & Heq). apply String.eqb_eq in Heq as <-.
    by apply H, list_elem_of_In.
Qed.

Lemma well_formed_dir entries :
  well_formed (Registry.Dir entries) = true
  ↔ NoDup entries.*1
    ∧ Forall (λ e, good_name e.1 = true ∧ well_formed e.2 = true) entries.
Proof.
  cbn [well_formed]. rewrite andb_true_iff, distinct_NoDup.
  apply and_iff_compat_l.
  induction entries as [|[name child] rest IH]; [by split; [constructor|]|].
  rewrite !andb_true_iff, Forall_cons, IH. cbn [fst snd]. tauto.
Qed.

Lemma link_free_dir entries :
  link_free (Registry.Dir entries) = true
  ↔ Forall (λ e, link_free e.2 = true) entries.
Proof.
  cbn [link_free].
  induction entries as [|[name child] rest IH]; [by split; [constructor|]|].
  rewrite andb_true_iff, Forall_cons, IH. done.
Qed.

Lemma dir_lookup_elem_of name entries child :
  NoDup entries.*1 →
  Registry.dir_lookup name entries = Some child ↔ (name, child) ∈ entries.
Proof.
  induction entries as [|[n c] rest IH]; intros Hnd.
  - split; [done|by intros ?%elem_of_nil].
  - apply NoDup_cons in Hnd as [Hnot Hnd]. cbn [Registry.dir_lookup].
    rewrite elem_of_cons. destruct (String.eqb_spec n name) as [->|Hne].
    + split; [intros [= ->]; by left|].
      intros [[= ->]|Hin]; [done|].
      exfalso. apply Hnot. by apply (list_elem_of_fmap_2 fst) in Hin.
    + rewrite IH by done. split; [by right|]. by intros [[= -> ->]|?].
Qed.

Lemma walk_dir root rel entries :
  Registry.walk root rel (Registry.Dir entries)
  = match List.find (λ e, Registry.is_symlink e.2)
            (filter (λ e, Registry.is_dir e.2) entries) with
    | Some (dirname, _) =>
        Raise (DependencyError
                 (Registry.symlink_message root (rel ++ [dirname])))
    | None =>
        files ← Registry.files_here root rel
                  (py_sorted Registry.entry_lt
                     (filter (λ e, negb (Registry.is_dir e.2)) entries));
        deeper ← Registry.concat_outcomes
                   (snd <$> py_sorted Registry.entry_lt
                              (subdir_walks root rel entries));
        Return (files ++ deeper)
    end.
Proof.
  cbn [Registry.walk]. destruct (List.find _ _) as [[dirname ?]|]; [done|].
  match goal with
  | |- context [py_sorted Registry.entry_lt (?f entries)] =>
      assert (f entries = subdir_walks root rel entries) as ->
        by (unfold subdir_walks;
            induction entries as [|[name child] rest IH]; [done|];
            cbn [omap list_omap snd fst]; rewrite <- IH; by destruct child)
  end.
  done.
Qed.

Lemma tree_files_dir rel entries :
  tree_files rel (Registry.Dir entries)
  = omap (file_piece rel) entries
    ++ concat ((λ e, tree_files (rel ++ [e.1]) e.2)
               <$> filter (λ e, is_real_dir e.2) entries).
Proof.
  cbn [tree_files]. f_equal.
  induction entries as [|[name child] rest IH]; [done|].
  destruct child; rewrite ?filter_cons_True, ?filter_cons_False by (by cbn);
    try done.
  cbn [fmap list_fmap concat fst snd]. by rewrite <- IH.
Qed.

Lemma files_here_spec root rel l fs :
  Registry.files_here root rel l = Return fs → fs = omap (file_piece rel) l.
Proof.
  revert fs. induction l as [|[name n] rest IH]; intros fs.
  - by intros [= <-].
  - cbn [Registry.files_here omap list_omap]. unfold file_piece at 1.
    cbn [fst snd]. destruct n; try done; [|apply IH..].
    destruct (Registry.files_here root rel rest) as [more|]; [|done].
    intros [= <-]. by rewrite (IH more).
Qed.

Lemma files_here_returns root rel l :
  Forall (λ e, Registry.is_symlink e.2 = false) l →
  Registry.files_here root rel l = Return (omap (file_piece rel) l).
Proof.
  induction 1 as [|[name n] rest Hn _ IH]; [done|].
  cbn [Registry.files_here omap list_omap]. unfold file_piece at 1.
  cbn [fst snd] in *. destruct n; try done. by rewrite IH.
Qed.

Lemma concat_outcomes_spec {A} (rs : list (outcome (list A))) xs :
  Registry.concat_outcomes rs = Return xs →
  xs = concat (returned <$> rs) ∧ Forall (λ r, is_return r = true) rs.
Proof.
  revert xs. induction rs as [|r rs IH]; intros xs.
  - intros [= <-]. by split; [|constructor].
  - cbn [Registry.concat_outcomes]. destruct r as [ys|]; [|done].
    cbn [mbind outcome_bind].
    destruct (Registry.concat_outcomes rs) as [more|]; [|done].
    intros [= <-]. destruct (IH more eq_refl) as [-> Hall].
    by split; [|constructor].
Qed.

Lemma concat_outcomes_returns {A} (rs : list (outcome (list A))) :
  Forall (λ r, is_return r = true) rs →
  Registry.concat_outcomes rs = Return (concat (returned <$> rs)).
Proof.
  induction 1 as [|r rs Hr _ IH]; [done|].
  cbn [Registry.concat_outcomes]. destruct r as [ys|]; [|done].
  cbn [mbind outcome_bind]. by rewrite IH.
Qed.

Lemma omap_file_piece_files rel (entries : list (string * Registry.node)) :
  omap (file_piece rel) (filter (λ e, negb (Registry.is_dir e.2)) entries)
  = omap (file_piece rel) entries.
Proof.
  induction entries as [|[name n] rest IH]; [done|].
  destruct (negb (Registry.is_dir n)) eqn:Hd.
  - rewrite filter_cons_True
      by (change (Is_true (negb (Registry.is_dir n))); by rewrite Hd).
    cbn [omap list_omap]. by rewrite IH.
  - rewrite filter_cons_False
      by (change (¬ Is_true (negb (Registry.is_dir n))); rewrite Hd;
          exact id).
    cbn [omap list_omap]. rewrite IH. unfold file_piece. cbn [snd].
    by destruct n.
Qed.

Lemma concat_Permutation {A} (l l' : list (list A)) :
  l ≡ₚ l' → concat l ≡ₚ concat l'.
Proof.
  induction 1 as [|x l l' _ IH|x y l|l l' l'' _ IH1 _ IH2]; cbn [concat].
  - done.
  - by rewrite IH.
  - rewrite !app_assoc. f_equiv. apply Permutation_app_comm.
  - by etrans.
Qed.

Lemma find_None_Forall {A} (f : A → bool) (l : list A) :
  Forall (λ x, f x = false) l → List.find f l = None.
Proof. induction 1 as [|x l Hx _ IH]; [done|]. cbn. by rewrite Hx. Qed.

Section WalkFacts.
Variable root : string.

Lemma subdir_walks_tree_files rel entries :
  Forall (λ e, ∀ rel files,
            Registry.walk root rel e.2 = Return files →
            files ≡ₚ tree_files rel e.2) entries →
  Forall (λ r, is_return r = true) (subdir_walks root rel entries).*2 →
  concat (returned <$> (subdir_walks root rel entries).*2)
  ≡ₚ concat ((λ e, tree_files (rel ++ [e.1]) e.2)
             <$> filter (λ e, is_real_dir e.2) entries).
Proof.
  unfold subdir_walks.
  induction 1 as [|[name child] rest Hchild _ IH]; [done|].
  cbn [omap list_omap fst snd] in *.
  destruct child;
    rewrite ?filter_cons_True, ?filter_cons_False by (by cbn); try done.
  cbn [fmap list_fmap concat fst snd].
  intros [Hret Hrest]%Forall_cons.
  destruct (Registry.walk root (rel ++ [name]) (Registry.Dir entries))
    as [piece|] eqn:Hwalk; [|done].
  cbn [returned]. rewrite (Hchild _ _ Hwalk). f_equiv. by apply IH.
Qed.

Lemma walk_tree_files n rel files :
  Registry.walk root rel n = Return files → files ≡ₚ tree_files rel n.
Proof.
  revert rel files.
  induction n as [c| |entries IH| |t _] using node_induction;
    intros rel files; try (by intros [= <-]).
  rewrite walk_dir, tree_files_dir.
  destruct (List.find _ _) as [[dirname ?]|]; [done|].
  destruct (Registry.files_here _ _ _) as [files1|] eqn:Hfiles; [|done].
  cbn [mbind outcome_bind].
  destruct (Registry.concat_outcomes _) as [deeper|] eqn:Hdeeper; [|done].
  intros [= <-].
  apply files_here_spec in Hfiles as ->.
  apply concat_outcomes_spec in Hdeeper as [-> Hall].
  assert (Hperm := py_sorted_perm Registry.entry_lt
                     (subdir_walks root rel entries)).
  rewrite Hperm in Hall. rewrite Hperm.
  rewrite (py_sorted_perm Registry.entry_lt), omap_file_piece_files.
  f_equiv. by apply subdir_walks_tree_files.
Qed.

Lemma link_free_not_symlink n :
  link_free n = true → Registry.is_symlink n = false.
Proof. by destruct n. Qed.

Lemma walk_returns n rel :
  link_free n = true → ∃ files, Registry.walk root rel n = Return files.
Proof.
  revert rel.
  induction n as [c| |entries IH| |t _] using node_induction;
    intros rel Hfree; try (by eexists).
  apply link_free_dir in Hfree. rewrite walk_dir.
  assert (Hfind :
    List.find (λ e, Registry.is_symlink e.2)
      (filter (λ e, Registry.is_dir e.2) entries) = None).
  { apply find_None_Forall, Forall_forall.
    intros e [_ Hin]%list_elem_of_filter. apply link_free_not_symlink.
    by apply (proj1 (Forall_forall _ _) Hfree). }
  rewrite Hfind, files_here_returns.
  2:{ rewrite (py_sorted_perm Registry.entry_lt).
      apply Forall_forall. intros e [_ Hin]%list_elem_of_filter.
      apply link_free_not_symlink.
      by apply (proj1 (Forall_forall _ _) Hfree). }
  cbn [mbind outcome_bind]. rewrite concat_outcomes_returns; [by eexists|].
  rewrite (py_sorted_perm Registry.entry_lt). unfold subdir_walks.
  clear Hfind. induction entries as [|[name child] rest IHrest]; [constructor|].
  apply Forall_cons in IH as [IHchild IH].
  apply Forall_cons in Hfree as [Hchild Hfree].
  cbn [omap list_omap fst snd] in *.
  destruct child; try (by apply IHrest).
  cbn [fmap list_fmap snd]. constructor; [|by apply IHrest].
  destruct (IHchild (rel ++ [name]) Hchild) as [files ->]. done.
Qed.

End WalkFacts.

Lemma elem_of_concat {A} (x : A) (ls : list (list A)) :
  x ∈ concat ls ↔ ∃ l, l ∈ ls ∧ x ∈ l.
Proof.
  rewrite list_elem_of_In, in_concat. setoid_rewrite list_elem_of_In. done.
Qed.

Lemma tree_files_elem_dir rel (entries : list (string * Registry.node)) q c :
  (q, c) ∈ tree_files rel (Registry.Dir entries)
  ↔ ∃ name child, (name, child) ∈ entries
      ∧ ((child = Registry.File c ∧ q = rel ++ [name])
         ∨ (is_real_dir child = true
            ∧ (q, c) ∈ tree_files (rel ++ [name]) child)).
Proof.
  rewrite tree_files_dir, elem_of_app, list_elem_of_omap, elem_of_concat.
  split.
  - intros [([name child] & Hin & Hpiece)|(l & Hl & Hin)].
    + exists name, child. split; [done|]. left.
      unfold file_piece in Hpiece. cbn [fst snd] in Hpiece.
      destruct child; try done. by injection Hpiece as <- <-.
    + apply list_elem_of_fmap in Hl as ([name child] & -> & Hl).
      apply list_elem_of_filter in Hl as [Hdir Hl].
      exists name, child. split; [done|]. right.
      split; [by apply Is_true_true|done].
  - intros (name & child & Hin & [[-> ->]|[Hdir Hfile]]).
    + left. by exists (name, Registry.File c).
    + right. exists (tree_files (rel ++ [name]) child). split; [|done].
      apply list_elem_of_fmap. exists (name, child). split; [done|].
      apply list_elem_of_filter. split; [by apply Is_true_true|done].
Qed.

Lemma entries_of_dir_inv n entries :
  link_free n = true → Registry.entries_of n = Some entries →
  n = Registry.Dir entries.
Proof. destruct n; try done. by intros _ [= ->]. Qed.

Lemma tree_files_spec n rel q c :
  well_formed n = true → link_free n = true →
  (q, c) ∈ tree_files rel n
  ↔ ∃ comps, comps ≠ [] ∧ q = rel ++ comps ∧ file_at comps n = Some c.
Proof.
  revert rel q.
  induction n as [c'| |entries IH| |t _] using node_induction;
    intros rel q Hwf Hfree; try done.
  - split; [by intros ?%elem_of_nil|].
    by intros ([|name comps] & ? & _ & ?).
  - split; [by intros ?%elem_of_nil|].
    by intros ([|name comps] & ? & _ & ?).
  - apply well_formed_dir in Hwf as [Hnd Hwf].
    apply link_free_dir in Hfree.
    rewrite tree_files_elem_dir.
    assert (Hchild : ∀ name child, (name, child) ∈ entries →
      well_formed child = true ∧ link_free child = true
      ∧ ∀ rel q, (q, c) ∈ tree_files rel child
                 ↔ ∃ comps, comps ≠ [] ∧ q = rel ++ comps
                            ∧ file_at comps child = Some c).
    { intros name child Hin.
      pose proof (proj1 (Forall_forall _ _) Hwf _ Hin) as [_ Hw].
      pose proof (proj1 (Forall_forall _ _) Hfree _ Hin) as Hf.
      pose proof (proj1 (Forall_forall _ _) IH _ Hin) as Hi.
      cbn [snd] in *. split; [done|]. split; [done|].
      intros rel' q'. by apply Hi. }
    split.
    + intros (name & child & Hin & [[-> ->]|[Hdir Hfile]]).
      * exists [name]. split; [done|]. split; [done|].
        unfold file_at. cbn.
        by rewrite (proj2 (dir_lookup_elem_of _ _ _ Hnd) Hin).
      * destruct (Hchild _ _ Hin) as (_ & _ & Hspec).
        apply Hspec in Hfile as (comps & Hne & -> & Hat).
        exists (name :: comps). split; [done|].
        split; [by rewrite <- app_assoc|].
        unfold file_at in *. cbn.
        rewrite (proj2 (dir_lookup_elem_of _ _ _ Hnd) Hin). cbn.
        done.
    + intros ([|name comps] & Hne & -> & Hat); [done|].
      unfold file_at in Hat. cbn in Hat.
      destruct (Registry.dir_lookup name entries) as [child|] eqn:Hlook;
        [|done].
      apply dir_lookup_elem_of in Hlook; [|done].
      exists name, child. split; [done|]. cbn in Hat.
      destruct (Hchild _ _ Hlook) as (_ & Hf & Hspec).
      destruct comps as [|name' comps].
      * left. cbn in Hat. destruct child; try done.
        by injection Hat as ->.
      * right.
        assert (Hdir : is_real_dir child = true).
        { cbn in Hat.
          destruct (Registry.entries_of child) as [sub|] eqn:Hsub; [|done].
          by rewrite (entries_of_dir_inv _ _ Hf Hsub). }
        split; [done|]. apply Hspec. exists (name' :: comps).
        split; [done|]. split; [by rewrite <- app_assoc|done].
Qed.

Lemma tree_files_NoDup n rel :
  well_formed n = true → link_free n = true → NoDup (tree_files rel n).*1.
Proof.
  revert rel.
  induction n as [c'| |entries IH| |t _] using node_induction;
    intros rel Hwf Hfree; try (by constructor).
  apply well_formed_dir in Hwf as [Hnd Hwf].
  apply link_free_dir in Hfree.
  rewrite tree_files_dir.
  enough (NoDup (omap (file_piece rel) entries
                 ++ concat ((λ e, tree_files (rel ++ [e.1]) e.2)
                            <$> filter (λ e, is_real_dir e.2) entries)).*1
          ∧ ∀ q, q ∈ (omap (file_piece rel) entries
                      ++ concat ((λ e, tree_files (rel ++ [e.1]) e.2)
                                 <$> filter (λ e, is_real_dir e.2) entries)).*1
                 → ∃ name tail, name ∈ entries.*1 ∧ q = rel ++ name :: tail)
    as [? _] by done.
  induction entries as [|[name child] rest IHrest];
    [split; [constructor|by intros q ?%elem_of_nil]|].
  apply Forall_cons in IH as [IHchild IH].
  apply Forall_cons in Hwf as [[Hname Hwfc] Hwf].
  apply Forall_cons in Hfree as [Hfreec Hfree].
  cbn [fmap list_fmap fst] in Hnd. apply NoDup_cons in Hnd as [Hfresh Hnd].
  destruct (IHrest IH Hnd Hwf Hfree) as [IHnd IHin]. clear IHrest.
  cbn [fst snd] in *.
  assert (Hother : ∀ q, q ∈ (omap (file_piece rel) rest
                   ++ concat ((λ e, tree_files (rel ++ [e.1]) e.2)
                              <$> filter (λ e, is_real_dir e.2) rest)).*1 →
    ∀ tail, q ≠ rel ++ name :: tail).
  { intros q Hq tail ->. apply IHin in Hq as (name' & tail' & Hin & Heq).
    apply app_inv_head in Heq. by injection Heq as -> _. }
  assert (Hlater : ∀ q, q ∈ (omap (file_piece rel) rest
                   ++ concat ((λ e, tree_files (rel ++ [e.1]) e.2)
                              <$> filter (λ e, is_real_dir e.2) rest)).*1 →
    ∃ name' tail, name' ∈ (name :: rest.*1) ∧ q = rel ++ name' :: tail).
  { intros q Hq. apply IHin in Hq as (name' & tail' & Hin & Heq).
    exists name', tail'. split; [by right|done]. }
  destruct child as [c| |sub|t];
    rewrite ?filter_cons_True, ?filter_cons_False by (by cbn);
    cbn [omap list_omap file_piece fst snd fmap list_fmap concat];
    try (split; [done|exact Hlater]).
  - change (file_piece rel (name, Registry.File c))
      with (Some (rel ++ [name], c)).
    cbn [fmap list_fmap fst app]. split.
    + apply NoDup_cons. split; [|done].
      intros Hq. by apply (Hother _ Hq []).
    + intros q [->|Hq]%elem_of_cons; [|by apply Hlater].
      exists name, []. split; [by left|done].
  - change (file_piece rel (name, Registry.Dir sub)) with
      (@None (list string * string)).
    cbn match.
    set (files := omap (file_piece rel) rest) in *.
    set (below := concat _) in *.
    assert (Hperm : (files ++ tree_files (rel ++ [name]) (Registry.Dir sub)
                     ++ below).*1
                    ≡ₚ (tree_files (rel ++ [name]) (Registry.Dir sub)).*1
                       ++ (files ++ below).*1).
    { rewrite !fmap_app. rewrite !app_assoc. f_equiv.
      apply Permutation_app_comm. }
    assert (Hsub : ∀ q,
      q ∈ (tree_files (rel ++ [name]) (Registry.Dir sub)).*1 →
      ∃ tail, q = rel ++ name :: tail).
    { intros q ([q' c] & -> & Hq)%list_elem_of_fmap.
      apply tree_files_spec in Hq as (comps & _ & -> & _); [|done..].
      exists comps. by rewrite <- app_assoc. }
    split.
    + rewrite Hperm. apply NoDup_app. split; [by apply IHchild|].
      split; [|done].
      intros q Hq Hq'. destruct (Hsub _ Hq) as [tail ->].
      by apply (Hother _ Hq' tail).
    + intros q Hq. rewrite Hperm in Hq.
      apply elem_of_app in Hq as [Hq|Hq]; [|by apply Hlater].
      destruct (Hsub _ Hq) as [tail ->]. exists name, tail.
      split; [by left|done].
Qed.

(** * The registry: relative paths *)

Lemma str_existsb_app p a b :
  Str.existsb p (a +:+ b) = Str.existsb p a || Str.existsb p b.
Proof.
  induction a as [|c a IH]; [done|].
  change (String c a +:+ b) with (String c (a +:+ b)).
  cbn [Str.existsb]. by rewrite IH, orb_assoc.
Qed.

Lemma good_name_spec name :
  good_name name = true
  ↔ name ≠ "" ∧ Str.existsb (Ascii.eqb "/") name = false.
Proof.
  unfold good_name. rewrite andb_true_iff, !negb_true_iff.
  destruct (String.eqb_spec name ""); naive_solver.
Qed.

Lemma slash_split a a' x y :
  Str.existsb (Ascii.eqb "/") a = false →
  Str.existsb (Ascii.eqb "/") a' = false →
  a +:+ String "/" x = a' +:+ String "/" y → a = a' ∧ x = y.
Proof.
  revert a'. induction a as [|c a IH]; intros [|c' a'] Ha Ha'.
  - by intros [= ->].
  - intros [= <- _]. by cbn in Ha'.
  - intros [= -> _]. by cbn in Ha.
  - change (String ?c ?a +:+ ?b) with (String c (a +:+ b)).
    intros [= -> Heq]. cbn in Ha, Ha'.
    apply orb_false_iff in Ha as [_ Ha], Ha' as [_ Ha'].
    destruct (IH a' Ha Ha' Heq) as [-> ->]. done.
Qed.

Lemma slash_absent a a' y :
  Str.existsb (Ascii.eqb "/") a = false → a ≠ a' +:+ String "/" y.
Proof.
  intros Ha ->. rewrite str_existsb_app in Ha. cbn in Ha.
  by rewrite orb_true_r in Ha.
Qed.

Lemma as_posix_cons a b l :
  Registry.as_posix (a :: b :: l)
  = a +:+ String "/" (Registry.as_posix (b :: l)).
Proof. done. Qed.

Lemma as_posix_single a : Registry.as_posix [a] = a.
Proof. done. Qed.

Lemma as_posix_nil : Registry.as_posix [] = "".
Proof. done. Qed.

Lemma as_posix_inj l l' :
  Forall (λ name, good_name name = true) l →
  Forall (λ name, good_name name = true) l' →
  Registry.as_posix l = Registry.as_posix l' → l = l'.
Proof.
  intros Hl. revert l'. induction Hl as [|a l Ha Hl IH]; intros l' Hl'.
  - destruct Hl' as [|a' l' Ha' Hl']; [done|].
    apply good_name_spec in Ha' as [Hne Ha'].
    rewrite as_posix_nil.
    destruct Hl' as [|b' l' _ _];
      [rewrite as_posix_single; by intros <-|].
    rewrite as_posix_cons. by destruct a'.
  - apply good_name_spec in Ha as [Hne Ha].
    destruct Hl' as [|a' l' Ha' Hl'].
    { rewrite as_posix_nil.
      destruct Hl as [|b l _ _]; [rewrite as_posix_single; by intros ->|].
      rewrite as_posix_cons. by destruct a. }
    apply good_name_spec in Ha' as [Hne' Ha'].
    destruct Hl as [|b l Hb Hl], Hl' as [|b' l' Hb' Hl'].
    + rewrite !as_posix_single. by intros ->.
    + rewrite as_posix_cons, as_posix_single. intros Heq.
      by apply slash_absent in Heq.
    + rewrite as_posix_cons, as_posix_single. intros Heq. symmetry in Heq.
      by apply slash_absent in Heq.
    + rewrite !as_posix_cons. intros [-> Heq]%slash_split; [|done..].
      f_equal. apply IH; [by constructor|done].
Qed.

Lemma as_posix_nonempty l :
  Forall (λ name, good_name name = true) l → l ≠ [] →
  Registry.as_posix l ≠ "".
Proof.
  intros Hl Hne. destruct Hl as [|a l Ha Hl]; [done|].
  apply good_name_spec in Ha as [Ha _].
  destruct Hl; [by rewrite as_posix_single|].
  rewrite as_posix_cons. by destruct a.
Qed.

Lemma dir_lookup_Some name entries child :
  Registry.dir_lookup name entries = Some child → (name, child) ∈ entries.
Proof.
  induction entries as [|[n c] rest IH]; [done|]. cbn.
  destruct (String.eqb_spec n name) as [->|_].
  - intros [= ->]. by left.
  - intros H. right. by apply IH.
Qed.

Lemma well_formed_resolve n m :
  well_formed n = true → Registry.resolve n = Some m → well_formed m = true.
Proof.
  induction n as [c| |entries _| |t IH] using node_induction;
    intros Hwf; try (by intros [= <-]).
  cbn. by apply IH.
Qed.

Lemma node_at_good comps n m :
  well_formed n = true → Registry.node_at comps n = Some m →
  Forall (λ name, good_name name = true) comps ∧ well_formed m = true.
Proof.
  revert n. induction comps as [|name comps IH]; intros n Hwf.
  - intros [= <-]. by split; [constructor|].
  - cbn. unfold Registry.entries_of.
    destruct (Registry.resolve n) as [[| |entries|]|] eqn:Hres; try done.
    apply (well_formed_resolve _ _ Hwf) in Hres.
    apply well_formed_dir in Hres as [_ Hall]. cbn.
    destruct (Registry.dir_lookup name entries) as [child|] eqn:Hlook;
      [|done].
    apply dir_lookup_Some in Hlook.
    pose proof (proj1 (Forall_forall _ _) Hall _ Hlook) as [Hname Hchild].
    cbn. intros Hat. destruct (IH _ Hchild Hat) as [Hcomps Hm].
    by split; [constructor|].
Qed.

Lemma file_at_good comps n contents :
  well_formed n = true → file_at comps n = Some contents →
  Forall (λ name, good_name name = true) comps.
Proof.
  unfold file_at. intros Hwf Hat.
  destruct (Registry.node_at comps n) as [m|] eqn:Hm; [|done].
  by destruct (node_at_good _ _ _ Hwf Hm).
Qed.

(** * The registry: the walk stopped by a link *)

Section WalkLinks.
Variable root : string.

Lemma files_here_no_link rel l fs :
  Registry.files_here root rel l = Return fs →
  Forall (λ e, Registry.is_symlink e.2 = false) l.
Proof.
  revert fs. induction l as [|[name n] rest IH]; intros fs; [constructor|].
  cbn [Registry.files_here]. destruct n; try done.
  - destruct (Registry.files_here root rel rest) as [more|] eqn:Hrest;
      [|done].
    intros _. constructor; [done|]. by eapply IH.
  - intros H. constructor; [done|]. by eapply IH.
  - intros H. constructor; [done|]. by eapply IH.
Qed.

Lemma files_here_raise rel l e :
  Registry.files_here root rel l = Raise e →
  ∃ rel', e = DependencyError (Registry.symlink_message root rel').
Proof.
  induction l as [|[name n] rest IH]; [done|].
  cbn [Registry.files_here]. destruct n; try done.
  - destruct (Registry.files_here root rel rest) as [more|]; [done|].
    intros [= <-]. by apply IH.
  - intros [= <-]. by eexists.
Qed.

Lemma concat_outcomes_raise {A} (rs : list (outcome (list A))) e :
  Registry.concat_outcomes rs = Raise e → Raise e ∈ rs.
Proof.
  induction rs as [|r rs IH]; [done|]. cbn [Registry.concat_outcomes].
  destruct r as [xs|e']; [|intros [= ->]; by left].
  cbn [mbind outcome_bind].
  destruct (Registry.concat_outcomes rs) as [more|]; [done|].
  intros [= <-]. right. by apply IH.
Qed.

Lemma subdir_walks_elem rel entries name r :
  (name, r) ∈ subdir_walks root rel entries
  ↔ ∃ sub, (name, Registry.Dir sub) ∈ entries
           ∧ r = Registry.walk root (rel ++ [name]) (Registry.Dir sub).
Proof.
  unfold subdir_walks. rewrite list_elem_of_omap. split.
  - intros ([name' child] & Hin & Hsome). cbn [fst snd] in Hsome.
    destruct child; try done. injection Hsome as <- <-. by eexists.
  - intros (sub & Hin & ->). by exists (name, Registry.Dir sub).
Qed.

Lemma walk_raise n rel e :
  Registry.walk root rel n = Raise e →
  ∃ rel', e = DependencyError (Registry.symlink_message root rel').
Proof.
  revert rel.
  induction n as [c| |entries IH| |t _] using node_induction;
    intros rel; try done.
  rewrite walk_dir.
  destruct (List.find _ _) as [[dirname ?]|]; [intros [= <-]; by eexists|].
  destruct (Registry.files_here _ _ _) as [files1|e1] eqn:Hfiles.
  2:{ intros [= <-]. by eapply files_here_raise. }
  cbn [mbind outcome_bind].
  destruct (Registry.concat_outcomes _) as [deeper|e2] eqn:Hdeeper; [done|].
  intros [= <-]. apply concat_outcomes_raise in Hdeeper.
  apply list_elem_of_fmap in Hdeeper as ([name r] & Heq & Hin).
  cbn [snd] in Heq. subst r.
  rewrite (py_sorted_perm Registry.entry_lt) in Hin.
  apply subdir_walks_elem in Hin as (sub & Hin & Hr).
  by apply (proj1 (Forall_forall _ _) IH _ Hin (rel ++ [name])).
Qed.

Lemma walk_return_link_free n rel files :
  Registry.walk root rel n = Return files → is_real_dir n = true →
  link_free n = true.
Proof.
  revert rel files.
  induction n as [c| |entries IH| |t _] using node_induction;
    intros rel files; try done.
  rewrite walk_dir. intros Hwalk _.
  destruct (List.find _ _) as [[dirname ?]|] eqn:Hfind; [done|].
  destruct (Registry.files_here _ _ _) as [files1|] eqn:Hfiles; [|done].
  cbn [mbind outcome_bind] in Hwalk.
  destruct (Registry.concat_outcomes _) as [deeper|] eqn:Hdeeper; [|done].
  apply files_here_no_link in Hfiles.
  rewrite (py_sorted_perm Registry.entry_lt) in Hfiles.
  apply concat_outcomes_spec in Hdeeper as [_ Hall].
  rewrite (py_sorted_perm Registry.entry_lt) in Hall.
  apply link_free_dir, Forall_forall. intros [name child] Hin. cbn [snd].
  pose proof (proj1 (Forall_forall _ _) IH _ Hin) as IHchild.
  destruct child as [c| |sub|t]; try done.
  - destruct (Registry.walk root (rel ++ [name]) (Registry.Dir sub))
      as [piece|e] eqn:Hsub.
    + by apply (IHchild _ _ Hsub).
    + exfalso.
      assert (is_return (Raise (A:=list (list string * string)) e) = true);
        [|done].
      apply (proj1 (Forall_forall _ _) Hall).
      apply list_elem_of_fmap. exists (name, Raise e). split; [done|].
      apply subdir_walks_elem. exists sub. by rewrite Hsub.
  - exfalso.
    destruct (Registry.is_dir (Registry.Symlink t)) eqn:Hd.
    + eapply find_none in Hfind.
      2:{ apply list_elem_of_In, list_elem_of_filter.
          split; [|exact Hin]. cbn [snd]. by rewrite Hd. }
      done.
    + assert (Registry.is_symlink (name, Registry.Symlink t).2 = false);
        [|done].
      apply (proj1 (Forall_forall _ _) Hfiles).
      apply list_elem_of_filter. split; [|done]. cbn [snd]. by rewrite Hd.
Qed.

Lemma walk_link rel n :
  is_real_dir n = true → link_free n = false →
  ∃ rel', Registry.walk root rel n
          = Raise (DependencyError (Registry.symlink_message root rel')).
Proof.
  intros Hdir Hlink.
  destruct (Registry.walk root rel n) as [files|e] eqn:Hwalk.
  - apply walk_return_link_free in Hwalk; [congruence|done].
  - apply walk_raise in Hwalk as [rel' ->]. by eexists.
Qed.

End WalkLinks.

(** * The registry: the immutability check *)

Lemma link_free_resolve n : link_free n = true → Registry.resolve n = Some n.
Proof. by destruct n. Qed.

Lemma foldl_insert_lookup (l : list (string * string))
    (acc : gmap string string) p h :
  NoDup l.*1 →
  (foldl (λ m f, <[f.1 := f.2]> m) acc l) !! p = Some h
  ↔ (p, h) ∈ l ∨ ((p ∉ l.*1) ∧ acc !! p = Some h).
Proof.
  revert acc. induction l as [|[k v] l IH]; intros acc Hnd.
  - cbn. split; [intros ?; right; split; [apply not_elem_of_nil|done]|].
    by intros [?%elem_of_nil|[_ ?]].
  - cbn [fmap list_fmap fst] in Hnd. apply NoDup_cons in Hnd as [Hk Hnd].
    cbn [foldl fst snd]. rewrite IH by done. cbn [fmap list_fmap fst].
    rewrite elem_of_cons, not_elem_of_cons.
    destruct (decide (p = k)) as [->|Hne].
    + rewrite lookup_insert_eq. split.
      * intros [Hin|[_ [= <-]]]; [|by left; left].
        exfalso. apply Hk. by apply (list_elem_of_fmap_2 fst) in Hin.
      * intros [[[= <-]|Hin]|[[? _] _]]; [|left|]; try done.
        right. by split.
    + rewrite lookup_insert_ne by done. split.
      * intros [Hin|[Hnot Hacc]]; [left; by right|right; by repeat split].
      * intros [[[= -> _]|Hin]|[[_ Hnot] Hacc]]; [done|by left|by right].
Qed.

Section ImmutabilityFacts.
Variable sha256_hex : string → string.
Variable json_load : string → option pyval.
Variable json_dumps_canonical : pyval → string.
Hypothesis digest_length : ∀ contents, String.length (sha256_hex contents) = 64%nat.

Local Abbreviation manifest_files := (Registry.manifest_files sha256_hex).
Local Abbreviation actual_hashes_of := (Registry.actual_hashes_of sha256_hex).
Local Abbreviation hashes_of files :=
  (foldl (λ (m : gmap string string) f, <[f.1 := f.2]> m) ∅
         (manifest_files files)).

Lemma actual_hashes_of_manifest_files files :
  actual_hashes_of files = hashes_of files.
Proof.
  unfold Registry.actual_hashes_of, Registry.manifest_files.
  by rewrite foldl_fmap.
Qed.

Lemma manifest_files_spec n files :
  well_formed n = true → link_free n = true → files ≡ₚ tree_files [] n →
  NoDup (manifest_files files).*1
  ∧ (∀ p h, (p, h) ∈ manifest_files files ↔ on_disk sha256_hex n p h)
  ∧ Forall (λ f, f.1 ≠ "") (manifest_files files).
Proof.
  intros Hwf Hfree Hperm.
  assert (Hspec : ∀ q c, (q, c) ∈ files ↔ q ≠ [] ∧ file_at q n = Some c).
  { intros q c. rewrite Hperm, tree_files_spec by done. cbn [app].
    split; [by intros (? & ? & -> & ?)|intros [? ?]; by exists q]. }
  assert (Hgood : ∀ f, f ∈ files →
    Forall (λ name, good_name name = true) f.1 ∧ f.1 ≠ []).
  { intros [q c] [Hne Hat]%Hspec. split; [|done].
    by apply (file_at_good _ _ _ Hwf Hat). }
  assert (Hin : ∀ p h, (p, h) ∈ manifest_files files
    ↔ ∃ q c, (q, c) ∈ files ∧ p = Registry.as_posix q
             ∧ p ≠ Registry.IMMUTABILITY_MANIFEST_FILENAME
             ∧ h = sha256_hex c).
  { intros p h. unfold Registry.manifest_files, Registry.without_manifest.
    rewrite list_elem_of_fmap. split.
    - intros ([q c] & [= -> ->] & [Hkeep Hf]%list_elem_of_filter).
      exists q, c. repeat split; try done. cbn [fst] in Hkeep.
      apply Is_true_true, negb_true_iff in Hkeep.
      by apply String.eqb_neq in Hkeep.
    - intros (q & c & Hf & -> & Hne & ->). exists (q, c). split; [done|].
      apply list_elem_of_filter. split; [|done]. cbn [fst].
      apply Is_true_true, negb_true_iff. by apply String.eqb_neq. }
  split; [|split].
  - assert ((manifest_files files).*1
            = Registry.as_posix <$> (Registry.without_manifest files).*1)
      as ->.
    { unfold Registry.manifest_files.
      induction (Registry.without_manifest files) as [|f l IH]; [done|].
      cbn [fmap list_fmap fst] in *. by rewrite IH. }
    apply NoDup_fmap_2_strong.
    + intros q q' ([? c] & -> & [_ Hq]%list_elem_of_filter)%list_elem_of_fmap
        ([? c'] & -> & [_ Hq']%list_elem_of_filter)%list_elem_of_fmap.
      apply as_posix_inj.
      * by apply (Hgood _ Hq).
      * by apply (Hgood _ Hq').
    + eapply sublist_NoDup; [|apply fmap_sublist, sublist_filter].
      rewrite Hperm. by apply tree_files_NoDup.
  - intros p h. rewrite Hin. unfold on_disk. split.
    + intros (q & c & [Hne Hat]%Hspec & -> & Hman & ->). split; [done|].
      by exists q, c.
    + intros (Hman & q & c & Hne & <- & Hat & <-). exists q, c.
      split; [by apply Hspec|done].
  - apply Forall_forall. intros [p h] (q & c & Hf & -> & _)%Hin.
    destruct (Hgood _ Hf). by apply as_posix_nonempty.
Qed.

Lemma expected_hashes_from_recorded name version
    (recorded : list (string * string)) acc :
  NoDup recorded.*1 →
  Forall (λ f, f.1 ≠ "" ∧ String.length f.2 = 64%nat) recorded →
  (∀ p, p ∈ recorded.*1 → acc !! p = None) →
  Registry.expected_hashes_from name version
    ((λ f, Registry.manifest_entry f.1 f.2) <$> recorded) acc
  = Return (foldl (λ m f, <[f.1 := f.2]> m) acc recorded).
Proof.
  intros Hnd Hall. revert acc Hnd.
  induction Hall as [|[p h] l [Hp Hh] _ IH]; intros acc Hnd Hfresh; [done|].
  cbn [fmap list_fmap fst] in Hnd. apply NoDup_cons in Hnd as [Hnew Hnd].
  cbn [fmap list_fmap fst snd foldl Registry.expected_hashes_from] in *.
  unfold Registry.manifest_entry.
  change (Py.dict_get (("path", PStr p) :: ?l) "path") with (Some (PStr p)).
  change (Py.dict_get [("path", PStr p); ("sha256", PStr h)] "sha256")
    with (Some (PStr h)).
  destruct p as [|c p]; [done|].
  rewrite Hh, Nat.eqb_refl. cbn [negb].
  rewrite bool_decide_eq_false_2.
  2:{ rewrite not_elem_of_dom. apply Hfresh. by left. }
  apply IH; [done|]. intros q Hq.
  rewrite lookup_insert_ne by (by intros <-). apply Hfresh. by right.
Qed.
Lemma missing_of_spec (E A : gmap string string) p :
  p ∈ Registry.missing_of E A ↔ is_Some (E !! p) ∧ A !! p = None.
Proof.
  unfold Registry.missing_of.
  by rewrite (py_sorted_perm Str.lt), elem_of_elements, elem_of_difference,
    elem_of_dom, not_elem_of_dom.
Qed.

Lemma extra_of_spec (E A : gmap string string) p :
  p ∈ Registry.extra_of E A ↔ is_Some (A !! p) ∧ E !! p = None.
Proof.
  unfold Registry.extra_of.
  by rewrite (py_sorted_perm Str.lt), elem_of_elements, elem_of_difference,
    elem_of_dom, not_elem_of_dom.
Qed.

Lemma changed_of_spec (E A : gmap string string) p :
  p ∈ Registry.changed_of E A
  ↔ ∃ h h', E !! p = Some h ∧ A !! p = Some h' ∧ h ≠ h'.
Proof.
  unfold Registry.changed_of.
  rewrite (py_sorted_perm Str.lt), list_elem_of_filter, elem_of_elements,
    elem_of_intersection, !elem_of_dom.
  split.
  - intros (Hne & [h Hh] & [h' Hh']). exists h, h'. split; [done|].
    split; [done|]. intros ->. apply Hne. by rewrite Hh, Hh'.
  - intros (h & h' & Hh & Hh' & Hne). rewrite Hh, Hh'.
    split; [by intros [= ->]|]. by split; eexists.
Qed.

Lemma py_sorted_alphabetical l : alphabetical (py_sorted Str.lt l).
Proof.
  apply (py_sorted_sorted String.compare Str.lt string_compare_order).
  apply str_lt_spec.
Qed.

Lemma hashes_verdict (E A : gmap string string) :
  Registry.missing_of E A = [] ∧ Registry.extra_of E A = []
  ∧ Registry.changed_of E A = []
  ↔ E = A.
Proof.
  split.
  - intros (Hm & He & Hc). apply map_eq. intros p.
    pose proof (missing_of_spec E A p) as Hmp. rewrite Hm in Hmp.
    pose proof (extra_of_spec E A p) as Hep. rewrite He in Hep.
    pose proof (changed_of_spec E A p) as Hcp. rewrite Hc in Hcp.
    destruct (E !! p) as [h|] eqn:HE, (A !! p) as [h'|] eqn:HA; try done.
    + destruct (decide (h = h')) as [->|Hne]; [done|].
      exfalso. eapply not_elem_of_nil, Hcp. by exists h, h'.
    + exfalso. eapply not_elem_of_nil, Hmp. by split; [eexists|].
    + exfalso. eapply not_elem_of_nil, Hep. by split; [eexists|].
  - intros ->. repeat split; apply elem_of_nil_inv; intros p.
    + rewrite missing_of_spec. intros [[h Hh] Hnone]. congruence.
    + rewrite extra_of_spec. intros [[h Hh] Hnone]. congruence.
    + rewrite changed_of_spec. intros (h & h' & Hh & Hh' & Hne). congruence.
Qed.

Lemma hashes_of_lookup n files p h :
  well_formed n = true → link_free n = true → files ≡ₚ tree_files [] n →
  hashes_of files !! p = Some h ↔ on_disk sha256_hex n p h.
Proof.
  intros Hwf Hfree Hperm.
  destruct (manifest_files_spec n files Hwf Hfree Hperm) as (Hnd & Hin & _).
  rewrite foldl_insert_lookup by done. rewrite <- Hin.
  split; [by intros [?|[_ ?]]|by left].
Qed.

Lemma iter_files_sorted_link_free root n :
  link_free n = true →
  ∃ files, Registry._iter_files_sorted root n = Return files
           ∧ files ≡ₚ tree_files [] n.
Proof.
  intros Hfree. unfold Registry._iter_files_sorted.
  rewrite link_free_resolve by done.
  destruct (walk_returns root n [] Hfree) as [files Hwalk].
  exists files. split; [done|]. by eapply walk_tree_files.
Qed.

(** What the check computes once the manifest is read: the directory is
    walked, and the recorded and the recomputed digests are compared. *)
Lemma verify_immutability_compares root n name version text recorded :
  file_at [Registry.IMMUTABILITY_MANIFEST_FILENAME] n = Some text →
  json_load text = Some (Registry.manifest_payload name version recorded) →
  NoDup recorded.*1 →
  Forall (λ f, f.1 ≠ "" ∧ String.length f.2 = 64%nat) recorded →
  let E := foldl (λ (m : gmap string string) f, <[f.1 := f.2]> m) ∅ recorded in
  Registry._verify_immutability sha256_hex json_load root n name version
  = walked ← Registry._iter_files_sorted root n;
    match Registry.missing_of E (hashes_of walked),
          Registry.extra_of E (hashes_of walked),
          Registry.changed_of E (hashes_of walked) with
    | [], [], [] => Return tt
    | missing, extra, changed =>
        Raise (Registry.immutability_failure name version missing extra
                 changed)
    end.
Proof.
  intros Hfile Hjson Hnd Hall E.
  unfold Registry._verify_immutability.
  assert ((Registry.entries_of n
           ≫= Registry.dir_lookup Registry.IMMUTABILITY_MANIFEST_FILENAME)
          ≫= Registry.resolve = Some (Registry.File text)) as ->.
  { unfold file_at in Hfile. cbn [Registry.node_at] in Hfile.
    destruct (Registry.entries_of n) as [entries|]; [|done].
    cbn [mbind option_bind] in *.
    destruct (Registry.dir_lookup _ entries) as [[c| | |]|]; try done.
    cbn in *. by injection Hfile as ->. }
  rewrite Hjson. unfold Registry.manifest_payload.
  change (Py.dict_get _ "name") with (Some (PStr name)).
  change (Py.dict_get _ "version") with (Some (PStr version)).
  change (Py.dict_get _ "algorithm") with (Some (PStr "sha256")).
  change (Py.dict_get _ "files")
    with (Some (PList ((λ f, Registry.manifest_entry f.1 f.2) <$> recorded))).
  cbn [default from_option id Py.eqb]. rewrite !String.eqb_refl.
  cbn [negb orb].
  rewrite expected_hashes_from_recorded by done.
  cbn [mbind outcome_bind]. fold E.
  destruct (Registry._iter_files_sorted root n) as [walked|]; [|done].
  cbn [mbind outcome_bind].
  rewrite actual_hashes_of_manifest_files.
  by destruct (Registry.missing_of _ _), (Registry.extra_of _ _),
    (Registry.changed_of _ _).
Qed.
(** C1 (amended).  Take an installed directory whose manifest is the one
    [install] wrote.  If no symbolic link lies in it, then
    [_verify_immutability] returns if and only if the regular files on disk
    other than the manifest are exactly the recorded ones, path for path
    with the same digest; otherwise it raises one [DependencyError], the
    immutability failure whose message lists the missing paths (recorded,
    not on disk), the extra paths (on disk, not recorded) and the changed
    paths (on both sides, with different digests), each list in
    alphabetical order.  If a symbolic link lies in the directory, the
    check raises the [DependencyError] of the walk instead, which names
    the path of a link. *)
Theorem verify_immutability_detects root0 n0 root n name version text
    (Hwritten : manifest_written sha256_hex json_dumps_canonical json_load
                  root0 n0 name version text)
    (Hwf : well_formed n = true) (Hdir : is_real_dir n = true)
    (Hfile : file_at [Registry.IMMUTABILITY_MANIFEST_FILENAME] n = Some text) :
  let verdict :=
    Registry._verify_immutability sha256_hex json_load root n name version in
  (link_free n = true →
   ∃ recorded missing extra changed,
     json_load text = Some (Registry.manifest_payload name version recorded)
     ∧ (∀ p h, (p, h) ∈ recorded ↔ on_disk sha256_hex n0 p h)
     ∧ (verdict = Return tt
        ↔ ∀ p h, (p, h) ∈ recorded ↔ on_disk sha256_hex n p h)
     ∧ (verdict = Return tt
        ∨ verdict = Raise (Registry.immutability_failure name version missing
                             extra changed))
     ∧ alphabetical missing ∧ alphabetical extra ∧ alphabetical changed
     ∧ (∀ p, p ∈ missing
             ↔ (∃ h, (p, h) ∈ recorded) ∧ ¬ ∃ h, on_disk sha256_hex n p h)
     ∧ (∀ p, p ∈ extra
             ↔ (∃ h, on_disk sha256_hex n p h) ∧ ¬ ∃ h, (p, h) ∈ recorded)
     ∧ (∀ p, p ∈ changed
             ↔ ∃ h h', (p, h) ∈ recorded ∧ on_disk sha256_hex n p h'
                       ∧ h ≠ h'))
  ∧ (link_free n = false →
     ∃ rel, verdict
            = Raise (DependencyError (Registry.symlink_message root rel))).
Proof.
  destruct Hwritten as (Hwf0 & Hfree0 & files0 & Hwalk0 & _ & Hjson).
  destruct (iter_files_sorted_link_free root0 n0 Hfree0)
    as (files0' & Hwalk0' & Hperm0).
  rewrite Hwalk0 in Hwalk0'. injection Hwalk0' as <-.
  destruct (manifest_files_spec n0 files0 Hwf0 Hfree0 Hperm0)
    as (Hnd & Hrecorded & Hpaths).
  set (recorded := manifest_files files0) in *.
  set (E := foldl (λ (m : gmap string string) f, <[f.1 := f.2]> m) ∅ recorded).
  assert (HE : ∀ p h, E !! p = Some h ↔ (p, h) ∈ recorded).
  { intros p h. unfold E. rewrite foldl_insert_lookup by done.
    split; [by intros [?|[_ ?]]|by left]. }
  assert (Hall : Forall (λ f, f.1 ≠ "" ∧ String.length f.2 = 64%nat) recorded).
  { apply Forall_forall. intros [p h] Hin. split.
    - by apply (proj1 (Forall_forall _ _) Hpaths _ Hin).
    - apply Hrecorded in Hin as (_ & q & c & _ & _ & _ & <-).
      apply digest_length. }
  pose proof (verify_immutability_compares root n name version text recorded
                Hfile Hjson Hnd Hall) as Hverdict.
  cbn zeta in Hverdict. fold E in Hverdict.
  intros verdict. subst verdict. rewrite Hverdict. clear Hverdict.
  split; intros Hfree.
  2:{ unfold Registry._iter_files_sorted.
      assert (Registry.resolve n = Some n) as -> by (by destruct n).
      destruct (walk_link root [] n Hdir Hfree) as [rel ->]. by exists rel. }
  destruct (iter_files_sorted_link_free root n Hfree)
    as (walked & -> & Hperm).
  cbn [mbind outcome_bind].
  set (A := hashes_of walked).
  assert (HA : ∀ p h, A !! p = Some h ↔ on_disk sha256_hex n p h).
  { intros p h. by apply hashes_of_lookup. }
  exists recorded, (Registry.missing_of E A), (Registry.extra_of E A),
    (Registry.changed_of E A).
  split; [done|]. split; [done|].
  assert (Hsame : E = A ↔ ∀ p h, (p, h) ∈ recorded ↔ on_disk sha256_hex n p h).
  { split.
    - intros Heq p h. by rewrite <- HE, <- HA, Heq.
    - intros Heq. apply map_eq. intros p. apply option_eq. intros h.
      by rewrite HE, HA. }
  split.
  { rewrite <- Hsame, <- hashes_verdict.
    destruct (Registry.missing_of E A), (Registry.extra_of E A),
      (Registry.changed_of E A); naive_solver. }
  split.
  { destruct (Registry.missing_of E A), (Registry.extra_of E A),
      (Registry.changed_of E A); by (left + right). }
  do 3 (split; [apply py_sorted_alphabetical|]).
  split; [|split]; intros p.
  - rewrite missing_of_spec. split.
    + intros [[h Hh] Hnone]. split; [exists h; by apply HE|].
      intros [h' Hh'%HA]. congruence.
    + intros [[h Hh%HE] Hnot]. split; [by eexists|].
      destruct (A !! p) as [h'|] eqn:Hp; [|done].
      exfalso. apply Hnot. exists h'. by apply HA.
  - rewrite extra_of_spec. split.
    + intros [[h Hh] Hnone]. split; [exists h; by apply HA|].
      intros [h' Hh'%HE]. congruence.
    + intros [[h Hh%HA] Hnot]. split; [by eexists|].
      destruct (E !! p) as [h'|] eqn:Hp; [|done].
      exfalso. apply Hnot. exists h'. by apply HE.
  - rewrite changed_of_spec. split.
    + intros (h & h' & Hh%HE & Hh'%HA & Hne). by exists h, h'.
    + intros (h & h' & Hh%HE & Hh'%HA & Hne). by exists h, h'.
Qed.

End ImmutabilityFacts.

Lemma pad64_length n s : String.length (pad64 n s) = n.
Proof.
  revert s. induction n as [|n IH]; intros s; [done|].
  destruct s; cbn; by rewrite IH.
Qed.

Lemma sample_manifest_written :
  manifest_written sample_sha256 plain_dumps sample_json_load "/tmp/demo"
    sample_tree "demo" "1.0.0" sample_manifest_text.
Proof.
  split; [done|]. split; [done|]. eexists. split; [reflexivity|].
  split; reflexivity.
Qed.

Lemma verify_immutability_detects_witness :
  manifest_written sample_sha256 plain_dumps sample_json_load "/tmp/demo"
    sample_tree "demo" "1.0.0" sample_manifest_text
  ∧ well_formed edited_tree = true ∧ is_real_dir edited_tree = true
  ∧ link_free edited_tree = true
  ∧ file_at [Registry.IMMUTABILITY_MANIFEST_FILENAME] edited_tree
    = Some sample_manifest_text
  ∧ (∃ recorded missing extra changed,
       sample_json_load sample_manifest_text
       = Some (Registry.manifest_payload "demo" "1.0.0" recorded)
       ∧ (∀ p h, (p, h) ∈ recorded ↔ on_disk sample_sha256 sample_tree p h)
       ∧ (sample_verify edited_tree = Return tt
          ↔ ∀ p h, (p, h) ∈ recorded
                   ↔ on_disk sample_sha256 edited_tree p h)
       ∧ (sample_verify edited_tree = Return tt
          ∨ sample_verify edited_tree
            = Raise (Registry.immutability_failure "demo" "1.0.0" missing
                       extra changed))
       ∧ alphabetical missing ∧ alphabetical extra ∧ alphabetical changed
       ∧ (∀ p, p ∈ missing
               ↔ (∃ h, (p, h) ∈ recorded)
                 ∧ ¬ ∃ h, on_disk sample_sha256 edited_tree p h)
       ∧ (∀ p, p ∈ extra
               ↔ (∃ h, on_disk sample_sha256 edited_tree p h)
                 ∧ ¬ ∃ h, (p, h) ∈ recorded)
       ∧ (∀ p, p ∈ changed
               ↔ ∃ h h', (p, h) ∈ recorded
                         ∧ on_disk sample_sha256 edited_tree p h' ∧ h ≠ h'))
  ∧ link_free linked_tree = false
  ∧ ∃ rel, sample_verify linked_tree
           = Raise (DependencyError
                      (Registry.symlink_message
                         "/registry/modules/demo/1.0.0" rel)).
Proof.
  split; [exact sample_manifest_written|].
  split; [reflexivity|]. split; [reflexivity|]. split; [reflexivity|].
  split; [reflexivity|]. split.
  - exact (proj1 (verify_immutability_detects sample_sha256 sample_json_load
                    plain_dumps (pad64_length 64) "/tmp/demo" sample_tree
                    "/registry/modules/demo/1.0.0" edited_tree "demo" "1.0.0"
                    sample_manifest_text sample_manifest_written
                    eq_refl eq_refl eq_refl) eq_refl).
  - split; [reflexivity|].
    exact (proj2 (verify_immutability_detects sample_sha256 sample_json_load
                    plain_dumps (pad64_length 64) "/tmp/demo" sample_tree
                    "/registry/modules/demo/1.0.0" linked_tree "demo" "1.0.0"
                    sample_manifest_text sample_manifest_written
                    eq_refl eq_refl eq_refl) eq_refl).
Defined.

(** The check on the three sample states: untouched, edited, and with a
    symbolic link added. *)
Lemma verify_immutability_examples :
  sample_verify installed_tree = Return tt
  ∧ sample_verify edited_tree
    = Raise (Registry.immutability_failure "demo" "1.0.0"
               ["promptpm.yaml"] ["notes.txt"] ["prompt.txt"])
  ∧ sample_verify linked_tree
    = Raise (DependencyError
               [Lit ("Symlinks are not allowed in registry installs: "
                     +:+ "/registry/modules/demo/1.0.0/latest")]).
Proof. repeat split; vm_compute; reflexivity. Qed.

Lemma file_at_cons name rest entries :
  file_at (name :: rest) (Registry.Dir entries)
  = match Registry.dir_lookup name entries with
    | Some child => file_at rest child
    | None => None
    end.
Proof.
  unfold file_at. cbn [Registry.node_at]. unfold Registry.entries_of.
  cbn [Registry.resolve mbind option_bind].
  by destruct (Registry.dir_lookup name entries).
Qed.

Lemma dir_lookup_cons name n child rest :
  Registry.dir_lookup name ((n, child) :: rest)
  = if String.eqb n name then Some child else Registry.dir_lookup name rest.
Proof. done. Qed.

Lemma file_at_file comps contents c :
  file_at comps (Registry.File contents) = Some c →
  comps = [] ∧ c = contents.
Proof. destruct comps; [by intros [= ->]|done]. Qed.

Lemma linked_tree_same_files p h :
  on_disk sample_sha256 sample_tree p h
  ↔ on_disk sample_sha256 linked_tree p h.
Proof.
  unfold on_disk.
  enough (∀ comps c, Registry.as_posix comps
                     ≠ Registry.IMMUTABILITY_MANIFEST_FILENAME →
            file_at comps sample_tree = Some c
            ↔ file_at comps linked_tree = Some c) as Hsame.
  { split; intros (Hne & comps & c & Hc & <- & Hat & Hh);
      (split; [done|]); exists comps, c; repeat split; try done;
      by apply (Hsame comps c Hne). }
  intros [|name rest] c Hne; [done|].
  unfold sample_tree, sample_source, linked_tree.
  rewrite !file_at_cons, !dir_lookup_cons.
  destruct (String.eqb_spec Registry.IMMUTABILITY_MANIFEST_FILENAME name)
    as [<-|_].
  - cbn [String.eqb Ascii.eqb Bool.eqb Registry.dir_lookup].
    split; [done|]. intros [-> _]%file_at_file. done.
  - destruct (String.eqb_spec "promptpm.yaml" name) as [_|_]; [done|].
    destruct (String.eqb_spec "prompt.txt" name) as [_|_]; [done|].
    destruct (String.eqb_spec "latest" name) as [_|_]; [|done].
    cbn [Registry.dir_lookup]. split; [done|]. by destruct rest.
Qed.

(** The claim as worded fails where a symbolic link was put into the
    installed directory: the regular files are the recorded ones, yet the
    check stops at the link with an error of its own, which lists no
    missing, extra or changed path. *)
Lemma verify_immutability_stops_at_link :
  manifest_written sample_sha256 plain_dumps sample_json_load "/tmp/demo"
    sample_tree "demo" "1.0.0" sample_manifest_text
  ∧ file_at [Registry.IMMUTABILITY_MANIFEST_FILENAME] linked_tree
    = Some sample_manifest_text
  ∧ (∀ p h, on_disk sample_sha256 sample_tree p h
            ↔ on_disk sample_sha256 linked_tree p h)
  ∧ sample_verify linked_tree
    = Raise (DependencyError
               (Registry.symlink_message "/registry/modules/demo/1.0.0"
                  ["latest"]))
  ∧ (∀ missing extra changed,
       sample_verify linked_tree
       ≠ Raise (Registry.immutability_failure "demo" "1.0.0" missing extra
                  changed)).
Proof.
  split; [exact sample_manifest_written|]. split; [reflexivity|].
  split; [exact linked_tree_same_files|].
  assert (Hraise : sample_verify linked_tree
    = Raise (DependencyError
               (Registry.symlink_message "/registry/modules/demo/1.0.0"
                  ["latest"]))) by (vm_compute; reflexivity).
  split; [exact Hraise|].
  intros missing extra changed. rewrite Hraise.
  unfold Registry.symlink_message, Registry.immutability_failure.
  intros [=].
Qed.

(** * The registry: directories and paths *)

Lemma dir_lookup_put_eq name child entries :
  Registry.dir_lookup name (Registry.dir_put name child entries) = Some child.
Proof.
  induction entries as [|[n c] rest IH]; cbn.
  - by rewrite String.eqb_refl.
  - destruct (String.eqb_spec n name) as [->|Hne]; cbn.
    + by rewrite String.eqb_refl.
    + by destruct (String.eqb_spec n name).
Qed.

Lemma dir_lookup_put_ne name other child entries :
  name ≠ other →
  Registry.dir_lookup other (Registry.dir_put name child entries)
  = Registry.dir_lookup other entries.
Proof.
  intros Hne. induction entries as [|[n c] rest IH]; cbn.
  - by destruct (String.eqb_spec name other).
  - destruct (String.eqb_spec n name) as [->|Hn]; cbn.
    + by destruct (String.eqb_spec name other).
    + by rewrite IH.
Qed.

Lemma dir_lookup_remove_eq name entries :
  Registry.dir_lookup name (Registry.dir_remove name entries) = None.
Proof.
  induction entries as [|[n c] rest IH]; [done|]. cbn.
  destruct (String.eqb_spec n name) as [->|Hn]; [done|]. cbn.
  by destruct (String.eqb_spec n name).
Qed.

Lemma dir_lookup_remove_ne name other entries :
  name ≠ other →
  Registry.dir_lookup other (Registry.dir_remove name entries)
  = Registry.dir_lookup other entries.
Proof.
  intros Hne. induction entries as [|[n c] rest IH]; [done|]. cbn.
  destruct (String.eqb_spec n name) as [->|Hn]; cbn.
  - by destruct (String.eqb_spec name other).
  - by rewrite IH.
Qed.

Lemma entries_of_map_dir f n :
  Registry.entries_of (Registry.map_dir f n) = f <$> Registry.entries_of n.
Proof.
  unfold Registry.entries_of.
  induction n as [c| |entries _| |t IH] using node_induction; try done.
Qed.

Lemma node_at_snoc path leaf n :
  Registry.node_at (path ++ [leaf]) n
  = (Registry.node_at path n ≫= Registry.entries_of)
    ≫= Registry.dir_lookup leaf.
Proof.
  revert n. induction path as [|name rest IH]; intros n.
  - cbn. destruct (Registry.entries_of n) as [entries|]; [|done]. cbn.
    by destruct (Registry.dir_lookup leaf entries).
  - cbn. destruct (Registry.entries_of n) as [entries|]; [|done]. cbn.
    destruct (Registry.dir_lookup name entries) as [child|]; [|done]. cbn.
    apply IH.
Qed.

Lemma lstat_snoc path leaf r :
  Registry.lstat (path ++ [leaf]) r = dir_at path r ≫= Registry.dir_lookup leaf.
Proof.
  unfold Registry.lstat, dir_at. destruct r as [n|]; [|done]. cbn.
  apply node_at_snoc.
Qed.

Lemma alter_at_dir path f n entries :
  dir_at path (Some n) = Some entries →
  dir_at path (Some (Registry.alter_at path f n)) = Some (f entries).
Proof.
  unfold dir_at. cbn [mbind option_bind].
  revert n. induction path as [|name rest IH]; intros n.
  - cbn. rewrite entries_of_map_dir. by intros ->.
  - cbn [Registry.node_at Registry.alter_at]. rewrite entries_of_map_dir.
    destruct (Registry.entries_of n) as [es|]; [|done].
    cbn [mbind option_bind fmap option_fmap option_map].
    destruct (Registry.dir_lookup name es) as [child|] eqn:Hchild; [|done].
    rewrite dir_lookup_put_eq. cbn [mbind option_bind]. apply IH.
Qed.

Lemma alter_at_snoc_dir path leaf f n entries child :
  dir_at path (Some n) = Some entries →
  Registry.dir_lookup leaf entries = Some child →
  dir_at path (Some (Registry.alter_at (path ++ [leaf]) f n))
  = Some (Registry.dir_put leaf (Registry.map_dir f child) entries).
Proof.
  unfold dir_at. cbn [mbind option_bind].
  revert n. induction path as [|name rest IH]; intros n.
  - cbn. rewrite entries_of_map_dir. intros Hn Hleaf. rewrite Hn. cbn.
    by rewrite Hleaf.
  - cbn [Registry.node_at Registry.alter_at app].
    rewrite entries_of_map_dir.
    destruct (Registry.entries_of n) as [es|]; [|done].
    cbn [mbind option_bind fmap option_fmap option_map].
    destruct (Registry.dir_lookup name es) as [sub|] eqn:Hsub; [|done].
    rewrite dir_lookup_put_eq. cbn [mbind option_bind]. apply IH.
Qed.

Lemma makedirs_returns path r :
  dirs_or_absent path r = true → ∃ made, Registry.makedirs path r = Return made.
Proof.
  revert r. induction path as [|name rest IH]; intros [n|]; cbn.
  - intros ->. by eexists.
  - by eexists.
  - destruct (Registry.entries_of n) as [entries|]; [|done].
    intros [child ->]%IH. by eexists.
  - assert (dirs_or_absent rest None = true) as Hnone by (by destruct rest).
    destruct (IH None Hnone) as [child ->]. by eexists.
Qed.

Lemma makedirs_dir_at path r made :
  Registry.makedirs path r = Return made →
  dir_at path (Some made) = Some (default [] (dir_at path r)).
Proof.
  unfold dir_at. cbn [mbind option_bind].
  revert r made. induction path as [|name rest IH]; intros [n|] made; cbn.
  - unfold Registry.is_dir, Registry.entries_of.
    destruct (Registry.resolve n) as [[| |entries|]|] eqn:Hres; try done.
    intros [= <-]. by rewrite Hres.
  - by intros [= <-].
  - destruct (Registry.entries_of n) as [entries|] eqn:Hn; [|done].
    destruct (Registry.makedirs rest _) as [child|] eqn:Hchild; [|done].
    intros [= <-]. rewrite entries_of_map_dir, Hn. cbn.
    rewrite dir_lookup_put_eq. cbn.
    rewrite (IH _ _ Hchild).
    by destruct (Registry.dir_lookup name entries).
  - destruct (Registry.makedirs rest None) as [child|] eqn:Hchild; [|done].
    intros [= <-]. cbn. rewrite String.eqb_refl. cbn.
    by rewrite (IH _ _ Hchild).
Qed.

(** * The registry: copying a module directory *)

Lemma embeds_dir entries s :
  embeds (Registry.Dir entries) s
  ↔ ∃ source, s = Registry.Dir source
      ∧ Forall (λ e, ∃ original,
                  Registry.dir_lookup e.1 source = Some original
                  ∧ embeds e.2 original) entries.
Proof.
  cbn [embeds]. split; intros (source & -> & Hall); exists source;
    (split; [done|]).
  - induction entries as [|[name child] rest IH]; [constructor|].
    destruct Hall as [Hchild Hrest]. constructor; [exact Hchild|].
    by apply IH.
  - induction Hall as [|[name child] rest Hchild _ IH]; [done|].
    by split.
Qed.

Lemma Forall_dir_put (P : string * Registry.node → Prop) name child entries :
  P (name, child) → Forall P entries →
  Forall P (Registry.dir_put name child entries).
Proof.
  intros Hnew. induction 1 as [|[n c] rest Hn Hrest IH]; cbn.
  - by repeat constructor.
  - destruct (String.eqb_spec n name) as [->|_]; by constructor.
Qed.

Lemma embeds_link_free t s : embeds t s → link_free t = true.
Proof.
  revert s. induction t as [c| |entries IH| |t _] using node_induction;
    intros s; try done.
  intros (source & _ & Hall)%embeds_dir. apply link_free_dir.
  apply Forall_forall. intros e Hin.
  destruct (proj1 (Forall_forall _ _) Hall e Hin) as (original & _ & He).
  by apply (proj1 (Forall_forall _ _) IH e Hin original).
Qed.

Lemma put_file_embeds path contents t source :
  link_free (Registry.Dir source) = true →
  embeds (Registry.Dir t) (Registry.Dir source) →
  path ≠ [] → file_at path (Registry.Dir source) = Some contents →
  ∃ t', Registry.put_file path contents t = Return t'
        ∧ embeds (Registry.Dir t') (Registry.Dir source).
Proof.
  revert t source. induction path as [|name rest IH]; intros t source;
    [done|].
  intros Hfree (? & [= <-] & Hall)%embeds_dir _.
  rewrite file_at_cons.
  destruct (Registry.dir_lookup name source) as [original|] eqn:Horiginal;
    [|done].
  assert (Hofree : link_free original = true).
  { apply dir_lookup_Some in Horiginal.
    by apply (proj1 (Forall_forall _ _) (proj1 (link_free_dir _) Hfree)
                _ Horiginal). }
  assert (Hold : ∀ child, Registry.dir_lookup name t = Some child →
                          embeds child original).
  { intros child Hchild%dir_lookup_Some.
    destruct (proj1 (Forall_forall _ _) Hall _ Hchild) as (o & Ho & He).
    cbn [fst snd] in *. congruence. }
  cbn [Registry.put_file]. destruct rest as [|next rest].
  - unfold file_at. cbn [Registry.node_at]. intros Hfile.
    assert (original = Registry.File contents) as ->
      by (destruct original; naive_solver).
    exists (Registry.dir_put name (Registry.File contents) t).
    split.
    + destruct (Registry.dir_lookup name t) as [[| |sub|]|] eqn:Hchild;
        try done.
      by destruct (Hold _ eq_refl) as (? & ? & _).
    + apply embeds_dir. exists source. split; [done|].
      apply Forall_dir_put; [|done]. by exists (Registry.File contents).
  - intros Hfile.
    assert (∃ below, original = Registry.Dir below) as [below ->].
    { unfold file_at in Hfile. cbn [Registry.node_at] in Hfile.
      destruct (Registry.entries_of original) as [below|] eqn:Hbelow;
        [|done].
      exists below. by apply entries_of_dir_inv. }
    assert (Hput : ∀ sub, embeds (Registry.Dir sub) (Registry.Dir below) →
      ∃ t', (sub' ← Registry.put_file (next :: rest) contents sub;
             Return (Registry.dir_put name (Registry.Dir sub') t)) = Return t'
            ∧ embeds (Registry.Dir t') (Registry.Dir source)).
    { intros sub Hsub.
      destruct (IH sub below Hofree Hsub ltac:(done) Hfile)
        as (sub' & -> & Hsub').
      eexists. split; [done|]. apply embeds_dir. exists source.
      split; [done|]. apply Forall_dir_put; [|done]. by eexists. }
    destruct (Registry.dir_lookup name t) as [[| |sub|]|] eqn:Hchild.
    + by specialize (Hold _ eq_refl).
    + by specialize (Hold _ eq_refl).
    + apply Hput. by apply Hold.
    + by specialize (Hold _ eq_refl).
    + apply Hput. apply embeds_dir. exists below. by split; [|constructor].
Qed.

Lemma copy_files_embeds files t source :
  link_free (Registry.Dir source) = true →
  embeds (Registry.Dir t) (Registry.Dir source) →
  Forall (λ f, f.1 ≠ [] ∧ file_at f.1 (Registry.Dir source) = Some f.2)
         files →
  ∃ t', Registry.copy_files files t = Return t'
        ∧ embeds (Registry.Dir t') (Registry.Dir source).
Proof.
  intros Hfree Ht Hall. revert t Ht.
  induction Hall as [|[path contents] files [Hne Hfile] _ IH]; intros t Ht.
  - by exists t.
  - cbn [Registry.copy_files fst snd] in *.
    destruct (put_file_embeds path contents t source Hfree Ht Hne Hfile)
      as (t1 & -> & Ht1).
    cbn [mbind outcome_bind]. by apply IH.
Qed.

(** [_copy_tree_deterministic] from a copyable module directory returns a
    tree of files and directories taken from the source. *)
Lemma copy_of_source root source :
  well_formed (Registry.Dir source) = true →
  link_free (Registry.Dir source) = true →
  ∃ files copied,
    Registry._iter_files_sorted root (Registry.Dir source) = Return files
    ∧ Registry.copy_files files [] = Return copied
    ∧ embeds (Registry.Dir copied) (Registry.Dir source).
Proof.
  intros Hwf Hfree.
  destruct (iter_files_sorted_link_free root _ Hfree) as (files & Hwalk & Hperm).
  destruct (copy_files_embeds files [] source Hfree) as (copied & Hcopy & He).
  - apply embeds_dir. exists source. by split; [|constructor].
  - apply Forall_forall. intros [path contents] Hin. rewrite Hperm in Hin.
    apply tree_files_spec in Hin as (comps & Hne & -> & Hat); [|done..].
    by split.
  - by exists files, copied.
Qed.

(** * The registry: install *)

Lemma whole_match_pattern s :
  whole_match s = true → Registry._SAFE_SEGMENT_PATTERN_match s = true.
Proof.
  destruct s as [|c rest]; [done|]. cbn.
  intros [-> Hrest]%andb_true_iff. cbn. clear c.
  induction rest as [|c rest IH]; [done|].
  cbn in *. apply andb_true_iff in Hrest as [-> Hrest]. by apply IH.
Qed.

Lemma acceptable_segment_validates s field :
  acceptable_segment s → Registry._validate_segment (PStr s) field = Return s.
Proof.
  intros (Hwhole & Hrest). apply validate_segment_accepts.
  split; [by apply whole_match_pattern|done].
Qed.

Lemma temp_name_differs version : version +:+ ".tmp" ≠ version.
Proof.
  intros Heq. apply (f_equal String.length) in Heq.
  rewrite str_length_app in Heq. cbn in Heq. lia.
Qed.

Lemma io_bind_return {A B} (m : Registry.io A) (k : A → Registry.io B)
    w a w' :
  m w = (Return a, w') → (m ≫= k) w = k a w'.
Proof. intros H. by rewrite io_bind_unfold, H. Qed.

Lemma try_except_return {A} (body : Registry.io A) handler w a w' :
  body w = (Return a, w') → Registry.try_except body handler w = (Return a, w').
Proof. unfold Registry.try_except. by intros ->. Qed.

Lemma os_path_exists_run path w :
  ∃ w', Registry.os_path_exists path w
        = (Return (match Registry.stat path (Registry.registry w) with
                   | Some _ => true
                   | None => false
                   end), w')
        ∧ Registry.registry w' = Registry.registry w.
Proof. by eexists. Qed.

Lemma dir_at_dirs_or_absent path n entries :
  dir_at path (Some n) = Some entries → dirs_or_absent path (Some n) = true.
Proof.
  unfold dir_at. cbn [mbind option_bind].
  revert n. induction path as [|name rest IH]; intros n; cbn.
  - unfold Registry.entries_of, Registry.is_dir.
    by destruct (Registry.resolve n) as [[]|].
  - destruct (Registry.entries_of n) as [es|]; [|done]. cbn.
    destruct (Registry.dir_lookup name es) as [child|]; [|done]. cbn.
    apply IH.
Qed.

Lemma os_makedirs_run path w :
  dirs_or_absent path (Registry.registry w) = true →
  ∃ w', Registry.os_makedirs path w = (Return tt, w')
        ∧ dir_at path (Registry.registry w')
          = Some (default [] (dir_at path (Registry.registry w))).
Proof.
  intros [made Hmade]%makedirs_returns.
  unfold Registry.os_makedirs. rewrite io_bind_touch.
  cbn [Registry.registry]. unfold Registry.get_registry.
  rewrite io_bind_unfold. cbn [Registry.registry].
  rewrite io_bind_lift, Hmade. eexists. split; [done|].
  cbn [Registry.registry]. by apply makedirs_dir_at.
Qed.

Lemma registry_dir_at path r entries :
  dir_at path r = Some entries → ∃ n, r = Some n.
Proof. destruct r; [by eexists|done]. Qed.

Lemma shutil_rmtree_run dir leaf w entries stale :
  dir_at dir (Registry.registry w) = Some entries →
  Registry.dir_lookup leaf entries = Some (Registry.Dir stale) →
  ∃ w', Registry.shutil_rmtree dir leaf w = (Return tt, w')
        ∧ dir_at dir (Registry.registry w')
          = Some (Registry.dir_remove leaf entries).
Proof.
  intros Hdir Hleaf. unfold Registry.shutil_rmtree.
  rewrite io_bind_touch. unfold Registry.get_registry.
  rewrite io_bind_unfold. cbn [Registry.registry].
  rewrite lstat_snoc, Hdir. cbn [mbind option_bind]. rewrite Hleaf.
  eexists. split; [done|]. cbn [Registry.registry].
  destruct (registry_dir_at _ _ _ Hdir) as [n Hn]. rewrite Hn in *.
  by apply alter_at_dir.
Qed.

Lemma mkdir_new_run dir leaf w entries :
  dir_at dir (Registry.registry w) = Some entries →
  Registry.dir_lookup leaf entries = None →
  ∃ w', Registry.mkdir_new dir leaf w = (Return tt, w')
        ∧ dir_at dir (Registry.registry w')
          = Some (Registry.dir_put leaf (Registry.Dir []) entries).
Proof.
  intros Hdir Hleaf. unfold Registry.mkdir_new.
  rewrite io_bind_touch. unfold Registry.get_registry.
  rewrite io_bind_unfold. cbn [Registry.registry].
  rewrite lstat_snoc, Hdir. cbn [mbind option_bind]. rewrite Hleaf.
  destruct (registry_dir_at _ _ _ Hdir) as [n Hn]. rewrite Hn in *.
  destruct (makedirs_returns dir (Some n)) as [made Hmade];
    [by eapply dir_at_dirs_or_absent|].
  rewrite io_bind_lift, Hmade. eexists. split; [done|].
  cbn [Registry.registry]. apply alter_at_dir.
  by rewrite (makedirs_dir_at _ _ _ Hmade), Hdir.
Qed.

Lemma os_replace_run dir source destination w entries moved :
  dir_at dir (Registry.registry w) = Some entries →
  Registry.dir_lookup source entries = Some moved →
  Registry.dir_lookup destination entries = None →
  ∃ w', Registry.os_replace dir source destination w = (Return tt, w')
        ∧ dir_at dir (Registry.registry w')
          = Some (Registry.dir_put destination moved
                    (Registry.dir_remove source entries)).
Proof.
  intros Hdir Hsource Hdestination. unfold Registry.os_replace.
  rewrite io_bind_touch. unfold Registry.get_registry.
  rewrite io_bind_unfold. cbn [Registry.registry].
  rewrite !lstat_snoc, Hdir. cbn [mbind option_bind].
  rewrite Hsource, Hdestination.
  eexists. split; [done|]. cbn [Registry.registry].
  destruct (registry_dir_at _ _ _ Hdir) as [n Hn]. rewrite Hn in *.
  cbn [fmap option_fmap option_map].
  exact (alter_at_dir dir _ n entries Hdir).
Qed.

Section InstallFacts.
Variable sha256_hex : string → string.
Variable json_dumps_canonical : pyval → string.
Variable yaml_safe_load : string → outcome pyval.
Variable toml_load : string → outcome pyval.
Variable root_path : string.
Variable abspath : string → string.

Local Abbreviation load_prompt_module :=
  (Registry.load_prompt_module yaml_safe_load toml_load).
Local Abbreviation install :=
  (Registry.install sha256_hex json_dumps_canonical yaml_safe_load toml_load
     root_path abspath).

Lemma copy_tree_run source_dir source dir leaf w entries :
  well_formed (Registry.Dir source) = true →
  link_free (Registry.Dir source) = true →
  dir_at dir (Registry.registry w) = Some entries →
  Registry.dir_lookup leaf entries = None →
  ∃ w' copied entries',
    Registry._copy_tree_deterministic source_dir
      (Some (Registry.Dir source)) dir leaf w = (Return tt, w')
    ∧ embeds (Registry.Dir copied) (Registry.Dir source)
    ∧ dir_at dir (Registry.registry w') = Some entries'
    ∧ Registry.dir_lookup leaf entries' = Some (Registry.Dir copied)
    ∧ ∀ other, leaf ≠ other →
        Registry.dir_lookup other entries'
        = Registry.dir_lookup other entries.
Proof.
  intros Hwf Hfree Hdir Hleaf.
  destruct (mkdir_new_run dir leaf w entries Hdir Hleaf) as (w1 & Hmk & Hdir1).
  destruct (copy_of_source source_dir source Hwf Hfree)
    as (files & copied & Hwalk & Hcopy & Hembeds).
  unfold Registry._copy_tree_deterministic.
  rewrite (io_bind_return _ _ _ _ _ Hmk), io_bind_touch.
  cbn [default from_option id]. rewrite io_bind_lift, Hwalk.
  rewrite io_bind_lift, Hcopy, io_bind_touch.
  unfold Registry.get_registry. rewrite io_bind_unfold.
  cbn [Registry.registry].
  destruct (registry_dir_at _ _ _ Hdir1) as [n Hn]. rewrite Hn in *.
  eexists _, copied, _. split; [done|]. split; [done|].
  cbn [Registry.registry fmap option_fmap option_map].
  split; [exact (alter_at_dir dir _ n _ Hdir1)|].
  split; [apply dir_lookup_put_eq|].
  intros other Hne. by rewrite !dir_lookup_put_ne.
Qed.

Lemma manifest_run dir leaf name version w entries copied source :
  embeds (Registry.Dir copied) (Registry.Dir source) →
  (∀ sub, Registry.dir_lookup Registry.IMMUTABILITY_MANIFEST_FILENAME source
          ≠ Some (Registry.Dir sub)) →
  dir_at dir (Registry.registry w) = Some entries →
  Registry.dir_lookup leaf entries = Some (Registry.Dir copied) →
  ∃ w' text entries',
    Registry._write_immutability_manifest sha256_hex json_dumps_canonical
      root_path dir leaf name version w = (Return tt, w')
    ∧ dir_at dir (Registry.registry w') = Some entries'
    ∧ Registry.dir_lookup leaf entries'
      = Some (Registry.Dir
                (Registry.dir_put Registry.IMMUTABILITY_MANIFEST_FILENAME
                   (Registry.File text) copied))
    ∧ ∀ other, leaf ≠ other →
        Registry.dir_lookup other entries'
        = Registry.dir_lookup other entries.
Proof.
  intros Hembeds Hnodir Hdir Hleaf.
  pose proof (embeds_link_free _ _ Hembeds) as Hfree.
  destruct (iter_files_sorted_link_free
              (Registry.path_str root_path (dir ++ [leaf])) _ Hfree)
    as (files & Hwalk & _).
  unfold Registry._write_immutability_manifest.
  rewrite io_bind_touch. unfold Registry.get_registry.
  rewrite io_bind_unfold. cbn [Registry.registry].
  rewrite lstat_snoc, Hdir. cbn [mbind option_bind]. rewrite Hleaf.
  cbn [default from_option id]. unfold Registry.manifest_text.
  rewrite Hwalk. cbn [mbind outcome_bind]. rewrite io_bind_lift.
  cbn [Registry.entries_of Registry.resolve].
  assert (Hmanifest :
    match Registry.dir_lookup Registry.IMMUTABILITY_MANIFEST_FILENAME copied
          ≫= Registry.resolve with
    | Some (Registry.Dir _) => False
    | _ => True
    end).
  { destruct (Registry.dir_lookup _ copied) as [child|] eqn:Hchild; [|done].
    apply embeds_dir in Hembeds as (? & [= <-] & Hall).
    apply dir_lookup_Some in Hchild.
    destruct (proj1 (Forall_forall _ _) Hall _ Hchild) as (o & Ho & He).
    cbn [fst snd] in *. destruct child as [c| |sub|t]; try done.
    apply embeds_dir in He as (below & -> & _). by apply Hnodir in Ho. }
  destruct (registry_dir_at _ _ _ Hdir) as [n Hn]. rewrite Hn in *.
  eexists _, _, _. split.
  { destruct (Registry.dir_lookup _ copied ≫= Registry.resolve)
      as [[| | |]|]; done. }
  cbn [Registry.registry fmap option_fmap option_map].
  split; [exact (alter_at_snoc_dir dir leaf _ n _ _ Hdir Hleaf)|].
  split; [by rewrite dir_lookup_put_eq|].
  intros other Hne. by rewrite dir_lookup_put_ne.
Qed.
Lemma install_fresh module_path src w module w1 name version :
  load_prompt_module module_path src w = (Return module, w1) →
  Schema.validate_prompt_module module = Return tt →
  module_identity module (PStr name) (PStr version) →
  acceptable_segment name → acceptable_segment version →
  copyable src → vacant (Registry.registry w) name version →
  ∃ w' installed,
    install module_path src w
    = (Return {| im_name := name; im_version := version;
                 im_path := Registry.path_str root_path
                              [Registry.MODULES_DIRNAME; name; version] |},
       w')
    ∧ Registry.lstat [Registry.MODULES_DIRNAME; name; version]
        (Registry.registry w')
      = Some (Registry.Dir installed).
Proof.
  intros Hload Hvalid [Hname Hversion] Hsafe_name Hsafe_version
    (source & -> & Hwf & Hfree & Hnodir) (Hchain & Hdest & Htemp).
  pose proof (load_prompt_module_reads yaml_safe_load toml_load module_path
                (Some (Registry.Dir source)) w) as [Hreg _].
  rewrite Hload in Hreg. cbn [snd] in Hreg. rewrite <- Hreg in *.
  set (parent := [Registry.MODULES_DIRNAME; name]).
  set (temp := version +:+ ".tmp").
  change (Registry.lstat (parent ++ [version]) (Registry.registry w1) = None)
    in Hdest.
  change (Registry.lstat (parent ++ [temp]) (Registry.registry w1) = None
          ∨ ∃ entries, Registry.lstat (parent ++ [temp]) (Registry.registry w1)
                       = Some (Registry.Dir entries)) in Htemp.
  change (dirs_or_absent parent (Registry.registry w1) = true) in Hchain.
  unfold Registry.install.
  rewrite (io_bind_return _ _ _ _ _ Hload).
  rewrite io_bind_lift, Hvalid, io_bind_lift, Hname, io_bind_lift.
  rewrite (acceptable_segment_validates _ _ Hsafe_name).
  rewrite io_bind_lift, Hversion, io_bind_lift.
  rewrite (acceptable_segment_validates _ _ Hsafe_version).
  unfold Registry._module_directory. fold parent. fold temp.
  change [Registry.MODULES_DIRNAME; name; version] with (parent ++ [version]).
  (* the destination is free *)
  destruct (os_path_exists_run (parent ++ [version]) w1) as (w2 & Hex & Hreg2).
  rewrite (io_bind_return _ _ _ _ _ Hex). clear Hex.
  unfold Registry.stat at 1. rewrite Hdest. cbn [mbind option_bind].
  (* the module path is a directory *)
  rewrite io_bind_touch.
  set (w3 := {| Registry.registry := Registry.registry w2;
                Registry.accesses := _ |}).
  cbn [Registry.source_stat mbind option_bind Registry.node_at
       Registry.resolve negb].
  (* the parent directories *)
  assert (Hreg3 : Registry.registry w3 = Registry.registry w1) by done.
  destruct (os_makedirs_run parent w3) as (w4 & Hmk & Hdir4);
    [by rewrite Hreg3|].
  rewrite (io_bind_return _ _ _ _ _ Hmk).
  rewrite Hreg3 in Hdir4.
  set (entries := default [] (dir_at parent (Registry.registry w1))) in *.
  assert (Hfree_version : Registry.dir_lookup version entries = None).
  { rewrite lstat_snoc in Hdest. unfold entries.
    by destruct (dir_at parent (Registry.registry w1)). }
  assert (Hfree_temp :
    Registry.dir_lookup temp entries = None
    ∨ ∃ stale, Registry.dir_lookup temp entries = Some (Registry.Dir stale)).
  { rewrite !lstat_snoc in Htemp. unfold entries.
    destruct (dir_at parent (Registry.registry w1)); [done|by left]. }
  (* a directory left behind is removed *)
  destruct (os_path_exists_run (parent ++ [temp]) w4) as (w5 & Hex & Hreg5).
  rewrite (io_bind_return _ _ _ _ _ Hex). clear Hex.
  unfold Registry.stat at 1. rewrite lstat_snoc, Hdir4.
  cbn [mbind option_bind].
  assert (∃ w6 entries6,
    (if match Registry.dir_lookup temp entries ≫= Registry.resolve with
        | Some _ => true
        | None => false
        end
     then Registry.shutil_rmtree parent temp
     else mret tt) w5 = (Return tt, w6)
    ∧ dir_at parent (Registry.registry w6) = Some entries6
    ∧ Registry.dir_lookup temp entries6 = None
    ∧ Registry.dir_lookup version entries6 = None)
    as (w6 & entries6 & Hclean & Hdir6 & Htemp6 & Hversion6).
  { rewrite <- Hreg5 in Hdir4. destruct Hfree_temp as [Hnone|[stale Hstale]].
    - rewrite Hnone. cbn [mbind option_bind].
      by exists w5, entries.
    - rewrite Hstale. cbn [mbind option_bind Registry.resolve].
      destruct (shutil_rmtree_run parent temp w5 entries stale Hdir4 Hstale)
        as (w6 & Hrm & Hdir6).
      exists w6, (Registry.dir_remove temp entries).
      split; [done|]. split; [done|].
      split; [apply dir_lookup_remove_eq|].
      rewrite dir_lookup_remove_ne; [done|apply temp_name_differs]. }
  rewrite (io_bind_return _ _ _ _ _ Hclean).
  (* the copy, the manifest and the move into place *)
  destruct (copy_tree_run (abspath module_path) source parent temp w6 entries6
              Hwf Hfree Hdir6 Htemp6)
    as (w7 & copied & entries7 & Hcopy & Hembeds & Hdir7 & Htemp7 & Hframe7).
  destruct (manifest_run parent temp name version w7 entries7 copied source
              Hembeds Hnodir Hdir7 Htemp7)
    as (w8 & text & entries8 & Hmanifest & Hdir8 & Htemp8 & Hframe8).
  destruct (os_replace_run parent temp version w8 entries8 _ Hdir8 Htemp8)
    as (w9 & Hreplace & Hdir9).
  { rewrite Hframe8, Hframe7; [done|apply temp_name_differs..]. }
  assert (Hbody :
    (Registry._copy_tree_deterministic (abspath module_path)
       (Some (Registry.Dir source)) parent temp;;
     Registry._write_immutability_manifest sha256_hex json_dumps_canonical
       root_path parent temp name version;;
     Registry.os_replace parent temp version) w6 = (Return tt, w9)).
  { rewrite (io_bind_return _ _ _ _ _ Hcopy).
    by rewrite (io_bind_return _ _ _ _ _ Hmanifest). }
  rewrite (io_bind_return _ _ _ _ _ (try_except_return _ _ _ _ _ Hbody)).
  eexists w9, _. split; [done|].
  rewrite lstat_snoc, Hdir9. cbn [mbind option_bind].
  apply dir_lookup_put_eq.
Qed.
Lemma load_prompt_module_run path src :
  ∃ r touched, ∀ w,
    load_prompt_module path src w
    = (r, {| Registry.registry := Registry.registry w;
             Registry.accesses := Registry.accesses w ++ touched |}).
Proof.
  unfold Registry.load_prompt_module, Registry.source_exists,
    Registry.source_read.
  assert (Hread : ∀ rel (load : string → outcome pyval) source before,
    ∃ r touched, ∀ w,
      (text ← (Registry.touch (Registry.InSource rel);;
               Registry.lift (Registry.read_text
                                (Registry.source_stat src rel)));
       raw ← Registry.lift (load text);
       Registry.lift (Registry.module_of_document raw source))
        {| Registry.registry := Registry.registry w;
           Registry.accesses := Registry.accesses w ++ before |}
      = (r, {| Registry.registry := Registry.registry w;
               Registry.accesses := Registry.accesses w ++ touched |})).
  { intros rel load source before.
    destruct (Registry.read_text (Registry.source_stat src rel))
      as [text|e] eqn:Htext.
    - destruct (load text) as [raw|e] eqn:Hraw.
      + exists (Registry.module_of_document raw source),
          (before ++ [Registry.InSource rel]).
        intros w. cbv [mbind Registry.io_bind Registry.touch Registry.lift].
        cbn [Registry.registry Registry.accesses].
        by rewrite ?Htext, ?Hraw, app_assoc.
      + exists (Raise e), (before ++ [Registry.InSource rel]).
        intros w. cbv [mbind Registry.io_bind Registry.touch Registry.lift].
        cbn [Registry.registry Registry.accesses].
        by rewrite ?Htext, ?Hraw, app_assoc.
    - exists (Raise e), (before ++ [Registry.InSource rel]).
      intros w. cbv [mbind Registry.io_bind Registry.touch Registry.lift].
      cbn [Registry.registry Registry.accesses].
      by rewrite ?Htext, app_assoc. }
  destruct (Registry.source_stat src ["promptpm.yaml"]) as [?|] eqn:Hyaml.
  - destruct (Hread ["promptpm.yaml"] yaml_safe_load
                (Registry.os_path_join path "promptpm.yaml")
                [Registry.InSource ["promptpm.yaml"]]) as (r & touched & Hr).
    rewrite Hyaml in Hr.
    exists r, touched. intros w. rewrite io_bind_unfold, io_bind_touch.
    unfold mret, Registry.io_ret. apply Hr.
  - destruct (Registry.source_stat src ["promptpm.toml"]) as [?|] eqn:Htoml.
    + destruct (Hread ["promptpm.toml"] toml_load
                  (Registry.os_path_join path "promptpm.toml")
                  [Registry.InSource ["promptpm.yaml"];
                   Registry.InSource ["promptpm.toml"]])
        as (r & touched & Hr).
      rewrite Htoml in Hr.
      exists r, touched. intros w.
      rewrite io_bind_unfold, io_bind_touch.
      unfold mret at 1, Registry.io_ret at 1.
      rewrite io_bind_unfold, io_bind_touch.
      unfold mret at 1, Registry.io_ret at 1.
      cbn [Registry.registry Registry.accesses].
      rewrite <- app_assoc. apply Hr.
    + eexists _, _. intros w.
      rewrite io_bind_unfold, io_bind_touch.
      unfold mret at 1, Registry.io_ret at 1.
      rewrite io_bind_unfold, io_bind_touch.
      unfold mret at 1, Registry.io_ret at 1.
      unfold Registry.raise, Registry.lift.
      cbn [Registry.registry Registry.accesses].
      by rewrite <- app_assoc.
Qed.

Lemma load_prompt_module_again path src w w' :
  ∃ w1, load_prompt_module path src w'
        = ((load_prompt_module path src w).1, w1)
        ∧ Registry.registry w1 = Registry.registry w'.
Proof.
  destruct (load_prompt_module_run path src) as (r & touched & Hrun).
  rewrite (Hrun w), (Hrun w'). by eexists.
Qed.

Lemma install_taken module_path src w module w1 name version installed :
  load_prompt_module module_path src w = (Return module, w1) →
  Schema.validate_prompt_module module = Return tt →
  module_identity module (PStr name) (PStr version) →
  acceptable_segment name → acceptable_segment version →
  Registry.lstat [Registry.MODULES_DIRNAME; name; version]
    (Registry.registry w) = Some (Registry.Dir installed) →
  ∃ w', install module_path src w = (Raise (already_installed name version), w')
        ∧ Registry.registry w' = Registry.registry w.
Proof.
  intros Hload Hvalid [Hname Hversion] Hsafe_name Hsafe_version Hdest.
  pose proof (load_prompt_module_reads yaml_safe_load toml_load module_path
                src w) as [Hreg _].
  rewrite Hload in Hreg. cbn [snd] in Hreg.
  unfold Registry.install.
  rewrite (io_bind_return _ _ _ _ _ Hload).
  rewrite io_bind_lift, Hvalid, io_bind_lift, Hname, io_bind_lift.
  rewrite (acceptable_segment_validates _ _ Hsafe_name).
  rewrite io_bind_lift, Hversion, io_bind_lift.
  rewrite (acceptable_segment_validates _ _ Hsafe_version).
  unfold Registry._module_directory.
  destruct (os_path_exists_run [Registry.MODULES_DIRNAME; name; version] w1)
    as (w2 & Hex & Hreg2).
  rewrite (io_bind_return _ _ _ _ _ Hex).
  unfold Registry.stat. rewrite Hreg, Hdest.
  cbn [mbind option_bind Registry.resolve].
  exists w2. split; [done|]. congruence.
Qed.

(** C6.  Two calls of [install] in a row for the same valid module, into a
    registry where the version is not yet installed: the first returns and
    has made the directory [modules/N/V] below the registry root; the
    second raises the [DependencyError] that says the module is already
    installed, and leaves the registry as the first call left it. *)
Theorem install_twice module_path src w module name version
    (Hload : (load_prompt_module module_path src w).1 = Return module)
    (Hvalid : Schema.validate_prompt_module module = Return tt)
    (Hidentity : module_identity module (PStr name) (PStr version))
    (Hname : acceptable_segment name) (Hversion : acceptable_segment version)
    (Hsource : copyable src)
    (Hvacant : vacant (Registry.registry w) name version) :
  ∃ w' installed w'',
    install module_path src w
    = (Return {| im_name := name; im_version := version;
                 im_path := Registry.path_str root_path
                              [Registry.MODULES_DIRNAME; name; version] |},
       w')
    ∧ Registry.lstat [Registry.MODULES_DIRNAME; name; version]
        (Registry.registry w')
      = Some (Registry.Dir installed)
    ∧ install module_path src w'
      = (Raise (already_installed name version), w'')
    ∧ Registry.registry w'' = Registry.registry w'.
Proof.
  destruct (load_prompt_module module_path src w) as [r w1] eqn:Hrun.
  cbn [fst] in Hload. subst r.
  destruct (install_fresh module_path src w module w1 name version)
    as (w' & installed & Hfirst & Hmade); try done.
  destruct (load_prompt_module_again module_path src w w')
    as (w1' & Hagain & _).
  rewrite Hrun in Hagain. cbn [fst] in Hagain.
  destruct (install_taken module_path src w' module w1' name version installed)
    as (w'' & Hsecond & Hkept); try done.
  by exists w', installed, w''.
Qed.

End InstallFacts.

Lemma install_twice_witness :
  ∃ w' installed w'',
    Registry.install sample_sha256 plain_dumps (sample_yaml "demo" "1.0.0")
      no_toml "/registry" id "pkg" (Some sample_source) empty_world
    = (Return {| im_name := "demo"; im_version := "1.0.0";
                 im_path := "/registry/modules/demo/1.0.0" |}, w')
    ∧ Registry.lstat ["modules"; "demo"; "1.0.0"] (Registry.registry w')
      = Some (Registry.Dir installed)
    ∧ Registry.install sample_sha256 plain_dumps (sample_yaml "demo" "1.0.0")
        no_toml "/registry" id "pkg" (Some sample_source) w'
      = (Raise (already_installed "demo" "1.0.0"), w'')
    ∧ Registry.registry w'' = Registry.registry w'.
Proof.
  apply (install_twice sample_sha256 plain_dumps (sample_yaml "demo" "1.0.0")
           no_toml "/registry" id "pkg" (Some sample_source) empty_world
           (Schema.mk_PromptModule
              (sample_document "demo" "1.0.0" (PStr "prompt.txt") [])
              "pkg/promptpm.yaml")
           "demo" "1.0.0").
  - vm_compute. reflexivity.
  - vm_compute. reflexivity.
  - split; reflexivity.
  - repeat split; try reflexivity; discriminate.
  - repeat split; try reflexivity; discriminate.
  - eexists. split; [reflexivity|]. split; [reflexivity|].
    split; [reflexivity|]. intros sub. vm_compute. discriminate.
  - split; [reflexivity|]. split; [reflexivity|]. left. reflexivity.
Defined.

(** The registry after the sample module was installed into an empty
    place, the second call on it, and a lookup of what was installed. *)
Lemma install_example :
  (sample_install "demo").1
  = Return {| im_name := "demo"; im_version := "1.0.0";
              im_path := "/registry/modules/demo/1.0.0" |}
  ∧ Registry.registry (sample_install "demo").2
    = Some (Registry.Dir
              [("modules",
                Registry.Dir
                  [("demo",
                    Registry.Dir
                      [("1.0.0",
                        Registry.Dir
                          [("prompt.txt", Registry.File "hello");
                           ("promptpm.yaml", Registry.File "module");
                           (Registry.IMMUTABILITY_MANIFEST_FILENAME,
                            Registry.File (String Registry.LF ""))])])])])
  ∧ (Registry.install sample_sha256 plain_dumps (sample_yaml "demo" "1.0.0")
       no_toml "/registry" id "pkg" (Some sample_source)
       (sample_install "demo").2).1
    = Raise (already_installed "demo" "1.0.0")
  ∧ (Registry.lookup sample_sha256 sample_json_load "/registry"
       (PStr "demo") (PStr "1.0.0") (sample_install "demo").2).1
    = Return {| im_name := "demo"; im_version := "1.0.0";
                im_path := "/registry/modules/demo/1.0.0" |}.
Proof. repeat split; vm_compute; reflexivity. Qed.

(** * Further properties: path segments *)

Lemma contains_char s c :
  Str.contains s (String c "") = Str.existsb (Ascii.eqb c) s.
Proof.
  induction s as [|d s IH]; [done|].
  cbn [Str.contains Str.existsb String.prefix]. rewrite IH.
  destruct (ascii_dec c d) as [->|Hne].
  - rewrite Ascii.eqb_refl. by destruct s.
  - apply Ascii.eqb_neq in Hne. rewrite Hne. done.
Qed.

Lemma segment_tail_match_spec rest :
  Registry.segment_tail_match rest = true
  ↔ Str.forallb Registry.is_segment_char rest = true
    ∨ ∃ t, rest = t +:+ String Registry.LF ""
           ∧ Str.forallb Registry.is_segment_char t = true.
Proof.
  induction rest as [|c rest IH].
  - split; [by left|done].
  - cbn [Registry.segment_tail_match Str.forallb].
    destruct (Registry.is_segment_char c) eqn:Hc.
    + rewrite IH. cbn [andb]. split.
      * intros [?|(t & -> & Ht)]; [by left|right].
        exists (String c t). cbn. by rewrite Hc.
      * intros [?|(t & Heq & Ht)]; [by left|].
        destruct t as [|d t].
        -- cbn in Heq. injection Heq as -> ->. by left.
        -- cbn in Heq. injection Heq as -> ->. right. exists t.
           cbn in Ht. rewrite Hc in Ht. done.
    + cbn [andb]. split.
      * intros [Hlf Hrest]%andb_true_iff.
        apply Ascii.eqb_eq in Hlf as ->. apply String.eqb_eq in Hrest as ->.
        right. by exists "".
      * intros [?|(t & Heq & Ht)]; [done|].
        destruct t as [|d t].
        -- cbn in Heq. by injection Heq as -> ->.
        -- cbn in Heq. injection Heq as -> ->. cbn in Ht.
           by rewrite Hc in Ht.
Qed.

Lemma str_existsb_snoc (f : ascii → bool) t c :
  Str.existsb f (t +:+ String c "") = Str.existsb f t || f c.
Proof.
  induction t as [|d t IH]; cbn; [by rewrite orb_false_r|].
  rewrite IH. by rewrite orb_assoc.
Qed.

(** X1.  [_validate_segment] returns for a value exactly when the value
    is a string that is an acceptable segment, or an acceptable segment
    followed by one line feed; it then returns that string.  In every
    other case it raises a [DependencyError]. *)
Theorem validate_segment_characterised (value : pyval) (field : string) :
  (∀ s, Registry._validate_segment value field = Return s
        ↔ value = PStr s
          ∧ (acceptable_segment s
             ∨ ∃ t, s = t +:+ String Registry.LF "" ∧ acceptable_segment t))
  ∧ ((∃ s, Registry._validate_segment value field = Return s)
     ∨ ∃ msg, Registry._validate_segment value field
              = Raise (DependencyError msg)).
Proof.
  split.
  2:{ destruct (validate_segment_outcome value field) as [(s & _ & H)|H];
        [left; by exists s|by right]. }
  intros s. split.
  - intros Hret.
    destruct (validate_segment_outcome value field) as [(s' & -> & H)|[msg H]];
      [|congruence].
    assert (s' = s) as -> by congruence. split; [done|].
    apply validate_segment_accepts in Hret
      as (Hmatch & Hdot & Hdots & Hslash & Hback).
    destruct s as [|c rest]; [done|].
    cbn [Registry._SAFE_SEGMENT_PATTERN_match] in Hmatch.
    apply andb_true_iff in Hmatch as [Hc Hrest].
    apply segment_tail_match_spec in Hrest as [Hrest|(t & -> & Ht)].
    + left. repeat split; try done. cbn. by rewrite Hc.
    + right. exists (String c t). split; [done|].
      rewrite contains_char in Hslash. rewrite contains_char in Hback.
      cbn [String.append] in *.
      cbn [Str.existsb] in *.
      rewrite str_existsb_snoc in Hslash, Hback.
      apply orb_false_iff in Hslash as [Hs1 Hs2].
      apply orb_false_iff in Hback as [Hb1 Hb2].
      apply orb_false_iff in Hs2 as [Hs2 _].
      apply orb_false_iff in Hb2 as [Hb2 _].
      split; [|split; [|split; [|split]]].
      * cbn. by rewrite Hc.
      * by intros [= -> ->].
      * by intros [= -> ->].
      * rewrite contains_char. cbn [Str.existsb]. by rewrite Hs1, Hs2.
      * rewrite contains_char. cbn [Str.existsb]. by rewrite Hb1, Hb2.
  - intros [-> [Hok|(t & -> & Hwhole & Hdot & Hdots & Hslash & Hback)]].
    + by apply acceptable_segment_validates.
    + apply validate_segment_accepts.
      destruct t as [|c t]; [done|].
      cbn in Hwhole. apply andb_true_iff in Hwhole as [Hc Ht].
      rewrite contains_char in Hslash. rewrite contains_char in Hback.
      rewrite (contains_char _ "/"), (contains_char _ Registry.BACKSLASH).
      cbn [String.append Str.existsb] in *.
      rewrite !str_existsb_snoc.
      apply orb_false_iff in Hslash as [Hs1 Hs2].
      apply orb_false_iff in Hback as [Hb1 Hb2].
      rewrite Hs1, Hs2, Hb1, Hb2.
      split; [|split; [|split; [|split]]]; try done.
      * cbn. rewrite Hc. apply segment_tail_match_spec. right. by exists t.
      * destruct t; done.
      * destruct t as [|? [|]]; done.
Qed.

(** * Further properties: the identity recorded in a manifest *)

(** X2.  A directory whose manifest records the files of [name]@[version]
    does not pass for any other name or version: [_verify_immutability]
    asked for another identity raises the identity mismatch, whatever the
    directory holds besides the manifest. *)
Theorem verify_immutability_rejects_other_identity
    (sha256_hex : string → string) (json_load : string → option pyval)
    root n name version files text name' version'
    (Hfile : file_at [Registry.IMMUTABILITY_MANIFEST_FILENAME] n = Some text)
    (Hjson : json_load text
             = Some (Registry.manifest_payload name version files))
    (Hother : name' ≠ name ∨ version' ≠ version) :
  Registry._verify_immutability sha256_hex json_load root n name' version'
  = Raise (DependencyError
             [Lit ("Immutability manifest identity mismatch for "
                   +:+ name' +:+ "@" +:+ version')]).
Proof.
  unfold Registry._verify_immutability.
  assert ((Registry.entries_of n
           ≫= Registry.dir_lookup Registry.IMMUTABILITY_MANIFEST_FILENAME)
          ≫= Registry.resolve = Some (Registry.File text)) as ->.
  { unfold file_at in Hfile. cbn [Registry.node_at] in Hfile.
    destruct (Registry.entries_of n) as [entries|]; [|done].
    cbn [mbind option_bind] in *.
    destruct (Registry.dir_lookup _ entries) as [[c| | |]|]; try done.
    cbn in *. by injection Hfile as ->. }
  rewrite Hjson. unfold Registry.manifest_payload.
  change (Py.dict_get _ "name") with (Some (PStr name)).
  change (Py.dict_get _ "version") with (Some (PStr version)).
  cbn [default from_option id Py.eqb].
  destruct Hother as [Hne|Hne].
  - apply not_eq_sym, String.eqb_neq in Hne. by rewrite Hne.
  - apply not_eq_sym, String.eqb_neq in Hne. rewrite Hne.
    by rewrite orb_true_r.
Qed.

Lemma verify_immutability_rejects_other_identity_witness :
  file_at [Registry.IMMUTABILITY_MANIFEST_FILENAME] installed_tree
  = Some sample_manifest_text
  ∧ Registry._verify_immutability sample_sha256 sample_json_load
      "/registry/modules/demo/2.0.0" installed_tree "demo" "2.0.0"
    = Raise (DependencyError
               [Lit "Immutability manifest identity mismatch for demo@2.0.0"]).
Proof.
  split; [reflexivity|].
  apply (verify_immutability_rejects_other_identity sample_sha256
           sample_json_load "/registry/modules/demo/2.0.0" installed_tree
           "demo" "1.0.0"
           (Registry.manifest_files sample_sha256
              (returned (Registry._iter_files_sorted "/tmp/demo" sample_tree)))
           sample_manifest_text "demo" "2.0.0").
  - reflexivity.
  - reflexivity.
  - right. discriminate.
Defined.

(** * Further properties: what a call of [install] that returns has done *)

Lemma io_bind_inv {A B} (m : Registry.io A) (k : A → Registry.io B) w b w' :
  (m ≫= k) w = (Return b, w') →
  ∃ a w1, m w = (Return a, w1) ∧ k a w1 = (Return b, w').
Proof.
  rewrite io_bind_unfold. destruct (m w) as [[a|e] w1]; [|done].
  intros H. by exists a, w1.
Qed.

Lemma lift_inv {A} (r : outcome A) w a w' :
  Registry.lift r w = (Return a, w') → r = Return a ∧ w' = w.
Proof. unfold Registry.lift. by intros [= -> ->]. Qed.

Lemma try_except_inv {A} (body : Registry.io A) handler w a w' :
  (∀ e w1, ∃ e' w2, handler e w1 = (Raise e', w2)) →
  Registry.try_except body handler w = (Return a, w') →
  body w = (Return a, w').
Proof.
  intros Hraises. unfold Registry.try_except.
  destruct (body w) as [[b|e] w1]; [done|].
  destruct (Hraises e w1) as (e' & w2 & ->). done.
Qed.

Lemma os_makedirs_inv path w w' :
  Registry.os_makedirs path w = (Return tt, w') →
  dir_at path (Registry.registry w')
  = Some (default [] (dir_at path (Registry.registry w))).
Proof.
  unfold Registry.os_makedirs. rewrite io_bind_touch.
  unfold Registry.get_registry. rewrite io_bind_unfold.
  cbn [Registry.registry]. rewrite io_bind_lift.
  destruct (Registry.makedirs path (Registry.registry w)) as [made|] eqn:Hmade;
    [|done].
  intros [= <-]. cbn [Registry.registry]. by apply makedirs_dir_at.
Qed.

Lemma shutil_rmtree_inv dir leaf w w' entries :
  dir_at dir (Registry.registry w) = Some entries →
  Registry.shutil_rmtree dir leaf w = (Return tt, w') →
  dir_at dir (Registry.registry w') = Some (Registry.dir_remove leaf entries).
Proof.
  intros Hdir. unfold Registry.shutil_rmtree.
  rewrite io_bind_touch. unfold Registry.get_registry.
  rewrite io_bind_unfold. cbn [Registry.registry].
  rewrite lstat_snoc, Hdir. cbn [mbind option_bind].
  destruct (Registry.dir_lookup leaf entries) as [[| |stale|]|]; try done.
  intros [= <-]. cbn [Registry.registry].
  destruct (registry_dir_at _ _ _ Hdir) as [n Hn]. rewrite Hn in *.
  by apply alter_at_dir.
Qed.

Lemma mkdir_new_inv dir leaf w w' entries :
  dir_at dir (Registry.registry w) = Some entries →
  Registry.mkdir_new dir leaf w = (Return tt, w') →
  Registry.dir_lookup leaf entries = None
  ∧ dir_at dir (Registry.registry w')
    = Some (Registry.dir_put leaf (Registry.Dir []) entries).
Proof.
  intros Hdir Hrun.
  destruct (Registry.dir_lookup leaf entries) as [child|] eqn:Hleaf.
  - exfalso. revert Hrun. unfold Registry.mkdir_new.
    rewrite io_bind_touch. unfold Registry.get_registry.
    rewrite io_bind_unfold. cbn [Registry.registry].
    rewrite lstat_snoc, Hdir. cbn [mbind option_bind]. by rewrite Hleaf.
  - destruct (mkdir_new_run dir leaf w entries Hdir Hleaf) as (w1 & Hrun1 & H).
    rewrite Hrun in Hrun1. by injection Hrun1 as <-.
Qed.

Lemma os_replace_inv dir source destination w w' entries :
  dir_at dir (Registry.registry w) = Some entries →
  Registry.os_replace dir source destination w = (Return tt, w') →
  ∃ moved,
    Registry.dir_lookup source entries = Some moved
    ∧ dir_at dir (Registry.registry w')
      = Some (Registry.dir_put destination moved
                (Registry.dir_remove source entries)).
Proof.
  intros Hdir. unfold Registry.os_replace.
  rewrite io_bind_touch. unfold Registry.get_registry.
  rewrite io_bind_unfold. cbn [Registry.registry].
  rewrite !lstat_snoc, Hdir. cbn [mbind option_bind].
  destruct (Registry.dir_lookup source entries) as [moved|]; [|done].
  destruct (registry_dir_at _ _ _ Hdir) as [n Hn]. rewrite Hn in *.
  assert (Hset :
    Registry.set_registry
      (Registry.alter_at dir
         (λ es, Registry.dir_put destination moved
                  (Registry.dir_remove source es)) <$> Some n)
      {| Registry.registry := Some n;
         Registry.accesses :=
           Registry.accesses w ++ [Registry.InRegistry (dir ++ [destination])] |}
    = (Return tt, w') →
    dir_at dir (Registry.registry w')
    = Some (Registry.dir_put destination moved
              (Registry.dir_remove source entries))).
  { intros [= <-]. cbn [Registry.registry fmap option_fmap option_map].
    exact (alter_at_dir dir _ n entries Hdir). }
  destruct (Registry.dir_lookup destination entries) as [[| |[|]|]|];
    try done; intros H; exists moved; (split; [done|]); by apply Hset.
Qed.
Section InstallReturns.
Variable sha256_hex : string → string.
Variable json_dumps_canonical : pyval → string.
Variable yaml_safe_load : string → outcome pyval.
Variable toml_load : string → outcome pyval.
Variable root_path : string.
Variable abspath : string → string.

Local Abbreviation install :=
  (Registry.install sha256_hex json_dumps_canonical yaml_safe_load toml_load
     root_path abspath).

Lemma copy_tree_inv source_dir src dir leaf w w' entries :
  dir_at dir (Registry.registry w) = Some entries →
  Registry._copy_tree_deterministic source_dir src dir leaf w
  = (Return tt, w') →
  ∃ files copied,
    Registry._iter_files_sorted source_dir (default (Registry.Symlink None) src)
    = Return files
    ∧ Registry.copy_files files [] = Return copied
    ∧ Registry.dir_lookup leaf entries = None
    ∧ dir_at dir (Registry.registry w')
      = Some (Registry.dir_put leaf (Registry.Dir copied)
                (Registry.dir_put leaf (Registry.Dir []) entries)).
Proof.
  intros Hdir. unfold Registry._copy_tree_deterministic.
  intros (u & w1 & Hmk & Hrun)%io_bind_inv. destruct u.
  apply (mkdir_new_inv _ _ _ _ _ Hdir) in Hmk as [Hleaf Hdir1].
  rewrite io_bind_touch, io_bind_lift in Hrun.
  destruct (Registry._iter_files_sorted _ _) as [files|] eqn:Hwalk; [|done].
  rewrite io_bind_lift in Hrun.
  destruct (Registry.copy_files files []) as [copied|] eqn:Hcopy; [|done].
  rewrite io_bind_touch in Hrun. unfold Registry.get_registry in Hrun.
  rewrite io_bind_unfold in Hrun. cbn [Registry.registry] in Hrun.
  injection Hrun as <-. cbn [Registry.registry].
  exists files, copied. do 3 (split; [done|]).
  destruct (registry_dir_at _ _ _ Hdir1) as [n Hn]. rewrite Hn in *.
  exact (alter_at_dir dir _ n _ Hdir1).
Qed.

Lemma manifest_inv dir leaf name version w w' entries copied :
  dir_at dir (Registry.registry w) = Some entries →
  Registry.dir_lookup leaf entries = Some (Registry.Dir copied) →
  Registry._write_immutability_manifest sha256_hex json_dumps_canonical
    root_path dir leaf name version w = (Return tt, w') →
  ∃ files,
    Registry._iter_files_sorted (Registry.path_str root_path (dir ++ [leaf]))
      (Registry.Dir copied) = Return files
    ∧ (∀ sub, Registry.dir_lookup Registry.IMMUTABILITY_MANIFEST_FILENAME
                copied ≠ Some (Registry.Dir sub))
    ∧ dir_at dir (Registry.registry w')
      = Some (Registry.dir_put leaf
                (Registry.Dir
                   (Registry.dir_put Registry.IMMUTABILITY_MANIFEST_FILENAME
                      (Registry.File
                         (json_dumps_canonical
                            (Registry.manifest_payload name version
                               (Registry.manifest_files sha256_hex files))
                          +:+ String Registry.LF ""))
                      copied))
                entries).
Proof.
  intros Hdir Hleaf. unfold Registry._write_immutability_manifest.
  rewrite io_bind_touch. unfold Registry.get_registry.
  rewrite io_bind_unfold. cbn [Registry.registry].
  rewrite lstat_snoc, Hdir. cbn [mbind option_bind]. rewrite Hleaf.
  cbn [default from_option id]. unfold Registry.manifest_text.
  destruct (Registry._iter_files_sorted _ _) as [files|] eqn:Hwalk; [|done].
  cbn [mbind outcome_bind]. rewrite io_bind_lift.
  cbn [Registry.entries_of Registry.resolve].
  intros Hrun. exists files. split; [done|].
  destruct (registry_dir_at _ _ _ Hdir) as [n Hn]. rewrite Hn in *.
  destruct (Registry.dir_lookup _ copied) as [child|] eqn:Hchild.
  - cbn [mbind option_bind] in Hrun.
    destruct (Registry.resolve child) as [[| |sub|]|] eqn:Hres; try done;
      (split; [intros sub' [= ->]; by cbn in Hres|]);
      injection Hrun as <-;
      cbn [Registry.registry fmap option_fmap option_map];
      exact (alter_at_snoc_dir dir leaf _ n _ _ Hdir Hleaf).
  - split; [done|]. cbn [mbind option_bind] in Hrun. injection Hrun as <-.
    cbn [Registry.registry fmap option_fmap option_map].
    exact (alter_at_snoc_dir dir leaf _ n _ _ Hdir Hleaf).
Qed.

(** A call of [install] that returns has read a module whose name and
    version are segments, has walked the module directory, copied its
    files, written the manifest for the copy, and moved the whole to
    [modules/N/V]. *)
Lemma install_returns module_path src w m w' :
  install module_path src w = (Return m, w') →
  ∃ source files copied walked,
    Registry.source_stat src [] = Some (Registry.Dir source)
    ∧ Registry._iter_files_sorted (abspath module_path)
        (default (Registry.Symlink None) src) = Return files
    ∧ Registry.copy_files files [] = Return copied
    ∧ Registry._iter_files_sorted
        (Registry.path_str root_path
           [Registry.MODULES_DIRNAME; im_name m; im_version m +:+ ".tmp"])
        (Registry.Dir copied) = Return walked
    ∧ (∀ sub, Registry.dir_lookup Registry.IMMUTABILITY_MANIFEST_FILENAME
                copied ≠ Some (Registry.Dir sub))
    ∧ (∀ field, Registry._validate_segment (PStr (im_name m)) field
                = Return (im_name m))
    ∧ (∀ field, Registry._validate_segment (PStr (im_version m)) field
                = Return (im_version m))
    ∧ im_path m
      = Registry.path_str root_path
          [Registry.MODULES_DIRNAME; im_name m; im_version m]
    ∧ Registry.lstat [Registry.MODULES_DIRNAME; im_name m; im_version m]
        (Registry.registry w')
      = Some (Registry.Dir
                (Registry.dir_put Registry.IMMUTABILITY_MANIFEST_FILENAME
                   (Registry.File
                      (json_dumps_canonical
                         (Registry.manifest_payload (im_name m) (im_version m)
                            (Registry.manifest_files sha256_hex walked))
                       +:+ String Registry.LF ""))
                   copied)).
Proof.
  unfold Registry.install.
  intros (module & w1 & _ & Hrun)%io_bind_inv.
  rewrite io_bind_lift in Hrun.
  destruct (Schema.validate_prompt_module module); [|done].
  rewrite io_bind_lift in Hrun.
  destruct (Registry.subscript _ "name") as [raw_name|]; [|done].
  rewrite io_bind_lift in Hrun.
  destruct (validate_segment_outcome raw_name "module.name")
    as [(name & -> & Hname)|[msg Hname]]; rewrite Hname in Hrun; [|done].
  rewrite io_bind_lift in Hrun.
  destruct (Registry.subscript _ "version") as [raw_version|]; [|done].
  rewrite io_bind_lift in Hrun.
  destruct (validate_segment_outcome raw_version "module.version")
    as [(version & -> & Hversion)|[msg Hversion]]; rewrite Hversion in Hrun;
    [|done].
  set (parent := [Registry.MODULES_DIRNAME; name]) in *.
  set (temp := version +:+ ".tmp") in *.
  unfold Registry._module_directory in Hrun.
  change [Registry.MODULES_DIRNAME; name; version] with (parent ++ [version])
    in Hrun.
  apply io_bind_inv in Hrun as (taken & w2 & _ & Hrun).
  destruct taken; [done|].
  rewrite io_bind_touch in Hrun.
  destruct (Registry.source_stat src []) as [[| |source|]|] eqn:Hsrc;
    try done.
  cbn [negb] in Hrun.
  apply io_bind_inv in Hrun as ([] & w4 & Hdir4%os_makedirs_inv & Hrun).
  apply io_bind_inv in Hrun as (stale & w5 & Hex & Hrun).
  destruct (os_path_exists_run (parent ++ [temp]) w4) as (w5' & Hex' & Hreg5).
  rewrite Hex in Hex'. injection Hex' as _ <-. rewrite <- Hreg5 in Hdir4.
  clear Hex.
  apply io_bind_inv in Hrun as ([] & w6 & Hclean & Hrun).
  assert (∃ entries6, dir_at parent (Registry.registry w6) = Some entries6)
    as [entries6 Hdir6].
  { destruct stale.
    - eexists. by apply (shutil_rmtree_inv _ _ _ _ _ Hdir4) in Hclean.
    - injection Hclean as <-. by eexists. }
  apply io_bind_inv in Hrun as ([] & w9 & Hbody & Hrun).
  injection Hrun as <- <-. cbn [im_name im_version im_path].
  apply try_except_inv in Hbody.
  2:{ intros e wa. rewrite io_bind_unfold.
      destruct (Registry.os_path_isdir _ wa) as [[[|]|] wb]; [| |by eauto].
      - rewrite io_bind_unfold.
        destruct (Registry.shutil_rmtree _ _ wb) as [[|] wc]; by eauto.
      - rewrite io_bind_unfold. by eauto. }
  apply io_bind_inv in Hbody as ([] & w7 & Hcopy & Hbody).
  apply io_bind_inv in Hbody as ([] & w8 & Hmanifest & Hreplace).
  apply (copy_tree_inv _ _ _ _ _ _ _ Hdir6) in Hcopy
    as (files & copied & Hwalk & Hcopy & Htemp6 & Hdir7).
  destruct (manifest_inv _ _ _ _ _ _ _ _ Hdir7 (dir_lookup_put_eq _ _ _)
              Hmanifest) as (walked & Hwalked & Hnodir & Hdir8).
  destruct (os_replace_inv _ _ _ _ _ _ Hdir8 Hreplace)
    as (moved & Hmoved & Hdir9).
  rewrite dir_lookup_put_eq in Hmoved. injection Hmoved as <-.
  exists source, files, copied, walked.
  do 5 (split; [done|]).
  split.
  { intros field. apply validate_segment_accepts.
    by apply validate_segment_accepts in Hname. }
  split.
  { intros field. apply validate_segment_accepts.
    by apply validate_segment_accepts in Hversion. }
  split; [done|].
  change [Registry.MODULES_DIRNAME; name; version] with (parent ++ [version]).
  rewrite lstat_snoc, Hdir9. cbn [mbind option_bind].
  apply dir_lookup_put_eq.
Qed.

End InstallReturns.

(** * Further properties: the tree that [install] leaves *)

Lemma dir_put_names name child entries x :
  x ∈ (Registry.dir_put name child entries).*1 → x = name ∨ x ∈ entries.*1.
Proof.
  induction entries as [|[n c] rest IH]; cbn.
  - intros ->%list_elem_of_singleton. by left.
  - destruct (String.eqb_spec n name) as [->|_]; cbn.
    + by right.
    + intros [->|Hin]%elem_of_cons; [right; by left|].
      destruct (IH Hin) as [?|?]; [by left|right; by right].
Qed.

Lemma NoDup_dir_put name child entries :
  NoDup entries.*1 → NoDup (Registry.dir_put name child entries).*1.
Proof.
  induction entries as [|[n c] rest IH]; cbn.
  - intros _. apply NoDup_singleton.
  - intros [Hnot Hnd]%NoDup_cons.
    destruct (String.eqb_spec n name) as [->|Hne]; cbn.
    + by apply NoDup_cons.
    + apply NoDup_cons. split; [|by apply IH].
      intros [->|Hin]%dir_put_names; done.
Qed.

Lemma well_formed_dir_put name child entries :
  good_name name = true → well_formed child = true →
  well_formed (Registry.Dir entries) = true →
  well_formed (Registry.Dir (Registry.dir_put name child entries)) = true.
Proof.
  intros Hname Hchild [Hnd Hall]%well_formed_dir. apply well_formed_dir.
  split; [by apply NoDup_dir_put|by apply Forall_dir_put].
Qed.

Lemma well_formed_lookup name entries child :
  well_formed (Registry.Dir entries) = true →
  Registry.dir_lookup name entries = Some child → well_formed child = true.
Proof.
  intros [_ Hall]%well_formed_dir Hin%dir_lookup_Some.
  by destruct (proj1 (Forall_forall _ _) Hall _ Hin).
Qed.

Lemma put_file_well_formed path contents t t' :
  Forall (λ name, good_name name = true) path →
  well_formed (Registry.Dir t) = true →
  Registry.put_file path contents t = Return t' →
  well_formed (Registry.Dir t') = true.
Proof.
  revert t t'. induction path as [|name rest IH]; intros t t'; [done|].
  intros [Hname Hrest]%Forall_cons Hwf. cbn [Registry.put_file].
  destruct rest as [|next rest].
  - destruct (Registry.dir_lookup name t) as [[| |inside|]|] eqn:Hlook;
      try (intros [= <-]; by apply well_formed_dir_put).
    pose proof (well_formed_lookup _ _ _ Hwf Hlook) as Hinside.
    destruct (Registry.dir_lookup name inside) as [[| | |]|];
      try done; intros [= <-];
      apply well_formed_dir_put; try done; by apply well_formed_dir_put.
  - destruct (Registry.dir_lookup name t) as [[| |sub|]|] eqn:Hlook;
      try done.
    + destruct (Registry.put_file (next :: rest) contents sub) as [sub'|]
        eqn:Hsub; [|done].
      intros [= <-]. apply well_formed_dir_put; [done| |done].
      apply (IH sub sub'); [done| |done].
      by apply (well_formed_lookup _ _ _ Hwf Hlook).
    + destruct (Registry.put_file (next :: rest) contents []) as [sub'|]
        eqn:Hsub; [|done].
      intros [= <-]. apply well_formed_dir_put; [done| |done].
      by apply (IH [] sub').
Qed.

Lemma copy_files_well_formed files t t' :
  Forall (λ f, Forall (λ name, good_name name = true) f.1) files →
  well_formed (Registry.Dir t) = true →
  Registry.copy_files files t = Return t' →
  well_formed (Registry.Dir t') = true.
Proof.
  revert t. induction files as [|[path contents] rest IH]; intros t.
  - by intros _ ? [= <-].
  - intros [Hpath Hrest]%Forall_cons Hwf. cbn [Registry.copy_files].
    destruct (Registry.put_file path contents t) as [t1|] eqn:Hput; [|done].
    cbn [mbind outcome_bind]. apply IH; [done|].
    by apply (put_file_well_formed _ _ _ _ Hpath Hwf Hput).
Qed.

(** The files a walk of a well-formed directory returns. *)
Lemma walked_files root source files :
  well_formed (Registry.Dir source) = true →
  Registry.walk root [] (Registry.Dir source) = Return files →
  link_free (Registry.Dir source) = true
  ∧ files ≡ₚ tree_files [] (Registry.Dir source)
  ∧ ∀ q c, (q, c) ∈ files
           ↔ q ≠ [] ∧ file_at q (Registry.Dir source) = Some c.
Proof.
  intros Hwf Hwalk.
  assert (Hfree : link_free (Registry.Dir source) = true)
    by by apply (walk_return_link_free root _ _ _ Hwalk).
  pose proof (walk_tree_files root _ _ _ Hwalk) as Hperm.
  split; [done|]. split; [done|]. intros q c. rewrite Hperm.
  rewrite (tree_files_spec _ [] q c Hwf Hfree). split.
  - by intros (comps & Hne & -> & Hat).
  - intros [Hne Hat]. by exists q.
Qed.

(** What [install] copies is a well-formed tree of directories and
    regular files taken from the module directory. *)
Lemma copied_tree root source files copied :
  well_formed (Registry.Dir source) = true →
  Registry.walk root [] (Registry.Dir source) = Return files →
  Registry.copy_files files [] = Return copied →
  well_formed (Registry.Dir copied) = true
  ∧ embeds (Registry.Dir copied) (Registry.Dir source).
Proof.
  intros Hwf Hwalk Hcopy.
  destruct (walked_files _ _ _ Hwf Hwalk) as (Hfree & _ & Hfiles).
  split.
  - apply (copy_files_well_formed files [] copied); [|done..].
    apply Forall_forall. intros [q c] [_ Hat]%Hfiles.
    by apply (file_at_good _ _ _ Hwf Hat).
  - destruct (copy_files_embeds files [] source Hfree) as (t' & Hcopy' & He).
    + apply embeds_dir. exists source. by split; [|constructor].
    + apply Forall_forall. by intros [q c] ?%Hfiles.
    + congruence.
Qed.

(** * Further properties: the sample serialiser of manifests *)

Lemma take_string_app s rest :
  take_string (String.length s) (s +:+ rest) = Some (s, rest).
Proof.
  induction s as [|c s IH]; [done|]. cbn. by rewrite IH.
Qed.

Lemma read_string_from_strokes n count text :
  read_string_from count (strokes n +:+ String "0" text)
  = take_string (count + n) text.
Proof.
  revert count. induction n as [|n IH]; intros count; cbn.
  - by rewrite Nat.add_0_r.
  - rewrite IH. f_equal. lia.
Qed.

Lemma read_write_string s rest :
  read_string (write_string s +:+ rest) = Some (s, rest).
Proof.
  unfold read_string, write_string. rewrite str_app_assoc.
  cbn [String.append]. rewrite read_string_from_strokes.
  apply take_string_app.
Qed.

Lemma write_string_not_line_feed s rest :
  String.eqb (write_string s +:+ rest) (String Registry.LF "") = false.
Proof. unfold write_string. by destruct s. Qed.

Lemma read_files_written (files : list (string * string)) : ∀ fuel,
  (length files < fuel)%nat →
  read_files fuel
    (foldr (λ entry text, write_entry entry +:+ text) ""
       ((λ f, Registry.manifest_entry f.1 f.2) <$> files)
     +:+ String Registry.LF "")
  = Some files.
Proof.
  induction files as [|[path sha256] files IH]; intros [|fuel] Hfuel;
    try (cbn in Hfuel; lia); [done|].
  cbn [fmap list_fmap foldr fst snd Registry.manifest_entry write_entry].
  cbn [read_files]. rewrite !str_app_assoc.
  rewrite write_string_not_line_feed, read_write_string.
  cbn [mbind option_bind]. rewrite read_write_string.
  cbn [mbind option_bind]. rewrite IH by (cbn in Hfuel; lia). done.
Qed.

Lemma written_files_length (files : list pyval) :
  (∀ entry, entry ∈ files → write_entry entry ≠ "") →
  (length files
   ≤ String.length (foldr (λ entry text, write_entry entry +:+ text) ""
                      files))%nat.
Proof.
  induction files as [|entry files IH]; intros Hall; [done|].
  cbn [foldr length]. rewrite str_length_app.
  assert (write_entry entry ≠ "") by (apply Hall; by left).
  assert (0 < String.length (write_entry entry))%nat
    by (destruct (write_entry entry); [done|cbn; lia]).
  assert (length files
          ≤ String.length (foldr (λ e text, write_entry e +:+ text) ""
                             files))%nat
    by (apply IH; intros e He; apply Hall; by right).
  lia.
Qed.

Lemma manifest_load_dumps name version files :
  manifest_load
    (manifest_dumps (Registry.manifest_payload name version files)
     +:+ String Registry.LF "")
  = Some (Registry.manifest_payload name version files).
Proof.
  unfold manifest_load, manifest_dumps, Registry.manifest_payload.
  rewrite !str_app_assoc, read_write_string. cbn [mbind option_bind].
  rewrite read_write_string. cbn [mbind option_bind].
  rewrite read_files_written; [done|].
  rewrite str_length_app. cbn [String.length].
  pose proof (written_files_length
                ((λ f, Registry.manifest_entry f.1 f.2) <$> files)) as Hlen.
  rewrite length_fmap in Hlen.
  assert (length files
          ≤ String.length
              (foldr (λ entry text, write_entry entry +:+ text) ""
                 ((λ f, Registry.manifest_entry f.1 f.2) <$> files)))%nat;
    [|lia].
  apply Hlen. intros entry ([p h] & -> & _)%list_elem_of_fmap.
  cbn. unfold write_string. by destruct p.
Qed.

(** * Further properties: install, then lookup *)

Lemma file_at_nil_dir entries : file_at [] (Registry.Dir entries) = None.
Proof. done. Qed.

Lemma file_at_below_file rest contents :
  rest ≠ [] → file_at rest (Registry.File contents) = None.
Proof. by destruct rest. Qed.

Lemma link_free_lookup name entries child :
  link_free (Registry.Dir entries) = true →
  Registry.dir_lookup name entries = Some child → link_free child = true.
Proof.
  intros Hall%link_free_dir Hin%dir_lookup_Some.
  by apply (proj1 (Forall_forall _ _) Hall _ Hin).
Qed.

(** Writing the manifest into a directory changes no other regular
    file of it. *)
Lemma file_at_put_manifest copied text comps :
  link_free (Registry.Dir copied) = true →
  (∀ sub, Registry.dir_lookup Registry.IMMUTABILITY_MANIFEST_FILENAME copied
          ≠ Some (Registry.Dir sub)) →
  comps ≠ [Registry.IMMUTABILITY_MANIFEST_FILENAME] →
  file_at comps
    (Registry.Dir
       (Registry.dir_put Registry.IMMUTABILITY_MANIFEST_FILENAME
          (Registry.File text) copied))
  = file_at comps (Registry.Dir copied).
Proof.
  intros Hfree Hnodir Hne. destruct comps as [|name rest]; [done|].
  rewrite !file_at_cons.
  destruct (decide (Registry.IMMUTABILITY_MANIFEST_FILENAME = name))
    as [<-|Hname].
  - rewrite dir_lookup_put_eq.
    assert (rest ≠ []) as Hrest by (by intros ->).
    rewrite (file_at_below_file rest) by done.
    destruct (Registry.dir_lookup _ copied) as [child|] eqn:Hchild; [|done].
    pose proof (link_free_lookup _ _ _ Hfree Hchild) as Hlink.
    destruct child as [c| |sub|]; try done.
    + by rewrite (file_at_below_file rest).
    + by destruct rest.
    + by destruct (Hnodir sub).
  - by rewrite dir_lookup_put_ne.
Qed.

Lemma on_disk_put_manifest sha256_hex copied text p h :
  link_free (Registry.Dir copied) = true →
  (∀ sub, Registry.dir_lookup Registry.IMMUTABILITY_MANIFEST_FILENAME copied
          ≠ Some (Registry.Dir sub)) →
  on_disk sha256_hex
    (Registry.Dir
       (Registry.dir_put Registry.IMMUTABILITY_MANIFEST_FILENAME
          (Registry.File text) copied)) p h
  ↔ on_disk sha256_hex (Registry.Dir copied) p h.
Proof.
  intros Hfree Hnodir. unfold on_disk.
  split; intros (Hp & comps & contents & Hne & Hposix & Hat & Hsha);
    (split; [done|]); exists comps, contents;
    (split; [done|]); (split; [done|]); (split; [|done]).
  - rewrite file_at_put_manifest in Hat; [done..|].
    intros ->. by rewrite as_posix_single in Hposix.
  - rewrite file_at_put_manifest; [done..|].
    intros ->. by rewrite as_posix_single in Hposix.
Qed.

Lemma os_path_isdir_run path w :
  Registry.os_path_isdir path w
  = (Return (match Registry.stat path (Registry.registry w) with
             | Some (Registry.Dir _) => true
             | _ => false
             end),
     {| Registry.registry := Registry.registry w;
        Registry.accesses :=
          Registry.accesses w ++ [Registry.InRegistry path] |}).
Proof. done. Qed.

Lemma verify_at_run sha256_hex json_load root_path path name version w
    verdict :
  Registry._verify_immutability sha256_hex json_load
    (Registry.path_str root_path path)
    (default (Registry.Symlink None)
       (Registry.lstat path (Registry.registry w))) name version
  = verdict →
  Registry.verify_at sha256_hex json_load root_path path name version w
  = (verdict,
     {| Registry.registry := Registry.registry w;
        Registry.accesses :=
          Registry.accesses w ++ [Registry.InRegistry path] |}).
Proof. by intros <-. Qed.

Section LookupAfterInstall.
Variable sha256_hex : string → string.
Variable json_load : string → option pyval.
Variable json_dumps_canonical : pyval → string.
Variable yaml_safe_load : string → outcome pyval.
Variable toml_load : string → outcome pyval.
Variable root_path : string.
Variable abspath : string → string.

(** A digest has 64 characters, and reading a manifest that was written
    gives the document back. *)
Hypothesis digest_length :
  ∀ contents, String.length (sha256_hex contents) = 64%nat.
Hypothesis manifest_read_back : ∀ name version files,
  json_load
    (json_dumps_canonical (Registry.manifest_payload name version files)
     +:+ String Registry.LF "")
  = Some (Registry.manifest_payload name version files).

Local Abbreviation install :=
  (Registry.install sha256_hex json_dumps_canonical yaml_safe_load toml_load
     root_path abspath).
Local Abbreviation lookup := (Registry.lookup sha256_hex json_load root_path).

(** The check passes on a directory that holds the files walked when the
    manifest was written, and that manifest. *)
Lemma verify_fresh root0 root copied walked name version :
  well_formed (Registry.Dir copied) = true →
  link_free (Registry.Dir copied) = true →
  (∀ sub, Registry.dir_lookup Registry.IMMUTABILITY_MANIFEST_FILENAME copied
          ≠ Some (Registry.Dir sub)) →
  Registry._iter_files_sorted root0 (Registry.Dir copied) = Return walked →
  Registry._verify_immutability sha256_hex json_load root
    (Registry.Dir
       (Registry.dir_put Registry.IMMUTABILITY_MANIFEST_FILENAME
          (Registry.File
             (json_dumps_canonical
                (Registry.manifest_payload name version
                   (Registry.manifest_files sha256_hex walked))
              +:+ String Registry.LF ""))
          copied))
    name version
  = Return tt.
Proof.
  intros Hwf Hfree Hnodir Hwalked.
  set (text := json_dumps_canonical _ +:+ _).
  set (n := Registry.Dir (Registry.dir_put _ (Registry.File text) copied)).
  pose proof (walk_tree_files root0 _ _ _ Hwalked) as Hperm0.
  destruct (manifest_files_spec sha256_hex _ walked Hwf Hfree Hperm0)
    as (Hnd & Hrecorded & Hpaths).
  assert (Hwf' : well_formed n = true).
  { by apply well_formed_dir_put. }
  assert (Hfree' : link_free n = true).
  { apply link_free_dir, Forall_dir_put; [done|by apply link_free_dir]. }
  rewrite (verify_immutability_compares sha256_hex json_load root n name
             version text (Registry.manifest_files sha256_hex walked)).
  2:{ unfold n. rewrite file_at_cons, dir_lookup_put_eq. done. }
  2:{ apply manifest_read_back. }
  2:{ done. }
  2:{ apply Forall_forall. intros [p h] Hin. split.
      - by apply (proj1 (Forall_forall _ _) Hpaths _ Hin).
      - apply Hrecorded in Hin as (_ & q & c & _ & _ & _ & <-).
        apply digest_length. }
  destruct (iter_files_sorted_link_free root n Hfree')
    as (walked' & -> & Hperm).
  cbn [mbind outcome_bind].
  set (E := foldl _ ∅ (Registry.manifest_files sha256_hex walked)).
  set (A := foldl _ ∅ (Registry.manifest_files sha256_hex walked')).
  assert (E = A) as Hsame.
  { apply map_eq. intros p. apply option_eq. intros h. unfold E, A.
    rewrite (hashes_of_lookup sha256_hex (Registry.Dir copied)) by done.
    rewrite (hashes_of_lookup sha256_hex n) by done.
    symmetry. by apply on_disk_put_manifest. }
  apply hashes_verdict in Hsame as (-> & -> & ->). done.
Qed.

(** X3.  What [install] has installed can be looked up.  After a call of
    [install] that returned a record, on a module directory of a real
    file system, [lookup] of the name and the version of the record
    returns the same record, its immutability check included, and
    [has_version] answers [True]; neither changes the registry. *)
Theorem install_then_lookup module_path src w m w'
    (Hreal : ∀ n, src = Some n → well_formed n = true)
    (Hinstall : install module_path src w = (Return m, w')) :
  ∃ w1 w2,
    lookup (PStr (im_name m)) (PStr (im_version m)) w' = (Return m, w1)
    ∧ Registry.registry w1 = Registry.registry w'
    ∧ Registry.has_version (PStr (im_name m)) (PStr (im_version m)) w'
      = (Return true, w2)
    ∧ Registry.registry w2 = Registry.registry w'.
Proof.
  destruct (install_returns _ _ _ _ _ _ _ _ _ _ _ Hinstall)
    as (source & files & copied & walked & Hsrc & Hwalk & Hcopy & Hwalked
        & Hnodir & Hname & Hversion & Hpath & Hdest).
  destruct src as [n|]; [|done].
  cbn [Registry.source_stat mbind option_bind Registry.node_at] in Hsrc.
  cbn [default from_option id] in Hwalk.
  unfold Registry._iter_files_sorted in Hwalk. rewrite Hsrc in Hwalk.
  assert (Hwf : well_formed (Registry.Dir source) = true).
  { apply (well_formed_resolve n); [by apply Hreal|done]. }
  destruct (copied_tree _ _ _ _ Hwf Hwalk Hcopy) as [Hwf_copied Hembeds].
  pose proof (embeds_link_free _ _ Hembeds) as Hfree.
  pose proof (verify_fresh _
                (Registry.path_str root_path
                   [Registry.MODULES_DIRNAME; im_name m; im_version m])
                _ _ (im_name m) (im_version m) Hwf_copied Hfree Hnodir
                Hwalked) as Hverify.
  assert (Hstat :
    Registry.stat [Registry.MODULES_DIRNAME; im_name m; im_version m]
      (Registry.registry w')
    = Some (Registry.Dir
              (Registry.dir_put Registry.IMMUTABILITY_MANIFEST_FILENAME
                 (Registry.File
                    (json_dumps_canonical
                       (Registry.manifest_payload (im_name m) (im_version m)
                          (Registry.manifest_files sha256_hex walked))
                     +:+ String Registry.LF ""))
                 copied))).
  { unfold Registry.stat. by rewrite Hdest. }
  assert (Hchecked : ∀ touched,
    Registry.verify_at sha256_hex json_load root_path
      [Registry.MODULES_DIRNAME; im_name m; im_version m]
      (im_name m) (im_version m)
      {| Registry.registry := Registry.registry w';
         Registry.accesses := touched |}
    = (Return tt,
       {| Registry.registry := Registry.registry w';
          Registry.accesses :=
            touched
            ++ [Registry.InRegistry
                  [Registry.MODULES_DIRNAME; im_name m; im_version m]] |})).
  { intros touched. apply verify_at_run. cbn [Registry.registry].
    rewrite Hdest. exact Hverify. }
  eexists _, _. split; [|split; [|split]].
  - unfold Registry.lookup.
    rewrite io_bind_lift, Hname, io_bind_lift, Hversion.
    unfold Registry._module_directory.
    rewrite (io_bind_return _ _ _ _ _ (os_path_isdir_run _ _)), Hstat.
    cbn [negb].
    rewrite (io_bind_return _ _ _ _ _ (Hchecked _)).
    unfold mret, Registry.io_ret. rewrite <- Hpath.
    by assert ({| im_name := im_name m; im_version := im_version m;
                  im_path := im_path m |} = m) as -> by by destruct m.
  - done.
  - unfold Registry.has_version.
    rewrite io_bind_lift, Hname, io_bind_lift, Hversion.
    unfold Registry._module_directory.
    by rewrite os_path_isdir_run, Hstat.
  - done.
Qed.

End LookupAfterInstall.

Lemma install_then_lookup_witness :
  sample_published.1
  = Return {| im_name := "demo"; im_version := "1.0.0";
              im_path := "/registry/modules/demo/1.0.0" |}
  ∧ ∃ w1 w2,
      Registry.lookup sample_sha256 manifest_load "/registry"
        (PStr "demo") (PStr "1.0.0") sample_published.2
      = (Return {| im_name := "demo"; im_version := "1.0.0";
                   im_path := "/registry/modules/demo/1.0.0" |}, w1)
      ∧ Registry.registry w1 = Registry.registry sample_published.2
      ∧ Registry.has_version (PStr "demo") (PStr "1.0.0") sample_published.2
        = (Return true, w2)
      ∧ Registry.registry w2 = Registry.registry sample_published.2.
Proof.
  split; [vm_compute; reflexivity|].
  apply (install_then_lookup sample_sha256 manifest_load manifest_dumps
           (sample_yaml "demo" "1.0.0") no_toml "/registry" id
           (pad64_length 64) manifest_load_dumps
           "pkg" (Some sample_source) empty_world
           {| im_name := "demo"; im_version := "1.0.0";
              im_path := "/registry/modules/demo/1.0.0" |}
           sample_published.2).
  - intros n [= <-]. reflexivity.
  - vm_compute. reflexivity.
Defined.

(** * Further properties: install copies the regular files *)

Lemma embeds_file_at comps : ∀ t s c,
  embeds t s → file_at comps t = Some c → file_at comps s = Some c.
Proof.
  induction comps as [|name rest IH]; intros t s c Hembeds Hat.
  - destruct t as [c'| | |]; try done. cbn in Hembeds. by subst s.
  - destruct t as [c'| |entries|]; try done.
    apply embeds_dir in Hembeds as (source & -> & Hall).
    rewrite file_at_cons in *.
    destruct (Registry.dir_lookup name entries) as [child|] eqn:Hchild;
      [|done].
    apply dir_lookup_Some in Hchild.
    destruct (proj1 (Forall_forall _ _) Hall _ Hchild)
      as (original & Horiginal & Hembeds). cbn [fst snd] in *.
    rewrite Horiginal. by apply (IH child).
Qed.

Lemma embeds_lookup name entries source child :
  embeds (Registry.Dir entries) (Registry.Dir source) →
  Registry.dir_lookup name entries = Some child →
  ∃ original, Registry.dir_lookup name source = Some original
              ∧ embeds child original.
Proof.
  intros (source' & [= <-] & Hall)%embeds_dir Hchild%dir_lookup_Some.
  exact (proj1 (Forall_forall _ _) Hall _ Hchild).
Qed.

(** [put_file] puts the file in place and keeps the files that are
    there, in a tree that is filled from [source]. *)
Lemma put_file_file_at path : ∀ contents t t' source,
  link_free (Registry.Dir source) = true →
  embeds (Registry.Dir t) (Registry.Dir source) →
  path ≠ [] → file_at path (Registry.Dir source) = Some contents →
  Registry.put_file path contents t = Return t' →
  file_at path (Registry.Dir t') = Some contents
  ∧ ∀ p c, file_at p (Registry.Dir t) = Some c →
           file_at p (Registry.Dir t') = Some c.
Proof.
  induction path as [|name rest IH]; intros contents t t' source Hfree Ht Hne;
    [done|].
  rewrite file_at_cons.
  destruct (Registry.dir_lookup name source) as [original|] eqn:Horiginal;
    [|done].
  pose proof (link_free_lookup _ _ _ Hfree Horiginal) as Hfree_original.
  intros Hat. cbn [Registry.put_file].
  destruct rest as [|next rest].
  - destruct original as [c0| | |]; try done. injection Hat as ->.
    assert (Hthere : ∀ child, Registry.dir_lookup name t = Some child →
                              child = Registry.File contents).
    { intros child Hchild.
      destruct (embeds_lookup _ _ _ _ Ht Hchild) as (o & Ho & He).
      rewrite Horiginal in Ho. injection Ho as <-.
      destruct child as [c1| |sub|]; try done.
      by apply embeds_dir in He as (? & ? & _). }
    assert (t' = Registry.dir_put name (Registry.File contents) t
            → file_at [name] (Registry.Dir t') = Some contents
              ∧ ∀ p c, file_at p (Registry.Dir t) = Some c →
                       file_at p (Registry.Dir t') = Some c) as Hput.
    { intros ->. split; [by rewrite file_at_cons, dir_lookup_put_eq|].
      intros [|pn prest] c; [done|]. rewrite !file_at_cons.
      destruct (decide (name = pn)) as [<-|Hpn].
      - rewrite dir_lookup_put_eq.
        destruct (Registry.dir_lookup name t) as [child|] eqn:Hchild;
          [|done].
        by rewrite (Hthere child).
      - by rewrite dir_lookup_put_ne. }
    destruct (Registry.dir_lookup name t) as [child|] eqn:Hchild.
    + rewrite (Hthere child) by done. intros [= <-]. by apply Hput.
    + intros [= <-]. by apply Hput.
  - assert (∃ below, original = Registry.Dir below) as [below ->].
    { destruct original as [| |below|]; try done. by eexists. }
    rewrite file_at_cons.
    assert (Hinner : ∀ sub sub',
      embeds (Registry.Dir sub) (Registry.Dir below) →
      Registry.put_file (next :: rest) contents sub = Return sub' →
      t' = Registry.dir_put name (Registry.Dir sub') t →
      Registry.dir_lookup name t = Some (Registry.Dir sub)
      ∨ (Registry.dir_lookup name t = None ∧ sub = []) →
      file_at (next :: rest) (Registry.Dir sub') = Some contents
      ∧ ∀ p c, file_at p (Registry.Dir t) = Some c →
               file_at p (Registry.Dir t') = Some c).
    { intros sub sub' Hsub Hput -> Hlook.
      destruct (IH contents sub sub' below Hfree_original Hsub) as [Hin Hkeep];
        [done|done|done|].
      split; [done|].
      intros [|pn prest] c; [done|]. rewrite !file_at_cons.
      destruct (decide (name = pn)) as [<-|Hpn].
      - rewrite dir_lookup_put_eq.
        destruct Hlook as [->|[-> ->]]; [apply Hkeep|done].
      - by rewrite dir_lookup_put_ne. }
    destruct (Registry.dir_lookup name t) as [[| |sub|]|] eqn:Hchild;
      try done.
    + destruct (embeds_lookup _ _ _ _ Ht Hchild) as (o & Ho & He).
      rewrite Horiginal in Ho. injection Ho as <-.
      destruct (Registry.put_file (next :: rest) contents sub) as [sub'|]
        eqn:Hput; [|done].
      intros [= <-].
      destruct (Hinner sub sub' He Hput eq_refl) as [Hin Hkeep]; [by left|].
      split; [|done]. by rewrite dir_lookup_put_eq.
    + destruct (Registry.put_file (next :: rest) contents []) as [sub'|]
        eqn:Hput; [|done].
      intros [= <-].
      destruct (Hinner [] sub') as [Hin Hkeep]; try done.
      * apply embeds_dir. exists below. by split; [|constructor].
      * by right.
      * split; [|done]. by rewrite dir_lookup_put_eq.
Qed.

Lemma copy_files_file_at files : ∀ t t' source,
  link_free (Registry.Dir source) = true →
  embeds (Registry.Dir t) (Registry.Dir source) →
  Forall (λ f, f.1 ≠ [] ∧ file_at f.1 (Registry.Dir source) = Some f.2)
         files →
  Registry.copy_files files t = Return t' →
  (∀ p c, file_at p (Registry.Dir t) = Some c →
          file_at p (Registry.Dir t') = Some c)
  ∧ ∀ q c, (q, c) ∈ files → file_at q (Registry.Dir t') = Some c.
Proof.
  induction files as [|[path contents] rest IH]; intros t t' source Hfree Ht.
  - intros _ [= <-]. split; [done|]. by intros q c ?%elem_of_nil.
  - intros [[Hne Hat] Hrest]%Forall_cons. cbn [fst snd] in *.
    cbn [Registry.copy_files].
    destruct (put_file_embeds path contents t source Hfree Ht Hne Hat)
      as (t1 & Hput & Ht1).
    rewrite Hput. cbn [mbind outcome_bind]. intros Hcopy.
    destruct (put_file_file_at path contents t t1 source Hfree Ht Hne Hat Hput)
      as [Hin Hkeep].
    destruct (IH t1 t' source Hfree Ht1 Hrest Hcopy) as [Hkeep' Hin'].
    split; [by intros p c ?%Hkeep%Hkeep'|].
    intros q c [[= -> ->]|Hq]%elem_of_cons; [by apply Hkeep'|by apply Hin'].
Qed.

(** The copy holds the regular files of the module directory, each with
    its contents, and no other. *)
Lemma copied_files root source files copied comps :
  well_formed (Registry.Dir source) = true →
  Registry.walk root [] (Registry.Dir source) = Return files →
  Registry.copy_files files [] = Return copied →
  file_at comps (Registry.Dir copied) = file_at comps (Registry.Dir source).
Proof.
  intros Hwf Hwalk Hcopy.
  destruct (walked_files _ _ _ Hwf Hwalk) as (Hfree & _ & Hfiles).
  destruct (copied_tree _ _ _ _ Hwf Hwalk Hcopy) as [_ Hembeds].
  destruct (copy_files_file_at files [] copied source Hfree) as [_ Hin];
    [| |done|].
  { apply embeds_dir. exists source. by split; [|constructor]. }
  { apply Forall_forall. by intros [q c] ?%Hfiles. }
  destruct (file_at comps (Registry.Dir source)) as [c|] eqn:Hsource.
  - apply Hin, Hfiles. split; [|done]. by intros ->.
  - destruct (file_at comps (Registry.Dir copied)) as [c|] eqn:Hcopied;
      [|done].
    apply (embeds_file_at _ _ _ _ Hembeds) in Hcopied. congruence.
Qed.

Section InstallCopies.
Variable sha256_hex : string → string.
Variable json_dumps_canonical : pyval → string.
Variable yaml_safe_load : string → outcome pyval.
Variable toml_load : string → outcome pyval.
Variable root_path : string.
Variable abspath : string → string.

Local Abbreviation install :=
  (Registry.install sha256_hex json_dumps_canonical yaml_safe_load toml_load
     root_path abspath).


End InstallCopies.


(** * Further properties: an install that fails leaves nothing behind *)

Section InstallFails.
Variable sha256_hex : string → string.
Variable json_dumps_canonical : pyval → string.
Variable yaml_safe_load : string → outcome pyval.
Variable toml_load : string → outcome pyval.
Variable root_path : string.
Variable abspath : string → string.

Local Abbreviation load_prompt_module :=
  (Registry.load_prompt_module yaml_safe_load toml_load).
Local Abbreviation install :=
  (Registry.install sha256_hex json_dumps_canonical yaml_safe_load toml_load
     root_path abspath).

(** The way of [install] to its [try] block, for a valid module whose
    path is a directory and a registry in which the version is free:
    the directory [modules/N] is there, and neither [V] nor [V.tmp] is in
    it. *)
Lemma install_reaches_copy module_path src w module w1 name version source :
  load_prompt_module module_path src w = (Return module, w1) →
  Schema.validate_prompt_module module = Return tt →
  module_identity module (PStr name) (PStr version) →
  acceptable_segment name → acceptable_segment version →
  Registry.source_stat src [] = Some (Registry.Dir source) →
  vacant (Registry.registry w) name version →
  let parent := [Registry.MODULES_DIRNAME; name] in
  let temp := version +:+ ".tmp" in
  ∃ w6 entries6,
    dir_at parent (Registry.registry w6) = Some entries6
    ∧ Registry.dir_lookup temp entries6 = None
    ∧ Registry.dir_lookup version entries6 = None
    ∧ install module_path src w
      = (Registry.try_except
           (Registry._copy_tree_deterministic (abspath module_path) src
              parent temp;;
            Registry._write_immutability_manifest sha256_hex
              json_dumps_canonical root_path parent temp name version;;
            Registry.os_replace parent temp version)
           (λ err,
              left_over ← Registry.os_path_isdir (parent ++ [temp]);
              (if left_over : bool
               then Registry.shutil_rmtree parent temp
               else mret tt);;
              Registry.raise
                (DependencyError
                   (Lit ("Failed to install module " +:+ name +:+ "@"
                         +:+ version +:+ ": ")
                    :: Resolver.exn_message err)));;
         mret {| im_name := name; im_version := version;
                 im_path := Registry.path_str root_path
                              (Registry._module_directory name version) |})
          w6.
Proof.
  intros Hload Hvalid [Hname Hversion] Hsafe_name Hsafe_version Hsrc
    (Hchain & Hdest & Htemp) parent temp.
  pose proof (load_prompt_module_reads yaml_safe_load toml_load module_path
                src w) as [Hreg _].
  rewrite Hload in Hreg. cbn [snd] in Hreg. rewrite <- Hreg in *.
  change (Registry.lstat (parent ++ [version]) (Registry.registry w1) = None)
    in Hdest.
  change (Registry.lstat (parent ++ [temp]) (Registry.registry w1) = None
          ∨ ∃ entries, Registry.lstat (parent ++ [temp]) (Registry.registry w1)
                       = Some (Registry.Dir entries)) in Htemp.
  change (dirs_or_absent parent (Registry.registry w1) = true) in Hchain.
  unfold Registry.install.
  rewrite (io_bind_return _ _ _ _ _ Hload).
  rewrite io_bind_lift, Hvalid, io_bind_lift, Hname, io_bind_lift.
  rewrite (acceptable_segment_validates _ _ Hsafe_name).
  rewrite io_bind_lift, Hversion, io_bind_lift.
  rewrite (acceptable_segment_validates _ _ Hsafe_version).
  fold parent. fold temp.
  change (Registry._module_directory name version) with (parent ++ [version])
    at 1.
  destruct (os_path_exists_run (parent ++ [version]) w1) as (w2 & Hex & Hreg2).
  rewrite (io_bind_return _ _ _ _ _ Hex). clear Hex.
  unfold Registry.stat at 1. rewrite Hdest. cbn [mbind option_bind].
  rewrite io_bind_touch.
  set (w3 := {| Registry.registry := Registry.registry w2;
                Registry.accesses := _ |}).
  rewrite Hsrc. cbn [negb].
  assert (Hreg3 : Registry.registry w3 = Registry.registry w1) by done.
  destruct (os_makedirs_run parent w3) as (w4 & Hmk & Hdir4);
    [by rewrite Hreg3|].
  rewrite (io_bind_return _ _ _ _ _ Hmk).
  rewrite Hreg3 in Hdir4.
  set (entries := default [] (dir_at parent (Registry.registry w1))) in *.
  assert (Hfree_version : Registry.dir_lookup version entries = None).
  { rewrite lstat_snoc in Hdest. unfold entries.
    by destruct (dir_at parent (Registry.registry w1)). }
  assert (Hfree_temp :
    Registry.dir_lookup temp entries = None
    ∨ ∃ stale, Registry.dir_lookup temp entries = Some (Registry.Dir stale)).
  { rewrite !lstat_snoc in Htemp. unfold entries.
    destruct (dir_at parent (Registry.registry w1)); [done|by left]. }
  destruct (os_path_exists_run (parent ++ [temp]) w4) as (w5 & Hex & Hreg5).
  rewrite (io_bind_return _ _ _ _ _ Hex). clear Hex.
  unfold Registry.stat at 1. rewrite lstat_snoc, Hdir4.
  cbn [mbind option_bind].
  assert (∃ w6 entries6,
    (if match Registry.dir_lookup temp entries ≫= Registry.resolve with
        | Some _ => true
        | None => false
        end
     then Registry.shutil_rmtree parent temp
     else mret tt) w5 = (Return tt, w6)
    ∧ dir_at parent (Registry.registry w6) = Some entries6
    ∧ Registry.dir_lookup temp entries6 = None
    ∧ Registry.dir_lookup version entries6 = None)
    as (w6 & entries6 & Hclean & Hdir6 & Htemp6 & Hversion6).
  { rewrite <- Hreg5 in Hdir4. destruct Hfree_temp as [Hnone|[stale Hstale]].
    - rewrite Hnone. cbn [mbind option_bind].
      by exists w5, entries.
    - rewrite Hstale. cbn [mbind option_bind Registry.resolve].
      destruct (shutil_rmtree_run parent temp w5 entries stale Hdir4 Hstale)
        as (w6 & Hrm & Hdir6).
      exists w6, (Registry.dir_remove temp entries).
      split; [done|]. split; [done|].
      split; [apply dir_lookup_remove_eq|].
      rewrite dir_lookup_remove_ne; [done|apply temp_name_differs]. }
  rewrite (io_bind_return _ _ _ _ _ Hclean).
  by exists w6, entries6.
Qed.

(** X5.  A module directory with a symbolic link in it is not installed,
    and the attempt leaves no trace of the version: for a valid module and
    a registry in which the version is free, [install] raises the
    [DependencyError] that wraps the message of the walk about a link,
    and afterwards neither [modules/N/V] nor [modules/N/V.tmp] exists;
    only the directory [modules/N] has been made. *)
Theorem install_refuses_links module_path src w module name version source
    (Hload : (load_prompt_module module_path src w).1 = Return module)
    (Hvalid : Schema.validate_prompt_module module = Return tt)
    (Hidentity : module_identity module (PStr name) (PStr version))
    (Hname : acceptable_segment name) (Hversion : acceptable_segment version)
    (Hsource : Registry.source_stat src [] = Some (Registry.Dir source))
    (Hlink : link_free (Registry.Dir source) = false)
    (Hvacant : vacant (Registry.registry w) name version) :
  ∃ w' rel kept,
    install module_path src w
    = (Raise (DependencyError
                (Lit ("Failed to install module " +:+ name +:+ "@"
                      +:+ version +:+ ": ")
                 :: Registry.symlink_message (abspath module_path) rel)),
       w')
    ∧ dir_at [Registry.MODULES_DIRNAME; name] (Registry.registry w')
      = Some kept
    ∧ Registry.dir_lookup version kept = None
    ∧ Registry.dir_lookup (version +:+ ".tmp") kept = None.
Proof.
  destruct (load_prompt_module module_path src w) as [r w1] eqn:Hrun.
  cbn [fst] in Hload. subst r.
  destruct (install_reaches_copy module_path src w module w1 name version
              source Hrun Hvalid Hidentity Hname Hversion Hsource Hvacant)
    as (w6 & entries6 & Hdir6 & Htemp6 & Hversion6 & ->).
  set (parent := [Registry.MODULES_DIRNAME; name]) in *.
  set (temp := version +:+ ".tmp") in *.
  destruct (mkdir_new_run parent temp w6 entries6 Hdir6 Htemp6)
    as (w7 & Hmk & Hdir7).
  destruct (walk_link (abspath module_path) [] (Registry.Dir source) eq_refl
              Hlink) as [rel Hwalk].
  assert (Hiter :
    Registry._iter_files_sorted (abspath module_path)
      (default (Registry.Symlink None) src)
    = Raise (DependencyError
               (Registry.symlink_message (abspath module_path) rel))).
  { destruct src as [n|]; [|done].
    cbn [Registry.source_stat mbind option_bind Registry.node_at] in Hsource.
    cbn [default from_option id]. unfold Registry._iter_files_sorted.
    by rewrite Hsource. }
  set (w7' := {| Registry.registry := Registry.registry w7;
                 Registry.accesses :=
                   Registry.accesses w7 ++ [Registry.InSource []] |}).
  destruct (shutil_rmtree_run parent temp
              {| Registry.registry := Registry.registry w7';
                 Registry.accesses :=
                   Registry.accesses w7'
                   ++ [Registry.InRegistry (parent ++ [temp])] |}
              _ [] Hdir7 (dir_lookup_put_eq _ _ _))
    as (w8 & Hrm & Hdir8).
  exists w8, rel, (Registry.dir_remove temp
                     (Registry.dir_put temp (Registry.Dir []) entries6)).
  split; [|split; [done|split]].
  - assert (Hcopy :
      Registry._copy_tree_deterministic (abspath module_path) src parent temp
        w6
      = (Raise (DependencyError
                  (Registry.symlink_message (abspath module_path) rel)),
         w7')).
    { unfold Registry._copy_tree_deterministic.
      rewrite (io_bind_return _ _ _ _ _ Hmk), io_bind_touch.
      fold w7'. by rewrite io_bind_lift, Hiter. }
    rewrite io_bind_unfold. unfold Registry.try_except.
    rewrite io_bind_unfold, Hcopy. cbn [Resolver.exn_message].
    rewrite (io_bind_return _ _ _ _ _ (os_path_isdir_run _ _)).
    unfold Registry.stat. rewrite lstat_snoc.
    change (Registry.registry w7') with (Registry.registry w7).
    rewrite Hdir7.
    cbn [mbind option_bind]. rewrite dir_lookup_put_eq.
    cbn [Registry.resolve].
    rewrite (io_bind_return _ _ _ _ _ Hrm). done.
  - rewrite dir_lookup_remove_ne by apply temp_name_differs.
    rewrite dir_lookup_put_ne by apply temp_name_differs. done.
  - apply dir_lookup_remove_eq.
Qed.

End InstallFails.

Lemma install_refuses_links_witness :
  ∃ w' rel kept,
    Registry.install sample_sha256 plain_dumps (sample_yaml "demo" "1.0.0")
      no_toml "/registry" id "pkg" (Some linked_source) empty_world
    = (Raise (DependencyError
                (Lit "Failed to install module demo@1.0.0: "
                 :: Registry.symlink_message "pkg" rel)),
       w')
    ∧ dir_at ["modules"; "demo"] (Registry.registry w') = Some kept
    ∧ Registry.dir_lookup "1.0.0" kept = None
    ∧ Registry.dir_lookup "1.0.0.tmp" kept = None.
Proof.
  apply (install_refuses_links sample_sha256 plain_dumps
           (sample_yaml "demo" "1.0.0") no_toml "/registry" id "pkg"
           (Some linked_source) empty_world
           (Schema.mk_PromptModule
              (sample_document "demo" "1.0.0" (PStr "prompt.txt") [])
              "pkg/promptpm.yaml")
           "demo" "1.0.0"
           [("promptpm.yaml", Registry.File "module");
            ("prompt.txt", Registry.File "hello");
            ("latest", Registry.Symlink None)]).
  - vm_compute. reflexivity.
  - vm_compute. reflexivity.
  - split; reflexivity.
  - repeat split; try reflexivity; discriminate.
  - repeat split; try reflexivity; discriminate.
  - reflexivity.
  - reflexivity.
  - split; [reflexivity|]. split; [reflexivity|]. left. reflexivity.
Defined.

(** * Further properties: the listings of the registry *)

Lemma StronglySorted_filter {A} (R : relation A) (P : A → Prop)
    `{∀ x, Decision (P x)} (l : list A) :
  StronglySorted R l → StronglySorted R (filter P l).
Proof.
  induction 1 as [|x l Hl IH Hx]; [constructor|].
  rewrite filter_cons. destruct (decide (P x)); [|done].
  constructor; [done|].
  apply Forall_forall. intros y [_ Hy]%list_elem_of_filter.
  by apply (proj1 (Forall_forall _ _) Hx).
Qed.

Section Listings.
Variable sha256_hex : string → string.
Variable json_load : string → option pyval.
Variable root_path : string.

Local Abbreviation list_versions :=
  (Registry.list_versions sha256_hex json_load root_path).
Local Abbreviation list_by_name :=
  (Registry.list_by_name sha256_hex json_load root_path).
Local Abbreviation verified_at :=
  (verified_at sha256_hex json_load root_path).

Lemma list_versions_spec safe_name r versions : ∀ w modules w',
  Registry.registry w = r →
  list_versions safe_name versions w = (Return modules, w') →
  Registry.registry w' = r
  ∧ im_version <$> modules
    = filter (λ version,
                is_dir_at [Registry.MODULES_DIRNAME; safe_name; version] r)
             versions
  ∧ Forall (λ m, im_name m = safe_name
                 ∧ im_path m
                   = Registry.path_str root_path
                       [Registry.MODULES_DIRNAME; safe_name; im_version m]
                 ∧ verified_at r safe_name (im_version m)) modules.
Proof.
  induction versions as [|version rest IH]; intros w modules w' Hreg.
  - intros [= <- <-]. by repeat split.
  - cbn [Registry.list_versions]. unfold Registry._module_directory.
    rewrite (io_bind_return _ _ _ _ _ (os_path_isdir_run _ _)).
    rewrite filter_cons. rewrite Hreg.
    change (match Registry.stat ?p r with
            | Some (Registry.Dir _) => true
            | _ => false
            end) with (is_dir_at p r).
    destruct (is_dir_at [Registry.MODULES_DIRNAME; safe_name; version] r)
      eqn:Hdir; cbn [negb].
    2:{ rewrite decide_False by exact id. by apply IH. }
    rewrite io_bind_lift.
    destruct (validate_segment_outcome (PStr version) "version")
      as [(safe_version & [= <-] & ->)|[msg ->]]; [|done].
    destruct (Registry._verify_immutability sha256_hex json_load
                (Registry.path_str root_path
                   [Registry.MODULES_DIRNAME; safe_name; version])
                (default (Registry.Symlink None)
                   (Registry.lstat
                      [Registry.MODULES_DIRNAME; safe_name; version] r))
                safe_name version) as [[]|e] eqn:Hverify.
    + rewrite (io_bind_return _ _ _ _ _
                 (verify_at_run _ _ _ _ _ _
                    {| Registry.registry := r; Registry.accesses := _ |}
                    (Return tt) Hverify)).
      intros (more & w1 & Hmore & [= <- <-])%io_bind_inv.
      apply IH in Hmore as (Hreg1 & Hversions & Hall); [|done].
      split; [done|]. cbn [fmap list_fmap im_version].
      rewrite decide_True by exact I.
      split; [by f_equal|]. by constructor.
    + rewrite io_bind_unfold.
      by rewrite (verify_at_run _ _ _ _ _ _
                    {| Registry.registry := r; Registry.accesses := _ |}
                    (Raise e) Hverify).
Qed.

(** X6.  What [list_by_name] returns, when it returns: one record for
    every entry of [modules/N] that is a directory, in the ascending
    order of the version strings as strings (so that [1.10.0] comes
    before [1.9.0]), each with the name asked for, the path
    [modules/N/V] and a directory that passes the immutability check;
    nothing where [modules/N] is no directory.  The registry is left as
    it is. *)
Theorem list_by_name_returns name w modules w'
    (Hlist : list_by_name name w = (Return modules, w')) :
  let r := Registry.registry w in
  ∃ safe_name,
    name = PStr safe_name
    ∧ Registry.registry w' = r
    ∧ im_version <$> modules
      = filter (λ version,
                  is_dir_at [Registry.MODULES_DIRNAME; safe_name; version] r)
               (py_sorted Str.lt
                  (names_at [Registry.MODULES_DIRNAME; safe_name] r))
    ∧ alphabetical (im_version <$> modules)
    ∧ Forall (λ m, im_name m = safe_name
                   ∧ im_path m
                     = Registry.path_str root_path
                         [Registry.MODULES_DIRNAME; safe_name; im_version m]
                   ∧ verified_at r safe_name (im_version m)) modules.
Proof.
  intros r. revert Hlist. unfold Registry.list_by_name.
  rewrite io_bind_lift.
  destruct (validate_segment_outcome name "name")
    as [(safe_name & -> & ->)|[msg ->]]; [|done].
  intros Hrun. exists safe_name. split; [done|]. revert Hrun.
  rewrite (io_bind_return _ _ _ _ _ (os_path_isdir_run _ _)).
  unfold names_at. fold r.
  destruct (Registry.stat [Registry.MODULES_DIRNAME; safe_name] r)
    as [[| |entries|]|] eqn:Hstat; cbn [negb];
    try (intros [= <- <-]; repeat split; by constructor).
  assert (Hlisted : ∀ touched,
    Registry.os_listdir [Registry.MODULES_DIRNAME; safe_name]
      {| Registry.registry := r; Registry.accesses := touched |}
    = (Return entries.*1,
       {| Registry.registry := r;
          Registry.accesses :=
            touched
            ++ [Registry.InRegistry [Registry.MODULES_DIRNAME; safe_name]] |})).
  { intros touched. unfold Registry.os_listdir. rewrite io_bind_touch.
    unfold Registry.get_registry. rewrite io_bind_unfold.
    cbn [Registry.registry]. by rewrite Hstat. }
  rewrite (io_bind_return _ _ _ _ _ (Hlisted _)). intros Hrun.
  apply (list_versions_spec safe_name r) in Hrun
    as (Hreg & Hversions & Hall); [|done].
  split; [done|]. split; [done|]. split; [|done].
  rewrite Hversions. apply StronglySorted_filter, py_sorted_alphabetical.
Qed.

End Listings.

Lemma list_by_name_returns_witness :
  (Registry.list_by_name sample_sha256 manifest_load "/registry"
     (PStr "demo") sample_published.2).1
  = Return [{| im_name := "demo"; im_version := "1.0.0";
               im_path := "/registry/modules/demo/1.0.0" |}]
  ∧ ∃ safe_name,
      PStr "demo" = PStr safe_name
      ∧ Registry.registry
          (Registry.list_by_name sample_sha256 manifest_load "/registry"
             (PStr "demo") sample_published.2).2
        = Registry.registry sample_published.2
      ∧ ["1.0.0"]
        = filter (λ version,
                    is_dir_at [Registry.MODULES_DIRNAME; safe_name; version]
                      (Registry.registry sample_published.2))
                 (py_sorted Str.lt
                    (names_at [Registry.MODULES_DIRNAME; safe_name]
                       (Registry.registry sample_published.2)))
      ∧ alphabetical ["1.0.0"]
      ∧ Forall (λ m, im_name m = safe_name
                     ∧ im_path m
                       = Registry.path_str "/registry"
                           [Registry.MODULES_DIRNAME; safe_name; im_version m]
                     ∧ verified_at sample_sha256 manifest_load "/registry"
                         (Registry.registry sample_published.2) safe_name
                         (im_version m))
          [{| im_name := "demo"; im_version := "1.0.0";
              im_path := "/registry/modules/demo/1.0.0" |}].
Proof.
  split; [vm_compute; reflexivity|].
  apply (list_by_name_returns sample_sha256 manifest_load "/registry"
           (PStr "demo") sample_published.2
           [{| im_name := "demo"; im_version := "1.0.0";
               im_path := "/registry/modules/demo/1.0.0" |}]
           (Registry.list_by_name sample_sha256 manifest_load "/registry"
              (PStr "demo") sample_published.2).2).
  vm_compute. reflexivity.
Defined.

(** * Further properties: printing and parsing versions *)

Lemma str_cut_app sep a b :
  Str.forallb (λ c, negb (Ascii.eqb c sep)) a = true →
  Str.cut sep (a +:+ String sep b) = (a, Some b).
Proof.
  induction a as [|c a IH]; cbn.
  - by rewrite Ascii.eqb_refl.
  - intros [Hc Ha]%andb_true_iff. apply negb_true_iff in Hc.
    by rewrite Hc, IH.
Qed.

Lemma str_cut_inv sep s a b :
  Str.cut sep s = (a, b) →
  Str.forallb (λ c, negb (Ascii.eqb c sep)) a = true
  ∧ s = a +:+ from_option (String sep) "" b.
Proof.
  revert a b. induction s as [|c s IH]; intros a b; cbn.
  - by intros [= <- <-].
  - destruct (Ascii.eqb_spec c sep) as [->|Hne].
    + by intros [= <- <-].
    + destruct (Str.cut sep s) as [a' b'] eqn:Hcut. intros [= <- <-].
      destruct (IH a' b' eq_refl) as [Ha Hs]. cbn.
      apply Ascii.eqb_neq in Hne. rewrite Hne, Ha. by rewrite <- Hs.
Qed.

Lemma str_split_char_join sep ids :
  ids ≠ [] →
  Forall (λ id, Str.forallb (λ c, negb (Ascii.eqb c sep)) id = true) ids →
  Str.split_char sep (Str.join (String sep "") ids) = ids.
Proof.
  intros Hne Hall. induction Hall as [|id ids Hid Hids IH]; [done|].
  destruct ids as [|id' ids].
  - cbn. by apply str_split_char_absent.
  - change (Str.join (String sep "") (id :: id' :: ids))
      with (id +:+ String sep (Str.join (String sep "") (id' :: ids))).
    rewrite str_split_char_app by done. by rewrite IH.
Qed.

Lemma str_join_split_char sep s :
  Str.join (String sep "") (Str.split_char sep s) = s.
Proof.
  induction s as [|c s IH]; [done|]. cbn [Str.split_char].
  destruct (Ascii.eqb_spec c sep) as [->|Hne].
  - destruct (Str.split_char sep s) as [|w ws] eqn:Hsplit.
    + by destruct s; [|cbn in Hsplit; destruct (Ascii.eqb _ _), (Str.split_char _ _)].
    + change (Str.join (String sep "") ("" :: w :: ws))
        with (String sep (Str.join (String sep "") (w :: ws))).
      by rewrite IH.
  - destruct (Str.split_char sep s) as [|w ws] eqn:Hsplit.
    + by destruct s; [|cbn in Hsplit; destruct (Ascii.eqb _ _), (Str.split_char _ _)].
    + rewrite <- IH. by destruct ws.
Qed.

Lemma str_split_char_nonempty sep s : Str.split_char sep s ≠ [].
Proof.
  destruct s as [|c s]; [done|]. cbn.
  by destruct (Ascii.eqb c sep), (Str.split_char sep s).
Qed.

Lemma str_split_char_parts sep s :
  Forall (λ part, Str.forallb (λ c, negb (Ascii.eqb c sep)) part = true)
         (Str.split_char sep s).
Proof.
  induction s as [|c s IH]; [by repeat constructor|]. cbn.
  destruct (Ascii.eqb_spec c sep) as [->|Hne].
  - by constructor.
  - apply Ascii.eqb_neq in Hne.
    destruct (Str.split_char sep s) as [|w ws].
    + repeat constructor. cbn. by rewrite Hne.
    + apply Forall_cons in IH as [Hw Hws]. constructor; [|done].
      cbn. by rewrite Hne.
Qed.

Lemma _validate_identifiers_fullmatch field check ids :
  Semver._validate_identifiers ids field check = Return tt →
  Forall (λ id, Semver.identifier_fullmatch id = true) ids.
Proof.
  induction ids as [|id ids IH]; [by constructor|].
  cbn [Semver._validate_identifiers].
  intros ([] & Hid & Hids)%outcome_bind_return.
  constructor; [|by apply IH].
  unfold Semver._validate_identifier in Hid.
  destruct id as [|c id]; [done|].
  by destruct (Semver.identifier_fullmatch (String c id)).
Qed.

Lemma valid_version_fields v :
  SemverOrder.valid_version v →
  0 ≤ Semver.major v ∧ 0 ≤ Semver.minor v ∧ 0 ≤ Semver.patch v
  ∧ Forall (λ id, Semver.identifier_fullmatch id = true) (Semver.prerelease v)
  ∧ Forall (λ id, Semver.identifier_fullmatch id = true) (Semver.build v).
Proof.
  unfold SemverOrder.valid_version, Semver.__post_init__,
    Semver._validate_numeric_field.
  destruct (Z.ltb_spec (Semver.major v) 0); [done|].
  destruct (Z.ltb_spec (Semver.minor v) 0); [done|].
  destruct (Z.ltb_spec (Semver.patch v) 0); [done|].
  cbn [mbind outcome_bind].
  intros ([] & Hpre & Hbuild)%outcome_bind_return.
  repeat split; try done; by eapply _validate_identifiers_fullmatch.
Qed.

Lemma identifier_fullmatch_chars id :
  Semver.identifier_fullmatch id = true →
  Str.forallb Semver.is_identifier_char id = true.
Proof. by destruct id. Qed.

Lemma identifier_char_plain c :
  Semver.is_identifier_char c = true →
  Ascii.eqb c "." = false ∧ Ascii.eqb c "+" = false
  ∧ version_char c = true.
Proof.
  unfold version_char. intros Hc. rewrite Hc.
  revert Hc. unfold Semver.is_identifier_char, Str.is_alnum,
    Str.is_ascii_digit, Str.is_upper, Str.is_lower, Str.in_range, Str.code.
  destruct (Ascii.eqb_spec c ".") as [->|_]; [by vm_compute|].
  destruct (Ascii.eqb_spec c "+") as [->|_]; [by vm_compute|].
  done.
Qed.

Lemma identifiers_without (sep : ascii) ids :
  (sep = "." ∨ sep = "+")%char →
  Forall (λ id, Semver.identifier_fullmatch id = true) ids →
  Forall (λ id, Str.forallb (λ c, negb (Ascii.eqb c sep)) id = true) ids.
Proof.
  intros Hsep Hall. eapply Forall_impl; [exact Hall|].
  intros id Hid%identifier_fullmatch_chars.
  eapply str_forallb_impl; [|exact Hid]. intros c Hc.
  destruct (identifier_char_plain c Hc) as (Hdot & Hplus & _).
  by destruct Hsep as [->| ->]; apply negb_true_iff.
Qed.

Lemma str_forallb_join (p : ascii → bool) (sep : ascii) ids :
  p sep = true →
  Forall (λ id, Str.forallb p id = true) ids →
  Str.forallb p (Str.join (String sep "") ids) = true.
Proof.
  intros Hsep. induction 1 as [|id ids Hid Hids IH]; [done|].
  destruct ids as [|id' ids]; [done|].
  change (Str.join (String sep "") (id :: id' :: ids))
    with (id +:+ String sep (Str.join (String sep "") (id' :: ids))).
  rewrite str_forallb_app, Hid. cbn [Str.forallb andb]. by rewrite Hsep, IH.
Qed.

Lemma dotted_identifiers_join ids :
  ids ≠ [] →
  Forall (λ id, Semver.identifier_fullmatch id = true) ids →
  Semver.dotted_identifiers_fullmatch (Str.join "." ids) = true
  ∧ Str.split_char "." (Str.join "." ids) = ids.
Proof.
  intros Hne Hall. unfold Semver.dotted_identifiers_fullmatch.
  rewrite (str_split_char_join "." ids Hne);
    [|apply identifiers_without; [by left|done]].
  split; [|done]. apply forallb_forall. intros id Hin.
  apply list_elem_of_In in Hin.
  by apply (proj1 (Forall_forall _ _) Hall).
Qed.

Lemma core_text_split x y z :
  0 ≤ x → 0 ≤ y → 0 ≤ z →
  Str.split_char "."
    (numeral x +:+ String "." (numeral y +:+ String "." (numeral z)))
  = [numeral x; numeral y; numeral z].
Proof.
  intros Hx Hy Hz.
  rewrite str_split_char_app by by apply numeral_no_dot.
  rewrite str_split_char_app by by apply numeral_no_dot.
  by rewrite str_split_char_absent by by apply numeral_no_dot.
Qed.

Lemma core_text_chars x y z :
  0 ≤ x → 0 ≤ y → 0 ≤ z →
  Str.forallb core_char
    (numeral x +:+ String "." (numeral y +:+ String "." (numeral z))) = true.
Proof.
  intros Hx Hy Hz.
  rewrite <- core_version_str by done. by apply core_version_str_chars.
Qed.

Lemma core_char_version_char c : core_char c = true → version_char c = true.
Proof.
  unfold core_char, version_char, Semver.is_identifier_char, Str.is_alnum.
  intros [->| ->]%orb_true_iff; [done|]. by rewrite !orb_true_r.
Qed.

(** The printed form of a valid version: the core, then the prerelease
    identifiers after a hyphen, then the build identifiers after a plus
    sign. *)
Lemma str_valid_version v :
  SemverOrder.valid_version v →
  let core := numeral (Semver.major v)
              +:+ String "." (numeral (Semver.minor v)
                              +:+ String "." (numeral (Semver.patch v))) in
  __str__ v
  = (core +:+ match Semver.prerelease v with
              | [] => ""
              | _ => String "-" (Str.join "." (Semver.prerelease v))
              end)
    +:+ match Semver.build v with
        | [] => ""
        | _ => String "+" (Str.join "." (Semver.build v))
        end.
Proof.
  intros (Hx & Hy & Hz & _)%valid_version_fields. cbn zeta.
  unfold __str__. rewrite !str_of_int_nonneg by done.
  destruct (Semver.prerelease v), (Semver.build v); cbv beta iota zeta;
    rewrite ?str_app_nil_r, ?str_app_assoc; cbn [String.append];
    by rewrite ?str_app_assoc.
Qed.

Lemma version_char_plain c :
  version_char c = true →
  Str.is_space c = false ∧ Ascii.eqb c "," = false ∧ Ascii.eqb c "|" = false
  ∧ c ≠ "="%char ∧ c ≠ "*"%char ∧ c ≠ "^"%char ∧ c ≠ "~"%char
  ∧ c ≠ ">"%char ∧ c ≠ "<"%char.
Proof.
  unfold version_char, Semver.is_identifier_char, Str.is_alnum,
    Str.is_ascii_digit, Str.is_upper, Str.is_lower, Str.in_range, Str.is_space,
    Str.code.
  destruct c as [[] [] [] [] [] [] [] []]; vm_compute; intros H;
    repeat split; congruence.
Qed.

Lemma version_text_nospace s :
  Str.forallb version_char s = true →
  Str.forallb (λ c, negb (Str.is_space c)) s = true.
Proof.
  apply str_forallb_impl. intros c (Hc & _)%version_char_plain.
  by rewrite Hc.
Qed.

Lemma prerelease_text_no_plus pre :
  Forall (λ id, Semver.identifier_fullmatch id = true) pre →
  Str.forallb (λ c, negb (Ascii.eqb c "+")) (Str.join "." pre) = true.
Proof.
  intros Hall. apply (str_forallb_join _ "."); [done|].
  by apply identifiers_without; [right|].
Qed.

Lemma identifiers_text_chars ids :
  Forall (λ id, Semver.identifier_fullmatch id = true) ids →
  Str.forallb version_char (Str.join "." ids) = true.
Proof.
  intros Hall. apply (str_forallb_join _ "."); [done|].
  eapply Forall_impl; [exact Hall|].
  intros id Hid%identifier_fullmatch_chars.
  eapply str_forallb_impl; [|exact Hid].
  by intros c (_ & _ & Hc)%identifier_char_plain.
Qed.

Lemma semver_fullmatch_printed x y z pre bu :
  0 ≤ x → 0 ≤ y → 0 ≤ z →
  Forall (λ id, Semver.identifier_fullmatch id = true) pre →
  Forall (λ id, Semver.identifier_fullmatch id = true) bu →
  let core := numeral x +:+ String "." (numeral y +:+ String "." (numeral z)) in
  Semver.semver_fullmatch
    ((core +:+ match pre with
               | [] => ""
               | _ => String "-" (Str.join "." pre)
               end)
     +:+ match bu with
         | [] => ""
         | _ => String "+" (Str.join "." bu)
         end)
  = Some (numeral x, numeral y, numeral z,
          match pre with [] => None | _ => Some (Str.join "." pre) end,
          match bu with [] => None | _ => Some (Str.join "." bu) end).
Proof.
  intros Hx Hy Hz Hpre Hbu core.
  pose proof (core_text_chars x y z Hx Hy Hz) as Hcore. fold core in Hcore.
  set (before_plus := core +:+ match pre with
                               | [] => ""
                               | _ => String "-" (Str.join "." pre)
                               end).
  assert (Hno_plus :
    Str.forallb (λ c, negb (Ascii.eqb c "+")) before_plus = true).
  { unfold before_plus. rewrite str_forallb_app.
    rewrite (core_text_without "+") by auto. cbn [andb].
    destruct pre as [|id pre]; [done|].
    cbn [Str.forallb]. by rewrite (prerelease_text_no_plus (id :: pre)). }
  unfold Semver.semver_fullmatch.
  assert (Str.cut "+" (before_plus
                       +:+ match bu with
                           | [] => ""
                           | _ => String "+" (Str.join "." bu)
                           end)
          = (before_plus,
             match bu with [] => None | _ => Some (Str.join "." bu) end))
    as ->.
  { destruct bu as [|id bu].
    - rewrite str_app_nil_r. by apply str_cut_absent.
    - by apply str_cut_app. }
  assert (Str.cut "-" before_plus
          = (core,
             match pre with [] => None | _ => Some (Str.join "." pre) end))
    as ->.
  { unfold before_plus. destruct pre as [|id pre].
    - rewrite str_app_nil_r. apply str_cut_absent.
      by apply core_text_without; auto.
    - apply str_cut_app. by apply core_text_without; auto. }
  unfold core. rewrite core_text_split by done.
  rewrite !numeral_core by done. cbn [andb].
  assert (∀ ids, Forall (λ id, Semver.identifier_fullmatch id = true) ids →
                 from_option Semver.dotted_identifiers_fullmatch true
                   match ids with [] => None | _ => Some (Str.join "." ids) end
                 = true) as Hdotted.
  { intros [|id ids] Hall; [done|]. cbn [from_option].
    by apply dotted_identifiers_join. }
  by rewrite !Hdotted.
Qed.

Lemma str_version_chars v :
  SemverOrder.valid_version v → Str.forallb version_char (__str__ v) = true.
Proof.
  intros Hvalid. rewrite (str_valid_version v Hvalid).
  destruct (valid_version_fields v Hvalid) as (Hx & Hy & Hz & Hpre & Hbu).
  rewrite 2!str_forallb_app.
  rewrite (str_forallb_impl core_char version_char _ core_char_version_char)
    by by apply core_text_chars.
  cbn [andb].
  assert (∀ (sep : ascii) ids,
    version_char sep = true →
    Forall (λ id, Semver.identifier_fullmatch id = true) ids →
    Str.forallb version_char
      match ids with [] => "" | _ => String sep (Str.join "." ids) end = true)
    as Hpart.
  { intros sep [|id ids] Hsep Hall; [done|]. cbn [Str.forallb].
    by rewrite Hsep, (identifiers_text_chars (id :: ids)). }
  by rewrite !Hpart.
Qed.

(** X7.  Printing and parsing undo each other on valid versions: for a
    version that [__post_init__] accepts, with any prerelease and build
    identifiers, [parse_version(str(v))] returns [v]. *)
Theorem parse_version_str v (Hvalid : SemverOrder.valid_version v) :
  Semver.parse_version (__str__ v) = Return v.
Proof.
  unfold Semver.parse_version, Semver.parse.
  rewrite str_strip_nospace
    by by apply version_text_nospace, str_version_chars.
  rewrite (str_valid_version v Hvalid).
  destruct (valid_version_fields v Hvalid) as (Hx & Hy & Hz & Hpre & Hbu).
  rewrite semver_fullmatch_printed by done.
  rewrite !numeral_int by done.
  assert (∀ ids, Forall (λ id, Semver.identifier_fullmatch id = true) ids →
                 from_option (Str.split_char ".") []
                   match ids with [] => None | _ => Some (Str.join "." ids) end
                 = ids) as Hids.
  { intros [|id ids] Hall; [done|]. cbn [from_option].
    by apply dotted_identifiers_join. }
  rewrite !Hids by done. unfold Semver.mk_version.
  assert ({| Semver.major := Semver.major v; Semver.minor := Semver.minor v;
             Semver.patch := Semver.patch v;
             Semver.prerelease := Semver.prerelease v;
             Semver.build := Semver.build v |} = v) as -> by by destruct v.
  unfold SemverOrder.valid_version in Hvalid. by rewrite Hvalid.
Qed.

Lemma parse_version_str_witness :
  SemverOrder.valid_version
    {| Semver.major := 1; Semver.minor := 20; Semver.patch := 0;
       Semver.prerelease := ["rc"; "1"]; Semver.build := ["build-7"] |}
  ∧ Semver.parse_version "1.20.0-rc.1+build-7"
    = Return {| Semver.major := 1; Semver.minor := 20; Semver.patch := 0;
                Semver.prerelease := ["rc"; "1"];
                Semver.build := ["build-7"] |}.
Proof.
  split; [reflexivity|].
  exact (parse_version_str
           {| Semver.major := 1; Semver.minor := 20; Semver.patch := 0;
              Semver.prerelease := ["rc"; "1"]; Semver.build := ["build-7"] |}
           eq_refl).
Defined.

Lemma core_normal_numeral s :
  Semver.numeric_core_fullmatch s = true →
  normal_numeral s ∧ Str.forallb Str.is_ascii_digit s = true.
Proof.
  destruct s as [|c [|d rest]]; [done| |].
  - cbn [Semver.numeric_core_fullmatch]. intros Hc.
    unfold normal_numeral. cbn. by rewrite Hc.
  - intros [Hc Hrest]%andb_true_iff.
    pose proof (in_range_19_digit c Hc) as Hdigit.
    assert (Str.forallb Str.is_ascii_digit (String c (String d rest)) = true)
      as Hdigits.
    { change (Str.is_ascii_digit c
              && Str.forallb Str.is_ascii_digit (String d rest) = true).
      by rewrite Hdigit, Hrest. }
    split; [|done]. split; [exact Hdigits|].
    apply andb_false_iff. right.
    unfold Str.startswith. rewrite str_prefix_cons.
    destruct (ascii_dec "0" c) as [<-|]; [by vm_compute in Hc|done].
Qed.

Lemma numeral_of_int s :
  Semver.numeric_core_fullmatch s = true →
  0 ≤ Str.int s ∧ numeral (Str.int s) = s.
Proof.
  intros Hcore. destruct (core_normal_numeral s Hcore) as [Hnormal Hdigits].
  assert (0 ≤ Str.int s) as Hnonneg.
  { pose proof (int_acc_bounds s 0 Hdigits ltac:(lia)). unfold Str.int. lia. }
  split; [done|]. apply normal_numeral_inj; [|done|by apply numeral_int].
  by apply core_normal_numeral, numeral_core.
Qed.

Lemma mk_version_returns ma mi pa pre bu v :
  Semver.mk_version ma mi pa pre bu = Return v →
  SemverOrder.valid_version v
  ∧ v = {| Semver.major := ma; Semver.minor := mi; Semver.patch := pa;
           Semver.prerelease := pre; Semver.build := bu |}.
Proof.
  unfold Semver.mk_version, SemverOrder.valid_version.
  intros ([] & Hvalid & [= <-])%outcome_bind_return. done.
Qed.

(** X8.  On the texts of this embedding, whose characters are code points
    below 256 (ASCII and Latin-1, where the only decimal digits are 0-9):
    what [parse_version] returns prints as the text it was given, without
    the white space around it, and passes [__post_init__]; on these texts
    the parser accepts only the canonical spelling of a version.  A text
    with a decimal digit of another script is outside the embedding: the
    pattern's [\d] and [int] accept such a digit, and the version then
    prints with ASCII digits. *)
Theorem str_parse_version s v (Hparse : Semver.parse_version s = Return v) :
  SemverOrder.valid_version v ∧ __str__ v = Str.strip s.
Proof.
  revert Hparse. unfold Semver.parse_version, Semver.parse.
  destruct (Semver.semver_fullmatch (Str.strip s))
    as [[[[[g1 g2] g3] g4] g5]|] eqn:Hmatch; [|done].
  intros [Hvalid ->]%mk_version_returns. split; [done|].
  rewrite (str_valid_version _ Hvalid).
  cbn [Semver.major Semver.minor Semver.patch Semver.prerelease Semver.build].
  revert Hmatch. unfold Semver.semver_fullmatch.
  destruct (Str.cut "+" (Str.strip s)) as [before_plus group5] eqn:Hplus.
  destruct (Str.cut "-" before_plus) as [core group4] eqn:Hminus.
  pose proof (str_join_split_char "." core) as Hcore.
  destruct (Str.split_char "." core) as [|p1 [|p2 [|p3 [|]]]]; try done.
  destruct (Semver.numeric_core_fullmatch p1) eqn:H1; [|done].
  destruct (Semver.numeric_core_fullmatch p2) eqn:H2; [|done].
  destruct (Semver.numeric_core_fullmatch p3) eqn:H3; [|done].
  cbn [andb].
  destruct (from_option Semver.dotted_identifiers_fullmatch true group4)
    eqn:H4; [|done].
  destruct (from_option Semver.dotted_identifiers_fullmatch true group5)
    eqn:H5; [|done].
  intros [= <- <- <- <- <-].
  apply str_cut_inv in Hplus as [_ ->]. apply str_cut_inv in Hminus as [_ ->].
  rewrite (proj2 (numeral_of_int _ H1)), (proj2 (numeral_of_int _ H2)),
    (proj2 (numeral_of_int _ H3)).
  change (Str.join "." [p1; p2; p3])
    with (p1 +:+ String "." (p2 +:+ String "." p3)) in Hcore.
  rewrite Hcore.
  assert (∀ (sep : ascii) group,
    match from_option (Str.split_char ".") [] group with
    | [] => ""
    | _ => String sep
             (Str.join "." (from_option (Str.split_char ".") [] group))
    end = from_option (String sep) "" group) as Hgroup.
  { intros sep [text|]; [|done]. cbn [from_option].
    rewrite str_join_split_char.
    pose proof (str_split_char_nonempty "." text).
    by destruct (Str.split_char "." text). }
  by rewrite !Hgroup.
Qed.

Lemma str_parse_version_witness :
  Semver.parse_version "  1.2.3-rc.1  "
  = Return {| Semver.major := 1; Semver.minor := 2; Semver.patch := 3;
              Semver.prerelease := ["rc"; "1"]; Semver.build := [] |}
  ∧ SemverOrder.valid_version
      {| Semver.major := 1; Semver.minor := 2; Semver.patch := 3;
         Semver.prerelease := ["rc"; "1"]; Semver.build := [] |}
  ∧ __str__ {| Semver.major := 1; Semver.minor := 2; Semver.patch := 3;
               Semver.prerelease := ["rc"; "1"]; Semver.build := [] |}
    = Str.strip "  1.2.3-rc.1  ".
Proof.
  split; [reflexivity|].
  exact (str_parse_version "  1.2.3-rc.1  "
           {| Semver.major := 1; Semver.minor := 2; Semver.patch := 3;
              Semver.prerelease := ["rc"; "1"]; Semver.build := [] |}
           eq_refl).
Defined.

(** * Further properties: the grammar of ranges *)

Lemma commas_to_spaces_app a b :
  Semver.commas_to_spaces (a +:+ b)
  = Semver.commas_to_spaces a +:+ Semver.commas_to_spaces b.
Proof. induction a as [|c a IH]; [done|]. cbn. by rewrite IH. Qed.

Lemma split_ws_aux_space cur a b :
  Str.split_ws_aux cur (a +:+ String " " b)
  = Str.split_ws_aux cur a ++ Str.split_ws b.
Proof.
  revert cur. induction a as [|c a IH]; intros cur.
  - cbn. by destruct cur.
  - cbn [String.append Str.split_ws_aux].
    destruct (Str.is_space c); [|apply IH].
    destruct cur; by rewrite IH.
Qed.

Lemma split_ws_aux_blank cur s :
  Str.forallb Str.is_space s = true →
  Str.split_ws_aux cur s = Str.split_ws_aux cur "".
Proof.
  revert cur. induction s as [|c s IH]; intros cur; [done|].
  cbn [Str.forallb Str.split_ws_aux]. intros [-> Hs]%andb_true_iff.
  destruct cur; by rewrite IH.
Qed.

Lemma commas_to_spaces_blank s :
  Str.forallb Str.is_space s = true →
  Str.forallb Str.is_space (Semver.commas_to_spaces s) = true.
Proof.
  induction s as [|c s IH]; [done|]. cbn.
  intros [Hc Hs]%andb_true_iff. rewrite IH by done.
  by destruct (Ascii.eqb c ","); [|rewrite Hc].
Qed.

Lemma rstrip_empty s : Str.rstrip s = "" → Str.forallb Str.is_space s = true.
Proof.
  induction s as [|c s IH]; [done|]. cbn.
  destruct (Str.rstrip s); [|done].
  destruct (Str.is_space c); [|done]. intros _. by apply IH.
Qed.

Lemma tokens_lstrip s : tokens_of (Str.lstrip s) = tokens_of s.
Proof.
  unfold tokens_of, Str.split_ws.
  induction s as [|c s IH]; [done|]. cbn [Str.lstrip].
  destruct (Str.is_space c) eqn:Hc; [|done].
  rewrite IH. cbn [Semver.commas_to_spaces Str.split_ws_aux].
  destruct (Ascii.eqb_spec c ",") as [->|_]; [done|]. by rewrite Hc.
Qed.

Lemma tokens_rstrip_aux s : ∀ cur,
  Str.split_ws_aux cur (Semver.commas_to_spaces (Str.rstrip s))
  = Str.split_ws_aux cur (Semver.commas_to_spaces s).
Proof.
  induction s as [|c s IH]; intros cur; [done|]. cbn [Str.rstrip].
  assert (Str.rstrip s = "" ∨ ∃ d r, Str.rstrip s = String d r)
    as [Hr|(d & r & Hr)] by (destruct (Str.rstrip s); eauto);
    rewrite Hr.
  - pose proof (commas_to_spaces_blank s (rstrip_empty s Hr)) as Hblank.
    destruct (Str.is_space c) eqn:Hc.
    + cbn [Semver.commas_to_spaces Str.split_ws_aux].
      destruct (Ascii.eqb c ","); cbn [Str.is_space]; rewrite ?Hc;
        destruct cur; by rewrite (split_ws_aux_blank _ _ Hblank).
    + cbn [Semver.commas_to_spaces Str.split_ws_aux].
      destruct (Str.is_space (if Ascii.eqb c "," then " "%char else c));
        [destruct cur|]; by rewrite (split_ws_aux_blank _ _ Hblank).
  - rewrite <- Hr. cbn [Semver.commas_to_spaces Str.split_ws_aux].
    destruct (Str.is_space (if Ascii.eqb c "," then " "%char else c));
      [destruct cur|]; by rewrite IH.
Qed.

Lemma tokens_rstrip s : tokens_of (Str.rstrip s) = tokens_of s.
Proof. apply tokens_rstrip_aux. Qed.

Lemma tokens_strip s : tokens_of (Str.strip s) = tokens_of s.
Proof. unfold Str.strip. by rewrite tokens_rstrip, tokens_lstrip. Qed.

Lemma tokens_space a b : tokens_of (a +:+ String " " b) = tokens_of a ++ tokens_of b.
Proof.
  unfold tokens_of. rewrite commas_to_spaces_app.
  apply split_ws_aux_space.
Qed.

Lemma tokens_comma a b : tokens_of (a +:+ String "," b) = tokens_of a ++ tokens_of b.
Proof.
  unfold tokens_of. rewrite commas_to_spaces_app.
  apply split_ws_aux_space.
Qed.

Lemma str_forallb_lstrip p s :
  Str.forallb p s = true → Str.forallb p (Str.lstrip s) = true.
Proof.
  induction s as [|c s IH]; [done|]. cbn [Str.lstrip].
  destruct (Str.is_space c); [|done]. cbn. by intros [_ ?]%andb_true_iff; apply IH.
Qed.

Lemma str_forallb_rstrip p s :
  Str.forallb p s = true → Str.forallb p (Str.rstrip s) = true.
Proof.
  induction s as [|c s IH]; [done|]. cbn [Str.rstrip Str.forallb].
  intros [Hc Hs]%andb_true_iff. specialize (IH Hs).
  destruct (Str.rstrip s) as [|d r].
  - destruct (Str.is_space c); [done|]. cbn. by rewrite Hc.
  - cbn [Str.forallb] in *. by rewrite Hc, IH.
Qed.

Lemma bar_free_strip s : bar_free s → bar_free (Str.strip s).
Proof. intros H. by apply str_forallb_rstrip, str_forallb_lstrip. Qed.

Lemma parse_tokens_app t1 t2 :
  Semver.parse_tokens (t1 ++ t2)
  = c1 ← Semver.parse_tokens t1; c2 ← Semver.parse_tokens t2;
    Return (c1 ++ c2).
Proof.
  induction t1 as [|t t1 IH].
  - cbn. by destruct (Semver.parse_tokens t2).
  - cbn [app Semver.parse_tokens]. rewrite IH.
    destruct (Semver._parse_range_token t) as [c|]; [|done].
    cbn [mbind outcome_bind].
    destruct (Semver.parse_tokens t1) as [c1|]; [|done].
    cbn [mbind outcome_bind].
    destruct (Semver.parse_tokens t2) as [c2|]; [|done].
    cbn [mbind outcome_bind]. by rewrite app_assoc.
Qed.

(** One part of a range between OR separators, as [parse_version_range]
    reads it. *)
Lemma parse_alternatives_part expression part rest :
  tokens_of part ≠ [] →
  Semver.parse_alternatives expression (part :: rest)
  = comparators ← Semver.parse_tokens (tokens_of part);
    more ← Semver.parse_alternatives expression rest;
    Return (comparators :: more).
Proof.
  intros Htokens. cbn [Semver.parse_alternatives].
  pose proof (tokens_strip part) as Hstrip. unfold tokens_of in *.
  destruct (Str.strip part) as [|c text] eqn:Htext.
  { by rewrite <- Hstrip in Htokens. }
  rewrite Hstrip.
  by destruct (Str.split_ws (Semver.commas_to_spaces part)).
Qed.

(** A range without OR separator is the conjunction of its tokens. *)
Lemma range_of_tokens expression :
  bar_free expression → tokens_of expression ≠ [] →
  Semver.parse_version_range expression
  = comparators ← Semver.parse_tokens (tokens_of expression);
    Return (conjunction comparators).
Proof.
  intros Hbar Htokens. unfold Semver.parse_version_range.
  pose proof (tokens_strip expression) as Hstrip.
  destruct (String.eqb_spec (Str.strip expression) "") as [Hempty|_].
  { rewrite Hempty in Hstrip. by rewrite <- Hstrip in Htokens. }
  destruct (String.eqb_spec (Str.strip expression) "*") as [Hstar|_].
  { rewrite Hstar in Hstrip. by rewrite <- Hstrip. }
  cbn [orb].
  rewrite str_split_or_absent by by apply bar_free_strip.
  rewrite parse_alternatives_part by by rewrite Hstrip.
  rewrite Hstrip.
  destruct (Semver.parse_tokens (tokens_of expression)); done.
Qed.

Lemma plain_token text :
  Str.forallb (λ c, negb (Str.is_space c) && negb (Ascii.eqb c ",")) text
  = true →
  text ≠ "" → tokens_of text = [text].
Proof.
  intros Hplain Hne. unfold tokens_of.
  rewrite str_commas_absent.
  - apply str_split_ws_one; [|done].
    eapply str_forallb_impl; [|exact Hplain].
    by intros c [? _]%andb_true_iff.
  - eapply str_forallb_impl; [|exact Hplain].
    by intros c [_ ?]%andb_true_iff.
Qed.

Lemma version_text_plain s :
  Str.forallb version_char s = true →
  Str.forallb (λ c, negb (Str.is_space c) && negb (Ascii.eqb c ",")) s = true
  ∧ bar_free s.
Proof.
  intros Hs. split; (eapply str_forallb_impl; [|exact Hs]);
    intros c (Hspace & Hcomma & Hbar & _)%version_char_plain;
    by rewrite ?Hspace, ?Hcomma, ?Hbar.
Qed.

Lemma str_version_nonempty v :
  SemverOrder.valid_version v → __str__ v ≠ "".
Proof.
  intros Hvalid. rewrite (str_valid_version v Hvalid).
  destruct (valid_version_fields v Hvalid) as (Hx & _).
  pose proof (numeral_nonempty _ Hx).
  by destruct (numeral (Semver.major v)).
Qed.

(** A comparator token: an operator text, or none, before a version. *)
Lemma comparator_token text op s base :
  (text, op) ∈ comparator_texts →
  Str.forallb version_char s = true → s ≠ "" →
  Semver.parse_version s = Return base →
  Semver._parse_range_token (text +:+ s)
  = Return [{| Semver.operator := op; Semver.version := base |}]
  ∧ tokens_of (text +:+ s) = [text +:+ s]
  ∧ bar_free (text +:+ s).
Proof.
  intros Hin Hs Hne Hparse.
  destruct (version_text_plain s Hs) as [Hplain Hbar].
  destruct s as [|d rest]; [done|].
  pose proof Hs as Hd. cbn [Str.forallb] in Hd.
  apply andb_true_iff in Hd as [Hd _].
  apply version_char_plain in Hd
    as (_ & _ & _ & Heq & Hstar & Hcaret & Htilde & Hgt & Hlt).
  assert (String.eqb (String d rest) "*" = false) as Hnot_star.
  { apply String.eqb_neq. by intros [= -> _]. }
  assert (Hparts :
    tokens_of (text +:+ String d rest) = [text +:+ String d rest]
    ∧ bar_free (text +:+ String d rest)).
  { unfold comparator_texts, Semver.operator_table in Hin.
    repeat (apply elem_of_cons in Hin as [[= -> ->]|Hin]);
      [..|by apply elem_of_nil in Hin];
      (split; [apply plain_token;
                 [by rewrite str_forallb_app, Hplain|done]
              |unfold bar_free; by rewrite str_forallb_app, Hbar]). }
  split; [|done].
  unfold comparator_texts, Semver.operator_table in Hin.
  repeat (apply elem_of_cons in Hin as [[= -> ->]|Hin]);
    [..|by apply elem_of_nil in Hin];
    unfold Semver._parse_range_token, Semver.operator_table;
    cbn [String.append Semver.parse_operator_token];
    unfold Str.startswith;
    rewrite ?Hnot_star;
    repeat first
      [ rewrite str_prefix_cons
      | match goal with
        | |- context [ascii_dec ?a ?b] =>
            destruct (ascii_dec a b) as [?|?]; try (subst; congruence)
        end
      | progress cbn [String.prefix String.length Str.drop String.eqb
                      Ascii.eqb Bool.eqb andb] ];
    by rewrite ?Hparse.
Qed.

Lemma range_matches_conjunction comparators v :
  Semver.range_matches (conjunction comparators) (Semver.AsVersion v)
  = Return (forallb (λ comparator,
                       Semver.comparator_matches comparator v) comparators).
Proof.
  unfold Semver.range_matches, conjunction. cbn. by rewrite orb_false_r.
Qed.

Lemma single_comparator_range text op s base version :
  (text, op) ∈ comparator_texts →
  Str.forallb version_char s = true → s ≠ "" →
  Semver.parse_version s = Return base →
  Semver.satisfies_version_range version (text +:+ s)
  = Semver.range_matches
      (conjunction [{| Semver.operator := op; Semver.version := base |}])
      version.
Proof.
  intros Hin Hs Hne Hparse.
  destruct (comparator_token text op s base Hin Hs Hne Hparse)
    as (Htoken & Htokens & Hbar).
  unfold Semver.satisfies_version_range.
  rewrite range_of_tokens by (by rewrite ?Htokens).
  rewrite Htokens. cbn [Semver.parse_tokens]. by rewrite Htoken.
Qed.

(** X9.  The comparator tokens.  For a valid version [B], with any
    prerelease and build identifiers, and a version object [v]: the
    ranges [>=B], [<=B], [>B], [<B] hold of [v] exactly when
    [v.compare_to(B)] is [>= 0], [<= 0], [> 0], [< 0]; the ranges [=B] and
    [B] alone hold exactly when it is [0], so build metadata is ignored by
    them. *)
Theorem comparator_ranges v base (Hvalid : SemverOrder.valid_version base) :
  let holds text :=
    Semver.satisfies_version_range (Semver.AsVersion v)
      (text +:+ __str__ base) in
  holds ">=" = Return (Semver.compare_to v base >=? 0)
  ∧ holds "<=" = Return (Semver.compare_to v base <=? 0)
  ∧ holds ">" = Return (Semver.compare_to v base >? 0)
  ∧ holds "<" = Return (Semver.compare_to v base <? 0)
  ∧ holds "=" = Return (Semver.compare_to v base =? 0)
  ∧ holds "" = Return (Semver.compare_to v base =? 0).
Proof.
  assert (∀ text op, (text, op) ∈ comparator_texts →
    Semver.satisfies_version_range (Semver.AsVersion v)
      (text +:+ __str__ base)
    = Return (Semver.comparator_matches
                {| Semver.operator := op; Semver.version := base |} v))
    as Hall.
  { intros text op Hin.
    rewrite (single_comparator_range text op _ base);
      [|done|by apply str_version_chars|by apply str_version_nonempty
       |by apply parse_version_str].
    rewrite range_matches_conjunction. cbn. by rewrite andb_true_r. }
  cbn zeta. unfold comparator_texts, Semver.operator_table in Hall.
  split; [rewrite (Hall ">=" Semver.OpGe); [done|set_solver]|].
  split; [rewrite (Hall "<=" Semver.OpLe); [done|set_solver]|].
  split; [rewrite (Hall ">" Semver.OpGt); [done|set_solver]|].
  split; [rewrite (Hall "<" Semver.OpLt); [done|set_solver]|].
  split; [rewrite (Hall "=" Semver.OpEq); [done|set_solver]|].
  rewrite (Hall "" Semver.OpEq); [done|set_solver].
Qed.

Lemma comparator_ranges_witness :
  SemverOrder.valid_version
    {| Semver.major := 1; Semver.minor := 2; Semver.patch := 3;
       Semver.prerelease := ["rc"; "1"]; Semver.build := [] |}
  ∧ Semver.satisfies_version_range (Semver.AsVersion (core_version 1 2 3))
      ">1.2.3-rc.1"
    = Return true.
Proof.
  split; [reflexivity|].
  exact (proj1 (proj2 (proj2
           (comparator_ranges (core_version 1 2 3)
              {| Semver.major := 1; Semver.minor := 2; Semver.patch := 3;
                 Semver.prerelease := ["rc"; "1"]; Semver.build := [] |}
              eq_refl)))).
Defined.

Lemma tilde_token s base :
  Str.forallb version_char s = true → s ≠ "" →
  Semver.parse_version s = Return base →
  0 ≤ Semver.major base → 0 ≤ Semver.minor base →
  Semver._parse_range_token (String "~" s)
  = Return [{| Semver.operator := Semver.OpGe; Semver.version := base |};
            {| Semver.operator := Semver.OpLt;
               Semver.version := tilde_upper base |}]
  ∧ tokens_of (String "~" s) = [String "~" s]
  ∧ bar_free (String "~" s).
Proof.
  intros Hs Hne Hparse Hx Hy.
  destruct (version_text_plain s Hs) as [Hplain Hbar].
  split; [|split].
  - unfold Semver._parse_range_token, Str.startswith.
    cbn [String.eqb Ascii.eqb Bool.eqb andb String.prefix Str.drop].
    destruct (ascii_dec "^" "~") as [?|_]; [done|].
    destruct (ascii_dec "~" "~") as [_|?]; [|done].
    cbn [String.prefix]. destruct s; [done|].
    rewrite Hparse. cbn [mbind outcome_bind].
    unfold tilde_upper. by rewrite mk_version_core by lia.
  - apply plain_token; [|done]. cbn [Str.forallb]. by rewrite Hplain.
  - unfold bar_free. cbn [Str.forallb]. by rewrite Hbar.
Qed.

(** X10.  The tilde range.  For a valid base version [B] with the core
    [X.Y.Z], the range [~B] gives the same answer as [>=B <X.(Y+1).0] on
    every version, object or text; for a version object the answer is
    [compare_to v B >= 0 and compare_to v X.(Y+1).0 < 0]. *)
Theorem tilde_range_desugars base
    (Hvalid : SemverOrder.valid_version base) :
  (∀ version,
     Semver.satisfies_version_range version ("~" +:+ __str__ base)
     = Semver.satisfies_version_range version
         (">=" +:+ __str__ base +:+ " <" +:+ __str__ (tilde_upper base)))
  ∧ ∀ v,
      Semver.satisfies_version_range (Semver.AsVersion v)
        ("~" +:+ __str__ base)
      = Return ((Semver.compare_to v base >=? 0)
                && (Semver.compare_to v (tilde_upper base) <? 0)).
Proof.
  destruct (valid_version_fields base Hvalid) as (Hx & Hy & _).
  assert (Hupper : SemverOrder.valid_version (tilde_upper base)).
  { unfold tilde_upper.
    pose proof (mk_version_core (Semver.major base) (Semver.minor base + 1) 0
                  Hx ltac:(lia) ltac:(lia)) as Hmk.
    by apply mk_version_returns in Hmk as [? _]. }
  destruct (tilde_token (__str__ base) base)
    as (Htilde & Htokens & Hbar);
    [by apply str_version_chars|by apply str_version_nonempty
    |by apply parse_version_str|done..|].
  destruct (comparator_token ">=" Semver.OpGe (__str__ base) base)
    as (Hlower & Hlower_tokens & Hlower_bar);
    [unfold comparator_texts, Semver.operator_table; set_solver
    |by apply str_version_chars|by apply str_version_nonempty
    |by apply parse_version_str|].
  destruct (comparator_token "<" Semver.OpLt (__str__ (tilde_upper base))
              (tilde_upper base))
    as (Hhigher & Hhigher_tokens & Hhigher_bar);
    [unfold comparator_texts, Semver.operator_table; set_solver
    |by apply str_version_chars|by apply str_version_nonempty
    |by apply parse_version_str|].
  assert (Hleft : ∀ version,
    Semver.satisfies_version_range version ("~" +:+ __str__ base)
    = Semver.range_matches
        (conjunction
           [{| Semver.operator := Semver.OpGe; Semver.version := base |};
            {| Semver.operator := Semver.OpLt;
               Semver.version := tilde_upper base |}]) version).
  { intros version. unfold Semver.satisfies_version_range.
    change ("~" +:+ __str__ base) with (String "~" (__str__ base)).
    rewrite range_of_tokens by (by rewrite ?Htokens).
    rewrite Htokens. cbn [Semver.parse_tokens]. by rewrite Htilde. }
  split.
  - intros version. rewrite Hleft.
    unfold Semver.satisfies_version_range.
    change (">=" +:+ __str__ base +:+ " <" +:+ __str__ (tilde_upper base))
      with ((">=" +:+ __str__ base)
            +:+ String " " ("<" +:+ __str__ (tilde_upper base))).
    rewrite range_of_tokens.
    + rewrite tokens_space, Hlower_tokens, Hhigher_tokens.
      cbn [app Semver.parse_tokens]. by rewrite Hlower, Hhigher.
    + unfold bar_free in *. rewrite str_forallb_app, Hlower_bar.
      cbn [Str.forallb andb]. exact Hhigher_bar.
    + by rewrite tokens_space, Hlower_tokens.
  - intros v. rewrite Hleft, range_matches_conjunction. cbn.
    by rewrite andb_true_r.
Qed.

Lemma tilde_range_desugars_witness :
  SemverOrder.valid_version (core_version 1 2 3)
  ∧ Semver.satisfies_version_range (Semver.AsStr "1.3.0-rc.1") "~1.2.3"
    = Semver.satisfies_version_range (Semver.AsStr "1.3.0-rc.1")
        ">=1.2.3 <1.3.0"
  ∧ Semver.satisfies_version_range (Semver.AsVersion (core_version 1 2 9))
      "~1.2.3"
    = Return true.
Proof.
  split; [reflexivity|].
  destruct (tilde_range_desugars (core_version 1 2 3) eq_refl) as [H1 H2].
  split.
  - exact (H1 (Semver.AsStr "1.3.0-rc.1")).
  - exact (H2 (core_version 1 2 9)).
Defined.

Lemma satisfies_of_tokens v expression :
  bar_free expression → tokens_of expression ≠ [] →
  Semver.satisfies_version_range (Semver.AsVersion v) expression
  = comparators ← Semver.parse_tokens (tokens_of expression);
    Return (forallb (λ comparator, Semver.comparator_matches comparator v)
              comparators).
Proof.
  intros Hbar Htokens. unfold Semver.satisfies_version_range.
  rewrite range_of_tokens by done.
  destruct (Semver.parse_tokens (tokens_of expression)); [|done].
  cbn [mbind outcome_bind]. apply range_matches_conjunction.
Qed.

(** X11.  Space and comma mean AND.  For two range texts without the OR
    separator, each with at least one token, and a version object: the
    texts joined by a space, and likewise by a comma, hold exactly when
    both hold; what the first raises is raised, else what the second
    raises. *)
Theorem range_conjunction v a b
    (Ha : bar_free a) (Hb : bar_free b)
    (Hta : tokens_of a ≠ []) (Htb : tokens_of b ≠ []) :
  let both :=
    ra ← Semver.satisfies_version_range (Semver.AsVersion v) a;
    rb ← Semver.satisfies_version_range (Semver.AsVersion v) b;
    Return (ra && rb) in
  Semver.satisfies_version_range (Semver.AsVersion v) (a +:+ " " +:+ b)
  = both
  ∧ Semver.satisfies_version_range (Semver.AsVersion v) (a +:+ "," +:+ b)
    = both.
Proof.
  cbn zeta. rewrite (satisfies_of_tokens v a), (satisfies_of_tokens v b)
    by done.
  assert (∀ sep : ascii,
    negb (Ascii.eqb sep "|") = true →
    tokens_of (a +:+ String sep b) = tokens_of a ++ tokens_of b →
    Semver.satisfies_version_range (Semver.AsVersion v) (a +:+ String sep b)
    = ra ← (comparators ← Semver.parse_tokens (tokens_of a);
            Return (forallb (λ comparator,
                               Semver.comparator_matches comparator v)
                      comparators));
      rb ← (comparators ← Semver.parse_tokens (tokens_of b);
            Return (forallb (λ comparator,
                               Semver.comparator_matches comparator v)
                      comparators));
      Return (ra && rb)) as Hsep.
  { intros sep Hsep Htokens. rewrite satisfies_of_tokens.
    - rewrite Htokens, parse_tokens_app.
      destruct (Semver.parse_tokens (tokens_of a)) as [ca|]; [|done].
      cbn [mbind outcome_bind].
      destruct (Semver.parse_tokens (tokens_of b)) as [cb|]; [|done].
      cbn [mbind outcome_bind]. by rewrite forallb_app.
    - unfold bar_free in *. rewrite str_forallb_app, Ha.
      cbn [Str.forallb andb]. by rewrite Hsep, Hb.
    - rewrite Htokens. by destruct (tokens_of a). }
  split.
  - apply (Hsep " "%char); [done|apply tokens_space].
  - apply (Hsep ","%char); [done|apply tokens_comma].
Qed.

Lemma range_conjunction_witness :
  (bar_free ">=1.0.0" ∧ bar_free "<2.0.0"
   ∧ tokens_of ">=1.0.0" = [">=1.0.0"] ∧ tokens_of "<2.0.0" = ["<2.0.0"])
  ∧ Semver.satisfies_version_range (Semver.AsVersion (core_version 1 5 0))
      ">=1.0.0,<2.0.0"
    = (ra ← Semver.satisfies_version_range
              (Semver.AsVersion (core_version 1 5 0)) ">=1.0.0";
       rb ← Semver.satisfies_version_range
              (Semver.AsVersion (core_version 1 5 0)) "<2.0.0";
       Return (ra && rb)).
Proof.
  split; [by repeat split|].
  refine (proj2 (range_conjunction (core_version 1 5 0) ">=1.0.0" "<2.0.0"
                   eq_refl eq_refl _ _)); by vm_compute.
Defined.

Lemma split_or_bar a b :
  bar_free a → bar_free b →
  Semver.split_or (a +:+ String "|" (String "|" b)) = [a; b].
Proof.
  intros Ha Hb. induction a as [|c a IH].
  - cbn [String.append]. rewrite split_or_unfold. cbn [Ascii.eqb Bool.eqb andb].
    by rewrite str_split_or_absent.
  - unfold bar_free in Ha. cbn [Str.forallb] in Ha.
    apply andb_true_iff in Ha as [Hc Ha]. apply negb_true_iff in Hc.
    specialize (IH Ha). destruct a as [|c' a].
    + cbn [String.append] in *. rewrite split_or_unfold, Hc. cbn [andb].
      by rewrite IH.
    + cbn [String.append] in *. rewrite split_or_unfold, Hc. cbn [andb].
      by rewrite IH.
Qed.

Lemma lstrip_app a x :
  Str.lstrip a ≠ "" → Str.lstrip (a +:+ x) = Str.lstrip a +:+ x.
Proof.
  induction a as [|c a IH]; [done|]. cbn [Str.lstrip String.append].
  destruct (Str.is_space c); [apply IH|done].
Qed.

Lemma rstrip_app x b :
  Str.rstrip b ≠ "" → Str.rstrip (x +:+ b) = x +:+ Str.rstrip b.
Proof.
  intros Hb. induction x as [|c x IH]; [done|].
  cbn [String.append Str.rstrip]. rewrite IH.
  destruct (x +:+ Str.rstrip b) eqn:Hx; [|done].
  by destruct x; [|done].
Qed.

Lemma tokens_nonblank_l a : tokens_of a ≠ [] → Str.lstrip a ≠ "".
Proof.
  intros Htokens Hblank. apply Htokens.
  by rewrite <- tokens_lstrip, Hblank.
Qed.

Lemma tokens_nonblank_r b : tokens_of b ≠ [] → Str.rstrip b ≠ "".
Proof.
  intros Htokens Hblank. apply Htokens.
  by rewrite <- tokens_rstrip, Hblank.
Qed.

(** X12.  The double bar means OR.  For two range texts without a bar,
    each with at least one token, and a version object: the texts joined
    by [||] hold exactly when one of them holds; what the first raises is
    raised, else what the second raises. *)
Theorem range_alternatives v a b
    (Ha : bar_free a) (Hb : bar_free b)
    (Hta : tokens_of a ≠ []) (Htb : tokens_of b ≠ []) :
  Semver.satisfies_version_range (Semver.AsVersion v) (a +:+ "||" +:+ b)
  = (ra ← Semver.satisfies_version_range (Semver.AsVersion v) a;
     rb ← Semver.satisfies_version_range (Semver.AsVersion v) b;
     Return (ra || rb)).
Proof.
  rewrite (satisfies_of_tokens v a), (satisfies_of_tokens v b) by done.
  pose proof (tokens_nonblank_l a Hta) as Hleft.
  pose proof (tokens_nonblank_r b Htb) as Hright.
  unfold Semver.satisfies_version_range, Semver.parse_version_range.
  assert (Str.strip (a +:+ "||" +:+ b)
          = Str.lstrip a +:+ String "|" (String "|" (Str.rstrip b))) as ->.
  { unfold Str.strip. rewrite lstrip_app by done.
    change (Str.lstrip a +:+ "||" +:+ b)
      with (Str.lstrip a +:+ (String "|" (String "|" "") +:+ b)).
    rewrite <- str_app_assoc, rstrip_app by done.
    by rewrite str_app_assoc. }
  assert (String.eqb (Str.lstrip a +:+ String "|" (String "|" (Str.rstrip b)))
            "" = false) as ->.
  { apply String.eqb_neq. by destruct (Str.lstrip a). }
  assert (String.eqb (Str.lstrip a +:+ String "|" (String "|" (Str.rstrip b)))
            "*" = false) as ->.
  { apply String.eqb_neq. destruct (Str.lstrip a) as [|c [|]]; done. }
  cbn [orb].
  rewrite split_or_bar
    by (by apply str_forallb_lstrip || by apply str_forallb_rstrip).
  rewrite parse_alternatives_part by by rewrite tokens_lstrip.
  rewrite tokens_lstrip.
  destruct (Semver.parse_tokens (tokens_of a)) as [ca|]; [|done].
  cbn [mbind outcome_bind].
  rewrite parse_alternatives_part by by rewrite tokens_rstrip.
  rewrite tokens_rstrip.
  destruct (Semver.parse_tokens (tokens_of b)) as [cb|]; [|done].
  cbn. by rewrite orb_false_r.
Qed.

Lemma range_alternatives_witness :
  (bar_free "<1.0.0" ∧ bar_free ">=2.0.0"
   ∧ tokens_of "<1.0.0" = ["<1.0.0"] ∧ tokens_of ">=2.0.0" = [">=2.0.0"])
  ∧ Semver.satisfies_version_range (Semver.AsVersion (core_version 2 1 0))
      "<1.0.0||>=2.0.0"
    = (ra ← Semver.satisfies_version_range
              (Semver.AsVersion (core_version 2 1 0)) "<1.0.0";
       rb ← Semver.satisfies_version_range
              (Semver.AsVersion (core_version 2 1 0)) ">=2.0.0";
       Return (ra || rb)).
Proof.
  split; [by repeat split|].
  refine (range_alternatives (core_version 2 1 0) "<1.0.0" ">=2.0.0"
            eq_refl eq_refl _ _); by vm_compute.
Defined.

(** * Further properties: what the validator establishes *)

Lemma py_eqb_refl a : Py.hashable a = true → Py.eqb a a = true.
Proof.
  destruct a as [|[]|n|s| |]; try done; cbn; intros _.
  - apply Z.eqb_refl.
  - apply String.eqb_refl.
Qed.

Lemma py_eqb_sym a b : Py.eqb a b = Py.eqb b a.
Proof.
  destruct a as [|b1|m|s| |], b as [|b2|n|t| |]; try done; cbn.
  - by destruct b1, b2.
  - destruct b1; apply Z.eqb_sym.
  - destruct b2; apply Z.eqb_sym.
  - apply Z.eqb_sym.
  - apply String.eqb_sym.
Qed.

Lemma py_eqb_trans a b c :
  Py.eqb a b = true → Py.eqb b c = true → Py.eqb a c = true.
Proof.
  destruct a as [|b1|m|s| |], b as [|b2|n|t| |], c as [|b3|k|u| |];
    try done; cbn; rewrite ?Z.eqb_eq, ?String.eqb_eq; try congruence;
    try (destruct b1); try (destruct b2); try (destruct b3);
    try done; lia.
Qed.

Lemma py_mem_spec x xs :
  Py.mem x xs = true ↔ ∃ y, y ∈ xs ∧ Py.eqb x y = true.
Proof.
  unfold Py.mem. rewrite existsb_exists. split.
  - intros (y & Hin%list_elem_of_In & Heq). by exists y.
  - intros (y & Hin%list_elem_of_In & Heq). by exists y.
Qed.

Lemma to_set_covers xs p :
  forallb Py.hashable xs = true → p ∈ xs →
  ∃ q, q ∈ Py.to_set xs ∧ Py.eqb q p = true.
Proof.
  induction xs as [|x xs IH]; [by intros _ ?%elem_of_nil|].
  cbn [forallb Py.to_set]. intros [Hx Hxs]%andb_true_iff.
  intros [->|Hin]%elem_of_cons.
  - exists x. split; [by left|by apply py_eqb_refl].
  - destruct (IH Hxs Hin) as (q & Hq & Hqp).
    destruct (Py.eqb x q) eqn:Hxq.
    + exists x. split; [by left|]. by apply (py_eqb_trans x q p).
    + exists q. split; [|done]. right.
      apply list_elem_of_filter. split; [|done]. by rewrite Hxq.
Qed.

Lemma declared_input_names_spec inputs names d :
  Schema.declared_input_names inputs = Return names → d ∈ names →
  ∃ fields, PDict fields ∈ inputs
            ∧ d = default PNone (Py.dict_get fields "name").
Proof.
  revert names. induction inputs as [|inp inputs IH]; intros names.
  - intros [= <-]. by intros ?%elem_of_nil.
  - assert (Hrest : ∀ names,
      Schema.declared_input_names inputs = Return names → d ∈ names →
      ∃ fields, PDict fields ∈ inp :: inputs
                ∧ d = default PNone (Py.dict_get fields "name")).
    { intros names' Hnames Hd.
      destruct (IH names' Hnames Hd) as (fields & Hin & ->).
      exists fields. split; [by right|done]. }
    destruct inp as [| | | | |fields]; cbn [Schema.declared_input_names];
      try apply Hrest.
    destruct (Py.hashable _); [|done].
    intros (more & Hmore & [= <-])%outcome_bind_return.
    intros [->|Hd]%elem_of_cons; [|by eapply Hrest].
    exists fields. split; [by left|done].
Qed.

Lemma require_fields_has_keys owner entries fields :
  Schema.require_fields owner entries fields = Return tt →
  has_keys entries fields.
Proof.
  induction fields as [|field fields IH]; [by constructor|].
  cbn [Schema.require_fields].
  destruct (Py.dict_has entries field) eqn:Hfield; [|done].
  intros H. constructor; [done|by apply IH].
Qed.

Lemma for_each_returns {A} (f : A → outcome unit) xs :
  Schema.for_each f xs = Return tt → Forall (λ x, f x = Return tt) xs.
Proof.
  induction xs as [|x xs IH]; [by constructor|]. cbn [Schema.for_each].
  intros ([] & Hx & Hxs)%outcome_bind_return. constructor; [done|by apply IH].
Qed.

Lemma _validate_prompt_block_declared prompt interface :
  Schema._validate_prompt_block prompt interface = Return tt →
  ∃ entries placeholders fields,
    prompt = PDict entries
    ∧ Py.dict_get entries "placeholders" = Some (PList placeholders)
    ∧ interface = PDict fields
    ∧ ∀ inputs, Py.dict_get fields "inputs" = Some (PList inputs) →
                Forall (declared inputs) placeholders.
Proof.
  unfold Schema._validate_prompt_block.
  destruct prompt as [| | | | |entries]; try done.
  destruct (Py.dict_has entries "template"); [|done]. cbn [negb].
  destruct (Py.dict_get entries "placeholders") as [[| | | |placeholders|]|]
    eqn:Hplaceholders; try done.
  destruct interface as [| | | | |fields]; try done.
  intros (items & Hitems & H)%outcome_bind_return.
  apply outcome_bind_return in H as (names & Hnames & H).
  destruct (forallb Py.hashable placeholders) eqn:Hhashable; [|done].
  cbn [negb] in H.
  exists entries, placeholders, fields. do 3 (split; [done|]).
  intros inputs Hinputs. rewrite Hinputs in Hitems.
  cbn in Hitems. injection Hitems as <-.
  destruct (filter _ (Py.to_set placeholders)) as [|u us] eqn:Hundeclared.
  2:{ by destruct (Py.strings_of (u :: us)). }
  apply Forall_forall. intros p Hp.
  destruct (to_set_covers placeholders p Hhashable Hp) as (q & Hq & Hqp).
  assert (Py.mem q names = true) as Hmem.
  { destruct (Py.mem q names) eqn:Hmem; [done|].
    assert (q ∈ filter (λ p, negb (Py.mem p names)) (Py.to_set placeholders))
      as Hin by (apply list_elem_of_filter; by rewrite Hmem).
    rewrite Hundeclared in Hin. by apply elem_of_nil in Hin. }
  apply py_mem_spec in Hmem as (d & Hd & Hqd).
  destruct (declared_input_names_spec inputs names d Hnames Hd)
    as (input & Hinput & ->).
  exists input. split; [done|].
  apply (py_eqb_trans p q); [|done]. by rewrite py_eqb_sym.
Qed.

(** X13.  What an accepted module looks like.  When
    [validate_prompt_module] returns: the three top-level keys are there;
    the metadata is a mapping with a name that is a non-empty string, a
    version that is a string and a description; the interface is a mapping
    with an intent, a list of inputs that are mappings with [name],
    [type], [description] and [required], and a list of outputs that are
    mappings with [type] and [description]; and every entry of
    [prompt.placeholders] equals the name of one of the inputs. *)
Theorem validate_prompt_module_sound m
    (Hvalid : Schema.validate_prompt_module m = Return tt) :
  has_keys (Schema.raw m) ["interface"; "module"; "prompt"]
  ∧ (∃ meta name version,
       Schema.module m = PDict meta
       ∧ has_keys meta ["name"; "version"; "description"]
       ∧ Py.dict_get meta "name" = Some (PStr name) ∧ name ≠ ""
       ∧ Py.dict_get meta "version" = Some (PStr version))
  ∧ ∃ fields inputs outputs entries placeholders,
      Schema.interface m = PDict fields
      ∧ Py.dict_has fields "intent" = true
      ∧ Py.dict_get fields "inputs" = Some (PList inputs)
      ∧ Py.dict_get fields "outputs" = Some (PList outputs)
      ∧ Forall (λ inp, ∃ keys, inp = PDict keys
                       ∧ has_keys keys
                           ["name"; "type"; "description"; "required"])
               inputs
      ∧ Forall (λ out, ∃ keys, out = PDict keys
                       ∧ has_keys keys ["type"; "description"]) outputs
      ∧ Schema.prompt m = PDict entries
      ∧ Py.dict_get entries "placeholders" = Some (PList placeholders)
      ∧ Forall (declared inputs) placeholders.
Proof.
  revert Hvalid. unfold Schema.validate_prompt_module.
  intros ([] & Htop & H)%outcome_bind_return.
  apply outcome_bind_return in H as ([] & Hmeta & H).
  apply outcome_bind_return in H as ([] & Hprompt & Hinterface).
  split; [|split].
  - revert Htop. unfold Schema._validate_top_level, has_keys,
      Schema.REQUIRED_TOP_LEVEL_FIELDS.
    destruct (filter _ _) as [|f fs] eqn:Hmissing; [|done]. intros _.
    apply Forall_forall. intros key Hkey.
    destruct (Py.dict_has (Schema.raw m) key) eqn:Hhas; [done|].
    assert (key ∈ filter (λ field, negb (Py.dict_has (Schema.raw m) field))
                    ["interface"; "module"; "prompt"]) as Hin
      by (apply list_elem_of_filter; by rewrite Hhas).
    rewrite Hmissing in Hin. by apply elem_of_nil in Hin.
  - revert Hmeta. unfold Schema._validate_module_metadata.
    destruct (Schema.module m) as [| | | | |meta]; try done.
    intros ([] & Hkeys%require_fields_has_keys & H)%outcome_bind_return.
    destruct (Py.dict_get meta "name") as [[| | |[|c name]| |]|] eqn:Hname;
      try done.
    destruct (Py.dict_get meta "version") as [[| | |version| |]|]
      eqn:Hversion; try done.
    by exists meta, (String c name), version.
  - apply _validate_prompt_block_declared in Hprompt
      as (entries & placeholders & fields & Hentries & Hplaceholders
          & Hfields & Hdeclared).
    rewrite Hfields in Hinterface. revert Hinterface.
    unfold Schema._validate_interface.
    destruct (Py.dict_has fields "intent") eqn:Hintent; [|done]. cbn [negb].
    destruct (Py.dict_get fields "inputs") as [[| | | |inputs|]|] eqn:Hinputs;
      try done.
    destruct (Py.dict_get fields "outputs") as [[| | | |outputs|]|]
      eqn:Houtputs; try done.
    intros ([] & Hins%for_each_returns & Houts%for_each_returns)
             %outcome_bind_return.
    exists fields, inputs, outputs, entries, placeholders.
    do 4 (split; [done|]). split; [|split; [|by auto]].
    + eapply Forall_impl; [exact Hins|]. intros [| | | | |keys]; try done.
      intros Hkeys%require_fields_has_keys. by exists keys.
    + eapply Forall_impl; [exact Houts|]. intros [| | | | |keys]; try done.
      intros Hkeys%require_fields_has_keys. by exists keys.
Qed.

Lemma validate_prompt_module_sound_witness :
  ∃ fields inputs outputs entries placeholders,
    Schema.interface
      (Schema.mk_PromptModule
         (sample_document "demo" "1.0.0" (PStr "prompt.txt") [])
         "promptpm.yaml") = PDict fields
    ∧ Py.dict_has fields "intent" = true
    ∧ Py.dict_get fields "inputs" = Some (PList inputs)
    ∧ Py.dict_get fields "outputs" = Some (PList outputs)
    ∧ Forall (λ inp, ∃ keys, inp = PDict keys
                     ∧ has_keys keys
                         ["name"; "type"; "description"; "required"])
             inputs
    ∧ Forall (λ out, ∃ keys, out = PDict keys
                     ∧ has_keys keys ["type"; "description"]) outputs
    ∧ Schema.prompt
        (Schema.mk_PromptModule
           (sample_document "demo" "1.0.0" (PStr "prompt.txt") [])
           "promptpm.yaml") = PDict entries
    ∧ Py.dict_get entries "placeholders" = Some (PList placeholders)
    ∧ Forall (declared inputs) placeholders.
Proof.
  exact (proj2 (proj2
           (validate_prompt_module_sound
              (Schema.mk_PromptModule
                 (sample_document "demo" "1.0.0" (PStr "prompt.txt") [])
                 "promptpm.yaml")
              eq_refl))).
Defined.

Lemma require_fields_raise owner entries fields e :
  Schema.require_fields owner entries fields = Raise e →
  ∃ field, e = ValidationError [Lit (owner +:+ field +:+ " is required")].
Proof.
  induction fields as [|field fields IH]; [done|].
  cbn [Schema.require_fields].
  destruct (Py.dict_has entries field); [done|].
  intros [= <-]. by exists field.
Qed.

Lemma for_each_raise {A} (f : A → outcome unit) xs e :
  Schema.for_each f xs = Raise e → ∃ x, x ∈ xs ∧ f x = Raise e.
Proof.
  induction xs as [|x xs IH]; [done|]. cbn [Schema.for_each].
  destruct (f x) as [[]|e'] eqn:Hx.
  - intros (y & Hy & Hraise)%IH. exists y. split; [by right|done].
  - intros [= <-]. exists x. split; [by left|done].
Qed.

Lemma _validate_top_level_raise m e :
  Schema._validate_top_level m = Raise e →
  e ≠ ValidationError [Lit "interface must be a mapping"].
Proof.
  unfold Schema._validate_top_level.
  destruct (filter _ _); [done|]. by intros [= <-].
Qed.

Lemma _validate_module_metadata_raise meta e :
  Schema._validate_module_metadata meta = Raise e →
  e ≠ ValidationError [Lit "interface must be a mapping"].
Proof.
  unfold Schema._validate_module_metadata.
  destruct meta as [| | | | |entries]; try by intros [= <-].
  destruct (Schema.require_fields "module." entries _) as [[]|e']
    eqn:Hfields; cbn [mbind outcome_bind].
  - destruct (Py.dict_get entries "name") as [[| | |[|c name]| |]|];
      try by intros [= <-].
    destruct (Py.dict_get entries "version") as [[| | |version| |]|];
      by intros [= <-].
  - apply require_fields_raise in Hfields as [field ->].
    by intros [= <-].
Qed.

Lemma declared_input_names_raise inputs e :
  Schema.declared_input_names inputs = Raise e → e = TypeError [].
Proof.
  induction inputs as [|inp inputs IH]; [done|].
  destruct inp as [| | | | |keys]; cbn [Schema.declared_input_names];
    try exact IH.
  destruct (Py.hashable _); [|by intros [= <-]].
  destruct (Schema.declared_input_names inputs) as [names|e']; [done|].
  cbn [mbind outcome_bind]. intros [= <-]. by apply IH.
Qed.

Lemma _validate_prompt_block_raise prompt interface e :
  Schema._validate_prompt_block prompt interface = Raise e →
  e ≠ ValidationError [Lit "interface must be a mapping"].
Proof.
  unfold Schema._validate_prompt_block.
  destruct prompt as [| | | | |entries]; try by intros [= <-].
  destruct (Py.dict_has entries "template"); [|by intros [= <-]].
  cbn [negb].
  destruct (Py.dict_get entries "placeholders")
    as [[| | | |placeholders|]|]; try by intros [= <-].
  destruct interface as [| | | | |fields]; try by intros [= <-].
  destruct (Schema.iterate _) as [items|e'] eqn:Hitems;
    cbn [mbind outcome_bind].
  2:{ intros [= <-]. revert Hitems. unfold Schema.iterate.
      destruct (default (PList []) (Py.dict_get fields "inputs"));
        try done; by intros [= <-]. }
  destruct (Schema.declared_input_names items) as [names|e'] eqn:Hnames;
    cbn [mbind outcome_bind].
  2:{ intros [= <-]. by rewrite (declared_input_names_raise _ _ Hnames). }
  destruct (forallb Py.hashable placeholders); [|by intros [= <-]].
  cbn [negb]. destruct (filter _ _) as [|u us]; [done|].
  destruct (Py.strings_of (u :: us)); by intros [= <-].
Qed.

Lemma _validate_interface_raise fields e :
  Schema._validate_interface (PDict fields) = Raise e →
  e ≠ ValidationError [Lit "interface must be a mapping"].
Proof.
  unfold Schema._validate_interface.
  destruct (Py.dict_has fields "intent"); [|by intros [= <-]]. cbn [negb].
  destruct (Py.dict_get fields "inputs") as [[| | | |inputs|]|];
    try by intros [= <-].
  destruct (Py.dict_get fields "outputs") as [[| | | |outputs|]|];
    try by intros [= <-].
  destruct (Schema.for_each Schema._validate_interface_input inputs)
    as [[]|e'] eqn:Hins; cbn [mbind outcome_bind].
  - intros (out & _ & Hout)%for_each_raise. revert Hout.
    unfold Schema._validate_interface_output.
    destruct out as [| | | | |keys]; try by intros [= <-].
    by intros [field ->]%require_fields_raise.
  - intros [= <-].
    apply for_each_raise in Hins as (inp & _ & Hinp). revert Hinp.
    unfold Schema._validate_interface_input.
    destruct inp as [| | | | |keys]; try by intros [= <-].
    by intros [field ->]%require_fields_raise.
Qed.

(** X14.  A module whose interface is not a mapping is not answered with
    the [ValidationError] written for that case: [validate_prompt_module]
    never raises "interface must be a mapping".  When the top level, the
    metadata and the prompt block are in order and the interface is not a
    mapping, it raises an [AttributeError] instead, from the look at the
    inputs in [_validate_prompt_block]. *)
Theorem validate_prompt_module_interface_not_mapping :
  (∀ m, Schema.validate_prompt_module m
        ≠ Raise (ValidationError [Lit "interface must be a mapping"]))
  ∧ (∀ m entries template placeholders,
       Schema._validate_top_level m = Return tt →
       Schema._validate_module_metadata (Schema.module m) = Return tt →
       Schema.prompt m = PDict entries →
       Py.dict_get entries "template" = Some template →
       Py.dict_get entries "placeholders" = Some (PList placeholders) →
       Py.is_dict (Schema.interface m) = false →
       Schema.validate_prompt_module m = Raise (AttributeError [])).
Proof.
  split.
  - intros m. unfold Schema.validate_prompt_module.
    destruct (Schema._validate_top_level m) as [[]|e] eqn:Htop;
      cbn [mbind outcome_bind].
    2:{ intros [= ->]. by apply _validate_top_level_raise in Htop. }
    destruct (Schema._validate_module_metadata (Schema.module m))
      as [[]|e] eqn:Hmeta; cbn [mbind outcome_bind].
    2:{ intros [= ->]. by apply _validate_module_metadata_raise in Hmeta. }
    destruct (Schema._validate_prompt_block (Schema.prompt m)
                (Schema.interface m)) as [[]|e] eqn:Hprompt;
      cbn [mbind outcome_bind].
    2:{ intros [= ->]. by apply _validate_prompt_block_raise in Hprompt. }
    apply _validate_prompt_block_declared in Hprompt
      as (_ & _ & fields & _ & _ & -> & _).
    intros Hraise. by apply _validate_interface_raise in Hraise.
  - intros m entries template placeholders Htop Hmeta Hprompt Htemplate
      Hplaceholders Hinterface.
    unfold Schema.validate_prompt_module. rewrite Htop, Hmeta.
    cbn [mbind outcome_bind]. rewrite Hprompt.
    unfold Schema._validate_prompt_block, Py.dict_has.
    rewrite Htemplate, Hplaceholders. cbn [negb].
    by destruct (Schema.interface m).
Qed.

Lemma validate_prompt_module_interface_not_mapping_witness :
  Py.is_dict (Schema.interface list_interface_module) = false
  ∧ Schema.validate_prompt_module list_interface_module
    = Raise (AttributeError []).
Proof.
  split; [reflexivity|].
  apply (proj2 validate_prompt_module_interface_not_mapping
           list_interface_module
           [("template", PStr "prompt.txt"); ("placeholders", PList [])]
           (PStr "prompt.txt") []); reflexivity.
Defined.

(** * Further properties: the test runner *)

Lemma str_existsb_append (p : ascii → bool) (a b : string) :
  Str.existsb p (a +:+ b) = Str.existsb p a || Str.existsb p b.
Proof.
  induction a as [|c a IH]; [done|]. cbn. by rewrite IH, orb_assoc.
Qed.

Lemma replace_char_aux (c : ascii) new s :
  Str.replace_aux (String c "") new O s
  = match s with
    | "" => ""
    | String d s' =>
        (if Ascii.eqb c d then new else String d "")
        +:+ Str.replace_aux (String c "") new O s'
    end.
Proof.
  destruct s as [|d s]; [done|]. rewrite replace_aux_unfold, str_prefix_cons.
  destruct (ascii_dec c d) as [->|Hne].
  - rewrite Ascii.eqb_refl. by destruct s.
  - apply Ascii.eqb_neq in Hne. by rewrite Hne.
Qed.

Lemma replace_char_gone (c : ascii) new s :
  Str.existsb (Ascii.eqb c) new = false →
  Str.existsb (Ascii.eqb c) (Str.replace (String c "") new s) = false.
Proof.
  intros Hnew. unfold Str.replace.
  induction s as [|d s IH]; [done|]. rewrite replace_char_aux.
  rewrite str_existsb_append, IH, orb_false_r.
  destruct (Ascii.eqb c d) eqn:Hd; [done|]. cbn. by rewrite Hd.
Qed.

Lemma replace_absent old new s :
  Str.contains s old = false → Str.replace old new s = s.
Proof.
  unfold Str.replace. destruct old as [|c old]; [done|].
  induction s as [|d s IH]; [done|]. cbn [Str.contains].
  intros [Hprefix Hs]%orb_false_iff.
  rewrite replace_aux_unfold, Hprefix. by rewrite IH.
Qed.

Lemma take_length n s :
  String.length (TestRunner.take n s) = Nat.min n (String.length s).
Proof.
  revert s. induction n as [|n IH]; intros [|c s]; cbn; try done.
  by rewrite IH.
Qed.

Lemma take_existsb p n s :
  Str.existsb p s = false → Str.existsb p (TestRunner.take n s) = false.
Proof.
  revert s. induction n as [|n IH]; intros [|c s]; cbn; try done.
  intros [-> Hs]%orb_false_iff. by apply IH.
Qed.

(** X15.  The preview of an output in a failure record is one line of at
    most 123 characters: [_preview] returns a text without line feed
    whose length is at most 123, and it returns the output itself when
    that has no line feed and at most 120 characters. *)
Theorem preview_is_short_line output :
  (String.length (TestRunner._preview output) ≤ 123)%nat
  ∧ Str.contains (TestRunner._preview output) TestRunner.LF = false
  ∧ (Str.contains output TestRunner.LF = false →
     (String.length output ≤ 120)%nat →
     TestRunner._preview output = output).
Proof.
  unfold TestRunner._preview.
  set (normalized := Str.replace TestRunner.LF TestRunner.escaped_LF output).
  assert (Hgone : Str.existsb (Ascii.eqb (ascii_of_nat 10)) normalized = false).
  { by apply replace_char_gone. }
  split; [|split].
  - destruct (Nat.leb_spec (String.length normalized) 120); [lia|].
    rewrite str_length_app, take_length.
    change (String.length "...") with 3%nat. lia.
  - unfold TestRunner.LF. rewrite contains_char.
    destruct (String.length normalized <=? 120)%nat; [done|].
    rewrite str_existsb_append, take_existsb by done. done.
  - intros Habsent Hshort. unfold normalized.
    rewrite replace_absent by done.
    by destruct (Nat.leb_spec (String.length output) 120); [|lia].
Qed.

Section AssertionFailures.
Variable json_loads : string → option pyval.
Variable json_dumps : pyval → string.

Local Abbreviation evaluate_assertion :=
  (TestRunner.evaluate_assertion json_loads json_dumps).
Local Abbreviation evaluate_from :=
  (TestRunner.evaluate_from json_loads json_dumps).
Local Abbreviation evaluate_assertions :=
  (TestRunner._evaluate_assertions json_loads json_dumps).

Lemma evaluate_assertion_failure test_name output index kind value failure :
  evaluate_assertion test_name output index (kind, value)
  = Return (Some failure) →
  TestRunner.assertion_index failure = index
  ∧ TestRunner.test_name failure = test_name
  ∧ TestRunner.assertion_type failure = kind.
Proof.
  unfold TestRunner.evaluate_assertion.
  destruct (String.eqb_spec kind "contains") as [->|_].
  { destruct value; try done. cbn.
    destruct (negb _); [|done]. by intros [= <-]. }
  destruct (String.eqb_spec kind "excludes") as [->|_].
  { destruct value; try done. cbn.
    destruct (Str.contains _ _); [|done]. by intros [= <-]. }
  destruct (String.eqb_spec kind "max_length") as [->|_].
  { destruct (TestRunner._ensure_int_assertion _ _ _ _); [|done]. cbn.
    destruct (_ >? _); [|done]. by intros [= <-]. }
  destruct (String.eqb_spec kind "structure") as [->|_]; [|done].
  unfold TestRunner._evaluate_structure_assertion.
  destruct (TestRunner.structure_request _ _ _) as [[ty keys]|]; [|done].
  cbn [mbind outcome_bind]. destruct (negb _); [done|].
  destruct (json_loads output) as [parsed|]; [|by intros [= <-]].
  destruct (String.eqb ty "json_object").
  - destruct parsed; try by intros [= <-].
    destruct (filter _ keys); [done|by intros [= <-]].
  - destruct parsed; try done; by intros [= <-].
Qed.

Lemma evaluate_from_failures test_name output assertions :
  ∀ index failures,
  evaluate_from test_name output index assertions = Return failures →
  Forall (λ f, index ≤ TestRunner.assertion_index f
               ∧ TestRunner.test_name f = test_name
               ∧ ∃ value,
                   assertions !! Z.to_nat (TestRunner.assertion_index f - index)
                   = Some (TestRunner.assertion_type f, value)) failures
  ∧ StronglySorted (λ f g, TestRunner.assertion_index f
                           < TestRunner.assertion_index g) failures
  ∧ ∀ i a, assertions !! i = Some a →
      ∃ r, evaluate_assertion test_name output (index + Z.of_nat i) a
           = Return r
           ∧ ((∃ f, f ∈ failures
                    ∧ TestRunner.assertion_index f = index + Z.of_nat i)
              ↔ r ≠ None).
Proof.
  induction assertions as [|[kind value] assertions IH];
    intros index failures.
  { intros [= <-]. split; [constructor|]. split; [constructor|done]. }
  cbn [TestRunner.evaluate_from].
  intros (r & Hr & H)%outcome_bind_return.
  apply outcome_bind_return in H as (more & Hmore & [= <-]).
  destruct (IH (index + 1) more Hmore) as (Hall & Hsorted & Hat).
  assert (Hall' : Forall (λ f, index + 1 ≤ TestRunner.assertion_index f
               ∧ TestRunner.test_name f = test_name
               ∧ ∃ value0,
                   ((kind, value) :: assertions)
                   !! Z.to_nat (TestRunner.assertion_index f - index)
                   = Some (TestRunner.assertion_type f, value0)) more).
  { eapply Forall_impl; [exact Hall|]. intros f (Hlow & Hname & v & Hv).
    split; [done|]. split; [done|]. exists v.
    replace (Z.to_nat (TestRunner.assertion_index f - index))
      with (S (Z.to_nat (TestRunner.assertion_index f - (index + 1))))
      by lia.
    done. }
  assert (Hhead : ∀ f, r = Some f →
    TestRunner.assertion_index f = index
    ∧ TestRunner.test_name f = test_name
    ∧ TestRunner.assertion_type f = kind).
  { intros f Hf. rewrite Hf in Hr.
    exact (evaluate_assertion_failure _ _ _ _ _ _ Hr). }
  split; [|split].
  - apply Forall_app. split.
    + destruct r as [f|]; [|constructor].
      destruct (Hhead f eq_refl) as (Hi & Hn & Hk).
      repeat constructor; [lia|done|]. exists value.
      by rewrite Hi, Z.sub_diag, <- Hk.
    + eapply Forall_impl; [exact Hall'|]. intros f (? & ? & ?).
      split; [lia|done].
  - destruct r as [f|]; [|done]. cbn [option_list app].
    constructor; [done|].
    destruct (Hhead f eq_refl) as (Hi & _).
    eapply Forall_impl; [exact Hall'|]. intros g (? & _). lia.
  - intros [|i] a.
    + intros [= <-]. exists r. rewrite Z.add_0_r. split; [done|]. split.
      * intros (f & [Hf|Hf]%elem_of_app & Hi).
        -- destruct r; [done|]. by apply elem_of_nil in Hf.
        -- destruct (proj1 (Forall_forall _ _) Hall' f Hf) as (? & _). lia.
      * destruct r as [f|]; [|done]. intros _. exists f.
        split; [by left|]. by destruct (Hhead f eq_refl).
    + cbn [lookup list_lookup]. intros Ha.
      destruct (Hat i a Ha) as (r' & Hr' & Hiff).
      exists r'. split.
      { by replace (index + Z.of_nat (S i)) with (index + 1 + Z.of_nat i)
          by lia. }
      rewrite <- Hiff. split.
      * intros (f & [Hf|Hf]%elem_of_app & Hi).
        -- destruct r as [g|]; [|by apply elem_of_nil in Hf].
           apply list_elem_of_singleton in Hf as ->.
           destruct (Hhead g eq_refl) as (? & _). lia.
        -- exists f. split; [done|lia].
      * intros (f & Hf & Hi). exists f.
        split; [apply elem_of_app; by right|lia].
Qed.

(** X16.  Which assertions fail.  When [_evaluate_assertions] returns, its
    failures come in the order of the assertions, at most one for each;
    every failure carries the name of the test, the index of its assertion
    and the key of that assertion as its type.  An assertion
    [contains: s] has a failure exactly when [s] is not in the output, an
    assertion [excludes: s] exactly when it is, and an assertion
    [max_length: n] exactly when the output is longer than [n]. *)
Theorem evaluate_assertions_failures test_name output assertions failures
    (Heval : evaluate_assertions test_name output assertions
             = Return failures) :
  StronglySorted (λ f g, TestRunner.assertion_index f
                         < TestRunner.assertion_index g) failures
  ∧ Forall (λ f, TestRunner.test_name f = test_name
                 ∧ 0 ≤ TestRunner.assertion_index f
                 ∧ ∃ value,
                     assertions !! Z.to_nat (TestRunner.assertion_index f)
                     = Some (TestRunner.assertion_type f, value)) failures
  ∧ ∀ i kind value,
      assertions !! i = Some (kind, value) →
      let failed := ∃ f, f ∈ failures
                         ∧ TestRunner.assertion_index f = Z.of_nat i in
      (kind = "contains" →
       ∃ s, value = PStr s ∧ (failed ↔ Str.contains output s = false))
      ∧ (kind = "excludes" →
         ∃ s, value = PStr s ∧ (failed ↔ Str.contains output s = true))
      ∧ (kind = "max_length" →
         ∃ n, Py.as_int value = Some n ∧ 0 ≤ n
              ∧ (failed ↔ n < Z.of_nat (String.length output))).
Proof.
  destruct (evaluate_from_failures test_name output assertions 0 failures
              Heval) as (Hall & Hsorted & Hat).
  split; [done|]. split.
  { eapply Forall_impl; [exact Hall|]. intros f (Hlow & Hname & v & Hv).
    split; [done|]. split; [done|]. exists v.
    by rewrite Z.sub_0_r in Hv. }
  intros i kind value Hi failed.
  destruct (Hat i (kind, value) Hi) as (r & Hr & Hiff).
  rewrite Z.add_0_l in Hr, Hiff. fold failed in Hiff.
  unfold TestRunner.evaluate_assertion in Hr.
  split; [|split]; intros ->; cbn in Hr.
  - destruct value as [| | |s| |]; try done. cbn in Hr.
    exists s. split; [done|]. rewrite Hiff.
    injection Hr as <-. by destruct (Str.contains output s).
  - destruct value as [| | |s| |]; try done. cbn in Hr.
    exists s. split; [done|]. rewrite Hiff.
    injection Hr as <-. by destruct (Str.contains output s).
  - unfold TestRunner._ensure_int_assertion in Hr.
    destruct (Py.as_int value) as [n|]; [|done].
    destruct (Z.ltb_spec n 0); [done|]. cbn in Hr.
    exists n. split; [done|]. split; [done|]. rewrite Hiff.
    injection Hr as <-. rewrite Z.gtb_ltb.
    destruct (Z.ltb_spec n (Z.of_nat (String.length output)));
      split; try done; lia.
Qed.

End AssertionFailures.

Lemma evaluate_assertions_failures_witness :
  TestRunner._evaluate_assertions no_json plain_dumps "case" "hello"
    [("contains", PStr "ell"); ("excludes", PStr "ell");
     ("max_length", PInt 3)]
  = Return
      [TestRunner._failure "case" 1 "excludes"
         [Lit "Expected output to exclude "; Repr (PStr "ell")] "ell" "hello";
       TestRunner._failure "case" 2 "max_length"
         [Lit "Expected output length <= 3, got 5"] "3" "5"]
  ∧ StronglySorted (λ f g, TestRunner.assertion_index f
                           < TestRunner.assertion_index g)
      [TestRunner._failure "case" 1 "excludes"
         [Lit "Expected output to exclude "; Repr (PStr "ell")] "ell" "hello";
       TestRunner._failure "case" 2 "max_length"
         [Lit "Expected output length <= 3, got 5"] "3" "5"].
Proof.
  split; [vm_compute; reflexivity|].
  refine (proj1 (evaluate_assertions_failures no_json plain_dumps "case"
                   "hello"
                   [("contains", PStr "ell"); ("excludes", PStr "ell");
                    ("max_length", PInt 3)] _ _)).
  vm_compute. reflexivity.
Defined.

(** * Further properties: dependency declarations *)

Lemma spec_compare_order : cmp_order spec_compare.
Proof.
  apply (cmp_order_lexc
           (λ a b, String.compare (Resolver.name a) (Resolver.name b))
           (λ a b, String.compare (Resolver.version_range a)
                     (Resolver.version_range b)));
    apply (cmp_order_pullback _ String.compare), string_compare_order.
Qed.

Lemma spec_lt_spec a b :
  Resolver.spec_lt a b = true ↔ spec_compare a b = Lt.
Proof.
  unfold Resolver.spec_lt, spec_compare, lexc.
  rewrite orb_true_iff, andb_true_iff, !str_lt_spec, String.eqb_eq.
  rewrite <- string_compare_eq.
  destruct (String.compare (Resolver.name a) (Resolver.name b));
    naive_solver.
Qed.

Lemma parse_dependency_entries_spec owner entries : ∀ index parsed,
  Resolver.parse_dependency_entries owner index entries = Return parsed →
  length parsed = length entries
  ∧ Forall (λ d, Resolver.name d ≠ "" ∧ Resolver.version_range d ≠ ""
                 ∧ declared_by entries d) parsed.
Proof.
  induction entries as [|entry entries IH]; intros index parsed.
  { intros [= <-]. by split. }
  cbn [Resolver.parse_dependency_entries].
  destruct entry as [| | | | |fields]; try done.
  destruct (Py.dict_get fields "name") as [[| | |[|c n]| |]|] eqn:Hname;
    try done.
  destruct (Py.dict_get fields "version") as [[| | |range| |]|] eqn:Hversion;
    try done.
  destruct (Str.strip range) as [|c' stripped] eqn:Hstrip; [done|].
  intros (more & Hmore & [= <-])%outcome_bind_return.
  destruct (IH _ _ Hmore) as [Hlen Hall].
  split; [cbn; by rewrite Hlen|].
  constructor.
  - cbn. split; [done|]. split; [done|].
    exists fields, range. by split; [left|].
  - eapply Forall_impl; [exact Hall|].
    intros d (Hn & Hr & fields' & range' & Hin & Hrest).
    split; [done|]. split; [done|].
    exists fields', range'. by split; [right|].
Qed.

(** X17.  The dependency declarations as [_parse_dependencies] returns
    them: nothing for [None]; for a list, one specification for every
    entry, in ascending order of the name and then of the range text;
    each has the non-empty name of an entry and that entry's version text
    with the white space around it removed, which is not empty. *)
Theorem parse_dependencies_normalised raw owner specs
    (Hparse : Resolver._parse_dependencies raw owner = Return specs) :
  let entries := match raw with PList entries => entries | _ => [] end in
  length specs = length entries
  ∧ StronglySorted (λ a b, spec_compare a b ≠ Gt) specs
  ∧ Forall (λ d, Resolver.name d ≠ "" ∧ Resolver.version_range d ≠ ""
                 ∧ declared_by entries d) specs.
Proof.
  revert Hparse. unfold Resolver._parse_dependencies.
  destruct raw as [| | | |entries|]; try done.
  { intros [= <-]. cbn. split; [done|]. split; constructor. }
  destruct entries as [|entry entries].
  { intros [= <-]. cbn. split; [done|]. split; constructor. }
  intros (parsed & Hparsed & [= <-])%outcome_bind_return.
  apply parse_dependency_entries_spec in Hparsed as [Hlen Hall].
  pose proof (py_sorted_perm Resolver.spec_lt parsed) as Hperm.
  cbn zeta. split; [by rewrite Hperm|]. split.
  - apply (py_sorted_sorted spec_compare Resolver.spec_lt spec_compare_order
             spec_lt_spec).
  - by rewrite Hperm.
Qed.

Lemma parse_dependencies_normalised_witness :
  Resolver._parse_dependencies
    (PList [PDict [("name", PStr "b"); ("version", PStr " ^1.0.0 ")];
            PDict [("name", PStr "a"); ("version", PStr ">=2.0.0")]])
    "owner"
  = Return [{| Resolver.name := "a"; Resolver.version_range := ">=2.0.0" |};
            {| Resolver.name := "b"; Resolver.version_range := "^1.0.0" |}]
  ∧ StronglySorted (λ a b, spec_compare a b ≠ Gt)
      [{| Resolver.name := "a"; Resolver.version_range := ">=2.0.0" |};
       {| Resolver.name := "b"; Resolver.version_range := "^1.0.0" |}].
Proof.
  split; [reflexivity|].
  exact (proj1 (proj2
           (parse_dependencies_normalised
              (PList [PDict [("name", PStr "b"); ("version", PStr " ^1.0.0 ")];
                      PDict [("name", PStr "a");
                             ("version", PStr ">=2.0.0")]])
              "owner" _ eq_refl))).
Defined.

(** * Further properties: dependency cycles *)

Section CycleFacts.
Variable list_by_name : string → outcome (list InstalledModule).
Variable read_module_file : string → outcome (list (string * pyval) * string).
Variable abspath : string → string.

Lemma visit_reports_cycle chain back : ∀ m fuel st,
  chain_from list_by_name read_module_file m chain back →
  NoDup (Resolver.node_id_of <$> (m :: chain)) →
  (∀ x, x ∈ (Resolver.node_id_of <$> (m :: chain)) →
        (x ∉ Resolver.visited st) ∧ x ∉ Resolver.visiting st) →
  Resolver.node_id_of back ∉ Resolver.visited st →
  Resolver.node_id_of back
    ∈ Resolver.visiting st ++ (Resolver.node_id_of <$> (m :: chain)) →
  (S (length chain) < fuel)%nat →
  Resolver._visit list_by_name read_module_file abspath fuel m st
  = Some (Raise (DependencyError
                   (Resolver.cycle_message
                      (Resolver.visiting st
                       ++ (Resolver.node_id_of <$> (m :: chain)))
                      (Resolver.node_id_of back)))).
Proof.
  induction chain as [|m' chain IH]; intros m fuel st Hchain Hnodup Hfresh
    Hback Hin Hfuel.
  - destruct Hchain as (d & rest & Hdeps & Hsel).
    destruct fuel as [|[|fuel]]; [lia|cbn in Hfuel; lia|].
    destruct (Hfresh (Resolver.node_id_of m) ltac:(left)) as [Hv Hs].
    cbn [Resolver._visit].
    rewrite (bool_decide_eq_false_2 _ Hv), (bool_decide_eq_false_2 _ Hs).
    rewrite Hdeps. cbn [Resolver.for_dependencies].
    unfold selects in Hsel. rewrite Hsel.
    cbn [Resolver.visited Resolver.visiting].
    rewrite (bool_decide_eq_false_2 _ Hback).
    by rewrite (bool_decide_eq_true_2 _ Hin).
  - destruct Hchain as [(d & rest & Hdeps & Hsel) Hchain].
    destruct fuel as [|fuel]; [lia|].
    destruct (Hfresh (Resolver.node_id_of m) ltac:(left)) as [Hv Hs].
    cbn [Resolver._visit].
    rewrite (bool_decide_eq_false_2 _ Hv), (bool_decide_eq_false_2 _ Hs).
    rewrite Hdeps. cbn [Resolver.for_dependencies].
    unfold selects in Hsel. rewrite Hsel.
    rewrite (IH m' fuel _ Hchain).
    + cbn [Resolver.visiting]. by rewrite <- app_assoc.
    + by apply NoDup_cons in Hnodup as [_ ?].
    + intros x Hx. cbn [Resolver.visited Resolver.visiting].
      destruct (Hfresh x ltac:(by right)) as [Hxv Hxs].
      split; [done|]. rewrite elem_of_app, list_elem_of_singleton.
      intros [?| ->]; [done|].
      by apply NoDup_cons in Hnodup as [Hhead _].
    + done.
    + cbn [Resolver.visiting]. by rewrite <- app_assoc.
    + cbn in Hfuel |- *. lia.
Qed.

(** X18.  A dependency cycle is reported with its path.  When the first
    dependency of the root module selects [m], and following first
    dependencies from [m] goes through distinct installed modules and then
    back to one of them, [resolve_for_module] raises the
    [DependencyError] "Cyclic dependency detected: " followed by the
    identifiers [name@version] of the modules from [m] on, in the order
    they were entered, and then of the module met again, joined by
    [" -> "].  The root module is not part of the path. *)
Theorem resolve_for_module_reports_cycle fuel module_path module d rest m
    chain back
    (Hload : Resolver.load_prompt_module read_module_file module_path
             = Return module)
    (Hvalid : Schema.validate_prompt_module module = Return tt)
    (Hdeps : Resolver._parse_dependencies (Schema.dependencies module)
               (Schema.source_path module) = Return (d :: rest))
    (Hselect : selects list_by_name (Schema.source_path module) d m)
    (Hchain : chain_from list_by_name read_module_file m chain back)
    (Hdistinct : NoDup (Resolver.node_id_of <$> (m :: chain)))
    (Hback : Resolver.node_id_of back ∈ Resolver.node_id_of <$> (m :: chain))
    (Hfuel : (S (length chain) < fuel)%nat) :
  Resolver.resolve_for_module list_by_name read_module_file abspath fuel
    module_path
  = Some (Raise (DependencyError
                   [Lit ("Cyclic dependency detected: "
                         +:+ Str.join " -> "
                               ((Resolver.node_id_of <$> (m :: chain))
                                ++ [Resolver.node_id_of back]))])).
Proof.
  unfold Resolver.resolve_for_module.
  rewrite Hload, Hvalid, Hdeps. cbn [Resolver.for_dependencies].
  unfold selects in Hselect. rewrite Hselect.
  rewrite (visit_reports_cycle chain back m fuel Resolver.initial_state
             Hchain Hdistinct); [done| |set_solver|done|done].
  intros x _. cbn. split; [set_solver|]. by intros ?%elem_of_nil.
Qed.

End CycleFacts.

Lemma resolve_for_module_reports_cycle_witness :
  Resolver.resolve_for_module cyclic_list_by_name cyclic_read_module_file id
    3 "/work/root"
  = Some (Raise (DependencyError
                   [Lit "Cyclic dependency detected: dep-a@1.0.0 -> dep-b@1.0.0 -> dep-a@1.0.0"])).
Proof.
  refine (resolve_for_module_reports_cycle cyclic_list_by_name
            cyclic_read_module_file id 3 "/work/root" _
            {| Resolver.name := "dep-a"; Resolver.version_range := ">=1.0.0" |}
            [] (sample_installed "dep-a" "1.0.0")
            [sample_installed "dep-b" "1.0.0"]
            (sample_installed "dep-a" "1.0.0") eq_refl _ _ _ _ _ _ _).
  - reflexivity.
  - reflexivity.
  - reflexivity.
  - split.
    + exists {| Resolver.name := "dep-b"; Resolver.version_range := ">=1.0.0" |},
        []. split; reflexivity.
    + exists {| Resolver.name := "dep-a"; Resolver.version_range := "^1.0.0" |},
        []. split; reflexivity.
  - apply (bool_decide_unpack _). reflexivity.
  - left.
  - cbn. lia.
Defined.

(** * Further properties: templates without placeholders *)

Lemma contains_spec s sub :
  Str.contains s sub = true ↔ ∃ pre post, s = pre +:+ sub +:+ post.
Proof.
  induction s as [|c s IH].
  - cbn [Str.contains]. rewrite orb_false_r, str_prefix_spec. split.
    + intros [post H]. by exists "", post.
    + intros ([|? pre] & post & H); [by exists post|done].
  - cbn [Str.contains]. rewrite orb_true_iff, str_prefix_spec, IH. split.
    + intros [[post H]|(pre & post & H)].
      * by exists "", post.
      * exists (String c pre), post. cbn. by rewrite H.
    + intros ([|d pre] & post & H).
      * left. by exists post.
      * right. exists pre, post. cbn in H. by injection H.
Qed.

Lemma contains_inner s a b c :
  Str.contains s b = false → Str.contains s (a +:+ b +:+ c) = false.
Proof.
  intros Hb. destruct (Str.contains s (a +:+ b +:+ c)) eqn:Habc; [|done].
  apply contains_spec in Habc as (pre & post & ->).
  rewrite <- Hb. symmetry. apply contains_spec.
  exists (pre +:+ a), (c +:+ post). by rewrite !str_app_assoc.
Qed.

Section RenderPlain.
Variable json_dumps_compact : pyval → string.
Variable read_input_file : string → string → option (outcome string).

Lemma substitute_absent key value_text rendered :
  Str.contains rendered ("{" +:+ key +:+ "}") = false →
  TestRunner.substitute key value_text rendered = rendered.
Proof.
  intros Habsent. unfold TestRunner.substitute.
  rewrite (replace_absent ("{{" +:+ key +:+ "}}")).
  - by apply replace_absent.
  - replace ("{{" +:+ key +:+ "}}")
      with ("{" +:+ ("{" +:+ key +:+ "}") +:+ "}").
    + by apply contains_inner.
    + cbn. by rewrite str_app_assoc.
Qed.

(** The resolution of a value raises only what the reading of the file
    raises that a string input names. *)
Lemma value_text_of_raises inputs module_root key e :
  TestRunner.value_text_of json_dumps_compact read_input_file inputs
    module_root key = Raise e →
  ∃ s, Py.dict_get inputs key = Some (PStr s)
       ∧ read_input_file module_root s = Some (Raise e).
Proof.
  unfold TestRunner.value_text_of, TestRunner._resolve_input_value.
  destruct (Py.dict_get inputs key) as [[| | |s| |]|]; try done.
  cbn [default from_option id].
  destruct (read_input_file module_root s) as [[text|e']|] eqn:Hread;
    try done.
  intros [= ->]. by exists s.
Qed.


End RenderPlain.


(** * Further properties: the parsed tests *)

Lemma test_compare_order : cmp_order test_compare.
Proof.
  apply (cmp_order_lexc
           (λ a b, String.compare (TestRunner.name a) (TestRunner.name b))
           (λ a b, Z.compare (TestRunner.original_index a)
                     (TestRunner.original_index b))).
  - apply (cmp_order_pullback _ String.compare), string_compare_order.
  - apply (cmp_order_pullback _ Z.compare), Z_compare_order.
Qed.

Lemma test_lt_spec a b : TestRun.test_lt a b = true ↔ test_compare a b = Lt.
Proof.
  unfold TestRun.test_lt, test_compare, lexc.
  rewrite orb_true_iff, andb_true_iff, !str_lt_spec, String.eqb_eq.
  rewrite <- string_compare_eq, Z.ltb_lt, <- Z.compare_lt_iff.
  destruct (String.compare (TestRunner.name a) (TestRunner.name b));
    naive_solver.
Qed.

Lemma test_compare_strict a b :
  test_compare a b ≠ Gt →
  TestRunner.original_index a ≠ TestRunner.original_index b →
  test_compare a b = Lt.
Proof.
  unfold test_compare, lexc.
  destruct (String.compare (TestRunner.name a) (TestRunner.name b));
    try done.
  destruct (Z.compare_spec (TestRunner.original_index a)
              (TestRunner.original_index b)); done.
Qed.

Lemma StronglySorted_strict {A} (R R' : A → A → Prop) (f : A → Z) l :
  (∀ a b, R a b → f a ≠ f b → R' a b) →
  StronglySorted R l → NoDup (f <$> l) → StronglySorted R' l.
Proof.
  intros Hstrict. induction 1 as [|a l Hsorted IH Hall]; [constructor|].
  rewrite fmap_cons. intros [Ha Hl]%NoDup_cons.
  constructor; [by apply IH|].
  apply Forall_forall. intros b Hb. apply Hstrict.
  - by apply (proj1 (Forall_forall _ _) Hall).
  - intros Hab. apply Ha. rewrite Hab. by apply list_elem_of_fmap_2.
Qed.

Lemma normalize_assertions_spec index assertions :
  ∀ assertion_index normalized,
    TestRun.normalize_assertions index assertion_index assertions
    = Return normalized →
    assertions = (λ item, PDict [item]) <$> normalized.
Proof.
  induction assertions as [|assertion assertions IH];
    intros assertion_index normalized.
  { by intros [= <-]. }
  cbn [TestRun.normalize_assertions].
  destruct assertion as [| | | | |[|item [|]]]; try done.
  intros (more & Hmore & [= <-])%outcome_bind_return.
  cbn. by rewrite <- (IH _ _ Hmore).
Qed.

(** What one entry of the list of tests becomes. *)
Lemma parse_test_entries_spec entries : ∀ index parsed,
  TestRun.parse_test_entries index entries = Return parsed →
  TestRunner.original_index <$> parsed = seqZ index (Z.of_nat (length entries))
  ∧ Forall2 (λ entry t,
       ∃ fields raw_name assertions,
         entry = PDict fields
         ∧ Py.dict_get fields "name" = Some (PStr raw_name)
         ∧ TestRunner.name t = Str.strip raw_name
         ∧ TestRunner.name t ≠ ""
         ∧ default (PDict []) (Py.dict_get fields "inputs")
           = PDict (TestRunner.inputs t)
         ∧ Py.dict_get fields "assertions" = Some (PList assertions)
         ∧ assertions = (λ item, PDict [item]) <$> TestRunner.assertions t)
      entries parsed.
Proof.
  induction entries as [|entry entries IH]; intros index parsed.
  { intros [= <-]. split; [done|constructor]. }
  cbn [TestRun.parse_test_entries].
  destruct entry as [| | | | |fields]; try done.
  destruct (Py.dict_get fields "name") as [[| | |raw_name| |]|] eqn:Hname;
    try done.
  destruct (Str.strip raw_name) as [|c stripped] eqn:Hstrip; [done|].
  destruct (default (PDict []) (Py.dict_get fields "inputs"))
    as [| | | | |inputs] eqn:Hinputs; try done.
  destruct (Py.dict_get fields "assertions") as [[| | | |assertions|]|]
    eqn:Hassertions; try done.
  intros (normalized & Hnormalized & H)%outcome_bind_return.
  apply outcome_bind_return in H as (more & Hmore & [= <-]).
  destruct (IH _ _ Hmore) as [Hindex Hall].
  split.
  - cbn [length]. rewrite seqZ_cons by lia. rewrite fmap_cons. cbn.
    rewrite Hindex. f_equal. f_equal; lia.
  - constructor; [|done].
    exists fields, raw_name, assertions. cbn.
    do 5 (split; [done|]). split; [done|].
    by apply normalize_assertions_spec in Hnormalized.
Qed.

(** X20.  The tests as [_parse_tests] returns them: none for [None]; for
    a list, one parsed test for every entry, in strictly ascending order
    of the name and then of the position the entry had in the list; the
    original indices are the positions [0 .. n-1], each once; and each
    parsed test has the name of the entry at its original index with the
    white space around it removed, which is not empty, that entry's
    inputs (none when it has no [inputs] key) and the single items of its
    assertions.  Two tests may have the same name. *)
Theorem parse_tests_normalised raw_tests parsed
    (Hparse : TestRun._parse_tests raw_tests = Return parsed) :
  let entries := match raw_tests with PList entries => entries | _ => [] end in
  length parsed = length entries
  ∧ StronglySorted (λ a b, test_compare a b = Lt) parsed
  ∧ TestRunner.original_index <$> parsed ≡ₚ seqZ 0 (Z.of_nat (length entries))
  ∧ Forall (λ t, TestRunner.name t ≠ "" ∧ parsed_from entries t) parsed.
Proof.
  revert Hparse. unfold TestRun._parse_tests.
  destruct raw_tests as [| | | |entries|]; try done.
  { intros [= <-]. cbn. do 2 (split; [done || constructor|]). by split. }
  destruct entries as [|entry entries].
  { intros [= <-]. cbn. do 2 (split; [done || constructor|]). by split. }
  intros (unsorted & Hunsorted & [= <-])%outcome_bind_return.
  apply parse_test_entries_spec in Hunsorted as [Hindex Hall].
  pose proof (py_sorted_perm TestRun.test_lt unsorted) as Hperm.
  assert (TestRunner.original_index <$> py_sorted TestRun.test_lt unsorted
          ≡ₚ seqZ 0 (Z.of_nat (length (entry :: entries)))) as Hindices.
  { by rewrite Hperm, Hindex. }
  cbn zeta. split; [|split; [|split; [done|]]].
  - rewrite Hperm. symmetry. by eapply Forall2_length.
  - apply (StronglySorted_strict (λ a b, test_compare a b ≠ Gt) _
             TestRunner.original_index).
    + apply test_compare_strict.
    + apply (py_sorted_sorted test_compare TestRun.test_lt test_compare_order
               test_lt_spec).
    + rewrite Hindices. apply NoDup_seqZ.
  - apply Forall_forall. intros t Ht. rewrite Hperm in Ht.
    apply list_elem_of_lookup in Ht as [i Hi].
    destruct (Forall2_lookup_r _ _ _ _ _ Hall Hi)
      as (e & He & fields & raw_name & assertions & -> & Hname & Hstrip
          & Hnonempty & Hinputs & Hassertions & Hitems).
    assert (TestRunner.original_index t = Z.of_nat i) as Hi'.
    { assert ((TestRunner.original_index <$> unsorted) !! i
              = Some (TestRunner.original_index t)) as Hlook.
      { by rewrite list_lookup_fmap, Hi. }
      rewrite Hindex in Hlook. apply lookup_seqZ in Hlook. lia. }
    split; [done|]. exists fields, raw_name, assertions.
    rewrite Hi', Nat2Z.id. split; [lia|]. by do 5 (split; [done|]).
Qed.

Lemma parse_tests_normalised_witness :
  TestRun._parse_tests
    (PList [sample_test " b " [PDict [("contains", PStr "x")]];
            sample_test "a" []; sample_test "b" []])
  = Return [{| TestRunner.name := "a"; TestRunner.inputs := [];
               TestRunner.assertions := [];
               TestRunner.original_index := 1 |};
            {| TestRunner.name := "b"; TestRunner.inputs := [];
               TestRunner.assertions := [("contains", PStr "x")];
               TestRunner.original_index := 0 |};
            {| TestRunner.name := "b"; TestRunner.inputs := [];
               TestRunner.assertions := [];
               TestRunner.original_index := 2 |}]
  ∧ StronglySorted (λ a b, test_compare a b = Lt)
      [{| TestRunner.name := "a"; TestRunner.inputs := [];
          TestRunner.assertions := [];
          TestRunner.original_index := 1 |};
       {| TestRunner.name := "b"; TestRunner.inputs := [];
          TestRunner.assertions := [("contains", PStr "x")];
          TestRunner.original_index := 0 |};
       {| TestRunner.name := "b"; TestRunner.inputs := [];
          TestRunner.assertions := [];
          TestRunner.original_index := 2 |}].
Proof.
  split; [reflexivity|].
  exact (proj1 (proj2
           (parse_tests_normalised
              (PList [sample_test " b " [PDict [("contains", PStr "x")]];
                      sample_test "a" []; sample_test "b" []])
              _ eq_refl))).
Defined.

(** * Further properties: the test run *)

Lemma parse_tests_sorted_names raw_tests parsed :
  TestRun._parse_tests raw_tests = Return parsed →
  StronglySorted
    (λ a b, String.compare (TestRunner.name a) (TestRunner.name b) ≠ Gt)
    parsed.
Proof.
  unfold TestRun._parse_tests.
  destruct raw_tests as [| | | |[|entry entries]|]; try done;
    try (intros [= <-]; constructor).
  intros (unsorted & _ & [= <-])%outcome_bind_return.
  pose proof (py_sorted_sorted test_compare TestRun.test_lt test_compare_order
                test_lt_spec unsorted) as Hsorted.
  induction Hsorted as [|t ts Hts IH Ht]; constructor; [done|].
  eapply Forall_impl; [exact Ht|]. intros t'. unfold test_compare, lexc.
  by destruct (String.compare (TestRunner.name t) (TestRunner.name t')).
Qed.

Section TestRunFacts.
Variable read_module_file : string → outcome (list (string * pyval) * string).
Variable json_loads : string → option pyval.
Variable json_dumps : pyval → string.
Variable json_dumps_compact : pyval → string.
Variable module_root_of : string → string.
Variable path_under : string → string → string.
Variable read_file : string → option (outcome string).

Abbreviation run_cases :=
  (TestRun.run_cases json_loads json_dumps json_dumps_compact path_under
     read_file).
Abbreviation run_prompt_module_tests :=
  (TestRun.run_prompt_module_tests read_module_file json_loads json_dumps
     json_dumps_compact module_root_of path_under read_file).
Abbreviation _load_template :=
  (TestRun._load_template module_root_of path_under read_file).

Lemma run_cases_spec template module_root parsed_tests : ∀ case_results,
  run_cases template module_root parsed_tests = Return case_results →
  Forall2 (λ t result,
      TestRunner.tc_name result = TestRunner.name t
      ∧ (TestRunner.passed result = true ↔ TestRunner.failures result = [])
      ∧ Forall (λ f, TestRunner.test_name f = TestRunner.name t)
          (TestRunner.failures result))
    parsed_tests case_results.
Proof.
  induction parsed_tests as [|t parsed_tests IH]; intros case_results.
  { intros [= <-]. constructor. }
  cbn [TestRun.run_cases].
  intros (rendered_output & _ & H)%outcome_bind_return.
  apply outcome_bind_return in H as (failures & Hfailures & H).
  apply outcome_bind_return in H as (more & Hmore & [= <-]).
  constructor; [|by apply IH]. cbn. split; [done|]. split.
  - rewrite Nat.eqb_eq. by destruct failures.
  - destruct (evaluate_from_failures json_loads json_dumps _ _ _ _ _
                Hfailures) as [Hall _].
    eapply Forall_impl; [exact Hall|]. by intros f (_ & ? & _).
Qed.

Lemma count_failing (case_results : list TestRunner.TestCaseResult) :
  Forall (λ result, TestRunner.passed result = true
                    ↔ TestRunner.failures result = []) case_results →
  length (filter (λ result, TestRunner.passed result = true) case_results)
  = length case_results
  ↔ Forall (λ result, TestRunner.failures result = []) case_results.
Proof.
  induction 1 as [|result case_results Hresult Hall IH].
  { split; [constructor|done]. }
  pose proof (length_filter (λ result, TestRunner.passed result = true)
                case_results) as Hle.
  rewrite filter_cons. destruct (decide (TestRunner.passed result = true))
    as [Hpassed|Hfailed]; cbn [length].
  - rewrite Forall_cons, <- IH, <- Hresult. split; [|intros [_ ?]]; auto with lia.
  - split; [lia|]. intros [?%Hresult _]%Forall_cons. done.
Qed.

(** X21.  The summary of a run.  When [run_prompt_module_tests] returns,
    the module was loaded and accepted by the validator and its tests
    were parsed; there is one result for every parsed test, in the same
    order and under the same name, so the results are in ascending order
    of the name; a result is marked as passed exactly when it has no
    failure, and each failure carries the name of its test; [total] is
    the number of results, [passed] and [failed] are not negative and add
    up to [total]; and [failed] is zero exactly when no result has a
    failure. *)
Theorem run_prompt_module_tests_summary module_path r
    (Hrun : run_prompt_module_tests module_path = Return r) :
  ∃ module parsed_tests,
    Resolver.load_prompt_module read_module_file module_path = Return module
    ∧ Schema.validate_prompt_module module = Return tt
    ∧ TestRun._parse_tests (Schema.tests module) = Return parsed_tests
    ∧ TestRunner.tc_name <$> TestRun.results r
      = TestRunner.name <$> parsed_tests
    ∧ StronglySorted
        (λ a b, String.compare (TestRunner.tc_name a) (TestRunner.tc_name b)
                ≠ Gt) (TestRun.results r)
    ∧ Forall (λ result,
         (TestRunner.passed result = true ↔ TestRunner.failures result = [])
         ∧ Forall (λ f, TestRunner.test_name f = TestRunner.tc_name result)
             (TestRunner.failures result)) (TestRun.results r)
    ∧ TestRun.total r = Z.of_nat (length (TestRun.results r))
    ∧ 0 ≤ TestRun.passed r ∧ 0 ≤ TestRun.failed r
    ∧ TestRun.passed r + TestRun.failed r = TestRun.total r
    ∧ (TestRun.failed r = 0
       ↔ Forall (λ result, TestRunner.failures result = [])
           (TestRun.results r)).
Proof.
  revert Hrun. unfold TestRun.run_prompt_module_tests.
  intros (module & Hload & H)%outcome_bind_return.
  apply outcome_bind_return in H as ([] & Hvalid & H).
  apply outcome_bind_return in H as (parsed_tests & Hparse & H).
  apply outcome_bind_return in H as (template & Htemplate & H).
  apply outcome_bind_return in H as (case_results & Hcases & [= <-]).
  apply run_cases_spec in Hcases.
  exists module, parsed_tests. do 3 (split; [done|]).
  cbn [TestRun.results TestRun.total TestRun.passed TestRun.failed].
  assert (TestRunner.tc_name <$> case_results
          = TestRunner.name <$> parsed_tests) as Hnames.
  { clear -Hcases. induction Hcases as [|t result ts rs (Hn & _) _ IH];
      [done|]. cbn. by rewrite Hn, IH. }
  assert (Forall (λ result,
            (TestRunner.passed result = true ↔ TestRunner.failures result = [])
            ∧ Forall (λ f, TestRunner.test_name f = TestRunner.tc_name result)
                (TestRunner.failures result)) case_results) as Hresults.
  { clear -Hcases.
    induction Hcases as [|t result ts rs (Hn & Hp & Hf) _ IH];
      constructor; [|done]. split; [done|]. by rewrite Hn. }
  pose proof (length_filter (λ result, TestRunner.passed result = true)
                case_results) as Hle.
  split; [done|]. split; [|split; [done|]].
  - apply parse_tests_sorted_names in Hparse.
    clear -Hparse Hcases.
    induction Hcases as [|t result ts rs (Hn & _) Hrest IH]; [constructor|].
    apply StronglySorted_inv in Hparse as [Hts Ht].
    constructor; [by apply IH|].
    clear -Hn Ht Hrest. induction Hrest as [|t' result' ts rs (Hn' & _) _ IH];
      [constructor|].
    apply Forall_cons in Ht as [Ht' Ht]. constructor; [|by apply IH].
    by rewrite Hn, Hn'.
  - split; [done|]. split; [lia|]. split; [lia|]. split; [lia|].
    rewrite <- count_failing.
    + lia.
    + eapply Forall_impl; [exact Hresults|]. by intros result [? _].
Qed.

End TestRunFacts.

Lemma run_prompt_module_tests_summary_witness :
  ∃ r, tested_run = Return r
       ∧ TestRun.total r = 2
       ∧ TestRun.passed r + TestRun.failed r = TestRun.total r.
Proof.
  eexists. split; [vm_compute; reflexivity|]. split; [reflexivity|].
  destruct (run_prompt_module_tests_summary tested_read_module_file no_json
              plain_dumps plain_dumps (λ _, "/work/demo")
              (λ root rel, root +:+ "/" +:+ rel) tested_read_file
              "/work/demo" _ eq_refl)
    as (_ & _ & _ & _ & _ & _ & _ & _ & _ & _ & _ & H & _).
  exact H.
Defined.

Section TemplateFacts.
Variable read_module_file : string → outcome (list (string * pyval) * string).
Variable json_loads : string → option pyval.
Variable json_dumps : pyval → string.
Variable json_dumps_compact : pyval → string.
Variable module_root_of : string → string.
Variable path_under : string → string → string.
Variable read_file : string → option (outcome string).

(** X22.  The validator does not make a module runnable.  For a module
    that loads, that [validate_prompt_module] accepts and whose tests are
    well formed, also one with no tests at all, the prompt block is a
    mapping with a [template]; when that value is not a non-empty string
    [run_prompt_module_tests] raises the [ValidationError]
    "prompt.template must be a non-empty string", and when it is one but
    names no regular file under the module root it raises
    "Template file not found: " followed by the path. *)
Theorem run_prompt_module_tests_needs_template module_path module parsed_tests
    (Hload : Resolver.load_prompt_module read_module_file module_path
             = Return module)
    (Hvalid : Schema.validate_prompt_module module = Return tt)
    (Hparse : TestRun._parse_tests (Schema.tests module)
              = Return parsed_tests) :
  let run :=
    TestRun.run_prompt_module_tests read_module_file json_loads json_dumps
      json_dumps_compact module_root_of path_under read_file module_path in
  ∃ entries template,
    Schema.prompt module = PDict entries
    ∧ Py.dict_get entries "template" = Some template
    ∧ ((∀ c rel, template ≠ PStr (String c rel)) →
       run = Raise (ValidationError
                      [Lit "prompt.template must be a non-empty string"]))
    ∧ (∀ rel, template = PStr rel → rel ≠ "" →
         let template_path :=
           path_under (module_root_of (Schema.source_path module)) rel in
         read_file template_path = None →
         run = Raise (ValidationError
                        [Lit ("Template file not found: "
                              +:+ template_path)])).
Proof.
  intros run. subst run. unfold TestRun.run_prompt_module_tests.
  rewrite Hload. cbn [mbind outcome_bind]. rewrite Hvalid.
  cbn [mbind outcome_bind]. rewrite Hparse. cbn [mbind outcome_bind].
  pose proof Hvalid as Hshape. unfold Schema.validate_prompt_module in Hshape.
  apply outcome_bind_return in Hshape as ([] & _ & Hshape).
  apply outcome_bind_return in Hshape as ([] & _ & Hshape).
  apply outcome_bind_return in Hshape as ([] & Hshape & _).
  apply _validate_prompt_block_shape in Hshape
    as (entries & template & _ & Hprompt & Htemplate & _).
  exists entries, template. do 2 (split; [done|]).
  rewrite Hprompt. unfold TestRun._load_template. rewrite Htemplate. split.
  - intros Hbad. destruct template as [| | |[|c rel]| |]; try done.
    by destruct (Hbad c rel).
  - intros rel -> Hrel. cbn zeta. intros Hfile.
    destruct rel as [|c rel]; [done|]. by rewrite Hfile.
Qed.

End TemplateFacts.

Lemma run_prompt_module_tests_needs_template_witness :
  Schema.validate_prompt_module numeric_template_module = Return tt
  ∧ TestRun.run_prompt_module_tests numeric_read_module_file no_json
      plain_dumps plain_dumps (λ _, "/work/demo")
      (λ root rel, root +:+ "/" +:+ rel) tested_read_file "/work/demo"
    = Raise (ValidationError
               [Lit "prompt.template must be a non-empty string"]).
Proof.
  split; [reflexivity|].
  destruct (run_prompt_module_tests_needs_template numeric_read_module_file
              no_json plain_dumps plain_dumps (λ _, "/work/demo")
              (λ root rel, root +:+ "/" +:+ rel) tested_read_file
              "/work/demo" _ [] eq_refl eq_refl eq_refl)
    as (entries & template & Hprompt & Htemplate & Hbad & _).
  apply Hbad. intros c rel ->.
  vm_compute in Hprompt. injection Hprompt as <-.
  vm_compute in Htemplate. discriminate Htemplate.
Defined.
